(* ===== verification/_CoqProject ===== *)
-Q . S2P
Prelude.v
Interfaces.v
Lists.v
Deque.v
Array.v
Heap.v
Cid.v
Bytes.v
Base64.v
MemoryData.v
Buffer.v
Ring.v
CoMutex.v
CoSem.v
TaskChan.v
ThreadMutex.v
BlockingQueue.v
TaskThread.v
Pool.v
Future.v
UUID.v
ConfigParser.v
LibChan.v
HashMap.v
SpinLock.v
Singleton.v
Barrier.v
Cond.v
BitMap.v
TimeWheel.v
Sched.v
LifeCycle.v
Parked.v
Await.v
MutexSched.v
Event.v
SysHook.v
SysHelper.v
Log.v
Timer.v
SharedMemory.v
Socket.v
Dns.v
Ciphers.v
Tls.v
Certs.v
ClientHello.v
File.v
Http.v
Connection.v
TaskLocal.v
LogOut.v
Pem.v
