(* ===== verification/Prelude.v ===== *)
(** * nattan and libcask: a verification library

    nattan is a C++ network library of headers ([src/nattan/src]) over libcask, a C
    library of stackful coroutines by the same author ([src/nattan/src/deps/libcask]).
    This development translates their own code into Rocq definitions and proves what
    makes each part correct, or, where the code does something else than it means to,
    exactly what it does.

    ** How the program is put together

    A thread owns a scheduler with a run queue, a sleeper of parked tasks, an id
    allocator and an epoll instance ([task_sched.c], [sched_RR.c], [cid.c], [event.c]).
    A task blocks by leaving the run queue and yielding, and [co_resume], from any
    thread, puts it back. On that rest the synchronisation of tasks ([co_mutex.c],
    [co_sem.c], [co_cond.c], [chan.c]) and the hooked system calls ([sys_hook.c]), which
    turn a call that would block into a wait for the descriptor in the event loop; the
    time wheel ([time_wheel.c]) ends waits that take too long. The containers ([list.c],
    [deque.c], [array.c], [heap.c], [hash_map.c], [bit_map.c]) carry the queues and tables
    of all these. nattan builds channels, thread queues, buffers, spilling files, base
    64, configuration, the HTTP messages and a parser of TLS greetings on top.

    ** Files, the code they model, and what they show

    - [Prelude] (this file): machine integers with their wrap-around, the option monad,
      lemmas on lists; the hint databases [cwidth] (conversions that do nothing) and
      [nattan]. [Interfaces]: the classes [Queue] ([queue.h]) and [PriorityQueue]
      ([heap.h]), against which channels and the id allocator are verified.
    - [Lists] ([list.c]): rings of cells in a shared store; every sequence of legal
      operations keeps all rings well formed and acts as on sequences. [Deque]
      ([deque.c], [queue.h], [stack.h]): nodes over that store, refined to a sequence;
      an instance of [Queue]. [Array] ([array.c]): refined to a sequence through every
      reallocation. [Heap] ([heap.c]): heap order and multiset of the array, sorted
      draining; an instance of [PriorityQueue]. [Cid] ([cid.c]): ids in use are distinct.
      [HashMap] ([hash_map.c], [co_specs.c]): refined to a finite map through resizing.
      [BitMap] ([bit_map.c]): refined to a set of numbers.
    - [SpinLock] ([atomic.h], [co_spin_lock.c], [SpinLock.h], [LockGuard.h]): exclusion, and
      for the ticket lock fairness through wrap-around. [CoMutex] ([co_mutex.c]) and
      [CoSem] ([co_sem.c]): atomic steps of any number of tasks; exclusion, no lost
      wakeup, never more waits than posts. [LibChan] ([chan.c], [co_cond.c]): channels as
      critical sections in any order; order, capacity, wakeups, the rendezvous, and what
      closing drops.
    - [TimeWheel] ([time_wheel.c], [_timeout_task] of [event.c]): the round in which a
      timeout fires. [Sched] ([task.c], [sched_RR.c], [task_sched.c]): schedulers of any
      number of threads; no task is lost, queued twice or run twice, round robin.
      [LifeCycle] ([task_sched.c], [event.c]): how a scheduler with its timer, pipe and epoll
      instance is made and torn down; what is freed and closed, and what else is.
      [Event] ([inner_fd.c], [event.c]): the table of descriptors, [event_poll] and the
      dispatch of [event_wait], over the class [Kernel]. [SysHook] ([sys_hook.c]): the
      hooked calls; bytes neither lost nor repeated, no call blocks the thread.
      [SysHelper] ([timer.c], [sys_helper.c]): timers, sleeping, polling of many
      descriptors, reads with a timeout, name lookup. [Parked] (shared by the next two):
      a task that has left the run queue and who may put it back. [MutexSched]
      ([co_mutex.c] on [task_sched.c]): the mutex of [CoMutex] on the schedulers of [Sched];
      a task steps in it only while its scheduler runs it, and a resume of the one wakes the
      task of the other. [TaskLocal] ([co_define.h]): buffers that a task keeps under a name,
      over [HashMap]; the whole of [co_gethostbyname].
    - [Bytes], [Base64] ([base64.c], [Base64.h]): round trip and memory safety of decoding.
      [MemoryData] ([Data.h], [MemoryData.h]): typed access, against the class [Data] of
      byte stores, of which [Buffer] ([Buffer.h]) and [TempFile] are instances. [Buffer]:
      a byte queue through compaction and growth; where that breaks. [File] ([File.h],
      [TempFile.h]): files over the class [FileSystem], and the store that spills to one.
    - [Ring] (shared by the next two), [TaskChan] ([Chan.h], [TaskCond.h], [TaskMutex.h]),
      [BlockingQueue] ([ArrayBlockingQueue.h]), [ThreadMutex] ([ThreadMutex.h],
      [Condition.h]): order, bounds and progress over all interleavings, and waits that let
      go of the mutex and take it back. [Pool]
      ([Thread.h], [Thread.cpp], [ThreadPool.h]): workers and callers composed with the
      queue, refined to a specification of what is accepted, taken and run; every
      runnable is run once, what [stop] guarantees and when it hangs. [Future]
      ([Future.h]): values, and the waiters that a result wakes.
    - [UUID] ([UUID.h]), [ConfigParser] ([ConfigParser.h], [ConfigParser.cpp]),
      [ClientHello] ([ClientHelloParser.h]), [Http] ([proto/http]): values that are
      generated and texts that are parsed; round trips, totality, what is lost when.
      [Connection] ([HttpConnection.h]): [Http] over [Socket] over [SysHook]; a message comes
      in and goes out whole and in order, however the network cuts it.
    - [Await] ([co_await.c], [Task.cpp]): tasks and plain threads that wait for a function
      on another thread, composed with [Sched]; the value of the one call is returned, no
      helper touches a record that is gone. [Barrier] ([co_bar.h], broadcasts of
      [co_cond.c]): who is held back and who is let go. [Cond] ([co_cond.c], [TaskCond.h]): waits with
      timers among signals and broadcasts. [TaskThread] ([TaskThread.h]): the boss
      and workers of a thread of tasks; nothing that was accepted is lost or run twice, and
      what is left when nobody can move. [Singleton] ([Singleton.h]) over [SpinLock].
    - [Socket] ([net/]): addresses, the tables of addresses and TLS handlers, connecting,
      listening, the tunnel, over the hooked calls; the tables stay sound. [Ciphers], [Tls],
      [Certs], [Pem] ([Ciphers.h], [LibSSL.h], [SSLHandler.h], [SSLHelper.h]): cipher tables
      and strings, contexts, handlers, serial numbers, signing, PEM files and the locks of the
      callback, over the classes [OpenSSL], [X509Lib] and [PemLib]; which objects are live. [Dns] ([DNS.h]): the loop over [co_poll] that
      drives c-ares, a parameter. [Timer] ([Timer.h]) over [SysHelper]; [SharedMemory]
      ([SharedMemoryData.h]): rounding to pages, what [open] leaves. [Log] ([log.c],
      [Logger.h], [Logger.cpp]): how messages pass through their buffers, and where they do not
      fit. [LogOut] ([Log.h], [types.h]): which descriptor they are written to.

    A theorem named after an operation or a whole component states its correctness; a
    theorem named after a hazard ([sem_posts_lost], [client_hello_hangs], ...) proves that
    the code as written has it.

    ** Conventions

    Integers are [Z] with each conversion of the C type written out ([u32], [i32], [u64],
    [i8]); signed overflow and accesses outside an object are [None]. Stateful code takes
    and returns its state; concurrent code is a step relation on the state of all
    threads, with one step per atomic access, or per section under a lock that is itself
    verified. The memory model is sequentially consistent.

    What lies outside [src/] is a class of operations with laws: [Kernel] in [Event] (the
    raw calls and epoll, laws in [SysHook]), [FileSystem] in [File], the clock of [UUID], the
    resolver of [SysHelper], the callbacks and names of http-parser in [Http], [Inet],
    [SocketKernel] and [SSL] in [Socket], [OpenSSL] in [Tls], [X509Lib] in [Certs], [PemLib] in
    [Pem], [Ares] in [Dns], [ShmKernel] in [SharedMemory]; what http-parser does of a message is
    [ParserLaws] in [Connection]. A class with laws has a concrete instance on which the
    theorems are run.

    Loops whose recursion is not structural take fuel, and the theorems give the amount
    that is enough: the sift loops of [Heap] the size of the array; the growth loop of
    [Buffer] and the size loop of [BitMap] the width of the integer, as they double; the
    loop over TLS extensions the length of the record (and no amount is enough for the
    extension that stays in place, [client_hello_hangs]); a hooked write the bytes to be
    written plus the waits that the kernel still imposes; a file being sent its unread
    bytes; the receiving loop of a connection the bytes of the message and one. The atomic loop of a lock is a step that can be taken when the lock is free.

    ** Not modelled

    - Other people's libraries under [deps/]: c-ares, hiredis, http-parser, jsoncpp.
    - The context switch and the stacks of [task.c], which are libc's [swapcontext] on
      allocated memory; the lookup of the libc functions in [sys_hook.c]; the lock that the hooked
      [gethostbyname_r] holds around libc's.
    - [TaskWorker::stop], which nothing calls; [Singleton::destory], which does not compile
      when it is instantiated; the three calls that load OpenSSL's tables.
    - [co_rwlock.h] and [sched_ctl.h], drafts that do not compile; interfaces under [base/].
    - Compositions that are left out: [Cond], the channels and the lock of a logger with
      [MutexSched]; they take the mutex as the critical section that it is shown to be. *)
From stdpp Require Export base numbers list option gmap fin_maps.

Create Rewrite HintDb cwidth.
Create HintDb nattan.

Declare Scope c_scope.
Delimit Scope c_scope with C.

(** ** Machine-width integers *)
(** A C integer is the [Z] it denotes; each arithmetic step that can leave its
    type is followed by one of these conversions (LP64: [int] has 32 bits, [long]
    and [size_t] 64, [char] 8 and signed, as gcc on x86-64 has them). *)
Definition uwrap (w z : Z) : Z := z mod 2 ^ w.
Definition swrap (w z : Z) : Z := (z + 2 ^ (w - 1)) mod 2 ^ w - 2 ^ (w - 1).

Abbreviation u8 := (uwrap 8).
Abbreviation u32 := (uwrap 32).
Abbreviation u64 := (uwrap 64).
Abbreviation i8 := (swrap 8).
Abbreviation i32 := (swrap 32).
Abbreviation i64 := (swrap 64).

Definition INT_MAX : Z := 2147483647.

(** The result of [int] arithmetic: overflow is undefined. *)
Definition cint (z : Z) : option Z :=
  if bool_decide (-2147483648 <= z <= INT_MAX)%Z then Some z else None.

Lemma cint_ok z : (-2147483648 <= z <= INT_MAX)%Z -> cint z = Some z.
Proof. intros. unfold cint. by rewrite bool_decide_eq_true_2. Qed.

Lemma uwrap_range w z : (0 <= w)%Z -> (0 <= uwrap w z < 2 ^ w)%Z.
Proof. intros. apply Z.mod_pos_bound, Z.pow_pos_nonneg; lia. Qed.

Lemma uwrap_small w z : (0 <= z < 2 ^ w)%Z -> uwrap w z = z.
Proof. apply Z.mod_small. Qed.

Lemma swrap_small w z :
  (0 < w)%Z -> (- 2 ^ (w - 1) <= z < 2 ^ (w - 1))%Z -> swrap w z = z.
Proof.
  intros Hw Hz. unfold swrap.
  assert (2 ^ w = 2 * 2 ^ (w - 1))%Z as E.
  { rewrite <- Z.pow_succ_r by lia. f_equal. lia. }
  rewrite Z.mod_small by lia. lia.
Qed.

Lemma swrap_range w z :
  (0 < w)%Z -> (- 2 ^ (w - 1) <= swrap w z < 2 ^ (w - 1))%Z.
Proof.
  intros Hw. unfold swrap.
  assert (2 ^ w = 2 * 2 ^ (w - 1))%Z as E.
  { rewrite <- Z.pow_succ_r by lia. f_equal. lia. }
  pose proof (Z.mod_pos_bound (z + 2 ^ (w - 1)) (2 ^ w)).
  pose proof (Z.pow_pos_nonneg 2 w). lia.
Qed.

Lemma u64_small z : (0 <= z < 18446744073709551616)%Z -> u64 z = z.
Proof. intros. apply uwrap_small. lia. Qed.
Lemma u32_small z : (0 <= z < 4294967296)%Z -> u32 z = z.
Proof. intros. apply uwrap_small. lia. Qed.
Lemma u8_small z : (0 <= z < 256)%Z -> u8 z = z.
Proof. intros. apply uwrap_small. lia. Qed.
Lemma i32_small z : (-2147483648 <= z < 2147483648)%Z -> i32 z = z.
Proof. intros. apply swrap_small; lia. Qed.
Lemma i64_small z :
  (-9223372036854775808 <= z < 9223372036854775808)%Z -> i64 z = z.
Proof. intros. apply swrap_small; lia. Qed.
Lemma i8_small z : (-128 <= z < 128)%Z -> i8 z = z.
Proof. intros. apply swrap_small; lia. Qed.

#[export] Hint Rewrite u64_small u32_small u8_small i32_small i64_small i8_small
  using lia : cwidth.

(** [cnorm] removes the conversions that the context shows to be the identity. *)
Ltac cnorm := autorewrite with cwidth.
Ltac cnorm_in H := autorewrite with cwidth in H.

(** Decide a closed combination of comparisons of numerals. *)
Ltac zeval := vm_compute; intuition discriminate.

(** ** Outcomes *)
(** A C operation that may hit undefined behaviour (an access outside an object, a
    read of an indeterminate cell, a dereferenced null pointer) returns [None];
    [Some] is a defined outcome. The monad is stdpp's [option] monad,
    [x ← m; k]. *)

(** Whether an operation is defined, to run demonstrations without normalising states. *)
Definition defined {A} (x : option A) : bool := match x with Some _ => true | None => false end.

Lemma defined_default {A} (d : A) x : defined x = true -> x = Some (default d x).
Proof. by destruct x. Qed.

Lemma defined_none {A} (x : option A) : defined x = false -> x = None.
Proof. by destruct x. Qed.

(** Invert a successful chain of binds in the context. *)
Ltac inv_some :=
  repeat match goal with
  | H : Some _ = Some _ |- _ => injection H as H; subst
  | H : None = Some _ |- _ => discriminate H
  | H : Some _ = None |- _ => discriminate H
  | H : mbind _ ?m = Some _ |- _ =>
      let E := fresh "E" in
      destruct m eqn:E; [cbn [mbind option_bind] in H | discriminate H]
  | p : (_ * _)%type |- _ => destruct p
  end.

(** Case analysis on every [decide] of the goal, closing the cases that the context
    decides by equality or membership. *)
Ltac by_decide :=
  repeat case_decide; subst; try (split_and?; done); try congruence; try set_solver.

(** Two orders in which the operands of an assignment [*p = e] whose two sides
    interfere may be evaluated; the C standard leaves it open. *)
Inductive eval_order := LhsFirst | RhsFirst.

#[export] Instance eval_order_eq_dec : EqDecision eval_order.
Proof. solve_decision. Defined.

(** ** Point updates *)
(** The control points of numbered tasks and threads are a total function. *)
Definition upd {A} (f : nat -> A) (t : nat) (x : A) (u : nat) : A :=
  if decide (u = t) then x else f u.

Lemma upd_eq {A} (f : nat -> A) t x : upd f t x t = x.
Proof. unfold upd. by rewrite decide_True. Qed.
Lemma upd_ne {A} (f : nat -> A) t u x : u <> t -> upd f t x u = f u.
Proof. intros. unfold upd. by rewrite decide_False. Qed.

(** Split on whether each updated point is the one looked at. *)
Ltac upd_cases :=
  unfold upd in *;
  repeat match goal with
  | H : context [decide (?a = ?b)] |- _ => destruct (decide (a = b)); subst
  | |- context [decide (?a = ?b)] => destruct (decide (a = b)); subst
  end.

(** ** Lists *)
Section list_lemmas.
Context {A : Type}.
Implicit Types xs ys : list A.

Lemma insert_snoc_last xs x y :
  <[length xs := y]> (xs ++ [x]) = xs ++ [y].
Proof. rewrite insert_app_r_alt by lia. by rewrite Nat.sub_diag. Qed.

Lemma last_Some_snoc_or_nil xs : xs = [] \/ exists ys y, xs = ys ++ [y].
Proof. induction xs using rev_ind; [by left|right; eauto]. Qed.

Lemma take_S_lookup n xs x :
  xs !! n = Some x -> take (S n) xs = take n xs ++ [x].
Proof. apply take_S_r. Qed.

Lemma list_insert_split xs i x :
  (i < length xs)%nat -> <[i := x]> xs = take i xs ++ x :: drop (S i) xs.
Proof. apply insert_take_drop. Qed.

Lemma filter_all (P : A -> Prop) `{!forall x, Decision (P x)} xs :
  (forall x, x ∈ xs -> P x) -> filter P xs = xs.
Proof.
  induction xs as [|x xs IH]; intros HP; [done|]. rewrite filter_cons_True by (apply HP; left).
  f_equal. apply IH. intros y Hy. apply HP. by right.
Qed.
End list_lemmas.

(** Induction by three and by four elements, for codes that consume groups. *)
Section list_groups.
Context {A : Type} (P : list A -> Prop).

Lemma list_ind3 :
  P [] -> (forall a, P [a]) -> (forall a b, P [a; b]) ->
  (forall a b c l, P l -> P (a :: b :: c :: l)) -> forall l, P l.
Proof.
  intros H0 H1 H2 H3. refine (fix IH l := _).
  destruct l as [|a [|b [|c l]]]; [exact H0|apply H1|apply H2|apply H3, IH].
Qed.

Lemma list_ind4 :
  P [] -> (forall a, P [a]) -> (forall a b, P [a; b]) -> (forall a b c, P [a; b; c]) ->
  (forall a b c d l, P l -> P (a :: b :: c :: d :: l)) -> forall l, P l.
Proof.
  intros H0 H1 H2 H3 H4. refine (fix IH l := _).
  destruct l as [|a [|b [|c [|d l]]]]; [exact H0|apply H1|apply H2|apply H3|apply H4, IH].
Qed.
End list_groups.

(** ** Bit fields *)
Lemma Z_land_fields a b n :
  (0 <= n)%Z -> (0 <= b < 2 ^ n)%Z -> Z.land (a * 2 ^ n) b = 0%Z.
Proof.
  intros Hn Hb. apply Z.bits_inj'. intros k Hk.
  rewrite Z.land_spec, Z.bits_0, <- Z.shiftl_mul_pow2, Z.shiftl_spec by done.
  destruct (Z.lt_ge_cases k n).
  - by rewrite Z.testbit_neg_r by lia.
  - rewrite <- (Z.mod_small b (2 ^ n)) by done.
    by rewrite Z.mod_pow2_bits_high, andb_false_r by lia.
Qed.

(** A number whose low bits are clear and one that fits in them do not carry. *)
Lemma Z_lor_fields a b n :
  (0 <= n)%Z -> (0 <= b < 2 ^ n)%Z -> Z.lor (a * 2 ^ n) b = (a * 2 ^ n + b)%Z.
Proof.
  intros Hn Hb. pose proof (Z_land_fields a b n Hn Hb) as E.
  pose proof (Z.add_lor_land (a * 2 ^ n) b). lia.
Qed.

(** ** Exhaustive checks *)
(** A boolean property of all numbers below a bound, by computation. *)
Definition all_below (n : Z) (p : Z -> bool) : bool := forallb p (seqZ 0 n).

Lemma all_below_spec n p x : all_below n p = true -> (0 <= x < n)%Z -> p x = true.
Proof.
  intros Hp Hx. unfold all_below in Hp. rewrite forallb_forall in Hp.
  apply Hp, list_elem_of_In, elem_of_seqZ. lia.
Qed.

Lemma all_below2_spec n m p x y :
  all_below n (fun x => all_below m (p x)) = true ->
  (0 <= x < n)%Z -> (0 <= y < m)%Z -> p x y = true.
Proof.
  intros Hp Hx Hy. pose proof (all_below_spec _ _ x Hp Hx) as Hq. cbn in Hq.
  by apply (all_below_spec m).
Qed.
