(* ===== verification/Interfaces.v ===== *)
(** * What the containers promise to their clients

    Each class pairs the operations of a container with the laws its clients rely on.
    The representation predicate hides the pointers; clients (channels, the id
    allocator) are verified against the class, and the file of the container discharges
    it ([Deque.v], [Heap.v]). *)
From S2P Require Import Prelude.
Local Open Scope Z_scope.

(** A pointer-sized value stored in a container, [void*]. *)
Abbreviation ptr := Z.
Definition NULL : ptr := 0.

(** ** FIFO queues: queue.h *)
Class Queue (Q : Type) := {
  queue_rep : Q -> list ptr -> Prop;
  queue_push : ptr -> Q -> option Q;
  queue_pop : Q -> option (ptr * Q);
  queue_size : Q -> Z;
  queue_size_spec q xs : queue_rep q xs -> queue_size q = Z.of_nat (length xs);
  queue_push_spec q xs x :
    queue_rep q xs -> Z.of_nat (length xs) < INT_MAX ->
    exists q', queue_push x q = Some q' /\ queue_rep q' (xs ++ [x]);
  queue_pop_spec q x xs :
    queue_rep q (x :: xs) ->
    exists q', queue_pop q = Some (x, q') /\ queue_rep q' xs;
  queue_pop_nil q : queue_rep q [] -> queue_pop q = Some (NULL, q);
  queue_clear : Q -> option Q;
  queue_clear_spec q xs : queue_rep q xs -> exists q', queue_clear q = Some q' /\ queue_rep q' []
}.

(** [queue_empty] is [queue_size(q) == 0]. *)
Definition queue_empty {Q} `{Queue Q} (q : Q) : bool := bool_decide (queue_size q = 0).

Lemma queue_empty_spec {Q} `{Queue Q} (q : Q) xs :
  queue_rep q xs -> queue_empty q = bool_decide (xs = []).
Proof.
  intros Hq. unfold queue_empty. rewrite (queue_size_spec q xs Hq).
  apply bool_decide_ext. destruct xs; cbn; split; intros; (done || lia).
Qed.

(** ** Priority queues: heap.h *)
(** [before x y] is the comparator's answer; [pq_rep q xs] holds the multiset [xs]. *)
Class PriorityQueue (H : Type) (before : ptr -> ptr -> bool) := {
  pq_rep : H -> list ptr -> Prop;
  pq_push : ptr -> H -> option H;
  pq_pop : H -> option (option ptr * H);
  pq_init : H -> H;
  pq_init_rep q : pq_rep (pq_init q) [];
  pq_rep_perm q xs ys : xs ≡ₚ ys -> pq_rep q xs -> pq_rep q ys;
  pq_push_spec q xs x :
    pq_rep q xs -> Z.of_nat (length xs) < 2 ^ 29 ->
    exists q', pq_push x q = Some q' /\ pq_rep q' (x :: xs);
  pq_pop_spec q xs :
    pq_rep q xs -> xs <> [] ->
    exists x ys q', pq_pop q = Some (Some x, q') /\ pq_rep q' ys /\ xs ≡ₚ x :: ys /\
      forall y, y ∈ xs -> before y x = false;
  pq_pop_nil q : pq_rep q [] -> pq_pop q = Some (None, q)
}.
