(* ===== verification/Lists.v ===== *)
(** * list.c: the intrusive circular doubly linked list

    Every queue of libcask (run queue, wait lists, hash buckets, timer slots, the
    deque) is a ring of [list_t] cells threaded through structs. The cells live in a
    shared store, so the model is a store of cells: [links] maps the address of an
    allocated [list_t] to its two pointers, and an operation on an address outside
    the store is undefined ([None]). [ring m h xs] says that the ring headed by [h]
    links exactly the cells [xs], in order; the theorems show that the pointer
    operations implement insertion and removal on that sequence and touch no other
    cell. *)
From S2P Require Import Prelude.

Abbreviation loc := positive.

(** [struct _list_st { struct _list_st *prev, *next; }] *)
Record list_t := mk_list_t { prev : loc; next : loc }.
Abbreviation links := (gmap loc list_t).

#[export] Instance list_t_eq_dec : EqDecision list_t.
Proof. solve_decision. Defined.

(** ** The operations *)

(** The two field assignments [p->prev = v] and [p->next = v]. *)
Definition set_prev (p v : loc) (m : links) : option links :=
  c ← m !! p; Some (<[p := mk_list_t v (next c)]> m).
Definition set_next (p v : loc) (m : links) : option links :=
  c ← m !! p; Some (<[p := mk_list_t (prev c) v]> m).

(** [ls->prev = ls->next = ls] *)
Definition list_init (ls : loc) (m : links) : option links :=
  m ← set_next ls ls m; set_prev ls ls m.

(** [list_next], [list_prev] *)
Definition list_next (ls : loc) (m : links) : option loc := next <$> m !! ls.
Definition list_prev (ls : loc) (m : links) : option loc := prev <$> m !! ls.

(** [list_add_before] expands [_list_add(elm, ls->prev, ls)]:
<<
    elm->prev = ls->prev;  elm->next = ls;  ls->prev->next = ls->prev = elm;
>>
    The last statement reads [ls->prev] on its left while the right-hand assignment
    writes it, and C leaves the order open; [o] is the order taken. *)
Definition list_add_before_ord (o : eval_order) (ls elm : loc) (m : links) : option links :=
  p ← list_prev ls m;
  m ← set_prev elm p m;
  m ← set_next elm ls m;
  match o with
  | LhsFirst =>
      q ← list_prev ls m;
      m ← set_prev ls elm m;
      set_next q elm m
  | RhsFirst =>
      m ← set_prev ls elm m;
      q ← list_prev ls m;
      set_next q elm m
  end.

(** The order in which gcc evaluates it, which the rest of the library relies on. *)
Definition list_add_before : loc -> loc -> links -> option links :=
  list_add_before_ord LhsFirst.

(** [list_add_after] expands [_list_add(elm, ls, ls->next)]:
<<
    elm->prev = ls;  elm->next = ls->next;  ls->next = ls->next->prev = elm;
>> *)
Definition list_add_after (ls elm : loc) (m : links) : option links :=
  m ← set_prev elm ls m;
  n ← list_next ls m;
  m ← set_next elm n m;
  n ← list_next ls m;
  m ← set_prev n elm m;
  set_next ls elm m.

Definition list_add : loc -> loc -> links -> option links := list_add_after.

(** [_list_delete(elm->prev, elm->next)]; the two macro arguments are expressions
    that are evaluated again in the second statement. *)
Definition list_delete (elm : loc) (m : links) : option links :=
  p ← list_prev elm m;
  n ← list_next elm m;
  m ← set_next p n m;
  n ← list_next elm m;
  p ← list_prev elm m;
  m ← set_prev n p m;
  list_init elm m.

(** [ls->prev == ls->next && ls->prev == ls] *)
Definition list_empty (ls : loc) (m : links) : option bool :=
  c ← m !! ls;
  Some (bool_decide (prev c = next c) && bool_decide (prev c = ls)).

(** Following [next] from [head] collects the ring; [fuel] bounds the walk, which is
    how every [while(ls != &head)] loop of the library reads a list. *)
Fixpoint walk (fuel : nat) (head ls : loc) (m : links) : option (list loc) :=
  if decide (ls = head) then Some [] else
  match fuel with
  | O => None
  | S fuel =>
      n ← list_next ls m;
      rest ← walk fuel head n m;
      Some (ls :: rest)
  end.

(** ** Rings *)

(** [chain m a xs b]: from [a], following [next] visits [xs] and then [b], and the
    [prev] pointers lead back. *)
Fixpoint chain (m : links) (a : loc) (xs : list loc) (b : loc) : Prop :=
  match xs with
  | [] => list_next a m = Some b /\ list_prev b m = Some a
  | x :: xs' => list_next a m = Some x /\ list_prev x m = Some a /\ chain m x xs' b
  end.

Definition ring (m : links) (h : loc) (xs : list loc) : Prop :=
  NoDup (h :: xs) /\ chain m h xs h.

(** Two stores that agree outside [ls]. *)
Definition agree_off (ls : list loc) (m m' : links) : Prop :=
  forall l, l ∉ ls -> m' !! l = m !! l.

(** ** Field lemmas *)
Section fields.
Implicit Types m : links.

Lemma set_prev_inv p v m m' :
  set_prev p v m = Some m' ->
  (forall x, list_next x m' = list_next x m) /\
  (forall x, list_prev x m' = if decide (x = p) then Some v else list_prev x m) /\
  dom m' = dom m /\ agree_off [p] m m'.
Proof.
  unfold set_prev, list_next, list_prev, agree_off. intros H.
  destruct (m !! p) as [c|] eqn:E; [|done]. inv_some.
  split_and!; [intros x; destruct (decide (x = p)) as [->|];
    [rewrite lookup_insert_eq, E|rewrite lookup_insert_ne by done]; done
   |intros x; destruct (decide (x = p)) as [->|];
    [rewrite lookup_insert_eq|rewrite lookup_insert_ne by done]; done
   |apply dom_insert_lookup_L; eauto
   |intros l0 Hl; apply lookup_insert_ne; set_solver].
Qed.

Lemma set_next_inv p v m m' :
  set_next p v m = Some m' ->
  (forall x, list_prev x m' = list_prev x m) /\
  (forall x, list_next x m' = if decide (x = p) then Some v else list_next x m) /\
  dom m' = dom m /\ agree_off [p] m m'.
Proof.
  unfold set_next, list_next, list_prev, agree_off. intros H.
  destruct (m !! p) as [c|] eqn:E; [|done]. inv_some.
  split_and!; [intros x; destruct (decide (x = p)) as [->|];
    [rewrite lookup_insert_eq, E|rewrite lookup_insert_ne by done]; done
   |intros x; destruct (decide (x = p)) as [->|];
    [rewrite lookup_insert_eq|rewrite lookup_insert_ne by done]; done
   |apply dom_insert_lookup_L; eauto
   |intros l0 Hl; apply lookup_insert_ne; set_solver].
Qed.

Lemma set_prev_total p v m : p ∈ dom m -> is_Some (set_prev p v m).
Proof. intros [c Hc]%elem_of_dom. unfold set_prev. rewrite Hc; cbn. eauto. Qed.
Lemma set_next_total p v m : p ∈ dom m -> is_Some (set_next p v m).
Proof. intros [c Hc]%elem_of_dom. unfold set_next. rewrite Hc; cbn. eauto. Qed.

Lemma list_next_dom a b m : list_next a m = Some b -> a ∈ dom m.
Proof.
  unfold list_next. destruct (m !! a) eqn:E; [|done].
  intros _. apply elem_of_dom; eauto.
Qed.
Lemma list_prev_dom a b m : list_prev a m = Some b -> a ∈ dom m.
Proof.
  unfold list_prev. destruct (m !! a) eqn:E; [|done].
  intros _. apply elem_of_dom; eauto.
Qed.
Lemma list_next_total a m : a ∈ dom m -> exists b, list_next a m = Some b.
Proof. intros [c Hc]%elem_of_dom. unfold list_next. rewrite Hc; cbn. eauto. Qed.
Lemma list_prev_total a m : a ∈ dom m -> exists b, list_prev a m = Some b.
Proof. intros [c Hc]%elem_of_dom. unfold list_prev. rewrite Hc; cbn. eauto. Qed.

Lemma agree_off_trans ls1 ls2 m1 m2 m3 :
  agree_off ls1 m1 m2 -> agree_off ls2 m2 m3 -> agree_off (ls1 ++ ls2) m1 m3.
Proof. intros H1 H2 l Hl. rewrite H2, H1; set_solver. Qed.
Lemma agree_off_weaken ls1 ls2 m1 m2 :
  agree_off ls1 m1 m2 -> ls1 ⊆ ls2 -> agree_off ls2 m1 m2.
Proof. intros H1 H2 l Hl. apply H1. set_solver. Qed.
Lemma agree_off_next ls m m' x :
  agree_off ls m m' -> x ∉ ls -> list_next x m' = list_next x m.
Proof. intros H Hx. unfold list_next. by rewrite H. Qed.
Lemma agree_off_prev ls m m' x :
  agree_off ls m m' -> x ∉ ls -> list_prev x m' = list_prev x m.
Proof. intros H Hx. unfold list_prev. by rewrite H. Qed.
End fields.

(** [step_field E] runs one field assignment of the goal whose address is known to be
    allocated and records what it did. *)
Ltac step_field :=
  match goal with
  | |- context [mbind _ (set_prev ?p ?v ?m)] =>
      let m' := fresh "m" in let E := fresh "E" in
      let Hn := fresh "Hn" in let Hp := fresh "Hp" in
      let Hd := fresh "Hd" in let Ha := fresh "Ha" in
      destruct (set_prev_total p v m) as [m' E];
        [|rewrite E; cbn [mbind option_bind];
          destruct (set_prev_inv _ _ _ _ E) as (Hn & Hp & Hd & Ha)]
  | |- context [mbind _ (set_next ?p ?v ?m)] =>
      let m' := fresh "m" in let E := fresh "E" in
      let Hn := fresh "Hn" in let Hp := fresh "Hp" in
      let Hd := fresh "Hd" in let Ha := fresh "Ha" in
      destruct (set_next_total p v m) as [m' E];
        [|rewrite E; cbn [mbind option_bind];
          destruct (set_next_inv _ _ _ _ E) as (Hp & Hn & Hd & Ha)]
  end.

(** ** What each operation does to the two pointer maps *)
Section effects.
Implicit Types m : links.

Lemma list_init_effect ls m :
  ls ∈ dom m ->
  exists m', list_init ls m = Some m' /\
    (forall x, list_next x m' = if decide (x = ls) then Some ls else list_next x m) /\
    (forall x, list_prev x m' = if decide (x = ls) then Some ls else list_prev x m) /\
    dom m' = dom m /\ agree_off [ls] m m'.
Proof.
  intros Hls. unfold list_init.
  step_field; [done|].
  destruct (set_prev_total ls ls m0) as [m' E']; [by rewrite Hd|].
  destruct (set_prev_inv _ _ _ _ E') as (Hn' & Hp' & Hd' & Ha').
  exists m'. split; [done|]. split_and!.
  - intros x. by rewrite Hn', Hn.
  - intros x. rewrite Hp'. by case_decide; [|rewrite Hp].
  - congruence.
  - eapply agree_off_weaken; [eapply agree_off_trans; eauto|set_solver].
Qed.

Lemma list_add_before_effect ls elm p m :
  list_prev ls m = Some p -> p ∈ dom m -> elm ∈ dom m -> elm ≠ ls ->
  exists m', list_add_before ls elm m = Some m' /\
    (forall x, list_next x m' =
      if decide (x = p) then Some elm
      else if decide (x = elm) then Some ls else list_next x m) /\
    (forall x, list_prev x m' =
      if decide (x = ls) then Some elm
      else if decide (x = elm) then Some p else list_prev x m) /\
    dom m' = dom m /\ agree_off [elm; ls; p] m m'.
Proof.
  intros Hpr Hpd He Hne. pose proof (list_prev_dom _ _ _ Hpr) as Hls.
  unfold list_add_before, list_add_before_ord. rewrite Hpr; cbn [mbind option_bind].
  step_field; [done|]. step_field; [by rewrite Hd|].
  assert (list_prev ls m1 = Some p) as Hq.
  { rewrite Hp0, Hp. rewrite decide_False by done. done. }
  rewrite Hq; cbn [mbind option_bind].
  step_field; [by rewrite Hd0, Hd|].
  destruct (set_next_total p elm m2) as [m' E']; [by rewrite Hd1, Hd0, Hd|].
  destruct (set_next_inv _ _ _ _ E') as (Hp' & Hn' & Hd' & Ha').
  exists m'. split; [done|]. split_and!.
  - intros x. rewrite Hn', Hn1, Hn0, Hn. done.
  - intros x. rewrite Hp', Hp1, Hp0, Hp. done.
  - congruence.
  - eapply agree_off_weaken;
      [eapply agree_off_trans, Ha'; eapply agree_off_trans, Ha1;
       eapply agree_off_trans; eauto|set_solver].
Qed.

Lemma list_add_after_effect ls elm n m :
  list_next ls m = Some n -> n ∈ dom m -> elm ∈ dom m -> elm ≠ ls ->
  exists m', list_add_after ls elm m = Some m' /\
    (forall x, list_next x m' =
      if decide (x = ls) then Some elm
      else if decide (x = elm) then Some n else list_next x m) /\
    (forall x, list_prev x m' =
      if decide (x = n) then Some elm
      else if decide (x = elm) then Some ls else list_prev x m) /\
    dom m' = dom m /\ agree_off [elm; ls; n] m m'.
Proof.
  intros Hnx Hnd He Hne. pose proof (list_next_dom _ _ _ Hnx) as Hls.
  unfold list_add_after.
  step_field; [done|]. rewrite Hn, Hnx; cbn [mbind option_bind].
  step_field; [by rewrite Hd|].
  rewrite Hn0, Hn, decide_False, Hnx by done; cbn [mbind option_bind].
  step_field; [by rewrite Hd0, Hd|].
  destruct (set_next_total ls elm m2) as [m' E']; [by rewrite Hd1, Hd0, Hd|].
  destruct (set_next_inv _ _ _ _ E') as (Hp' & Hn' & Hd' & Ha').
  exists m'. split; [done|]. split_and!.
  - intros x. rewrite Hn', Hn1, Hn0, Hn. done.
  - intros x. rewrite Hp', Hp1, Hp0, Hp. done.
  - congruence.
  - eapply agree_off_weaken;
      [eapply agree_off_trans, Ha'; eapply agree_off_trans, Ha1;
       eapply agree_off_trans; eauto|set_solver].
Qed.

Lemma list_delete_effect elm p n m :
  list_prev elm m = Some p -> list_next elm m = Some n ->
  p ≠ elm -> n ≠ elm -> p ∈ dom m -> n ∈ dom m ->
  exists m', list_delete elm m = Some m' /\
    (forall x, list_next x m' =
      if decide (x = elm) then Some elm
      else if decide (x = p) then Some n else list_next x m) /\
    (forall x, list_prev x m' =
      if decide (x = elm) then Some elm
      else if decide (x = n) then Some p else list_prev x m) /\
    dom m' = dom m /\ agree_off [elm; p; n] m m'.
Proof.
  intros Hpr Hnx Hpe Hne Hpd Hnd. pose proof (list_prev_dom _ _ _ Hpr) as He.
  unfold list_delete. rewrite Hpr, Hnx; cbn [mbind option_bind].
  step_field; [done|].
  rewrite Hn, decide_False, Hnx by done; cbn [mbind option_bind].
  rewrite Hp, Hpr; cbn [mbind option_bind].
  step_field; [by rewrite Hd|].
  destruct (list_init_effect elm m1) as (m' & E' & Hn' & Hp' & Hd' & Ha');
    [by rewrite Hd0, Hd|].
  exists m'. split; [done|]. split_and!.
  - intros x. rewrite Hn', Hn0, Hn. done.
  - intros x. rewrite Hp', Hp0, Hp. done.
  - congruence.
  - eapply agree_off_weaken;
      [eapply agree_off_trans, Ha'; eapply agree_off_trans; eauto|set_solver].
Qed.

(** Deleting a cell that is its own ring leaves the store as it was. *)
Lemma list_delete_self elm m :
  list_prev elm m = Some elm -> list_next elm m = Some elm ->
  list_delete elm m = Some m.
Proof.
  intros Hp Hn. unfold list_delete, set_next, set_prev, list_init, set_next, set_prev.
  unfold list_prev, list_next in *.
  destruct (m !! elm) as [c|] eqn:E; cbn in *; [|done]. destruct c as [a b]; cbn in *.
  inv_some. rewrite E; cbn.
  repeat (rewrite ?lookup_insert_eq, ?insert_insert_eq; cbn).
  by rewrite insert_id.
Qed.
End effects.

(** ** Chains *)
Section chains.
Implicit Types m : links.

Lemma chain_ext m m' a xs b :
  (forall x, x ∈ a :: xs -> list_next x m' = list_next x m) ->
  (forall x, x ∈ xs ++ [b] -> list_prev x m' = list_prev x m) ->
  chain m a xs b -> chain m' a xs b.
Proof.
  revert a. induction xs as [|x xs IH]; intros a Hn Hp; cbn.
  - intros [??]. rewrite Hn, Hp by set_solver. done.
  - intros (?&?&?). rewrite Hn, Hp by set_solver. split_and!; [done..|].
    apply IH; [..|done]; intros y Hy; [apply Hn|apply Hp]; set_solver.
Qed.

Lemma chain_app m a xs x ys b :
  chain m a (xs ++ x :: ys) b <-> chain m a xs x /\ chain m x ys b.
Proof.
  revert a. induction xs as [|y xs IH]; intros a; cbn; [tauto|].
  rewrite IH. tauto.
Qed.

(** The first link and the last link of a chain. *)
Lemma chain_first m a xs b :
  chain m a xs b -> list_next a m = Some (default b (head xs)).
Proof. destruct xs; cbn; naive_solver. Qed.

Lemma chain_last m a xs b :
  chain m a xs b -> list_prev b m = Some (default a (last xs)).
Proof.
  revert a. induction xs as [|x xs IH]; intros a; cbn [chain]; [naive_solver|].
  intros (_ & _ & H). rewrite (IH x) by done. rewrite last_cons.
  by destruct (last xs).
Qed.

Lemma chain_dom m a xs b :
  chain m a xs b -> a ∈ dom m /\ b ∈ dom m /\ forall x, x ∈ xs -> x ∈ dom m.
Proof.
  revert a. induction xs as [|x xs IH]; intros a; cbn.
  - intros [Hn Hp]. split_and!; [by eapply list_next_dom|by eapply list_prev_dom|].
    set_solver.
  - intros (Hn & Hp & H). destruct (IH _ H) as (Hx & Hb & Hxs).
    split_and!; [by eapply list_next_dom|done|].
    intros y [->|Hy]%elem_of_cons; auto.
Qed.

(** Redirecting the last link of a chain to another cell. *)
Lemma chain_retarget m m' a xs b b' :
  chain m a xs b -> NoDup (a :: xs) ->
  chain m' (default a (last xs)) [] b' ->
  (forall z, z ∈ a :: xs -> z ≠ default a (last xs) ->
    list_next z m' = list_next z m) ->
  (forall z, z ∈ xs -> list_prev z m' = list_prev z m) ->
  chain m' a xs b'.
Proof.
  intros Hc Hnd Hj HN HP.
  destruct (last_Some_snoc_or_nil xs) as [->|(zs & z & ->)]; [done|].
  rewrite last_snoc in *; cbn [default] in *.
  apply chain_app in Hc as [Hc _]. apply chain_app. split; [|done].
  rewrite app_comm_cons, NoDup_app in Hnd. destruct Hnd as (_ & Hz & _).
  eapply chain_ext; [..|exact Hc]; intros x Hx.
  - apply HN; [set_solver|]. intros ->. by apply (Hz z Hx); left.
  - apply HP. set_solver.
Qed.

Lemma ring_dom m h xs : ring m h xs -> forall x, x ∈ h :: xs -> x ∈ dom m.
Proof.
  intros [_ H] x Hx. destruct (chain_dom _ _ _ _ H) as (?&?&?).
  apply elem_of_cons in Hx as [->|?]; auto.
Qed.

(** A ring can be read from any of its cells. *)
Lemma ring_rotate m h xs y ys :
  ring m h (xs ++ y :: ys) <-> ring m y (ys ++ h :: xs).
Proof.
  unfold ring. rewrite !chain_app.
  assert (h :: xs ++ y :: ys ≡ₚ y :: ys ++ h :: xs) as P.
  { rewrite (app_comm_cons xs), (app_comm_cons ys). apply Permutation_app_comm. }
  rewrite P. tauto.
Qed.

(** A store that changed only outside a ring still has it. *)
Lemma ring_frame m m' ls h xs :
  agree_off ls m m' -> (forall x, x ∈ h :: xs -> x ∉ ls) ->
  ring m h xs -> ring m' h xs.
Proof.
  intros Ha Hd [Hnd Hc]. split; [done|].
  eapply chain_ext; [..|exact Hc]; intros x Hx;
    [eapply agree_off_next|eapply agree_off_prev]; eauto; apply Hd; set_solver.
Qed.
End chains.

(** ** The operations on rings *)
Section rings.
Implicit Types m : links.

Lemma ring_ends m h xs :
  ring m h xs ->
  list_next h m = Some (default h (head xs)) /\
  list_prev h m = Some (default h (last xs)).
Proof. intros [_ H]. split; [by apply chain_first|by eapply chain_last]. Qed.

Lemma list_init_ring ls m :
  ls ∈ dom m ->
  exists m', list_init ls m = Some m' /\ ring m' ls [] /\ dom m' = dom m /\
    agree_off [ls] m m'.
Proof.
  intros H. destruct (list_init_effect ls m H) as (m' & E & Hn & Hp & Hd & Ha).
  exists m'. split_and!; [done| |done|done].
  split; [apply NoDup_singleton|]. cbn.
  rewrite Hn, Hp. by_decide.
Qed.

(** Insertion before the head appends to the sequence. *)
Lemma list_add_before_ring m h xs elm :
  ring m h xs -> elm ∉ h :: xs -> elm ∈ dom m ->
  exists m', list_add_before h elm m = Some m' /\ ring m' h (xs ++ [elm]) /\
    dom m' = dom m /\ agree_off (elm :: h :: xs) m m'.
Proof.
  intros Hr Hx He. pose proof (ring_ends _ _ _ Hr) as [_ Hp].
  remember (default h (last xs)) as p eqn:Ep.
  assert (p ∈ h :: xs) as Hin.
  { rewrite Ep. destruct (last xs) as [z|] eqn:E; cbn; [|set_solver].
    apply last_Some_elem_of in E. set_solver. }
  destruct (list_add_before_effect h elm p m) as (m' & E & Hn & Hp' & Hd & Ha);
    [done|by apply (ring_dom _ _ _ Hr)|done|set_solver|].
  exists m'. split_and!; [done| |done|eapply agree_off_weaken; [done|set_solver]].
  destruct Hr as [Hnd Hc]. split.
  { rewrite app_comm_cons. apply NoDup_app. split_and!; [done| |apply NoDup_singleton].
    set_solver. }
  assert (elm ≠ h /\ elm ≠ p) as [Hne Hnp] by set_solver.
  assert (chain m' elm [] h) as Hlast.
  { cbn. rewrite Hn, Hp'. by_decide. }
  assert (chain m' p [] elm) as Hnew.
  { cbn. rewrite Hn, Hp'. by_decide. }
  apply chain_app. split; [|done].
  apply NoDup_cons in Hnd as Hnd'. destruct Hnd' as [Hh _].
  eapply chain_retarget; [exact Hc|done|by rewrite <- Ep|..]; intros x Hx'.
  - rewrite <- Ep, Hn. by_decide.
  - rewrite Hp'. by_decide.
Qed.

(** Insertion after the head puts the cell first. *)
Lemma list_add_after_ring m h xs elm :
  ring m h xs -> elm ∉ h :: xs -> elm ∈ dom m ->
  exists m', list_add_after h elm m = Some m' /\ ring m' h (elm :: xs) /\
    dom m' = dom m /\ agree_off (elm :: h :: xs) m m'.
Proof.
  intros Hr Hx He. pose proof (ring_ends _ _ _ Hr) as [Hn0 _].
  remember (default h (head xs)) as n eqn:En.
  assert (n ∈ h :: xs) as Hin by (rewrite En; destruct xs; set_solver).
  destruct (list_add_after_effect h elm n m) as (m' & E & Hn & Hp & Hd & Ha);
    [done|by apply (ring_dom _ _ _ Hr)|done|set_solver|].
  exists m'. split_and!; [done| |done|eapply agree_off_weaken; [done|set_solver]].
  destruct Hr as [Hnd Hc].
  assert (elm ≠ h /\ elm ≠ n) as [Hne Hnn] by set_solver.
  split.
  { apply NoDup_cons in Hnd as [Hh Hnd]. apply NoDup_cons. split; [set_solver|].
    apply NoDup_cons. split; [set_solver|done]. }
  cbn. rewrite Hn, Hp. split_and!; [by_decide|by_decide|].
  destruct xs as [|x xs]; cbn in En; subst n; cbn in *.
  - rewrite Hn, Hp. split; by_decide.
  - destruct Hc as (_ & _ & Hc). rewrite Hn, Hp.
    repeat rewrite NoDup_cons in Hnd.
    split_and!; [by_decide|by_decide|].
    eapply chain_ext; [..|exact Hc]; intros y Hy; [rewrite Hn|rewrite Hp]; by_decide.
Qed.

(** Deletion removes the cell wherever it is and leaves it a ring of its own. *)
Lemma list_delete_ring m h xs elm ys :
  ring m h (xs ++ elm :: ys) ->
  exists m', list_delete elm m = Some m' /\ ring m' h (xs ++ ys) /\ ring m' elm [] /\
    dom m' = dom m /\ agree_off (elm :: h :: xs ++ ys) m m'.
Proof.
  intros Hr. pose proof Hr as [Hnd Hc].
  apply chain_app in Hc as [Hc1 Hc2].
  pose proof (chain_last _ _ _ _ Hc1) as Hp0.
  pose proof (chain_first _ _ _ _ Hc2) as Hn0.
  remember (default h (last xs)) as p eqn:Ep. remember (default h (head ys)) as n eqn:En.
  assert ((elm ≠ h) /\ (elm ∉ xs) /\ (elm ∉ ys)) as (Hh & Hx & Hy).
  { apply NoDup_cons in Hnd as [? Hnd]. apply NoDup_app in Hnd as (_&?&Hnd).
    apply NoDup_cons in Hnd as [??]. set_solver. }
  assert (p ∈ h :: xs) as Hpin.
  { rewrite Ep. destruct (last xs) as [z|] eqn:E; cbn; [|set_solver].
    apply last_Some_elem_of in E. set_solver. }
  assert (n ∈ h :: ys) as Hnin by (rewrite En; destruct ys; set_solver).
  destruct (list_delete_effect elm p n m) as (m' & E & Hn & Hp & Hd & Ha);
    [done|done|set_solver|set_solver|apply (ring_dom _ _ _ Hr); set_solver..|].
  assert (chain m' p [] n) as Hjoin by (cbn; rewrite Hn, Hp; split; by_decide).
  exists m'. split_and!; [done| | |done|eapply agree_off_weaken; [done|set_solver]].
  2:{ split; [apply NoDup_singleton|]. cbn. rewrite Hn, Hp. split; by_decide. }
  split. { revert Hnd. rewrite !NoDup_cons, !NoDup_app, !NoDup_cons. set_solver. }
  assert (forall x, x ∈ h :: xs -> x ∉ ys) as Hdis.
  { rewrite app_comm_cons, NoDup_app in Hnd. set_solver. }
  assert (NoDup (h :: xs)) as Hnd1.
  { rewrite app_comm_cons in Hnd. by apply NoDup_app in Hnd as (?&_&_). }
  assert (NoDup ys) as Hnd2.
  { rewrite app_comm_cons in Hnd. apply NoDup_app in Hnd as (_&_&Hnd).
    by apply NoDup_cons in Hnd as [_ ?]. }
  assert (chain m' h xs n) as Hl.
  { eapply chain_retarget; [exact Hc1|done|by rewrite <- Ep|..]; intros z Hz.
    - rewrite <- Ep, Hn. by_decide.
    - rewrite Hp. repeat case_decide; subst; [set_solver| |done].
      destruct ys; cbn in *; [apply NoDup_cons in Hnd1; tauto|set_solver]. }
  destruct ys as [|y ys]; cbn in En; subst n; [by rewrite app_nil_r|].
  apply chain_app. split; [done|]. destruct Hc2 as (_ & _ & Hc2).
  apply NoDup_cons in Hnd2 as [Hyy _].
  eapply chain_ext; [..|exact Hc2]; intros z Hz.
  - rewrite Hn. repeat case_decide; subst; set_solver.
  - rewrite Hp. repeat case_decide; subst; [set_solver| |done].
    exfalso. apply elem_of_app in Hz as [?|Hz%list_elem_of_singleton]; [done|].
    subst. set_solver.
Qed.


(** Insertion before a cell in the middle, by reading the ring from that cell. *)
Lemma list_add_before_mid_ring m h xs y ys elm :
  ring m h (xs ++ y :: ys) -> elm ∉ h :: xs ++ y :: ys -> elm ∈ dom m ->
  exists m', list_add_before y elm m = Some m' /\ ring m' h (xs ++ elm :: y :: ys) /\
    dom m' = dom m.
Proof.
  intros Hr Hx He. apply ring_rotate in Hr.
  destruct (list_add_before_ring m y (ys ++ h :: xs) elm) as (m' & E & Hr' & Hd & _);
    [done|set_solver|done|].
  exists m'. split_and!; [done| |done].
  replace (xs ++ elm :: y :: ys) with ((xs ++ [elm]) ++ y :: ys)
    by (by rewrite <- app_assoc).
  apply ring_rotate. by rewrite <- app_assoc in Hr'.
Qed.

Lemma list_empty_ring m h xs :
  ring m h xs -> list_empty h m = Some (bool_decide (xs = [])).
Proof.
  intros Hr. destruct (ring_ends _ _ _ Hr) as [Hn Hp]. destruct Hr as [Hnd _].
  unfold list_next, list_prev, list_empty in *.
  destruct (m !! h) as [c|]; cbn in *; [|done]. inv_some. f_equal.
  destruct xs as [|x xs].
  - cbn in *. rewrite Hn, Hp. by rewrite !bool_decide_eq_true_2.
  - rewrite (bool_decide_eq_false_2 (x :: xs = [])) by done.
    apply andb_false_iff. right. apply bool_decide_eq_false. rewrite Hp.
    apply NoDup_cons in Hnd as [Hnd _]. intros E. apply Hnd. rewrite <- E.
    destruct (last (x :: xs)) as [z|] eqn:El; cbn;
      [by apply last_Some_elem_of in El|by apply last_None in El].
Qed.

Lemma walk_step fuel h a m :
  a ≠ h -> walk (S fuel) h a m =
    n ← list_next a m; rest ← walk fuel h n m; Some (a :: rest).
Proof. intros Ha. cbn [walk]. by rewrite decide_False. Qed.
Lemma walk_end fuel h m : walk fuel h h m = Some [].
Proof. destruct fuel; cbn; by rewrite decide_True. Qed.

Lemma walk_chain m h a xs :
  chain m a xs h -> h ∉ a :: xs -> walk (S (length xs)) h a m = Some (a :: xs).
Proof.
  revert a. induction xs as [|x xs IH]; intros a Hc Hh;
    rewrite walk_step by set_solver.
  - destruct Hc as [-> _]; cbn [mbind option_bind]. by rewrite walk_end.
  - destruct Hc as (-> & _ & Hc). cbn [mbind option_bind length].
    by rewrite (IH x Hc) by set_solver.
Qed.

Lemma walk_ring m h xs f :
  ring m h xs -> list_next h m = Some f -> walk (length xs) h f m = Some xs.
Proof.
  intros [Hnd Hc] Hf. apply chain_first in Hc as Hf'. rewrite Hf in Hf'. inv_some.
  destruct xs as [|x xs]; cbn [head default]; [by rewrite walk_end|].
  destruct Hc as (_ & _ & Hc). apply walk_chain; [done|].
  by apply NoDup_cons in Hnd as [? _].
Qed.
End rings.

(** ** All the rings of a store *)
(** [heads] maps the head of every ring to its sequence. A cell that is linked nowhere
    heads an empty ring, which is what [list_init] and [list_delete] leave. *)
Abbreviation heads := (gmap loc (list loc)).

Record rings (m : links) (sg : heads) : Prop := mk_rings {
  rings_ring : forall h xs, sg !! h = Some xs -> ring m h xs;
  rings_disj : forall h1 h2 xs1 xs2 x, h1 ≠ h2 ->
    sg !! h1 = Some xs1 -> sg !! h2 = Some xs2 -> x ∈ h1 :: xs1 -> x ∉ h2 :: xs2
}.

Inductive list_op :=
| OpInit (ls : loc)
| OpAddBefore (ls elm : loc)
| OpAddAfter (ls elm : loc)
| OpDelete (elm : loc).

Definition run_op (op : list_op) : links -> option links :=
  match op with
  | OpInit ls => list_init ls
  | OpAddBefore ls elm => list_add_before ls elm
  | OpAddAfter ls elm => list_add_after ls elm
  | OpDelete elm => list_delete elm
  end.

(** What each operation means on the sequences, for the calls the library makes. *)
Inductive seq_step (sg : heads) : list_op -> heads -> Prop :=
| seq_init ls :
    sg !! ls = Some [] -> seq_step sg (OpInit ls) sg
| seq_add_before ls xs elm :
    sg !! ls = Some xs -> sg !! elm = Some [] -> ls ≠ elm ->
    seq_step sg (OpAddBefore ls elm) (<[ls := xs ++ [elm]]> (delete elm sg))
| seq_add_after ls xs elm :
    sg !! ls = Some xs -> sg !! elm = Some [] -> ls ≠ elm ->
    seq_step sg (OpAddAfter ls elm) (<[ls := elm :: xs]> (delete elm sg))
| seq_delete ls xs elm ys :
    sg !! ls = Some (xs ++ elm :: ys) ->
    seq_step sg (OpDelete elm) (<[elm := []]> (<[ls := xs ++ ys]> sg))
| seq_delete_self elm :
    sg !! elm = Some [] -> seq_step sg (OpDelete elm) sg.

Inductive seq_steps (sg : heads) : list list_op -> heads -> Prop :=
| seq_nil : seq_steps sg [] sg
| seq_cons op ops sg1 sg2 :
    seq_step sg op sg1 -> seq_steps sg1 ops sg2 -> seq_steps sg (op :: ops) sg2.

Fixpoint run_ops (ops : list list_op) (m : links) : option links :=
  match ops with
  | [] => Some m
  | op :: ops => m ← run_op op m; run_ops ops m
  end.

Section refinement.
Implicit Types (m : links) (sg : heads).

(** Changing the rings inside a set [ls] of cells only. *)
Lemma rings_update m m' sg sg' ls :
  rings m sg -> agree_off ls m m' ->
  (forall h xs, sg' !! h = Some xs ->
     ring m' h xs /\ (forall x, x ∈ h :: xs -> x ∈ ls) \/
     sg !! h = Some xs /\ (forall x, x ∈ h :: xs -> x ∉ ls)) ->
  (forall h1 h2 xs1 xs2 x, h1 ≠ h2 -> sg' !! h1 = Some xs1 -> sg' !! h2 = Some xs2 ->
     (forall y, y ∈ h1 :: xs1 -> y ∈ ls) -> (forall y, y ∈ h2 :: xs2 -> y ∈ ls) ->
     x ∈ h1 :: xs1 -> x ∉ h2 :: xs2) ->
  rings m' sg'.
Proof.
  intros Hr Ha H1 H2. split.
  - intros h xs Hh. destruct (H1 h xs Hh) as [[? _]|[Hold Hout]]; [done|].
    eapply ring_frame; [exact Ha|exact Hout|by eapply rings_ring].
  - intros h1 h2 xs1 xs2 x Hne Hh1 Hh2 Hx Hx2.
    destruct (H1 h1 xs1 Hh1) as [[_ Hi1]|[Hs1 Ho1]],
             (H1 h2 xs2 Hh2) as [[_ Hi2]|[Hs2 Ho2]].
    + by eapply (H2 h1 h2).
    + by apply (Ho2 x Hx2), Hi1.
    + by apply (Ho1 x Hx), Hi2.
    + by eapply (rings_disj m sg Hr h1 h2).
Qed.

(** The insertion steps, for either end. *)
Lemma rings_insert m m' sg ls xs elm zs :
  rings m sg -> sg !! ls = Some xs -> sg !! elm = Some [] -> ls ≠ elm ->
  agree_off (elm :: ls :: xs) m m' -> ring m' ls zs -> zs ≡ₚ elm :: xs ->
  rings m' (<[ls := zs]> (delete elm sg)).
Proof.
  intros Hr Hls Helm Hne Ha Hr' Hz.
  assert (forall h ys, h ≠ ls -> <[ls:=zs]> (delete elm sg) !! h = Some ys ->
            sg !! h = Some ys /\ forall x, x ∈ h :: ys -> x ∉ elm :: ls :: xs) as Hother.
  { intros h ys Hh Hys. rewrite lookup_insert_ne in Hys by done.
    apply lookup_delete_Some in Hys as [Hhe Hys]. split; [done|].
    intros x Hx [->|Hx']%elem_of_cons.
    - by eapply (rings_disj m sg Hr h elm ys [] elm); eauto; left.
    - by eapply (rings_disj m sg Hr h ls ys xs x); eauto. }
  eapply rings_update; [exact Hr|exact Ha|..].
  - intros h ys Hh. destruct (decide (h = ls)) as [->|Hhl].
    + rewrite lookup_insert_eq in Hh. inv_some. left. split; [done|].
      intros x [->|Hx]%elem_of_cons; [set_solver|]. rewrite Hz in Hx. set_solver.
    + right. eauto.
  - intros h1 h2 xs1 xs2 x Hne' Hh1 Hh2 Hi1 Hi2 Hx Hx2. exfalso.
    destruct (decide (h1 = ls)) as [->|E1].
    + destruct (Hother h2 xs2) as [_ Ho]; [done|done|].
      apply (Ho h2); [left|]. apply Hi2. left.
    + destruct (Hother h1 xs1) as [_ Ho]; [done|done|].
      apply (Ho h1); [left|]. apply Hi1. left.
Qed.

Lemma rings_elm_out m sg ls xs elm :
  rings m sg -> sg !! ls = Some xs -> sg !! elm = Some [] -> ls ≠ elm ->
  (elm ∉ ls :: xs) /\ elm ∈ dom m.
Proof.
  intros Hr Hls Helm Hne. split.
  - by eapply (rings_disj m sg Hr elm ls [] xs elm); eauto; left.
  - eapply ring_dom; [by eapply rings_ring|]. left.
Qed.

Lemma rings_delete m m' sg ls xs elm ys :
  rings m sg -> sg !! ls = Some (xs ++ elm :: ys) ->
  agree_off (elm :: ls :: xs ++ ys) m m' ->
  ring m' ls (xs ++ ys) -> ring m' elm [] ->
  rings m' (<[elm := []]> (<[ls := xs ++ ys]> sg)).
Proof.
  intros Hr Hls Ha Hr1 Hr2.
  assert ((elm ≠ ls) /\ elm ∉ ls :: xs ++ ys) as [Hne Hout].
  { destruct (rings_ring m sg Hr _ _ Hls) as [Hnd _].
    rewrite <- Permutation_middle, Permutation_swap, NoDup_cons in Hnd.
    set_solver. }
  assert (forall h zs, h ≠ ls -> h ≠ elm -> sg !! h = Some zs ->
            forall x, x ∈ h :: zs -> x ∉ elm :: ls :: xs ++ ys) as Hother.
  { intros h zs Hh _ Hzs x Hx Hx'.
    apply (rings_disj m sg Hr h ls zs (xs ++ elm :: ys) x Hh Hzs Hls Hx).
    rewrite <- Permutation_middle, Permutation_swap. done. }
  eapply rings_update; [exact Hr|exact Ha|..].
  - intros h zs Hh. destruct (decide (h = elm)) as [->|Hhe].
    { rewrite lookup_insert_eq in Hh. inv_some. left. split; [done|set_solver]. }
    rewrite lookup_insert_ne in Hh by done.
    destruct (decide (h = ls)) as [->|Hhl].
    { rewrite lookup_insert_eq in Hh. inv_some. left. split; [done|set_solver]. }
    rewrite lookup_insert_ne in Hh by done. right. eauto.
  - assert (forall h zs, <[elm := []]> (<[ls := xs ++ ys]> sg) !! h = Some zs ->
              h ∈ elm :: ls :: xs ++ ys ->
              (h = elm /\ zs = []) \/ (h = ls /\ zs = xs ++ ys)) as Hin.
    { intros h zs Hh Hi. destruct (decide (h = elm)) as [->|Hhe];
        [rewrite lookup_insert_eq in Hh; inv_some; by left|].
      rewrite lookup_insert_ne in Hh by done.
      destruct (decide (h = ls)) as [->|Hhl];
        [rewrite lookup_insert_eq in Hh; inv_some; by right|].
      rewrite lookup_insert_ne in Hh by done.
      exfalso. by apply (Hother h zs Hhl Hhe Hh h); [left|]. }
    intros h1 h2 xs1 xs2 x Hne' Hh1 Hh2 Hi1 Hi2 Hx Hx2.
    destruct (Hin h1 xs1 Hh1) as [[-> ->]|[-> ->]]; [apply Hi1; left|..];
      (destruct (Hin h2 xs2 Hh2) as [[-> ->]|[-> ->]]; [apply Hi2; left|..]);
      try done; set_solver.
Qed.

Lemma run_op_refines m sg op sg' :
  rings m sg -> seq_step sg op sg' ->
  exists m', run_op op m = Some m' /\ rings m' sg'.
Proof.
  intros Hr Hs. destruct Hs as [ls Hls|ls xs elm Hls Helm Hne|ls xs elm Hls Helm Hne
    |ls xs elm ys Hls|elm Helm]; cbn [run_op].
  - pose proof (rings_ring _ _ Hr _ _ Hls) as Hring.
    destruct (list_init_ring ls m) as (m' & E & Hr' & _ & Ha).
    { by eapply ring_dom; [exact Hring|left]. }
    exists m'. split; [done|]. eapply rings_update; [exact Hr|exact Ha|..].
    + intros h xs Hh. destruct (decide (h = ls)) as [->|Hne].
      * left. rewrite Hls in Hh. inv_some. split; [done|set_solver].
      * right. split; [done|]. intros x Hx Hx'.
        by eapply (rings_disj m sg Hr h ls xs [] x); eauto.
    + intros h1 h2 xs1 xs2 x Hne Hh1 Hh2 _ _ Hx. by eapply (rings_disj m sg Hr h1 h2).
  - destruct (rings_elm_out m sg ls xs elm) as [Ho Hd]; [done..|].
    destruct (list_add_before_ring m ls xs elm) as (m' & E & Hr' & _ & Ha);
      [by eapply rings_ring|done|done|].
    exists m'. split; [done|]. eapply rings_insert; eauto.
    by rewrite Permutation_app_comm.
  - destruct (rings_elm_out m sg ls xs elm) as [Ho Hd]; [done..|].
    destruct (list_add_after_ring m ls xs elm) as (m' & E & Hr' & _ & Ha);
      [by eapply rings_ring|done|done|].
    exists m'. split; [done|]. by eapply rings_insert; eauto.
  - destruct (list_delete_ring m ls xs elm ys) as (m' & E & Hr1 & Hr2 & _ & Ha);
      [by eapply rings_ring|].
    exists m'. split; [done|]. by eapply rings_delete.
  - destruct (rings_ring _ _ Hr _ _ Helm) as [_ [Hn Hp]].
    exists m. split; [by apply list_delete_self|done].
Qed.

End refinement.

(** ** Properties *)

(** Refinement: on a store whose rings are [sg], every sequence of calls that is
    legal on the sequences runs without undefined behaviour and ends in a store whose
    rings are exactly the sequences computed by the abstract steps; rings and cells
    not named by a call keep their links. *)
Theorem list_ops_refine (m : links) (sg sg' : heads) (ops : list list_op) :
  rings m sg -> seq_steps sg ops sg' ->
  exists m', run_ops ops m = Some m' /\ rings m' sg'.
Proof.
  intros Hr Hs. revert m Hr.
  induction Hs as [sg|sg op ops sg1 sg2 H1 _ IH]; intros m Hr; cbn [run_ops]; [eauto|].
  destruct (run_op_refines m sg op sg1 Hr H1) as (m1 & -> & Hr1). by apply IH.
Qed.

(** Three fresh cells: a head [1] and two elements [2], [3]. *)
Definition demo_store : links :=
  {[1%positive := mk_list_t 1 1; 2%positive := mk_list_t 2 2; 3%positive := mk_list_t 3 3]}.
Definition demo_heads : heads := {[1%positive := []; 2%positive := []; 3%positive := []]}.
Definition demo_ops : list list_op :=
  [OpAddBefore 1 2; OpAddAfter 1 3; OpDelete 2; OpDelete 3].

Lemma demo_heads_lookup h xs :
  demo_heads !! h = Some xs -> xs = [] /\ (h = 1 \/ h = 2 \/ h = 3)%positive.
Proof.
  unfold demo_heads. intros H.
  apply lookup_insert_Some in H as [[<- <-]|[_ H]]; [auto|].
  apply lookup_insert_Some in H as [[<- <-]|[_ H]]; [auto|].
  apply lookup_singleton_Some in H as [<- <-]. auto.
Qed.

Lemma demo_rings : rings demo_store demo_heads.
Proof.
  split.
  - intros h xs [-> Hh]%demo_heads_lookup.
    split; [apply NoDup_singleton|]. by destruct Hh as [->|[->| ->]].
  - intros h1 h2 xs1 xs2 x Hne [-> _]%demo_heads_lookup [-> _]%demo_heads_lookup.
    set_solver.
Qed.

Lemma list_ops_refine_witness :
  exists m', run_ops demo_ops demo_store = Some m' /\
    rings m' (<[3%positive := []]> (<[1%positive := []]> (<[2%positive := []]>
      (<[1%positive := [3%positive]]> (<[1%positive := [3; 2]%positive]>
        (delete 3%positive (<[1%positive := [2]%positive]>
          (delete 2%positive demo_heads)))))))).
Proof.
  apply (list_ops_refine demo_store demo_heads); [exact demo_rings|].
  eapply seq_cons; [apply (seq_add_before _ 1 [] 2); done|].
  eapply seq_cons; [apply (seq_add_after _ 1 [2%positive] 3); done|].
  eapply seq_cons; [apply (seq_delete _ 1 [3%positive] 2 []); done|].
  eapply seq_cons; [apply (seq_delete _ 1 [] 3 []); done|].
  constructor.
Defined.

(** Observers: on a ring, [list_empty] answers whether the sequence is empty, and
    the walk [for (ls = head->next; ls != head; ls = ls->next)] visits exactly the
    sequence in order and stops within its length. *)
Theorem list_observers (m : links) (h : loc) (xs : list loc) :
  ring m h xs ->
  list_empty h m = Some (bool_decide (xs = [])) /\
  (f ← list_next h m; walk (length xs) h f m) = Some xs.
Proof.
  intros Hr. split; [by apply list_empty_ring|].
  destruct (ring_ends _ _ _ Hr) as [Hn _]. rewrite Hn; cbn [mbind option_bind].
  by apply walk_ring.
Qed.

Lemma list_observers_witness :
  list_empty 1 demo_store = Some true /\
  (f ← list_next 1 demo_store; walk 0 1 f demo_store) = Some [].
Proof.
  apply (list_observers demo_store 1 []).
  apply (rings_ring _ _ demo_rings). done.
Defined.

(** The statement [p->next = n->prev = elm] of [list_add_before] is only correct
    when its left operand is evaluated first: in the other order, which C also allows,
    the inserted cell is linked to itself and the ring does not contain it. *)
Theorem list_add_before_order_matters (m : links) (h : loc) (xs : list loc) (elm : loc) :
  ring m h xs -> elm ∉ h :: xs -> elm ∈ dom m ->
  exists m', list_add_before_ord RhsFirst h elm m = Some m' /\
    list_next elm m' = Some elm /\ ~ ring m' h (xs ++ [elm]).
Proof.
  intros Hr Hx He. destruct (ring_ends _ _ _ Hr) as [_ Hp0].
  assert (elm ≠ h) as Hne by set_solver.
  unfold list_add_before_ord. rewrite Hp0; cbn [mbind option_bind].
  step_field; [done|]. step_field; [by rewrite Hd|].
  step_field; [rewrite Hd0, Hd; by eapply list_prev_dom|].
  rewrite Hp2, decide_True by done; cbn [mbind option_bind].
  destruct (set_next_total elm elm m2) as [m' E']; [by rewrite Hd1, Hd0, Hd|].
  destruct (set_next_inv _ _ _ _ E') as (_ & Hn' & _ & _).
  exists m'. rewrite Hn', decide_True by done. split_and!; [done|done|].
  intros [_ Hc]. apply chain_app in Hc as [_ [Hc _]].
  rewrite Hn', decide_True in Hc by done. by inv_some.
Qed.

Lemma list_add_before_order_matters_witness :
  exists m', list_add_before_ord RhsFirst 1 2 demo_store = Some m' /\
    list_next 2 m' = Some 2%positive /\ ~ ring m' 1 ([] ++ [2%positive]).
Proof.
  apply (list_add_before_order_matters demo_store 1 [] 2).
  - apply (rings_ring _ _ demo_rings). done.
  - set_solver.
  - apply elem_of_dom. by eexists.
Defined.
