(* ===== verification/Deque.v ===== *)
(** * deque.c, queue.h, stack.h: the double-ended queue

    A [deque_t] is a size and the head of a ring whose cells are embedded in malloc'ed
    [node_t]s. The model keeps the shared store of link cells of [Lists.v] and a second
    map with the [elm] field of each live node; [list_to_struct] is the identity on
    addresses. Allocation takes an address outside the store and leaves the new cell
    indeterminate ([junk]); freeing removes it. *)
From S2P Require Import Prelude Lists Interfaces.
Local Open Scope Z_scope.

(** The part of memory the deque uses: link cells and [elm] fields. *)
Record dmem := mk_dmem { cells : links; elms : gmap loc ptr }.

(** [struct _deque_st { int size; list_t head; }]; the embedded head is its address. *)
Record deque_t := mk_deque { size : Z; dhead : loc }.

Definition with_cells (m : dmem) (c : option links) : option dmem :=
  c ← c; Some (mk_dmem c (elms m)).

Section deque.
(** What [malloc] leaves in a new link cell. *)
Context (junk : list_t).

(** [malloc(sizeof(node_t))] *)
Definition malloc_node (m : dmem) : loc * dmem :=
  let n := fresh (dom (cells m)) in
  (n, mk_dmem (<[n := junk]> (cells m)) (elms m)).

(** [free(n)] *)
Definition free_node (n : loc) (m : dmem) : dmem :=
  mk_dmem (delete n (cells m)) (delete n (elms m)).

Definition new_node (elm : ptr) (m : dmem) : option (loc * dmem) :=
  let '(n, m) := malloc_node m in
  let m := mk_dmem (cells m) (<[n := elm]> (elms m)) in
  m ← with_cells m (list_init n (cells m));
  Some (n, m).

Definition delete_node (n : loc) (m : dmem) : option dmem :=
  m ← with_cells m (list_delete n (cells m));
  Some (free_node n m).

(** [deque_init(d)] *)
Definition deque_init (head : loc) (m : dmem) : option (deque_t * dmem) :=
  m ← with_cells m (list_init head (cells m));
  Some (mk_deque 0 head, m).

Definition deque_size (d : deque_t) : Z := size d.
Definition deque_empty (d : deque_t) : bool := bool_decide (deque_size d = 0).

(** [d->size++] and [d->size--] on an [int]. *)
Definition incr_size (d : deque_t) : option deque_t :=
  if bool_decide (size d < INT_MAX) then Some (mk_deque (size d + 1) (dhead d)) else None.
Definition decr_size (d : deque_t) : option deque_t :=
  if bool_decide (- INT_MAX - 1 < size d) then Some (mk_deque (size d - 1) (dhead d))
  else None.

Definition deque_push_front (d : deque_t) (elm : ptr) (m : dmem) : option (deque_t * dmem) :=
  '(n, m) ← new_node elm m;
  m ← with_cells m (list_add_after (dhead d) n (cells m));
  d ← incr_size d;
  Some (d, m).

Definition deque_push_back (d : deque_t) (elm : ptr) (m : dmem) : option (deque_t * dmem) :=
  '(n, m) ← new_node elm m;
  m ← with_cells m (list_add_before (dhead d) n (cells m));
  d ← incr_size d;
  Some (d, m).

Definition deque_pop (d : deque_t) (op : Z) (m : dmem) : option (ptr * (deque_t * dmem)) :=
  if deque_empty d then Some (NULL, (d, m)) else
  l ← (if bool_decide (op = 1) then list_next (dhead d) (cells m)
       else list_prev (dhead d) (cells m));
  m ← with_cells m (list_delete l (cells m));
  elm ← elms m !! l;
  m ← delete_node l m;
  d ← decr_size d;
  Some (elm, (d, m)).

Definition deque_pop_front (d : deque_t) (m : dmem) := deque_pop d 1 m.
Definition deque_pop_back (d : deque_t) (m : dmem) := deque_pop d 0 m.

(** [while(!deque_empty(d)) deque_pop_front(d);] with at most [fuel] iterations. *)
Fixpoint deque_clear (fuel : nat) (d : deque_t) (m : dmem) : option (deque_t * dmem) :=
  if deque_empty d then Some (d, m) else
  match fuel with
  | O => None
  | S fuel => '(_, (d, m)) ← deque_pop_front d m; deque_clear fuel d m
  end.

(** [do { deque_pop_back(d); } while(!deque_empty(d));] *)
Fixpoint deque_destory (fuel : nat) (d : deque_t) (m : dmem) : option (deque_t * dmem) :=
  '(_, (d, m)) ← deque_pop_back d m;
  if deque_empty d then Some (d, m) else
  match fuel with
  | O => None
  | S fuel => deque_destory fuel d m
  end.

(** ** Representation *)
(** The ring of [d] is [ls], the nodes carry [xs], and the counter agrees. *)
Record deque_rep (m : dmem) (d : deque_t) (ls : list loc) (xs : list ptr) : Prop := {
  rep_ring : ring (cells m) (dhead d) ls;
  rep_elms : Forall2 (fun l x => elms m !! l = Some x) ls xs;
  rep_size : size d = Z.of_nat (length xs)
}.

(** The cells of the store that are not nodes of the deque. *)
Definition leftover (m : dmem) (ls : list loc) : gset loc :=
  dom (cells m) ∖ list_to_set ls.

Lemma leftover_push m m' n ls ls' :
  dom (cells m') = {[n]} ∪ dom (cells m) -> n ∉ dom (cells m) -> ls' ≡ₚ n :: ls ->
  leftover m' ls' = leftover m ls.
Proof. intros Hd Hn Hp. unfold leftover. rewrite Hd. apply set_eq. intros y.
  rewrite !elem_of_difference, !elem_of_list_to_set, Hp. set_solver. Qed.

Lemma rep_length m d ls xs : deque_rep m d ls xs -> length ls = length xs.
Proof. intros [_ H _]. by eapply Forall2_length. Qed.

Lemma deque_empty_rep m d ls xs :
  deque_rep m d ls xs -> deque_empty d = bool_decide (xs = []).
Proof.
  intros [_ _ Hs]. unfold deque_empty, deque_size. rewrite Hs. apply bool_decide_ext.
  destruct xs; cbn; split; intros; (done || lia).
Qed.

(** A fresh initialised node, disjoint from every ring of the store. *)
Lemma new_node_spec elm m :
  exists n m', new_node elm m = Some (n, m') /\ (n ∉ dom (cells m)) /\
    dom (cells m') = {[n]} ∪ dom (cells m) /\ elms m' = <[n := elm]> (elms m) /\
    agree_off [n] (cells m) (cells m').
Proof.
  unfold new_node, malloc_node, with_cells; cbn.
  set (n := fresh (dom (cells m))).
  assert (n ∉ dom (cells m)) as Hn by apply is_fresh.
  destruct (list_init_ring n (<[n:=junk]> (cells m))) as (c & E & _ & Hd & Ha).
  { rewrite dom_insert_L. set_solver. }
  rewrite E; cbn. do 2 eexists. split_and!; [done|done| |done|].
  - cbn. by rewrite Hd, dom_insert_L.
  - cbn. intros l Hl. rewrite Ha by done. apply lookup_insert_ne. set_solver.
Qed.

Lemma elms_ext (e e' : gmap loc ptr) ls xs :
  (forall l, l ∈ ls -> e' !! l = e !! l) ->
  Forall2 (fun l y => e !! l = Some y) ls xs ->
  Forall2 (fun l y => e' !! l = Some y) ls xs.
Proof.
  intros He Hf. induction Hf as [|l y ls ys Hly Hf IH]; constructor.
  - rewrite He; [done|by left].
  - apply IH. intros z Hz. apply He. by right.
Qed.

Lemma incr_size_spec m d ls xs :
  deque_rep m d ls xs -> Z.of_nat (length xs) < INT_MAX ->
  incr_size d = Some (mk_deque (Z.of_nat (length xs) + 1) (dhead d)).
Proof.
  intros [_ _ Hs] Hlt. unfold incr_size. rewrite Hs, bool_decide_eq_true_2; done.
Qed.

Lemma push_prepare m d ls xs x :
  deque_rep m d ls xs -> Z.of_nat (length xs) < INT_MAX ->
  exists n m1, new_node x m = Some (n, m1) /\ ring (cells m1) (dhead d) ls /\
    (n ∉ dhead d :: ls) /\ dom (cells m1) = {[n]} ∪ dom (cells m) /\ (n ∉ dom (cells m)) /\
    elms m1 !! n = Some x /\
    Forall2 (fun l y => elms m1 !! l = Some y) ls xs /\
    incr_size d = Some (mk_deque (Z.of_nat (length xs) + 1) (dhead d)).
Proof.
  intros Hr Hlt. destruct (new_node_spec x m) as (n & m1 & E & Hnd & Hd & He & Ha).
  assert (n ∉ dhead d :: ls) as Hn.
  { intros Hin. apply Hnd. by eapply ring_dom; [apply (rep_ring _ _ _ _ Hr)|]. }
  exists n, m1. split_and!; [done| |done|done|done| | |by eapply incr_size_spec].
  - eapply ring_frame; [exact Ha| |apply (rep_ring _ _ _ _ Hr)]. set_solver.
  - by rewrite He, lookup_insert_eq.
  - eapply elms_ext; [|apply (rep_elms _ _ _ _ Hr)].
    intros l Hl. rewrite He. apply lookup_insert_ne. set_solver.
Qed.

Lemma deque_push_back_rep m d ls xs x :
  deque_rep m d ls xs -> Z.of_nat (length xs) < INT_MAX ->
  exists n d' m', deque_push_back d x m = Some (d', m') /\ dhead d' = dhead d /\
    deque_rep m' d' (ls ++ [n]) (xs ++ [x]) /\ leftover m' (ls ++ [n]) = leftover m ls.
Proof.
  intros Hr Hlt.
  destruct (push_prepare m d ls xs x Hr Hlt) as (n & m1 & E & Hri & Hn & Hd & Hnd & He & Hf & Hi).
  destruct (list_add_before_ring (cells m1) (dhead d) ls n) as (c & Ec & Hr' & Hdc & _);
    [done|done|set_solver|].
  unfold deque_push_back. rewrite E; cbn. unfold with_cells. rewrite Ec; cbn.
  rewrite Hi; cbn. exists n. do 2 eexists. split_and!; [done|done| |apply (leftover_push _ _ n); cbn;
    [congruence|done|by rewrite Permutation_app_comm]].
  split; cbn.
  - done.
  - by apply Forall2_app; [|constructor].
  - rewrite length_app; cbn. lia.
Qed.

Lemma deque_push_front_rep m d ls xs x :
  deque_rep m d ls xs -> Z.of_nat (length xs) < INT_MAX ->
  exists n d' m', deque_push_front d x m = Some (d', m') /\ dhead d' = dhead d /\
    deque_rep m' d' (n :: ls) (x :: xs) /\ leftover m' (n :: ls) = leftover m ls.
Proof.
  intros Hr Hlt.
  destruct (push_prepare m d ls xs x Hr Hlt) as (n & m1 & E & Hri & Hn & Hd & Hnd & He & Hf & Hi).
  destruct (list_add_after_ring (cells m1) (dhead d) ls n) as (c & Ec & Hr' & Hdc & _);
    [done|done|set_solver|].
  unfold deque_push_front. rewrite E; cbn. unfold with_cells. rewrite Ec; cbn.
  rewrite Hi; cbn. exists n. do 2 eexists. split_and!; [done|done| |by apply (leftover_push _ _ n); cbn; [congruence|..]].
  split; cbn.
  - done.
  - by constructor.
  - lia.
Qed.

(** Unlinking and freeing the node at one position. *)
Lemma pop_node m d l1 l l2 x1 x x2 :
  deque_rep m d (l1 ++ l :: l2) (x1 ++ x :: x2) -> length l1 = length x1 ->
  exists d' m', dhead d' = dhead d /\ deque_rep m' d' (l1 ++ l2) (x1 ++ x2) /\
    leftover m' (l1 ++ l2) = leftover m (l1 ++ l :: l2) /\
    (m ← with_cells m (list_delete l (cells m));
     elm ← elms m !! l;
     m ← delete_node l m;
     d ← decr_size d;
     Some (elm, (d, m))) = Some (x, (d', m')).
Proof.
  intros [Hr Hf Hs] Hl.
  apply Forall2_app_inv in Hf as [Hf1 Hf2]; [|done].
  apply Forall2_cons in Hf2 as [Hx Hf2].
  destruct (list_delete_ring _ _ _ _ _ Hr) as (c & E & Hr1 & Hr2 & Hd & _).
  assert (l ∉ dhead d :: l1 ++ l2) as Hout.
  { destruct Hr as [Hnd _].
    rewrite <- Permutation_middle, Permutation_swap, NoDup_cons in Hnd. tauto. }
  unfold delete_node, with_cells. rewrite E; cbn. rewrite Hx; cbn.
  rewrite (list_delete_self l c) by (destruct Hr2 as [_ [??]]; done). cbn.
  unfold decr_size. rewrite Hs, bool_decide_eq_true_2 by (unfold INT_MAX; lia). cbn.
  do 2 eexists. split_and!; [| | |done]; [done| |].
  - split; cbn.
    + eapply (ring_frame _ _ [l]); [|set_solver|exact Hr1].
      intros y Hy. apply lookup_delete_ne. set_solver.
    + apply Forall2_app; (eapply elms_ext; [|eassumption]);
        intros y Hy; apply lookup_delete_ne; set_solver.
    + rewrite !length_app; cbn. lia.
  - unfold leftover; cbn. rewrite dom_delete_L, Hd. set_solver.
Qed.

Lemma deque_pop_front_rep m d l ls x xs :
  deque_rep m d (l :: ls) (x :: xs) ->
  exists d' m', deque_pop_front d m = Some (x, (d', m')) /\ dhead d' = dhead d /\
    deque_rep m' d' ls xs /\ leftover m' ls = leftover m (l :: ls).
Proof.
  intros Hr. destruct (pop_node m d [] l ls [] x xs Hr eq_refl) as (d' & m' & Hh & Hr' & Hlo & E).
  exists d', m'. split_and!; [|done..].
  unfold deque_pop_front, deque_pop. rewrite (deque_empty_rep _ _ _ _ Hr); cbn.
  destruct (ring_ends _ _ _ (rep_ring _ _ _ _ Hr)) as [-> _]. exact E.
Qed.

Lemma deque_pop_back_rep m d l ls x xs :
  deque_rep m d (ls ++ [l]) (xs ++ [x]) ->
  exists d' m', deque_pop_back d m = Some (x, (d', m')) /\ dhead d' = dhead d /\
    deque_rep m' d' ls xs /\ leftover m' ls = leftover m (ls ++ [l]).
Proof.
  intros Hr. pose proof (rep_length _ _ _ _ Hr) as Hlen.
  rewrite !length_app in Hlen; cbn in Hlen.
  destruct (pop_node m d ls l [] xs x [] Hr) as (d' & m' & Hh & Hr' & Hlo & E); [lia|].
  rewrite !app_nil_r in *. exists d', m'. split_and!; [|done..].
  unfold deque_pop_back, deque_pop. rewrite (deque_empty_rep _ _ _ _ Hr).
  rewrite bool_decide_eq_false_2 by (by destruct xs). cbn.
  destruct (ring_ends _ _ _ (rep_ring _ _ _ _ Hr)) as [_ ->].
  rewrite last_snoc. exact E.
Qed.

Lemma deque_pop_nil op m d ls :
  deque_rep m d ls [] -> deque_pop d op m = Some (NULL, (d, m)).
Proof. intros Hr. unfold deque_pop. by rewrite (deque_empty_rep _ _ _ _ Hr). Qed.

Lemma deque_clear_rep fuel m d ls xs :
  deque_rep m d ls xs -> (length xs <= fuel)%nat ->
  exists d' m', deque_clear fuel d m = Some (d', m') /\ dhead d' = dhead d /\
    deque_rep m' d' [] [] /\ leftover m' [] = leftover m ls.
Proof.
  revert m d ls xs. induction fuel as [|fuel IH]; intros m d ls xs Hr Hf;
    pose proof (rep_length _ _ _ _ Hr) as Hlen; cbn [deque_clear];
    rewrite (deque_empty_rep _ _ _ _ Hr);
    destruct xs as [|x xs], ls as [|l ls]; cbn in *; try lia; eauto 10.
  destruct (deque_pop_front_rep _ _ _ _ _ _ Hr) as (d1 & m1 & E & Hh & Hr1 & Hl1).
  rewrite E; cbn.
  destruct (IH m1 d1 ls xs Hr1) as (d2 & m2 & E2 & Hh2 & Hr2 & Hl2); [lia|].
  exists d2, m2. split_and!; [done|congruence|done|congruence].
Qed.

Lemma deque_destory_rep fuel m d ls xs :
  deque_rep m d ls xs -> (length xs <= fuel)%nat ->
  exists d' m', deque_destory fuel d m = Some (d', m') /\ dhead d' = dhead d /\
    deque_rep m' d' [] [] /\ leftover m' [] = leftover m ls.
Proof.
  revert m d ls xs. induction fuel as [|fuel IH]; intros m d ls xs Hr Hf;
    pose proof (rep_length _ _ _ _ Hr) as Hlen;
    destruct (last_Some_snoc_or_nil xs) as [->|(ys & y & ->)];
    destruct (last_Some_snoc_or_nil ls) as [->|(ks & k & ->)];
    rewrite ?length_app in *; cbn in Hlen, Hf; try lia; cbn [deque_destory].
  1,2: unfold deque_pop_back; rewrite (deque_pop_nil _ _ _ _ Hr); cbn;
    rewrite (deque_empty_rep _ _ _ _ Hr); cbn; by eauto 10.
  destruct (deque_pop_back_rep _ _ _ _ _ _ Hr) as (d1 & m1 & E & Hh & Hr1 & Hl1).
  rewrite E; cbn. rewrite (deque_empty_rep _ _ _ _ Hr1). case_bool_decide as Hy.
  - subst. apply rep_length in Hr1 as Hk. destruct ks; [|done]. eauto 10.
  - destruct (IH m1 d1 ks ys Hr1) as (d2 & m2 & E2 & Hh2 & Hr2 & Hl2); [lia|].
    exists d2, m2. split_and!; [done|congruence|done|congruence].
Qed.

Lemma deque_init_rep head m :
  head ∈ dom (cells m) ->
  exists d m', deque_init head m = Some (d, m') /\ deque_rep m' d [] [] /\
    leftover m' [] = leftover m [].
Proof.
  intros Hh. destruct (list_init_ring head (cells m) Hh) as (c & E & Hr & Hd & _).
  unfold deque_init, with_cells. rewrite E; cbn. do 2 eexists.
  split_and!; [done| |unfold leftover; cbn; by rewrite Hd].
  split; [done|constructor|done].
Qed.
End deque.

(** ** queue.h and stack.h *)
(** [queue_push] is [deque_push_back] and [queue_pop] is [deque_pop_front]. *)
#[export] Program Instance deque_queue (junk : list_t) : Queue (deque_t * dmem) := {
  queue_rep q xs := exists ls, deque_rep (snd q) (fst q) ls xs;
  queue_push x q := deque_push_back junk (fst q) x (snd q);
  queue_pop q := deque_pop_front (fst q) (snd q);
  queue_size q := deque_size (fst q);
  queue_clear q := deque_clear (Z.to_nat (size (fst q))) (fst q) (snd q)
}.
Next Obligation. intros junk [d m] xs [ls Hr]. apply (rep_size _ _ _ _ Hr). Qed.
Next Obligation.
  intros junk [d m] xs x [ls Hr] Hlt.
  destruct (deque_push_back_rep junk m d ls xs x Hr Hlt) as (n & d' & m' & E & _ & Hr' & _).
  exists (d', m'). split; [done|]. by eexists.
Qed.
Next Obligation.
  intros junk [d m] x xs [ls Hr]. pose proof (rep_length _ _ _ _ Hr) as Hl.
  destruct ls as [|l ls]; [done|].
  destruct (deque_pop_front_rep m d l ls x xs Hr) as (d' & m' & E & _ & Hr' & _).
  exists (d', m'). split; [done|]. by eexists.
Qed.
Next Obligation. intros junk [d m] [ls Hr]. by apply (deque_pop_nil 1 m d ls). Qed.
Next Obligation.
  intros junk [d m] xs [ls Hr]. cbn. pose proof (rep_size _ _ _ _ Hr) as Hs. cbn in Hs.
  destruct (deque_clear_rep (Z.to_nat (size d)) m d ls xs Hr) as (d' & m' & E & _ & Hr' & _); [lia|].
  exists (d', m'). split; [done|]. by exists [].
Qed.

(** [stack_push] and [stack_pop] both work at the back. *)
Definition stack_push (junk : list_t) (d : deque_t) (e : ptr) (m : dmem) :=
  deque_push_back junk d e m.
Definition stack_pop (d : deque_t) (m : dmem) := deque_pop_back d m.

(** ** Properties *)
(** One call on a deque, and the same call on the sequence it holds: the result and
    the new sequence. Calls with no result return [NULL]. *)
Inductive dq_op :=
| PushFront (x : ptr) | PushBack (x : ptr) | PopFront | PopBack | Clear | Destroy.

Definition run_dq (junk : list_t) (op : dq_op) (d : deque_t) (m : dmem)
    : option (ptr * (deque_t * dmem)) :=
  match op with
  | PushFront x => r ← deque_push_front junk d x m; Some (NULL, r)
  | PushBack x => r ← deque_push_back junk d x m; Some (NULL, r)
  | PopFront => deque_pop_front d m
  | PopBack => deque_pop_back d m
  | Clear => r ← deque_clear (Z.to_nat (size d)) d m; Some (NULL, r)
  | Destroy => r ← deque_destory (Z.to_nat (size d)) d m; Some (NULL, r)
  end.

Definition spec_dq (op : dq_op) (xs : list ptr) : ptr * list ptr :=
  match op with
  | PushFront x => (NULL, x :: xs)
  | PushBack x => (NULL, xs ++ [x])
  | PopFront => (default NULL (head xs), tail xs)
  | PopBack => (default NULL (last xs), removelast xs)
  | Clear | Destroy => (NULL, [])
  end.

Fixpoint run_dqs (junk : list_t) (ops : list dq_op) (d : deque_t) (m : dmem)
    : option (list ptr * (deque_t * dmem)) :=
  match ops with
  | [] => Some ([], (d, m))
  | op :: ops =>
      '(r, (d, m)) ← run_dq junk op d m;
      '(rs, (d, m)) ← run_dqs junk ops d m;
      Some (r :: rs, (d, m))
  end.

Fixpoint spec_dqs (ops : list dq_op) (xs : list ptr) : list ptr * list ptr :=
  match ops with
  | [] => ([], xs)
  | op :: ops =>
      let '(r, xs) := spec_dq op xs in
      let '(rs, xs) := spec_dqs ops xs in
      (r :: rs, xs)
  end.

Lemma run_dq_refines junk op m d ls xs :
  deque_rep m d ls xs -> Z.of_nat (length xs) < INT_MAX ->
  exists d' m' ls', run_dq junk op d m = Some (fst (spec_dq op xs), (d', m')) /\
    deque_rep m' d' ls' (snd (spec_dq op xs)) /\ leftover m' ls' = leftover m ls.
Proof.
  intros Hr Hlt. pose proof (rep_length _ _ _ _ Hr) as Hl.
  assert (length xs <= Z.to_nat (size d))%nat as Hfuel by (rewrite (rep_size _ _ _ _ Hr); lia).
  destruct op as [x|x| | | |]; cbn [run_dq spec_dq fst snd].
  - destruct (deque_push_front_rep junk m d ls xs x Hr Hlt) as (n & d' & m' & -> & _ & ? & ?).
    do 3 eexists. split_and!; done.
  - destruct (deque_push_back_rep junk m d ls xs x Hr Hlt) as (n & d' & m' & -> & _ & ? & ?).
    do 3 eexists. split_and!; done.
  - destruct xs as [|x xs], ls as [|l ls]; try done.
    + exists d, m, []. split_and!; [by apply (deque_pop_nil 1 m d [])|done|done].
    + destruct (deque_pop_front_rep m d l ls x xs Hr) as (d' & m' & -> & _ & ? & ?).
      do 3 eexists. split_and!; done.
  - destruct (last_Some_snoc_or_nil xs) as [->|(ys & y & ->)];
      destruct (last_Some_snoc_or_nil ls) as [->|(ks & k & ->)];
      rewrite ?length_app in Hl; cbn in Hl; try lia.
    + exists d, m, []. split_and!; [by apply (deque_pop_nil 0 m d [])|done|done].
    + destruct (deque_pop_back_rep m d k ks y ys Hr) as (d' & m' & -> & _ & ? & ?).
      rewrite last_snoc, removelast_last. do 3 eexists. split_and!; done.
  - destruct (deque_clear_rep (Z.to_nat (size d)) m d ls xs Hr Hfuel)
      as (d' & m' & -> & _ & ? & ?). do 3 eexists. split_and!; done.
  - destruct (deque_destory_rep (Z.to_nat (size d)) m d ls xs Hr Hfuel)
      as (d' & m' & -> & _ & ? & ?). do 3 eexists. split_and!; done.
Qed.

Lemma spec_dq_length op xs : (length (snd (spec_dq op xs)) <= S (length xs))%nat.
Proof.
  destruct op; cbn; rewrite ?length_app; cbn; try lia.
  - destruct xs; cbn; lia.
  - destruct (last_Some_snoc_or_nil xs) as [->|(ys & y & ->)]; cbn; [lia|].
    rewrite removelast_last, length_app; cbn. lia.
Qed.

Lemma run_dqs_refines junk ops m d ls xs :
  deque_rep m d ls xs -> Z.of_nat (length xs + length ops) < INT_MAX ->
  exists d' m' ls', run_dqs junk ops d m = Some (fst (spec_dqs ops xs), (d', m')) /\
    deque_rep m' d' ls' (snd (spec_dqs ops xs)) /\ leftover m' ls' = leftover m ls.
Proof.
  revert m d ls xs. induction ops as [|op ops IH]; intros m d ls xs Hr Hlt; cbn in *;
    [by eauto 10|].
  destruct (run_dq_refines junk op m d ls xs Hr) as (d1 & m1 & ls1 & -> & Hr1 & Hl1); [lia|].
  cbn [mbind option_bind]. pose proof (spec_dq_length op xs) as Hlen.
  destruct (spec_dq op xs) as [r xs1]; cbn [fst snd] in *.
  destruct (IH m1 d1 ls1 xs1 Hr1) as (d2 & m2 & ls2 & -> & Hr2 & Hl2); [lia|].
  destruct (spec_dqs ops xs1) as [rs xs2]; cbn [fst snd mbind option_bind] in *.
  exists d2, m2, ls2. split_and!; [done|done|congruence].
Qed.

(** Every sequence of deque calls, started on a fresh deque, runs without undefined
    behaviour and returns what the same calls return on a sequence; at the end the
    nodes that are still allocated are exactly the ones that hold the remaining
    elements (every popped or cleared node has been freed, and no other cell). The
    bound keeps the [int] counter below [INT_MAX]. *)
Theorem deque_refines (junk : list_t) (ops : list dq_op) (head : loc) (m : dmem) :
  head ∈ dom (cells m) -> Z.of_nat (length ops) < INT_MAX ->
  exists d m' ls,
    ('(d, m) ← deque_init head m; run_dqs junk ops d m) =
      Some (fst (spec_dqs ops []), (d, m')) /\
    deque_rep m' d ls (snd (spec_dqs ops [])) /\
    dom (cells m') = dom (cells m) ∪ list_to_set ls /\
    dom (cells m) ## list_to_set ls.
Proof.
  intros Hh Hlen.
  destruct (deque_init_rep head m Hh) as (d & m0 & -> & Hr & Hlo); cbn [mbind option_bind].
  destruct (run_dqs_refines junk ops m0 d [] [] Hr) as (d' & m' & ls & -> & Hr' & Hlo');
    [cbn; lia|].
  exists d', m', ls. split_and!; [done|done|..].
  all: assert (dom (cells m') ∖ list_to_set ls = dom (cells m)) as Hdom
    by (unfold leftover in *; rewrite Hlo', Hlo; apply set_eq; set_solver).
  all: assert (forall l, l ∈ ls -> l ∈ dom (cells m')) as Hls
    by (intros l Hl; eapply ring_dom; [apply (rep_ring _ _ _ _ Hr')|by right]).
  - rewrite <- Hdom. apply set_eq. intros l.
    rewrite elem_of_union, elem_of_difference, elem_of_list_to_set.
    destruct (decide (l ∈ ls)); naive_solver.
  - rewrite <- Hdom. intros l. rewrite elem_of_difference, elem_of_list_to_set. tauto.
Qed.

Lemma deque_refines_witness :
  exists d m' ls,
    ('(d, m) ← deque_init 1 (mk_dmem demo_store ∅);
     run_dqs (mk_list_t 1 1) [PushBack 7; PushFront 5; PopBack; PopBack; PopBack] d m) =
      Some ([0; 0; 7; 5; 0], (d, m')) /\
    deque_rep m' d ls [] /\
    dom (cells m') = dom demo_store ∪ list_to_set ls /\
    dom demo_store ## list_to_set ls.
Proof.
  apply (deque_refines (mk_list_t 1 1)
    [PushBack 7; PushFront 5; PopBack; PopBack; PopBack] 1 (mk_dmem demo_store ∅));
    [|vm_compute; reflexivity].
  apply elem_of_dom. by eexists.
Defined.
