(* ===== verification/Array.v ===== *)
(** * array.c: the growable array of pointers

    An [array_t] is a malloc'ed block of [capcity] cells of which the first [size] are
    in use. A cell that was never written is indeterminate ([None]); reading one, or
    accessing a cell outside the block, is undefined. [arr_rep a xs] says that [a]
    holds the sequence [xs]. *)
From S2P Require Import Prelude Interfaces.
Local Open Scope Z_scope.

(** [struct _array_st { void **vector; size_t size; size_t capcity; }]; a null
    [vector] is [None]. *)
Record array_t := mk_array {
  vector : option (list (option ptr));
  asize : Z;
  capcity : Z
}.

Definition MIN_ARRAY_CAPCITY : Z := 256.

(** [malloc(sizeof(void* ) * n)]: the product wraps to 64 bits, the cells are
    indeterminate. *)
Definition malloc_cells (n : Z) : list (option ptr) :=
  replicate (Z.to_nat (u64 (8 * n) / 8)) None.

(** [v[i] = x] and the read [v[i]] of an initialised cell. *)
Definition store {A} (v : list A) (i : nat) (x : A) : option (list A) :=
  if bool_decide (i < length v)%nat then Some (<[i := x]> v) else None.
Definition load (v : list (option ptr)) (i : nat) : option ptr := mjoin (v !! i).

Definition array_init (_ : array_t) : Z * array_t := (0, mk_array None 0 0).

Definition array_destory (_ : array_t) : array_t := mk_array None 0 0.

(** [for(; i < size; i++) dst[i] = src[i];], [n] iterations from [i]. *)
Fixpoint copy_cells (n i : nat) (src dst : list (option ptr))
    : option (list (option ptr)) :=
  match n with
  | O => Some dst
  | S n => c ← src !! i; dst ← store dst i c; copy_cells n (S i) src dst
  end.

(** The copy counter is an [int], so a size above [INT_MAX] is undefined. *)
Definition realloc_array (a : array_t) : option array_t :=
  match vector a with
  | None =>
      let cap := if bool_decide (capcity a = 0) then MIN_ARRAY_CAPCITY else capcity a in
      Some (mk_array (Some (malloc_cells cap)) 0 cap)
  | Some ta =>
      let cap := u64 (Z.shiftl (capcity a) 1) in
      if bool_decide (asize a <= INT_MAX) then
        v ← copy_cells (Z.to_nat (asize a)) 0 ta (malloc_cells cap);
        Some (mk_array (Some v) (asize a) cap)
      else None
  end.

Definition array_size (a : array_t) : Z := asize a.

(** [while(loc < size) { vector[loc + 1] = vector[loc]; loc++; }], [n] iterations. *)
Fixpoint shift_up (n loc : nat) (v : list (option ptr)) : option (list (option ptr)) :=
  match n with
  | O => Some v
  | S n => c ← v !! loc; v ← store v (S loc) c; shift_up n (S loc) v
  end.

Definition array_insert (a : array_t) (idx : Z) (elm : ptr) : option (Z * array_t) :=
  if bool_decide (idx > asize a) then Some (-1, a) else
  a ← (if bool_decide (vector a = None) || bool_decide (capcity a <= asize a)
       then realloc_array a else Some a);
  v ← vector a;
  v ← shift_up (Z.to_nat (asize a - idx)) (Z.to_nat idx) v;
  v ← store v (Z.to_nat idx) (Some elm);
  Some (0, mk_array (Some v) (u64 (asize a + 1)) (capcity a)).

Definition array_put (a : array_t) (idx : Z) (elm : ptr) : option (Z * array_t) :=
  if bool_decide (idx < array_size a) then
    v ← vector a;
    v ← store v (Z.to_nat idx) (Some elm);
    Some (0, mk_array (Some v) (asize a) (capcity a))
  else Some (-1, a).

Definition array_get (a : array_t) (idx : Z) : option ptr :=
  if bool_decide (idx >= asize a) then Some NULL else
  v ← vector a; load v (Z.to_nat idx).

(** [while(idx < size - 1) { vector[idx] = vector[++idx]; }], [n] iterations: the
    statement modifies [idx] on its right while its left reads it. *)
Fixpoint shift_down (o : eval_order) (n idx : nat) (v : list (option ptr))
    : option (list (option ptr)) :=
  match n with
  | O => Some v
  | S n =>
      c ← v !! S idx;
      v ← store v (match o with LhsFirst => idx | RhsFirst => S idx end) c;
      shift_down o n (S idx) v
  end.

Definition array_del (o : eval_order) (a : array_t) (idx : Z) : option (ptr * array_t) :=
  if bool_decide (idx >= asize a) then Some (NULL, a) else
  v ← vector a;
  elm ← load v (Z.to_nat idx);
  v ← shift_down o (Z.to_nat (asize a - 1 - idx)) (Z.to_nat idx) v;
  Some (elm, mk_array (Some v) (asize a - 1) (capcity a)).

(** ** Representation *)
Definition arr_max : Z := 2 ^ 29.

Inductive arr_rep : array_t -> list ptr -> Prop :=
| rep_null cap : 0 <= cap <= 2 * arr_max -> arr_rep (mk_array None 0 cap) []
| rep_vec xs rest cap :
    cap = Z.of_nat (length xs + length rest) -> 0 < cap <= 2 * arr_max ->
    arr_rep (mk_array (Some ((Some <$> xs) ++ rest)) (Z.of_nat (length xs)) cap) xs.

Lemma arr_rep_size a xs : arr_rep a xs -> asize a = Z.of_nat (length xs).
Proof. by destruct 1. Qed.

Lemma arr_rep_inj a xs ys : arr_rep a xs -> arr_rep a ys -> xs = ys.
Proof.
  intros H1 H2. pose proof (arr_rep_size _ _ H1) as Hs.
  rewrite (arr_rep_size _ _ H2) in Hs. destruct H1 as [|xs rest cap Hc Hb].
  - by destruct ys.
  - inversion H2 as [|ys' rest' cap' Hc' Hb' Hv]; subst.
    apply app_inj_1 in Hv as [Hv _]; [|rewrite !length_fmap; lia].
    symmetry. revert Hv. apply list_fmap_eq_inj. by intros ?? [= ->].
Qed.

Lemma length_malloc_cells n :
  0 <= n < 2 ^ 60 -> length (malloc_cells n) = Z.to_nat n.
Proof.
  intros Hn. unfold malloc_cells. rewrite length_replicate, u64_small by lia.
  f_equal. rewrite Z.mul_comm. by apply Z.div_mul.
Qed.

Lemma store_middle {A} (l1 : list A) x y l2 :
  store (l1 ++ x :: l2) (length l1) y = Some (l1 ++ y :: l2).
Proof.
  unfold store. rewrite bool_decide_eq_true_2 by (rewrite length_app; cbn; lia).
  by rewrite insert_app_r_alt, Nat.sub_diag by lia.
Qed.

Lemma store_at {A} (l1 : list A) i x y l2 :
  i = length l1 -> store (l1 ++ x :: l2) i y = Some (l1 ++ y :: l2).
Proof. intros ->. apply store_middle. Qed.

Lemma load_middle (l1 : list (option ptr)) x l2 : load (l1 ++ Some x :: l2) (length l1) = Some x.
Proof. unfold load. by rewrite list_lookup_middle. Qed.

Lemma copy_cells_app xs1 xs2 rest dst1 dst2 :
  (length xs2 <= length dst2)%nat ->
  length dst1 = length xs1 ->
  copy_cells (length xs2) (length xs1) (xs1 ++ xs2 ++ rest) (dst1 ++ dst2) =
    Some (dst1 ++ xs2 ++ drop (length xs2) dst2).
Proof.
  revert xs1 dst1 dst2. induction xs2 as [|x xs2 IH]; intros xs1 dst1 dst2 Hl Hd; [done|].
  destruct dst2 as [|d dst2]; cbn in Hl; [lia|]. cbn [copy_cells length drop app].
  rewrite list_lookup_middle by done. cbn [mbind option_bind].
  rewrite <- Hd, store_middle, Hd; cbn [mbind option_bind].
  replace (S (length xs1)) with (length (xs1 ++ [x])) by (rewrite length_app; cbn; lia).
  replace (xs1 ++ x :: xs2 ++ rest) with ((xs1 ++ [x]) ++ xs2 ++ rest)
    by (by rewrite <- app_assoc).
  replace (dst1 ++ x :: dst2) with ((dst1 ++ [x]) ++ dst2) by (by rewrite <- app_assoc).
  rewrite IH by (rewrite ?length_app; cbn; lia). by rewrite <- app_assoc.
Qed.

(** After the growth test the block has a free cell and the same contents. *)
Lemma grow_rep a xs :
  arr_rep a xs -> Z.of_nat (length xs) < arr_max ->
  exists c rest cap,
    (if bool_decide (vector a = None) || bool_decide (capcity a <= asize a)
     then realloc_array a else Some a) =
      Some (mk_array (Some ((Some <$> xs) ++ c :: rest)) (Z.of_nat (length xs)) cap) /\
    cap = Z.of_nat (length xs + S (length rest)) /\ 0 < cap <= 2 * arr_max.
Proof.
  intros Hr Hlt. destruct Hr as [cap Hcap|xs rest cap Hc Hcap].
  - rewrite bool_decide_eq_true_2 by done. cbn [orb]. unfold realloc_array; cbn.
    set (cap' := if bool_decide (cap = 0) then MIN_ARRAY_CAPCITY else cap).
    assert (0 < cap' <= 2 * arr_max) as Hb.
    { unfold cap', MIN_ARRAY_CAPCITY, arr_max in *. case_bool_decide; lia. }
    assert (length (malloc_cells cap') = Z.to_nat cap') as Hl
      by (apply length_malloc_cells; unfold arr_max in *; lia).
    destruct (malloc_cells cap') as [|c rest] eqn:E; cbn in Hl; [lia|].
    exists c, rest, cap'. split_and!; [done|cbn; lia|lia|lia].
  - rewrite (bool_decide_eq_false_2 (vector _ = None)) by done. cbn [orb capcity asize].
    case_bool_decide as Hfull.
    + assert (rest = []) as ->. { destruct rest; [done|]. cbn in *. lia. }
      unfold realloc_array; cbn -[Z.shiftl].
      rewrite bool_decide_eq_true_2 by (unfold INT_MAX, arr_max in *; lia).
      rewrite Z.shiftl_mul_pow2, u64_small by (unfold arr_max in *; lia).
      rewrite Nat2Z.id.
      assert (length (malloc_cells (cap * 2 ^ 1)) = Z.to_nat (cap * 2)) as Hl
        by (apply length_malloc_cells; unfold arr_max in *; lia).
      pose proof (copy_cells_app [] (Some <$> xs) [] [] (malloc_cells (cap * 2 ^ 1))) as Hcp.
      rewrite length_fmap in Hcp. cbn [app length] in Hcp, Hc.
      rewrite Hcp by (rewrite ?Hl; done || lia). cbn [mbind option_bind].
      destruct (drop (length xs) (malloc_cells (cap * 2 ^ 1))) as [|c rest] eqn:E;
        apply (f_equal length) in E; rewrite length_drop, Hl in E; cbn in E;
        [cbn in Hc; lia|].
      exists c, rest, (cap * 2 ^ 1). split_and!; [done|cbn in Hc; lia|lia|].
      unfold arr_max in *; lia.
    + destruct rest as [|c rest]; cbn in *; [lia|]. exists c, rest, cap.
      split_and!; [done|lia|lia|lia].
Qed.

Lemma shift_up_app l1 c d rest :
  shift_up (length d) (length l1) (l1 ++ c :: d ++ rest) =
    Some (l1 ++ c :: replicate (length d) c ++ rest).
Proof.
  revert l1. induction d as [|y d IH]; intros l1; [done|].
  cbn [length shift_up app]. rewrite list_lookup_middle by done. cbn [mbind option_bind].
  replace (S (length l1)) with (length (l1 ++ [c])) by (rewrite length_app; cbn; lia).
  replace (l1 ++ c :: y :: d ++ rest) with ((l1 ++ [c]) ++ y :: d ++ rest)
    by (by rewrite <- app_assoc).
  rewrite store_middle. cbn [mbind option_bind]. rewrite IH. by rewrite <- app_assoc.
Qed.

Lemma shift_down_lhs l1 c xs rest :
  shift_down LhsFirst (length xs) (length l1) (l1 ++ c :: xs ++ rest) =
    Some (l1 ++ xs ++ default c (last xs) :: rest).
Proof.
  revert l1 c. induction xs as [|x xs IH]; intros l1 c; [done|].
  cbn [length shift_down app].
  assert ((l1 ++ c :: x :: xs ++ rest) !! S (length l1) = Some x) as ->.
  { rewrite lookup_app_r by lia. by replace (S (length l1) - length l1)%nat with 1%nat by lia. }
  cbn [mbind option_bind]. rewrite store_middle. cbn [mbind option_bind].
  replace (S (length l1)) with (length (l1 ++ [x])) by (rewrite length_app; cbn; lia).
  replace (l1 ++ x :: x :: xs ++ rest) with ((l1 ++ [x]) ++ x :: xs ++ rest)
    by (by rewrite <- app_assoc).
  rewrite IH, <- app_assoc; cbn [app]. rewrite last_cons. by destruct (last xs).
Qed.

Lemma shift_down_rhs n i v :
  (S (i + n) <= length v)%nat -> shift_down RhsFirst n i v = Some v.
Proof.
  revert i. induction n as [|n IH]; intros i Hl; [done|]. cbn [shift_down].
  destruct (lookup_lt_is_Some_2 v (S i)) as [c Hc]; [lia|].
  rewrite Hc. cbn [mbind option_bind]. unfold store.
  rewrite bool_decide_eq_true_2 by lia. cbn [mbind option_bind].
  rewrite list_insert_id by done. apply IH. lia.
Qed.

(** ** The operations on sequences *)
Section rep.
Context (a : array_t) (xs : list ptr) (Hr : arr_rep a xs).

Lemma array_insert_end e :
  Z.of_nat (length xs) < arr_max ->
  exists a', array_insert a (Z.of_nat (length xs)) e = Some (0, a') /\
    arr_rep a' (xs ++ [e]).
Proof.
  intros Hlt. unfold array_insert. rewrite (arr_rep_size a xs Hr).
  rewrite bool_decide_eq_false_2 by lia.
  destruct (grow_rep a xs Hr Hlt) as (c & rest & cap & E & Hc & Hb).
  rewrite (arr_rep_size a xs Hr) in E. rewrite E; cbn [mbind option_bind vector asize].
  rewrite Z.sub_diag, Nat2Z.id. change (Z.to_nat 0) with 0%nat.
  cbn [shift_up mbind option_bind].
  rewrite store_at by (by rewrite length_fmap). cbn [mbind option_bind].
  rewrite u64_small by (unfold arr_max in *; lia).
  eexists; split; [done|].
  replace ((Some <$> xs) ++ Some e :: rest) with ((Some <$> (xs ++ [e])) ++ rest)
    by (by rewrite fmap_app, <- app_assoc).
  replace (Z.of_nat (length xs) + 1) with (Z.of_nat (length (xs ++ [e])))
    by (rewrite length_app; cbn; lia).
  constructor; rewrite ?length_app; cbn; lia.
Qed.

(** Insertion in the middle: every element from [idx] on is overwritten by the one
    at [idx]. *)
Lemma array_insert_mid l1 x l2 e :
  xs = l1 ++ x :: l2 -> Z.of_nat (length xs) < arr_max ->
  exists a', array_insert a (Z.of_nat (length l1)) e = Some (0, a') /\
    arr_rep a' (l1 ++ e :: x :: replicate (length l2) x).
Proof.
  intros Hxs Hlt. unfold array_insert. rewrite (arr_rep_size a xs Hr).
  assert (length xs = length l1 + S (length l2))%nat as Hlen
    by (rewrite Hxs, length_app; cbn; lia).
  rewrite bool_decide_eq_false_2 by lia.
  destruct (grow_rep a xs Hr Hlt) as (c & rest & cap & E & Hc & Hb).
  rewrite (arr_rep_size a xs Hr) in E. rewrite E; cbn [mbind option_bind vector asize].
  replace (Z.to_nat (Z.of_nat (length xs) - Z.of_nat (length l1)))
    with (S (length l2)) by lia.
  rewrite Nat2Z.id, Hxs, fmap_app, fmap_cons, <- app_assoc; cbn [app].
  pose proof (shift_up_app (Some <$> l1) (Some x) ((Some <$> l2) ++ [c]) rest) as Hup.
  rewrite length_app, !length_fmap, <- app_assoc in Hup. cbn [length app] in Hup.
  rewrite Nat.add_1_r in Hup. rewrite Hup. cbn [mbind option_bind].
  rewrite store_at by (by rewrite length_fmap). cbn [mbind option_bind].
  rewrite <- Hxs, Hlen, u64_small by (unfold arr_max in *; lia). cbn [capcity].
  eexists; split; [done|].
  assert ((Some <$> l1) ++ Some e :: replicate (S (length l2)) (Some x) ++ rest =
    (Some <$> (l1 ++ e :: replicate (S (length l2)) x)) ++ rest) as ->.
  { by rewrite fmap_app, fmap_cons, fmap_replicate, <- app_assoc. }
  replace (Z.of_nat (length l1 + S (length l2)) + 1)
    with (Z.of_nat (length (l1 ++ e :: replicate (S (length l2)) x)))
    by (rewrite length_app, length_cons, length_replicate; lia).
  change (x :: replicate (length l2) x) with (replicate (S (length l2)) x).
  constructor; [|lia]. rewrite length_app, length_cons, length_replicate.
  rewrite Hc, Hlen. lia.
Qed.

Lemma array_insert_beyond idx e :
  Z.of_nat (length xs) < idx -> array_insert a idx e = Some (-1, a).
Proof.
  intros Hi. unfold array_insert. rewrite (arr_rep_size a xs Hr).
  by rewrite bool_decide_eq_true_2 by lia.
Qed.

Lemma array_get_rep i :
  array_get a (Z.of_nat i) = Some (default NULL (xs !! i)).
Proof.
  unfold array_get. rewrite (arr_rep_size a xs Hr). case_bool_decide as Hi.
  - by rewrite lookup_ge_None_2 by lia.
  - destruct Hr as [|ys rest cap Hc Hb]; [cbn in Hi; lia|]. cbn [vector mbind option_bind].
    rewrite Nat2Z.id. unfold load.
    destruct (lookup_lt_is_Some_2 ys i) as [x Hx]; [lia|].
    rewrite lookup_app_l by (rewrite length_fmap; lia).
    by rewrite list_lookup_fmap, Hx.
Qed.

Lemma array_put_rep i e :
  (i < length xs)%nat ->
  exists a', array_put a (Z.of_nat i) e = Some (0, a') /\ arr_rep a' (<[i := e]> xs).
Proof.
  intros Hi. unfold array_put, array_size. rewrite (arr_rep_size a xs Hr).
  rewrite bool_decide_eq_true_2 by lia.
  destruct Hr as [|ys rest cap Hc Hb]; [cbn in Hi; lia|]. cbn [vector mbind option_bind].
  rewrite Nat2Z.id. unfold store. rewrite bool_decide_eq_true_2
    by (rewrite length_app, length_fmap; lia). cbn [mbind option_bind asize capcity].
  rewrite insert_app_l by (rewrite length_fmap; lia). rewrite <- list_fmap_insert.
  eexists; split; [done|].
  replace (Z.of_nat (length ys)) with (Z.of_nat (length (<[i := e]> ys)))
    by (by rewrite length_insert).
  constructor; rewrite ?length_insert; lia.
Qed.

Lemma array_put_beyond idx e :
  Z.of_nat (length xs) <= idx -> array_put a idx e = Some (-1, a).
Proof.
  intros Hi. unfold array_put, array_size. rewrite (arr_rep_size a xs Hr).
  by rewrite bool_decide_eq_false_2 by lia.
Qed.

(** Deletion under each evaluation order of [vector[idx] = vector[++idx]]. *)
Lemma array_del_rep o l1 x l2 :
  xs = l1 ++ x :: l2 ->
  exists a', array_del o a (Z.of_nat (length l1)) = Some (x, a') /\
    arr_rep a' (match o with LhsFirst => l1 ++ l2
                | RhsFirst => removelast (l1 ++ x :: l2) end).
Proof.
  intros Hxs. unfold array_del. rewrite (arr_rep_size a xs Hr).
  assert (length xs = length l1 + S (length l2))%nat as Hlen
    by (rewrite Hxs, length_app; cbn; lia).
  rewrite bool_decide_eq_false_2 by lia.
  destruct Hr as [|ys rest cap Hc Hb]; [cbn in Hlen; lia|].
  cbn [vector mbind option_bind asize capcity].
  rewrite Nat2Z.id, Hlen.
  replace (Z.to_nat (Z.of_nat (length l1 + S (length l2)) - 1 - Z.of_nat (length l1)))
    with (length l2) by lia.
  rewrite Hxs, fmap_app, fmap_cons, <- app_assoc; cbn [app].
  pose proof (load_middle (Some <$> l1) x ((Some <$> l2) ++ rest)) as Hld.
  rewrite length_fmap in Hld. rewrite Hld. cbn [mbind option_bind].
  assert (exists ys' r, shift_down o (length l2) (length l1)
      ((Some <$> l1) ++ Some x :: (Some <$> l2) ++ rest) =
      Some ((Some <$> (match o with LhsFirst => l1 ++ l2
                | RhsFirst => removelast (l1 ++ x :: l2) end)) ++ r :: rest) /\
      length (match o with LhsFirst => l1 ++ l2
                | RhsFirst => removelast (l1 ++ x :: l2) end) = ys' /\
      ys' = (length l1 + length l2)%nat) as (n & r & Hsd & Hn & Hn').
  { destruct o.
    - pose proof (shift_down_lhs (Some <$> l1) (Some x) (Some <$> l2) rest) as H.
      rewrite !length_fmap in H. rewrite H. do 2 eexists.
      rewrite fmap_app, <- app_assoc. split_and!; [done|done|by rewrite length_app].
    - rewrite shift_down_rhs
        by (rewrite length_app, length_fmap; cbn; rewrite length_app, length_fmap; lia).
      destruct (last_Some_snoc_or_nil (x :: l2)) as [|(ks & k & Hk)]; [done|].
      assert (length l2 = length ks) as Hlk
        by (apply (f_equal length) in Hk; rewrite length_app in Hk; cbn in Hk; lia).
      exists (length l1 + length ks)%nat, (Some k).
      rewrite Hk, app_assoc, removelast_last. split_and!; [|by rewrite length_app|lia].
      change (Some x :: (Some <$> l2) ++ rest) with ((Some <$> (x :: l2)) ++ rest).
      by rewrite Hk, !fmap_app, <- !app_assoc. }
  rewrite Hsd. cbn [mbind option_bind].
  replace (Z.of_nat (length l1 + S (length l2)) - 1) with (Z.of_nat n) by lia.
  eexists; split; [done|]. rewrite <- Hn. constructor; [|lia].
  rewrite Hn. rewrite Hc, Hlen. cbn. lia.
Qed.

Lemma array_del_beyond o idx :
  Z.of_nat (length xs) <= idx -> array_del o a idx = Some (NULL, a).
Proof.
  intros Hi. unfold array_del. rewrite (arr_rep_size a xs Hr).
  by rewrite bool_decide_eq_true_2 by lia.
Qed.
End rep.

(** ** Properties *)
(** The calls the library makes: append, replace, read, remove the last, destroy. *)
Inductive arr_op :=
| ArrAppend (e : ptr) | ArrPut (i : nat) (e : ptr) | ArrGet (i : nat) | ArrPop | ArrDestroy.

Definition run_arr (o : eval_order) (op : arr_op) (a : array_t) : option (Z * array_t) :=
  match op with
  | ArrAppend e => array_insert a (array_size a) e
  | ArrPut i e => array_put a (Z.of_nat i) e
  | ArrGet i => x ← array_get a (Z.of_nat i); Some (x, a)
  | ArrPop => array_del o a (u64 (array_size a - 1))
  | ArrDestroy => Some (0, array_destory a)
  end.

Definition spec_arr (op : arr_op) (xs : list ptr) : Z * list ptr :=
  match op with
  | ArrAppend e => (0, xs ++ [e])
  | ArrPut i e => if bool_decide (i < length xs)%nat then (0, <[i := e]> xs) else (-1, xs)
  | ArrGet i => (default NULL (xs !! i), xs)
  | ArrPop => (default NULL (last xs), removelast xs)
  | ArrDestroy => (0, [])
  end.

Fixpoint run_arrs (o : eval_order) (ops : list arr_op) (a : array_t)
    : option (list Z * array_t) :=
  match ops with
  | [] => Some ([], a)
  | op :: ops =>
      '(r, a) ← run_arr o op a;
      '(rs, a) ← run_arrs o ops a;
      Some (r :: rs, a)
  end.

Fixpoint spec_arrs (ops : list arr_op) (xs : list ptr) : list Z * list ptr :=
  match ops with
  | [] => ([], xs)
  | op :: ops =>
      let '(r, xs) := spec_arr op xs in
      let '(rs, xs) := spec_arrs ops xs in
      (r :: rs, xs)
  end.

Lemma array_pop_rep o a xs :
  arr_rep a xs -> Z.of_nat (length xs) <= arr_max ->
  exists a', array_del o a (u64 (array_size a - 1)) = Some (default NULL (last xs), a') /\
    arr_rep a' (removelast xs).
Proof.
  intros Hr Hb. unfold array_size. rewrite (arr_rep_size a xs Hr).
  destruct (last_Some_snoc_or_nil xs) as [->|(ys & y & ->)].
  - exists a. split; [|done]. by apply (array_del_beyond a [] Hr).
  - rewrite last_snoc, removelast_last, length_app in *. cbn [length default] in *.
    rewrite u64_small by (unfold arr_max in *; lia).
    replace (Z.of_nat (length ys + 1) - 1) with (Z.of_nat (length ys)) by lia.
    destruct (array_del_rep a (ys ++ [y]) Hr o ys y [] eq_refl) as (a' & E & Hr').
    exists a'. split; [done|]. destruct o; [by rewrite app_nil_r in Hr'|].
    by rewrite removelast_last in Hr'.
Qed.

Lemma run_arr_refines o op a xs :
  arr_rep a xs -> Z.of_nat (length xs) < arr_max ->
  exists a', run_arr o op a = Some (fst (spec_arr op xs), a') /\
    arr_rep a' (snd (spec_arr op xs)).
Proof.
  intros Hr Hb. destruct op as [e|i e|i| |]; cbn [run_arr spec_arr fst snd].
  - unfold array_size. rewrite (arr_rep_size a xs Hr). by apply array_insert_end.
  - case_bool_decide as Hi; [by apply array_put_rep|].
    exists a. split; [|done]. apply (array_put_beyond a xs Hr). lia.
  - rewrite (array_get_rep a xs Hr). by exists a.
  - apply array_pop_rep; [done|lia].
  - eexists; split; [done|]. apply rep_null. unfold arr_max; lia.
Qed.

Lemma spec_arr_length op xs : (length (snd (spec_arr op xs)) <= S (length xs))%nat.
Proof.
  destruct op; cbn; try case_bool_decide; cbn; rewrite ?length_app, ?length_insert; cbn; try lia.
  destruct (last_Some_snoc_or_nil xs) as [->|(ys & y & ->)]; cbn; [lia|].
  rewrite removelast_last, length_app; cbn. lia.
Qed.

Lemma run_arrs_refines o ops a xs :
  arr_rep a xs -> Z.of_nat (length xs + length ops) <= arr_max ->
  exists a', run_arrs o ops a = Some (fst (spec_arrs ops xs), a') /\
    arr_rep a' (snd (spec_arrs ops xs)).
Proof.
  revert a xs. induction ops as [|op ops IH]; intros a xs Hr Hb; cbn in *; [by eauto|].
  destruct (run_arr_refines o op a xs Hr) as (a1 & -> & Hr1); [lia|].
  cbn [mbind option_bind]. pose proof (spec_arr_length op xs) as Hl.
  destruct (spec_arr op xs) as [r xs1]; cbn [fst snd] in *.
  destruct (IH a1 xs1 Hr1) as (a2 & -> & Hr2); [lia|].
  destruct (spec_arrs ops xs1) as [rs xs2]; cbn in *. by exists a2.
Qed.

(** Every sequence of appends, replacements, reads, removals of the last element
    and destructions, started on an initialised array, stays inside the allocated
    block, reads no indeterminate cell and returns what the calls return on a
    sequence, across all reallocations and under either evaluation order of the
    deletion loop. The bound keeps the capacity far from wrapping. *)
Theorem array_refines (o : eval_order) (ops : list arr_op) (a : array_t) :
  Z.of_nat (length ops) <= arr_max ->
  exists a', run_arrs o ops (snd (array_init a)) = Some (fst (spec_arrs ops []), a') /\
    arr_rep a' (snd (spec_arrs ops [])).
Proof.
  intros Hb. apply run_arrs_refines; [|done]. apply rep_null. unfold arr_max; lia.
Qed.

Lemma array_refines_witness :
  exists a', run_arrs RhsFirst [ArrAppend 4; ArrAppend 5; ArrPut 0 6; ArrPop; ArrGet 0; ArrGet 1]
      (snd (array_init (mk_array None 3 9))) = Some ([0; 0; 0; 5; 6; 0], a') /\
    arr_rep a' [6].
Proof.
  apply (array_refines RhsFirst
    [ArrAppend 4; ArrAppend 5; ArrPut 0 6; ArrPop; ArrGet 0; ArrGet 1] (mk_array None 3 9)).
  unfold arr_max. cbn. lia.
Defined.

(** [array_insert] before the end does not shift: its loop copies upwards, so the
    element at the insertion point overwrites every element after it. The result has
    the right length and the new element, but the tail [l2] is lost whenever it differs
    from copies of [x]. *)
Theorem array_insert_duplicates (a : array_t) (l1 : list ptr) (x : ptr) (l2 : list ptr) (e : ptr) :
  arr_rep a (l1 ++ x :: l2) -> Z.of_nat (length (l1 ++ x :: l2)) < arr_max ->
  exists a', array_insert a (Z.of_nat (length l1)) e = Some (0, a') /\
    arr_rep a' (l1 ++ e :: x :: replicate (length l2) x) /\
    (arr_rep a' (l1 ++ e :: x :: l2) -> l2 = replicate (length l2) x).
Proof.
  intros Hr Hb.
  destruct (array_insert_mid a (l1 ++ x :: l2) Hr l1 x l2 e eq_refl Hb) as (a' & E & Hr').
  exists a'. split_and!; [done|done|]. intros Hr2.
  pose proof (arr_rep_inj _ _ _ Hr2 Hr') as He.
  apply app_inj_1 in He as [_ He]; [|done]. by injection He.
Qed.

Lemma array_insert_duplicates_witness :
  exists a', array_insert (mk_array (Some [Some 7; Some 8; None]) 2 3) 0 9 = Some (0, a') /\
    arr_rep a' [9; 7; 7] /\ (arr_rep a' [9; 7; 8] -> [8] = [7]).
Proof.
  apply (array_insert_duplicates (mk_array (Some [Some 7; Some 8; None]) 2 3) [] 7 [8] 9).
  - apply (rep_vec [7; 8] [None] 3); [done|unfold arr_max; lia].
  - unfold arr_max. cbn. lia.
Defined.

(** [array_del] removes the element at [idx] only if the left operand of
    [vector[idx] = vector[++idx]] is evaluated first; in the other order, which C also
    allows, each step copies a cell to itself and the last element is dropped
    instead. On the last element, the only one the library deletes, the orders agree. *)
Theorem array_del_orders (a : array_t) (l1 : list ptr) (x : ptr) (l2 : list ptr) :
  arr_rep a (l1 ++ x :: l2) ->
  exists a1 a2,
    array_del LhsFirst a (Z.of_nat (length l1)) = Some (x, a1) /\ arr_rep a1 (l1 ++ l2) /\
    array_del RhsFirst a (Z.of_nat (length l1)) = Some (x, a2) /\
    arr_rep a2 (removelast (l1 ++ x :: l2)) /\
    (l2 = [] -> arr_rep a2 (l1 ++ l2)).
Proof.
  intros Hr.
  destruct (array_del_rep a _ Hr LhsFirst l1 x l2 eq_refl) as (a1 & E1 & Hr1).
  destruct (array_del_rep a _ Hr RhsFirst l1 x l2 eq_refl) as (a2 & E2 & Hr2).
  exists a1, a2. split_and!; try done. intros ->.
  by rewrite removelast_last in Hr2; rewrite app_nil_r.
Qed.

Lemma array_del_orders_witness :
  exists a1 a2,
    array_del LhsFirst (mk_array (Some [Some 7; Some 8]) 2 2) 0 = Some (7, a1) /\
    arr_rep a1 [8] /\
    array_del RhsFirst (mk_array (Some [Some 7; Some 8]) 2 2) 0 = Some (7, a2) /\
    arr_rep a2 [7] /\ ([8] = [] -> arr_rep a2 [8]).
Proof.
  apply (array_del_orders (mk_array (Some [Some 7; Some 8]) 2 2) [] 7 [8]).
  apply (rep_vec [7; 8] [] 2); [done|unfold arr_max; lia].
Defined.
