(* ===== verification/Heap.v ===== *)
(** * heap.c: the binary heap over [array_t]

    The operations are written on the array as the code has them, then shown to compute
    [heapify_l] and [fixup_l] on the sequence of elements; heap order and
    permutation are proved there. [cmp l r] is the comparator's truth value, "l goes
    above r"; the theorems ask that it is a strict weak order ([StrictWeak]), as the
    comparator of the id allocator is. *)
From stdpp Require Import sorting.
From S2P Require Import Prelude Interfaces Array.
Local Open Scope Z_scope.

(** [struct _heap_st { array_t array; comp_t cmp; }] *)
Record heap_t := mk_heap { harray : array_t; cmp : ptr -> ptr -> bool }.

Definition with_array (hp : heap_t) (a : array_t) : heap_t := mk_heap a (cmp hp).

(** [_default_cmp]: [if(first > second) return 0; return 1;] on addresses. *)
Definition _default_cmp (first second : ptr) : bool := negb (bool_decide (first > second)).

(** [heap_init(hp, comp)] *)
Definition heap_init (hp : heap_t) (comp : option (ptr -> ptr -> bool)) : heap_t :=
  mk_heap (snd (array_init (harray hp))) (default _default_cmp comp).

(** [heap_destory(hp)]; the comparator is reset to null and never called again. *)
Definition heap_destory (hp : heap_t) : heap_t :=
  mk_heap (array_destory (harray hp)) (cmp hp).

(** The macros. [parent] is always applied to [heap_size(hp) - 1], a [size_t], and its
    result stored in an [int]. *)
Definition heap_size (hp : heap_t) : Z := array_size (harray hp).
Definition parent_of_last (hp : heap_t) : Z :=
  let idx := u64 (heap_size hp - 1) in
  i32 (if bool_decide (idx <= 0) then 0 else Z.shiftr (u64 (idx - 1)) 1).
Definition left_child (idx : Z) : Z := i32 (Z.shiftl idx 1 + 1).
Definition right_child (idx : Z) : Z := i32 (Z.shiftl idx 1 + 2).
Definition heap_get (hp : heap_t) (idx : Z) : option ptr := array_get (harray hp) (u64 idx).
Definition heap_put (hp : heap_t) (idx : Z) (elm : ptr) : option heap_t :=
  '(_, a) ← array_put (harray hp) (u64 idx) elm; Some (with_array hp a).

Definition swap (h : heap_t) (l r : Z) : option heap_t :=
  tmp ← heap_get h l;
  x ← heap_get h r;
  h ← heap_put h l x;
  heap_put h r tmp.

(** Returns the index that the root's element moved to (or [0] past the end). *)
Definition heapify (hp : heap_t) (root : Z) : option (Z * heap_t) :=
  let size := i32 (heap_size hp) in
  if negb (bool_decide (root < size)) then Some (0, hp) else
  let left := if bool_decide (left_child root < size) then left_child root else -1 in
  let right := if bool_decide (right_child root < size) then right_child root else -1 in
  max ← (if bool_decide (left > 0) then
           x ← heap_get hp left; y ← heap_get hp root;
           Some (if cmp hp x y then left else root)
         else Some root);
  max ← (if bool_decide (right > 0) then
           x ← heap_get hp right; y ← heap_get hp max;
           Some (if cmp hp x y then right else max)
         else Some max);
  hp ← (if bool_decide (max ≠ root) then swap hp max root else Some hp);
  Some (max, hp).

(** [for(; start >= 0; start--) heapify(hp, start);], [n] iterations from [n - 1]. *)
Fixpoint fixup_loop (n : nat) (hp : heap_t) : option heap_t :=
  match n with
  | O => Some hp
  | S n => '(_, hp) ← heapify hp (Z.of_nat n); fixup_loop n hp
  end.

Definition heap_fixup (hp : heap_t) : option (Z * heap_t) :=
  hp ← fixup_loop (Z.to_nat (parent_of_last hp + 1)) hp; Some (0, hp).

(** [while(root <= stop) { max = heapify(hp, root); if(max == root) break; root = max; }] *)
Fixpoint fixdown_loop (fuel : nat) (stop root : Z) (hp : heap_t) : option heap_t :=
  if bool_decide (root <= stop) then
    match fuel with
    | O => None
    | S fuel =>
        '(max, hp) ← heapify hp root;
        if bool_decide (max = root) then Some hp else fixdown_loop fuel stop max hp
    end
  else Some hp.

Definition heap_fixdown (hp : heap_t) : option (Z * heap_t) :=
  hp ← fixdown_loop (S (Z.to_nat (heap_size hp))) (parent_of_last hp) 0 hp; Some (0, hp).

Definition heap_push (hp : heap_t) (elm : ptr) : option (Z * heap_t) :=
  '(_, a) ← array_insert (harray hp) (heap_size hp) elm;
  heap_fixup (with_array hp a).

(** The removed element is the out parameter [*elm]; [None] when it is not written. *)
Definition heap_pop (o : eval_order) (hp : heap_t) : option (Z * option ptr * heap_t) :=
  if bool_decide (heap_size hp = 0) then Some (-1, None, hp) else
  elm ← heap_get hp 0;
  '(x, a) ← array_del o (harray hp) (u64 (heap_size hp - 1));
  hp ← heap_put (with_array hp a) 0 x;
  '(_, hp) ← heap_fixdown hp;
  Some (0, Some elm, hp).

(** ** The same operations on sequences *)
Section lists.
Context (lt : ptr -> ptr -> bool).
Implicit Types xs : list ptr.

Definition get xs (i : nat) : ptr := default NULL (xs !! i).
Definition swap_l xs (i j : nat) : list ptr := <[j := get xs i]> (<[i := get xs j]> xs).

Definition heapify_m xs (r : nat) : nat :=
  let l := (2 * r + 1)%nat in
  let rt := (2 * r + 2)%nat in
  let m := if bool_decide (l < length xs)%nat && lt (get xs l) (get xs r) then l else r in
  if bool_decide (rt < length xs)%nat && lt (get xs rt) (get xs m) then rt else m.

Definition heapify_l xs (r : nat) : list ptr := swap_l xs (heapify_m xs r) r.

Fixpoint fixup_l (n : nat) xs : list ptr :=
  match n with O => xs | S n => fixup_l n (heapify_l xs n) end.

(** [par i] is the parent of node [i]; a heap orders every node below its parent. *)
Definition par (i : nat) : nat := ((i - 1) / 2)%nat.
Definition le (x y : ptr) : Prop := lt y x = false.
Definition ok xs (i : nat) : Prop := le (get xs (par i)) (get xs i).
Definition heap_ord xs : Prop := forall i, (0 < i < length xs)%nat -> ok xs i.
End lists.

#[export] Instance le_dec lt x y : Decision (le lt x y).
Proof. unfold le. apply _. Defined.
#[export] Instance ok_dec lt xs i : Decision (ok lt xs i).
Proof. unfold ok. apply _. Defined.

Class StrictWeak (lt : ptr -> ptr -> bool) := {
  sw_asym x y : lt x y = true -> lt y x = false;
  sw_ntrans x y z : lt x y = false -> lt y z = false -> lt x z = false
}.

Lemma par_child i r :
  (0 < i)%nat -> par i = r <-> (i = 2 * r + 1 \/ i = 2 * r + 2)%nat.
Proof. intros. unfold par. pose proof (Nat.div_mod_eq (i - 1) 2).
  pose proof (Nat.mod_upper_bound (i - 1) 2). lia. Qed.

Lemma par_lt i : (0 < i)%nat -> (par i < i)%nat.
Proof. intros. unfold par. apply Nat.Div0.div_lt_upper_bound. lia. Qed.

(** ** Swaps *)
Section swaps.
Implicit Types xs : list ptr.

Lemma get_lt xs i : (i < length xs)%nat -> xs !! i = Some (get xs i).
Proof. intros [x Hx]%lookup_lt_is_Some_2. unfold get. by rewrite Hx. Qed.

Lemma length_swap_l xs i j : length (swap_l xs i j) = length xs.
Proof. unfold swap_l. by rewrite !length_insert. Qed.

Lemma get_swap_l xs i j k :
  (i < length xs)%nat -> (j < length xs)%nat ->
  get (swap_l xs i j) k =
    if decide (k = i) then get xs j else if decide (k = j) then get xs i else get xs k.
Proof.
  intros Hi Hj. unfold swap_l, get at 1.
  destruct (decide (k = j)) as [->|Hkj].
  - rewrite list_lookup_insert_eq by (by rewrite length_insert). cbn. by_decide.
  - rewrite list_lookup_insert_ne by done. destruct (decide (k = i)) as [->|Hki].
    + by rewrite list_lookup_insert_eq.
    + by rewrite list_lookup_insert_ne.
Qed.

Lemma swap_l_same xs i : (i < length xs)%nat -> swap_l xs i i = xs.
Proof.
  intros Hi. unfold swap_l. rewrite list_insert_insert_eq.
  apply list_insert_id. by apply get_lt.
Qed.

Lemma swap_l_perm xs i j :
  (i < length xs)%nat -> (j < length xs)%nat -> swap_l xs i j ≡ₚ xs.
Proof.
  intros Hi Hj. destruct (decide (i = j)) as [->|Hne]; [by rewrite swap_l_same|].
  apply Permutation_inj. split; [apply length_swap_l|].
  exists (fun k => if decide (k = i) then j else if decide (k = j) then i else k). split.
  - intros k1 k2. repeat case_decide; congruence.
  - intros k. unfold swap_l. destruct (decide (k = j)) as [->|Hkj].
    + rewrite list_lookup_insert_eq by (by rewrite length_insert).
      rewrite decide_False by congruence. by rewrite get_lt.
    + rewrite list_lookup_insert_ne by done. destruct (decide (k = i)) as [->|Hki].
      * by rewrite list_lookup_insert_eq, get_lt.
      * by rewrite list_lookup_insert_ne.
Qed.
End swaps.

(** ** Heap order *)
Section order.
Context (lt : ptr -> ptr -> bool) `{SW : !StrictWeak lt}.
Implicit Types xs : list ptr.
Local Abbreviation le := (le lt).
Local Abbreviation ok := (ok lt).
Local Abbreviation heap_ord := (heap_ord lt).
Local Abbreviation heapify_m := (heapify_m lt).
Local Abbreviation heapify_l := (heapify_l lt).
Local Abbreviation fixup_l := (fixup_l lt).

Lemma le_refl x : le x x.
Proof. unfold Heap.le. destruct (lt x x) eqn:E; [|done].
  apply sw_asym in E as E'. congruence. Qed.
Lemma le_trans x y z : le x y -> le y z -> le x z.
Proof. unfold Heap.le. intros H1 H2. by eapply sw_ntrans. Qed.
Lemma lt_le x y : lt x y = true -> le x y.
Proof. apply sw_asym. Qed.

(** What one [heapify] step picks: the root or a strictly better child, no worse than
    any of the three. *)
Lemma heapify_m_spec xs r :
  (r < length xs)%nat ->
  let m := heapify_m xs r in
  (m < length xs)%nat /\
  (m = r \/ (0 < m)%nat /\ par m = r /\ lt (get xs m) (get xs r) = true) /\
  (forall i, (0 < i < length xs)%nat -> par i = r -> le (get xs m) (get xs i)).
Proof.
  intros Hr. unfold Heap.heapify_m.
  set (l := (2 * r + 1)%nat). set (rt := (2 * r + 2)%nat).
  set (m1 := if bool_decide (l < length xs)%nat && lt (get xs l) (get xs r) then l else r).
  assert ((m1 < length xs)%nat /\
    (m1 = r \/ m1 = l /\ lt (get xs l) (get xs r) = true) /\
    ((l < length xs)%nat -> le (get xs m1) (get xs l))) as (Hm1 & Hc1 & Hl1).
  { unfold m1. case_bool_decide; cbn [andb]; [|split_and!; [done|by left|lia]].
    destruct (lt (get xs l) (get xs r)) eqn:E; split_and!; auto using le_refl. }
  case_bool_decide as Hrt; cbn [andb].
  - destruct (lt (get xs rt) (get xs m1)) eqn:E.
    + split; [done|]. split.
      * right. split_and!; [unfold rt; lia|apply par_child; unfold rt; lia|].
        destruct Hc1 as [->|[-> Hlt]]; [done|].
        destruct (lt (get xs rt) (get xs r)) eqn:E2; [done|].
        exfalso. assert (lt (get xs rt) (get xs l) = false) as E3; [|congruence].
        eapply sw_ntrans; [exact E2|by apply sw_asym].
      * intros i Hi Hp. apply par_child in Hp as [->| ->]; [|apply le_refl|lia].
        fold l. eapply le_trans; [by apply lt_le|]. apply Hl1. unfold l, rt in *; lia.
    + split; [done|]. split.
      * destruct Hc1 as [->|[-> ?]]; [by left|right].
        split_and!; [unfold l; lia|apply par_child; unfold l; lia|done].
      * intros i Hi Hp. apply par_child in Hp as [->| ->]; [apply Hl1; unfold l; lia|done|lia].
  - split; [done|]. split.
    + destruct Hc1 as [->|[-> ?]]; [by left|right].
      split_and!; [unfold l; lia|apply par_child; unfold l; lia|done].
    + intros i Hi Hp. apply par_child in Hp as [->| ->]; [apply Hl1; unfold l; lia|unfold rt in *; lia|lia].
Qed.

Lemma length_heapify_l xs r : length (heapify_l xs r) = length xs.
Proof. apply length_swap_l. Qed.

Lemma heapify_l_perm xs r : (r < length xs)%nat -> heapify_l xs r ≡ₚ xs.
Proof.
  intros Hr. destruct (heapify_m_spec xs r Hr) as [Hm _]. by apply swap_l_perm.
Qed.

(** A root that is no worse than its children stays. *)
Lemma heapify_stay xs r :
  (r < length xs)%nat ->
  (forall i, (0 < i < length xs)%nat -> par i = r -> le (get xs r) (get xs i)) ->
  heapify_m xs r = r /\ heapify_l xs r = xs.
Proof.
  intros Hr Hle. destruct (heapify_m_spec xs r Hr) as (Hm & [E|(Hm0 & Hp & Hlt)] & _).
  - split; [done|]. unfold Heap.heapify_l. rewrite E. by apply swap_l_same.
  - specialize (Hle _ (conj Hm0 Hm) Hp). unfold Heap.le in Hle. congruence.
Qed.

(** *** Sift up: the edge above [c] may be broken, nothing else. *)
Definition up_inv (s : nat) xs : Prop :=
  exists c, (c < length xs)%nat /\
    (forall i, (0 < i < length xs)%nat -> i <> c -> ok xs i) /\
    (forall i, (0 < i < length xs)%nat -> (0 < c)%nat -> par i = c ->
       le (get xs (par c)) (get xs i)) /\
    (c = 0%nat \/ (par c < s)%nat \/ ok xs c).

Lemma up_child xs c r i :
  (forall i, (0 < i < length xs)%nat -> i <> c -> ok xs i) -> (0 < i < length xs)%nat -> par i = r ->
  (i <> c \/ ok xs c) -> le (get xs r) (get xs i).
Proof.
  intros Hok Hi Hp [Hne|Ho]; [rewrite <- Hp; by apply Hok|].
  destruct (decide (i = c)) as [->|Hne]; rewrite <- Hp; [done|by apply Hok].
Qed.

(** The broken edge is below [r]: the step moves it up. *)
Lemma up_inv_move r xs c :
  (r < length xs)%nat -> (c < length xs)%nat -> (forall i, (0 < i < length xs)%nat -> i <> c -> ok xs i) ->
  (forall i, (0 < i < length xs)%nat -> (0 < c)%nat -> par i = c -> le (get xs (par c)) (get xs i)) ->
  par c = r -> (0 < c)%nat -> ~ ok xs c -> up_inv r (heapify_l xs r).
Proof.
  intros Hr Hc Hok Hgp Hpc Hc0 Hnok.
  destruct (heapify_m_spec xs r Hr) as (Hm & Hmc & Hmin).
  assert (heapify_m xs r = c) as Em.
  { destruct Hmc as [E|(Hm0 & Hp & Hlt)].
    - exfalso. apply Hnok. rewrite E in Hmin. unfold Heap.ok. rewrite Hpc. by apply Hmin.
    - destruct (decide (heapify_m xs r = c)) as [|Hne]; [done|]. exfalso.
      assert (le (get xs r) (get xs (heapify_m xs r))) as Hle
        by (apply (up_child xs c); [done|lia|done|by left]).
      unfold Heap.le in Hle. congruence. }
  rewrite Em in *. destruct Hmc as [->|(_ & _ & Hlt)]; [rewrite Hpc in *;
    exfalso; apply par_lt in Hc0; lia|].
  assert (r < c)%nat as Hrc by (rewrite <- Hpc; by apply par_lt).
  unfold Heap.heapify_l. rewrite Em.
  assert (forall i, get (swap_l xs c r) i = if decide (i = c) then get xs r
            else if decide (i = r) then get xs c else get xs i) as G
    by (intros; by apply get_swap_l).
  exists r. rewrite length_swap_l. split_and!; [done|..].
  - intros i Hi Hne. unfold Heap.ok. rewrite !G.
    pose proof (par_lt i (proj1 Hi)) as Hpi.
    destruct (decide (i = c)) as [->|Hic].
    { rewrite Hpc, decide_False, decide_True by lia. by apply lt_le. }
    rewrite (decide_False (P := i = r)) by done.
    destruct (decide (par i = c)) as [Hp|Hp].
    { rewrite <- Hpc. by apply Hgp. }
    destruct (decide (par i = r)) as [Hp2|Hp2]; [by apply Hmin|]. by apply Hok.
  - intros i Hi Hr0 Hp. pose proof (par_lt r Hr0) as Hpr.
    rewrite !G, (decide_False (P := par r = c)), (decide_False (P := par r = r)) by lia.
    assert (le (get xs (par r)) (get xs r)) as Hpar by (apply Hok; lia).
    destruct (decide (i = c)) as [->|Hic]; [done|].
    rewrite decide_False by (intros ->; pose proof (par_lt r Hr0); lia).
    eapply le_trans; [exact Hpar|]. apply (up_child xs c); [done|done|done|by left].
  - destruct (decide (r = 0%nat)) as [|Hr0]; [by left|right; left]. apply par_lt. lia.
Qed.

Lemma up_inv_step r xs :
  (r < length xs)%nat -> up_inv (S r) xs -> up_inv r (heapify_l xs r).
Proof.
  intros Hr (c & Hc & Hok & Hgp & Hcase).
  destruct (decide (par c = r /\ (0 < c)%nat /\ ~ ok xs c)) as [(Hpc & Hc0 & Hnok)|Hno];
    [by eapply up_inv_move|].
  assert (par c = r -> (0 < c)%nat -> ok xs c) as Hoc by (intros; destruct (decide (ok xs c)); naive_solver).
  destruct (heapify_stay xs r Hr) as [_ ->].
  { intros i Hi Hp. apply (up_child xs c); [done..|]. destruct (decide (i = c)) as [->|]; [right|by left]. apply Hoc; lia || done. }
  exists c. split_and!; [done..|].
  destruct (decide (c = 0%nat)) as [|Hc0]; [by left|right].
  destruct (decide (par c = r)) as [Hpc|Hpc]; [right; apply Hoc; lia || done|].
  destruct Hcase as [?|[?|?]]; [lia|left; lia|by right].
Qed.

Lemma fixup_l_spec n xs :
  (n <= length xs)%nat -> up_inv n xs -> (0 < length xs)%nat ->
  heap_ord (fixup_l n xs) /\ fixup_l n xs ≡ₚ xs.
Proof.
  revert xs. induction n as [|n IH]; intros xs Hn Hi H0; cbn [Heap.fixup_l].
  - split; [|done]. destruct Hi as (c & Hc & Hok & _ & Hcase). intros i Hi.
    destruct (decide (i = c)) as [->|]; [|by apply Hok].
    destruct Hcase as [?|[?|?]]; [lia|lia|done].
  - destruct (IH (heapify_l xs n)) as [H1 H2].
    + rewrite length_heapify_l. lia.
    + by apply up_inv_step.
    + by rewrite length_heapify_l.
    + split; [done|]. rewrite H2. by apply heapify_l_perm.
Qed.

(** Appending one element to a heap breaks at most the edge above it. *)
Lemma up_inv_snoc xs e :
  heap_ord xs -> up_inv (S (par (length xs))) (xs ++ [e]).
Proof.
  intros Ho. exists (length xs). rewrite length_app; cbn [length].
  assert (forall i, (i < length xs)%nat -> get (xs ++ [e]) i = get xs i) as G.
  { intros i Hi. unfold get. by rewrite lookup_app_l. }
  split_and!; [lia|..].
  - intros i Hi Hne. unfold Heap.ok. pose proof (par_lt i (proj1 Hi)).
    rewrite !G by lia. apply Ho. lia.
  - intros i Hi _ Hp. pose proof (par_lt i (proj1 Hi)). lia.
  - right; left. lia.
Qed.

(** *** Sift down: the edges below [r] may be broken, nothing else. *)
Definition down_inv (r : nat) xs : Prop :=
  (forall i, (0 < i < length xs)%nat -> par i <> r -> ok xs i) /\
  (forall i, (0 < i < length xs)%nat -> (0 < r)%nat -> par i = r ->
     le (get xs (par r)) (get xs i)).

Lemma down_inv_step r xs :
  (r < length xs)%nat -> down_inv r xs ->
  (heapify_m xs r = r -> heap_ord (heapify_l xs r)) /\
  (heapify_m xs r <> r -> down_inv (heapify_m xs r) (heapify_l xs r)).
Proof.
  intros Hr [Hok Hgp]. destruct (heapify_m_spec xs r Hr) as (Hm & Hmc & Hmin).
  split.
  - intros E. unfold Heap.heapify_l. rewrite E, swap_l_same by done. intros i Hi.
    destruct (decide (par i = r)) as [Hp|Hp]; [|by apply Hok].
    unfold Heap.ok. rewrite Hp. rewrite E in Hmin. by apply Hmin.
  - intros Hne. destruct Hmc as [|(Hm0 & Hp & Hlt)]; [done|].
    unfold Heap.heapify_l. set (m := heapify_m xs r) in *.
    assert (forall i, get (swap_l xs m r) i = if decide (i = m) then get xs r
              else if decide (i = r) then get xs m else get xs i) as G
      by (intros; by apply get_swap_l).
    assert (r < m)%nat as Hrm by (rewrite <- Hp; by apply par_lt).
    split; rewrite length_swap_l; intros i Hi.
    + intros Hpi. unfold Heap.ok. rewrite !G, (decide_False (P := par i = m)) by done.
      pose proof (par_lt i (proj1 Hi)).
      destruct (decide (par i = r)) as [Hpr|Hpr].
      * destruct (decide (i = m)); [by apply lt_le|].
        rewrite decide_False by lia. by apply Hmin.
      * rewrite (decide_False (P := i = m)) by congruence.
        destruct (decide (i = r)) as [->|]; [apply Hgp; [lia|lia|done]|by apply Hok].
    + intros _ Hpi. pose proof (par_lt i (proj1 Hi)).
      rewrite Hp, !G, (decide_False (P := r = m)), (decide_True (P := r = r)) by lia || done.
      rewrite decide_False, decide_False by lia.
      rewrite <- Hpi. apply Hok; [done|]. lia.
Qed.

(** The root of a heap is a minimum. *)
Lemma heap_ord_min xs i :
  heap_ord xs -> (i < length xs)%nat -> le (get xs 0) (get xs i).
Proof.
  intros Ho. induction i as [i IH] using lt_wf_ind. intros Hi.
  destruct (decide (i = 0)%nat) as [->|H0]; [apply le_refl|].
  pose proof (par_lt i ltac:(lia)) as Hp.
  eapply le_trans; [apply (IH (par i)); lia|]. apply Ho. lia.
Qed.
End order.

(** ** The array operations compute the sequence operations *)
Section refine.
Implicit Types (hp : heap_t) (xs : list ptr).

(** [hp] stores [xs] and compares with [lt]. *)
Definition stores hp (lt : ptr -> ptr -> bool) xs : Prop :=
  arr_rep (harray hp) xs /\ cmp hp = lt /\ Z.of_nat (length xs) <= arr_max.

Context (lt : ptr -> ptr -> bool).

Lemma heap_get_rep hp xs i :
  stores hp lt xs -> (i < length xs)%nat -> heap_get hp (Z.of_nat i) = Some (get xs i).
Proof.
  intros (Hr & _ & Hb) Hi. unfold heap_get. unfold arr_max in Hb.
  rewrite u64_small by lia. by apply array_get_rep.
Qed.

Lemma heap_put_rep hp xs i x :
  stores hp lt xs -> (i < length xs)%nat ->
  exists hp', heap_put hp (Z.of_nat i) x = Some hp' /\ stores hp' lt (<[i := x]> xs).
Proof.
  intros (Hr & Hc & Hb) Hi. unfold heap_put. unfold arr_max in Hb.
  rewrite u64_small by lia.
  destruct (array_put_rep _ _ Hr i x Hi) as (a & -> & Ha). eexists; split; [done|].
  split_and!; [done|done|]. rewrite length_insert. unfold arr_max; lia.
Qed.

Lemma swap_rep hp xs i j :
  stores hp lt xs -> (i < length xs)%nat -> (j < length xs)%nat ->
  exists hp', swap hp (Z.of_nat i) (Z.of_nat j) = Some hp' /\
    stores hp' lt (swap_l xs i j).
Proof.
  intros Hs Hi Hj. unfold swap.
  rewrite (heap_get_rep _ _ _ Hs Hi), (heap_get_rep _ _ _ Hs Hj). cbn [mbind option_bind].
  destruct (heap_put_rep hp xs i (get xs j) Hs Hi) as (h1 & -> & Hs1).
  cbn [mbind option_bind]. apply heap_put_rep; [done|]. by rewrite length_insert.
Qed.

Lemma heap_size_rep hp xs : stores hp lt xs -> heap_size hp = Z.of_nat (length xs).
Proof. intros [Hr _]. by apply arr_rep_size. Qed.

Lemma pick_child hp xs c m :
  stores hp lt xs -> (m < length xs)%nat -> (0 < c)%nat ->
  (if bool_decide ((if bool_decide (Z.of_nat c < Z.of_nat (length xs))
                    then Z.of_nat c else -1) > 0) then
     x ← heap_get hp (if bool_decide (Z.of_nat c < Z.of_nat (length xs))
                      then Z.of_nat c else -1);
     y ← heap_get hp (Z.of_nat m);
     Some (if cmp hp x y then (if bool_decide (Z.of_nat c < Z.of_nat (length xs))
                               then Z.of_nat c else -1) else Z.of_nat m)
   else Some (Z.of_nat m)) =
  Some (Z.of_nat (if bool_decide (c < length xs)%nat && lt (get xs c) (get xs m)
                  then c else m)).
Proof.
  intros Hs Hm Hc. destruct (decide (c < length xs)%nat) as [Hlt|Hge].
  - rewrite !(bool_decide_eq_true_2 (Z.of_nat c < _)), bool_decide_eq_true_2,
      (bool_decide_eq_true_2 (c < _)%nat) by lia.
    rewrite (heap_get_rep _ _ _ Hs Hlt), (heap_get_rep _ _ _ Hs Hm).
    cbn [mbind option_bind andb]. destruct Hs as (_ & -> & _). by destruct lt.
  - rewrite !(bool_decide_eq_false_2 (Z.of_nat c < _)), bool_decide_eq_false_2,
      (bool_decide_eq_false_2 (c < _)%nat) by lia. done.
Qed.

Lemma heapify_rep hp xs r :
  stores hp lt xs -> (r < length xs)%nat ->
  (heapify_m lt xs r < length xs)%nat ->
  exists hp', heapify hp (Z.of_nat r) = Some (Z.of_nat (heapify_m lt xs r), hp') /\
    stores hp' lt (heapify_l lt xs r).
Proof.
  intros Hs Hr Hmlt. pose proof Hs as (_ & Hc & Hb). unfold arr_max in Hb.
  unfold heapify. rewrite (heap_size_rep _ _ Hs), i32_small by lia.
  rewrite (bool_decide_eq_true_2 (Z.of_nat r < _)) by lia. cbn [negb].
  assert (left_child (Z.of_nat r) = Z.of_nat (2 * r + 1)) as ->.
  { unfold left_child. rewrite Z.shiftl_mul_pow2, i32_small by lia. lia. }
  assert (right_child (Z.of_nat r) = Z.of_nat (2 * r + 2)) as ->.
  { unfold right_child. rewrite Z.shiftl_mul_pow2, i32_small by lia. lia. }
  set (m1 := if bool_decide (2 * r + 1 < length xs)%nat &&
                lt (get xs (2 * r + 1)) (get xs r) then (2 * r + 1)%nat else r).
  assert (m1 < length xs)%nat as Hm1.
  { unfold m1. case_bool_decide; cbn; [|done]. by destruct lt. }
  rewrite (pick_child hp xs (2 * r + 1) r Hs Hr) by lia. cbn [mbind option_bind].
  fold m1. rewrite (pick_child hp xs (2 * r + 2) m1 Hs Hm1) by lia.
  cbn [mbind option_bind].
  change (if bool_decide (2 * r + 2 < length xs)%nat && lt (get xs (2 * r + 2)) (get xs m1)
          then (2 * r + 2)%nat else m1) with (heapify_m lt xs r).
  unfold heapify_l. case_bool_decide as Hne.
  - destruct (swap_rep hp xs (heapify_m lt xs r) r Hs Hmlt Hr) as (hp' & -> & Hs').
    cbn [mbind option_bind]. eauto.
  - replace (heapify_m lt xs r) with r in * by lia. cbn [mbind option_bind].
    rewrite swap_l_same by done. eauto.
Qed.

Lemma parent_of_last_rep hp xs :
  stores hp lt xs -> (0 < length xs)%nat ->
  parent_of_last hp = Z.of_nat (par (length xs - 1)).
Proof.
  intros Hs H0. pose proof Hs as (_ & _ & Hb). unfold arr_max in Hb.
  unfold parent_of_last, par. rewrite (heap_size_rep _ _ Hs), u64_small by lia.
  case_bool_decide as Hz.
  - replace (length xs) with 1%nat by lia. done.
  - rewrite u64_small, Z.shiftr_div_pow2 by lia.
    assert (0 <= (Z.of_nat (length xs) - 1 - 1) / 2 ^ 1 <= 2 ^ 30).
    { change (2 ^ 1) with 2. Z.to_euclidean_division_equations. lia. }
    rewrite i32_small by lia.
    change (2 ^ 1) with (Z.of_nat 2). rewrite Nat2Z.inj_div. f_equal. lia.
Qed.

Context `{SW : !StrictWeak lt}.

Lemma fixup_loop_rep n hp xs :
  stores hp lt xs -> (n <= length xs)%nat ->
  exists hp', fixup_loop n hp = Some hp' /\ stores hp' lt (fixup_l lt n xs).
Proof.
  revert hp xs. induction n as [|n IH]; intros hp xs Hs Hn; [by exists hp|].
  cbn [fixup_loop fixup_l].
  destruct (heapify_m_spec lt xs n) as [Hm _]; [lia|].
  destruct (heapify_rep hp xs n Hs) as (h1 & -> & Hs1); [lia|done|].
  cbn [mbind option_bind]. apply IH; [done|]. rewrite length_heapify_l. lia.
Qed.

Lemma fixdown_loop_rep fuel hp xs r :
  stores hp lt xs -> (r < length xs)%nat -> (length xs <= r + fuel)%nat ->
  down_inv lt r xs ->
  exists hp' ys, fixdown_loop fuel (parent_of_last hp) (Z.of_nat r) hp = Some hp' /\
    stores hp' lt ys /\ heap_ord lt ys /\ ys ≡ₚ xs.
Proof.
  revert hp xs r. induction fuel as [|fuel IH]; intros hp xs r Hs Hr Hf Hi; [lia|].
  assert (0 < length xs)%nat as H0 by lia.
  cbn [fixdown_loop]. rewrite (parent_of_last_rep hp xs Hs H0).
  destruct (heapify_m_spec lt xs r Hr) as (Hm & Hmc & _).
  destruct (down_inv_step lt r xs Hr Hi) as [H1 H2].
  case_bool_decide as Hstop.
  - destruct (heapify_rep hp xs r Hs Hr Hm) as (h1 & -> & Hs1). cbn [mbind option_bind].
    case_bool_decide as E.
    + exists h1, (heapify_l lt xs r). split_and!; [done|done| |].
      * apply H1. lia.
      * by apply heapify_l_perm.
    + destruct Hmc as [|(Hm0 & Hp & _)]; [lia|]. pose proof (par_lt _ Hm0).
      destruct (IH h1 (heapify_l lt xs r) (heapify_m lt xs r)) as (h2 & ys & E2 & Hs2 & Ho & Hp2).
      * done.
      * by rewrite length_heapify_l.
      * rewrite length_heapify_l. lia.
      * apply H2. lia.
      * rewrite (parent_of_last_rep h1 _ Hs1), length_heapify_l in E2
          by (by rewrite length_heapify_l).
        exists h2, ys. split_and!; [done|done|done|]. rewrite Hp2. by apply heapify_l_perm.
  - exists hp, xs. split_and!; [done|done| |done].
    intros i Hi'. apply Hi; [done|]. intros Hp. unfold par in *.
    pose proof (Nat.Div0.div_le_mono (i - 1) (length xs - 1 - 1) 2). lia.
Qed.
End refine.

(** ** The heap as a priority queue *)
Definition heap_rep (lt : ptr -> ptr -> bool) (hp : heap_t) (xs : list ptr) : Prop :=
  exists ys, stores hp lt ys /\ heap_ord lt ys /\ ys ≡ₚ xs.

Section queue.
Context (lt : ptr -> ptr -> bool) `{SW : !StrictWeak lt} (o : eval_order).

Lemma heap_push_rep hp xs e :
  heap_rep lt hp xs -> Z.of_nat (length xs) < arr_max ->
  exists hp', heap_push hp e = Some (0, hp') /\ heap_rep lt hp' (e :: xs).
Proof.
  intros (ys & Hs & Ho & Hp) Hb. rewrite <- (Permutation_length Hp) in Hb.
  pose proof Hs as (Hr & Hc & _). unfold heap_push.
  rewrite (heap_size_rep lt _ _ Hs).
  destruct (array_insert_end _ _ Hr e Hb) as (a & -> & Ha). cbn [mbind option_bind].
  assert (stores (with_array hp a) lt (ys ++ [e])) as Hs1.
  { split_and!; [done|done|]. rewrite length_app; cbn. lia. }
  assert (length (ys ++ [e]) = S (length ys)) as Hl by (rewrite length_app; cbn; lia).
  unfold heap_fixup. rewrite (parent_of_last_rep lt _ _ Hs1) by lia.
  replace (Z.to_nat (Z.of_nat (par (length (ys ++ [e]) - 1)) + 1))
    with (S (par (length ys))) by (rewrite Hl; replace (S (length ys) - 1)%nat
      with (length ys) by lia; lia).
  assert (S (par (length ys)) <= length (ys ++ [e]))%nat as Hpl.
  { rewrite Hl. unfold par. pose proof (Nat.Div0.div_le_upper_bound (length ys - 1) 2 (length ys)).
    lia. }
  destruct (fixup_loop_rep lt _ _ _ Hs1 Hpl) as (h2 & -> & Hs2). cbn [mbind option_bind].
  destruct (fixup_l_spec lt (S (par (length ys))) (ys ++ [e]) Hpl) as [Ho2 Hp2];
    [by apply up_inv_snoc|lia|].
  exists h2. split; [done|]. eexists; split_and!; [done|done|].
  by rewrite Hp2, Permutation_app_comm, Hp.
Qed.

Lemma heap_pop_nil hp : heap_rep lt hp [] -> heap_pop o hp = Some (-1, None, hp).
Proof.
  intros (ys & Hs & _ & Hp). apply Permutation_nil_r in Hp as ->.
  unfold heap_pop. by rewrite (heap_size_rep lt _ _ Hs).
Qed.

(** The element taken off the end goes to the root and sinks. *)
Lemma heap_pop_refill hp x zs z :
  stores hp lt (x :: zs) -> heap_ord lt ((x :: zs) ++ [z]) ->
  exists h1 h2 ws, heap_put hp 0 z = Some h1 /\ heap_fixdown h1 = Some (0, h2) /\
    stores h2 lt ws /\ heap_ord lt ws /\ ws ≡ₚ z :: zs.
Proof.
  intros Hs1 Ho.
  destruct (heap_put_rep lt _ _ 0 z Hs1) as (h1 & Hput & Hs2); [cbn; lia|].
  change (Z.of_nat 0) with 0 in Hput. change (<[0%nat := z]> (x :: zs)) with (z :: zs) in *.
  destruct (fixdown_loop_rep lt (S (length (z :: zs))) h1 (z :: zs) 0) as (h2 & ws & E & Hs3 & Ho3 & Hp3).
  - done.
  - cbn; lia.
  - lia.
  - split; [|intros; lia]. intros i Hi Hp0. pose proof (par_lt i (proj1 Hi)).
    specialize (Ho i). rewrite length_app in Ho. cbn [length] in *.
    unfold ok in *. revert Ho.
    assert (forall k, (0 < k)%nat -> (k < S (length zs))%nat ->
              get ((x :: zs) ++ [z]) k = get (z :: zs) k) as G.
    { intros k Hk1 Hk2. unfold get. rewrite lookup_app_l by (cbn; lia).
      destruct k; [lia|done]. }
    rewrite !G by lia. intros Ho. apply Ho. lia.
  - exists h1, h2, ws. split; [done|]. split; [|by split_and!]. unfold heap_fixdown.
    rewrite (heap_size_rep lt _ _ Hs2), Nat2Z.id. change (Z.of_nat 0) with 0 in E. by rewrite E.
Qed.

Lemma heap_pop_rep hp xs :
  heap_rep lt hp xs -> xs <> [] ->
  exists x zs hp', heap_pop o hp = Some (0, Some x, hp') /\ heap_rep lt hp' zs /\
    xs ≡ₚ x :: zs /\ forall y, y ∈ xs -> lt y x = false.
Proof.
  intros (ys & Hs & Ho & Hp) Hne. pose proof Hs as (Hr & Hc & Hb).
  destruct ys as [|x ys]; [by apply Permutation_nil_l in Hp|].
  assert (forall y, y ∈ xs -> lt y x = false) as Hmin.
  { intros y Hy. rewrite <- Hp in Hy. apply list_elem_of_lookup in Hy as [i Hi].
    pose proof (lookup_lt_Some _ _ _ Hi) as Hlt.
    pose proof (heap_ord_min lt _ i Ho Hlt) as H. unfold le, get in H. by rewrite Hi in H. }
  unfold heap_pop. rewrite (heap_size_rep lt _ _ Hs).
  rewrite bool_decide_eq_false_2 by (cbn; lia).
  pose proof (heap_get_rep lt hp (x :: ys) 0 Hs ltac:(cbn; lia)) as Hg.
  change (Z.of_nat 0) with 0 in Hg. rewrite Hg. cbn [mbind option_bind].
  destruct (array_pop_rep o _ _ Hr Hb) as (a & Hdel & Ha).
  unfold array_size in Hdel. rewrite (arr_rep_size _ _ Hr) in Hdel. rewrite Hdel.
  cbn [mbind option_bind].
  destruct (last_Some_snoc_or_nil ys) as [->|(zs & z & ->)].
  - (* the last element was the root: nothing is put back *)
    cbn in Ha. unfold heap_put; cbn [harray with_array].
    change (u64 0) with 0. rewrite (array_put_beyond _ _ Ha) by (cbn; lia).
    cbn [mbind option_bind]. unfold heap_fixdown.
    assert (stores (with_array (with_array hp a) a) lt []) as Hs1
      by (split_and!; [done|done|cbn; unfold arr_max; lia]).
    assert (parent_of_last (with_array (with_array hp a) a) = -1) as Hpl.
    { unfold parent_of_last. rewrite (heap_size_rep lt _ _ Hs1). done. }
    rewrite Hpl. cbn [fixdown_loop]. rewrite bool_decide_eq_false_2 by lia.
    cbn [mbind option_bind].
    exists (get [x] 0), [], (with_array (with_array hp a) a).
    split_and!; [done| |by rewrite <- Hp|done].
    exists []. split_and!; [done|intros i Hi; cbn in Hi; lia|done].
  - rewrite app_comm_cons, removelast_last, last_snoc in *. cbn [default from_option id] in *.
    assert (stores (with_array hp a) lt (x :: zs)) as Hs1.
    { split_and!; [done|done|]. rewrite length_app in Hb. cbn in *. lia. }
    destruct (heap_pop_refill _ x zs z Hs1 Ho) as (h1 & h2 & ws & -> & E & Hs3 & Ho3 & Hp3).
    cbn [mbind option_bind]. rewrite E. cbn [mbind option_bind].
    exists (get ((x :: zs) ++ [z]) 0), ws, h2. split_and!; [done| | |done].
    + exists ws. split_and!; done.
    + rewrite <- Hp, Hp3. cbn. by rewrite (Permutation_app_comm zs [z]).
Qed.
End queue.

Lemma heap_init_rep lt hp : heap_rep lt (heap_init hp (Some lt)) [].
Proof.
  exists []. split_and!; [|intros i Hi; cbn in Hi; lia|done].
  split_and!; [apply rep_null; unfold arr_max; lia|done|unfold arr_max; cbn; lia].
Qed.

(** The heap discharges the interface its client, the id allocator, is proved against. *)
Definition heap_pq_push (e : ptr) (hp : heap_t) : option heap_t :=
  '(_, hp) ← heap_push hp e; Some hp.
Definition heap_pq_pop (o : eval_order) (hp : heap_t) : option (option ptr * heap_t) :=
  '(_, elm, hp) ← heap_pop o hp; Some (elm, hp).

#[export] Program Instance heap_pq (lt : ptr -> ptr -> bool) `{SW : !StrictWeak lt}
    (o : eval_order) : PriorityQueue heap_t lt := {
  pq_rep := heap_rep lt;
  pq_push := heap_pq_push;
  pq_pop := heap_pq_pop o;
  pq_init := fun hp => heap_init hp (Some lt)
}.
Next Obligation. intros lt SW o hp. apply heap_init_rep. Qed.
Next Obligation.
  intros lt SW o hp xs ys Hp (zs & Hs & Ho & Hz). exists zs. split_and!; [done|done|].
  by rewrite Hz.
Qed.
Next Obligation.
  intros lt SW o hp xs e Hr Hb. unfold heap_pq_push.
  destruct (heap_push_rep lt hp xs e Hr Hb) as (hp' & -> & Hr'). by exists hp'.
Qed.
Next Obligation.
  intros lt SW o hp xs Hr Hne. unfold heap_pq_pop.
  destruct (heap_pop_rep lt o hp xs Hr Hne) as (x & ys & hp' & -> & ?). by exists x, ys, hp'.
Qed.
Next Obligation.
  intros lt SW o hp Hr. unfold heap_pq_pop. by rewrite (heap_pop_nil lt o hp Hr).
Qed.

(** ** Properties *)
(** On any heap state: a push adds exactly its element; a pop of a non-empty heap
    returns 0, stores in [*elm] an element that no other element precedes, and removes
    exactly that element; both keep the heap order of the array, under either
    evaluation order of the array's deletion. A pop of the empty heap returns -1,
    writes nothing and changes nothing. *)
Theorem heap_ops_correct (lt : ptr -> ptr -> bool) (o : eval_order) (hp : heap_t) (xs : list ptr) :
  StrictWeak lt -> heap_rep lt hp xs -> Z.of_nat (length xs) < arr_max ->
  (forall e, exists hp', heap_push hp e = Some (0, hp') /\ heap_rep lt hp' (e :: xs)) /\
  (xs <> [] -> exists x ys hp', heap_pop o hp = Some (0, Some x, hp') /\
     heap_rep lt hp' ys /\ xs ≡ₚ x :: ys /\ forall y, y ∈ xs -> lt y x = false) /\
  (xs = [] -> heap_pop o hp = Some (-1, None, hp)).
Proof.
  intros SW Hr Hb. split_and!.
  - intros e. by apply heap_push_rep.
  - by apply heap_pop_rep.
  - intros ->. by eapply heap_pop_nil.
Qed.

(** Pushing a list and popping as often. *)
Fixpoint push_all (xs : list ptr) (hp : heap_t) : option heap_t :=
  match xs with
  | [] => Some hp
  | x :: xs => '(_, hp) ← heap_push hp x; push_all xs hp
  end.
Fixpoint pop_all (o : eval_order) (n : nat) (hp : heap_t) : option (list ptr * heap_t) :=
  match n with
  | O => Some ([], hp)
  | S n =>
      '(_, x, hp) ← heap_pop o hp;
      x ← x;
      '(xs, hp) ← pop_all o n hp;
      Some (x :: xs, hp)
  end.

Definition ltb_int (l r : ptr) : bool := i32 l <? i32 r.
#[export] Instance ltb_int_sw : StrictWeak ltb_int.
Proof. split; intros x y; unfold ltb_int; intros; rewrite ?Z.ltb_ge, ?Z.ltb_lt in *; lia. Qed.

Lemma heap_ops_correct_witness :
  (forall e, exists hp', heap_push (heap_init (mk_heap (mk_array None 0 0) ltb_int)
      (Some ltb_int)) e = Some (0, hp') /\ heap_rep ltb_int hp' [e]) /\
  ([] <> ([] : list ptr) -> exists x ys hp',
     heap_pop RhsFirst (heap_init (mk_heap (mk_array None 0 0) ltb_int) (Some ltb_int))
       = Some (0, Some x, hp') /\
     heap_rep ltb_int hp' ys /\ [] ≡ₚ x :: ys /\ forall y, y ∈ [] -> ltb_int y x = false) /\
  ([] = ([] : list ptr) ->
     heap_pop RhsFirst (heap_init (mk_heap (mk_array None 0 0) ltb_int) (Some ltb_int))
       = Some (-1, None, heap_init (mk_heap (mk_array None 0 0) ltb_int) (Some ltb_int))).
Proof.
  apply (heap_ops_correct ltb_int RhsFirst
    (heap_init (mk_heap (mk_array None 0 0) ltb_int) (Some ltb_int)) []).
  - apply ltb_int_sw.
  - apply heap_init_rep.
  - unfold arr_max. cbn. lia.
Defined.

Lemma push_all_rep lt `{SW : !StrictWeak lt} xs hp ys :
  heap_rep lt hp ys -> Z.of_nat (length xs + length ys) <= arr_max ->
  exists hp', push_all xs hp = Some hp' /\ heap_rep lt hp' (xs ++ ys).
Proof.
  revert hp ys. induction xs as [|x xs IH]; intros hp ys Hr Hb; cbn in *; [by exists hp|].
  destruct (heap_push_rep lt hp ys x Hr) as (h1 & -> & Hr1); [lia|]. cbn [mbind option_bind].
  destruct (IH h1 (x :: ys) Hr1) as (h2 & -> & (zs & Hs & Ho & Hp)); [cbn; lia|].
  exists h2. split; [done|]. exists zs. split_and!; [done|done|].
  by rewrite Hp, <- Permutation_middle.
Qed.

Lemma pop_all_rep lt `{SW : !StrictWeak lt} o xs n hp :
  heap_rep lt hp xs -> length xs = n ->
  exists ys hp', pop_all o n hp = Some (ys, hp') /\ heap_rep lt hp' [] /\ ys ≡ₚ xs /\
    Sorted (fun x y => lt y x = false) ys.
Proof.
  revert xs hp. induction n as [|n IH]; intros xs hp Hr Hn; cbn [pop_all].
  - destruct xs; [|done]. exists [], hp. split_and!; [done..|constructor].
  - destruct (heap_pop_rep lt o hp xs Hr) as (x & zs & h1 & -> & Hr1 & Hp & Hmin);
      [by destruct xs|]. cbn [mbind option_bind].
    destruct (IH zs h1 Hr1) as (ys & h2 & -> & Hr2 & Hpy & Hs).
    { apply Permutation_length in Hp. cbn in Hp. lia. }
    cbn [mbind option_bind]. exists (x :: ys), h2.
    split_and!; [done|done|by rewrite Hpy|].
    constructor; [done|]. destruct ys as [|y ys]; constructor.
    apply Hmin. rewrite Hp, <- Hpy. right; left.
Qed.

(** C4. End to end: pushing any list into a freshly initialised heap and popping as
    often returns the list in comparator order, as a sorted permutation, and leaves the
    heap empty; in particular every loop of the heap terminates within its fuel. *)
Theorem heap_drains_sorted (lt : ptr -> ptr -> bool) (o : eval_order) (hp : heap_t)
    (xs : list ptr) :
  StrictWeak lt -> Z.of_nat (length xs) <= arr_max ->
  exists h1 ys h2, push_all xs (heap_init hp (Some lt)) = Some h1 /\
    pop_all o (length xs) h1 = Some (ys, h2) /\ heap_rep lt h2 [] /\ ys ≡ₚ xs /\
    Sorted (fun x y => lt y x = false) ys.
Proof.
  intros SW Hb.
  destruct (push_all_rep lt xs _ [] (heap_init_rep lt hp)) as (h1 & E & Hr1); [cbn; lia|].
  rewrite app_nil_r in Hr1.
  destruct (pop_all_rep lt o xs (length xs) h1 Hr1 eq_refl) as (ys & h2 & E2 & ?).
  by exists h1, ys, h2.
Qed.

Lemma heap_drains_sorted_witness :
  exists h1 ys h2,
    push_all [5; 1; 4; 1; 3] (heap_init (mk_heap (mk_array None 0 0) ltb_int) (Some ltb_int))
      = Some h1 /\
    pop_all LhsFirst 5 h1 = Some (ys, h2) /\ heap_rep ltb_int h2 [] /\ ys ≡ₚ [5; 1; 4; 1; 3] /\
    Sorted (fun x y => ltb_int y x = false) ys.
Proof.
  apply (heap_drains_sorted ltb_int LhsFirst (mk_heap (mk_array None 0 0) ltb_int)
    [5; 1; 4; 1; 3]).
  - apply ltb_int_sw.
  - unfold arr_max. cbn. lia.
Defined.

Example heap_run :
  (h ← push_all [5; 1; 4; 1; 3] (heap_init (mk_heap (mk_array None 0 0) ltb_int) (Some ltb_int));
   '(ys, _) ← pop_all LhsFirst 5 h; Some ys) = Some [1; 1; 3; 4; 5].
Proof. by vm_compute. Qed.
