(* ===== verification/Cid.v ===== *)
(** * cid.c: the coroutine id allocator

    Ids are handed out from [0] upwards until [max_id] are out; from then on freed ids
    are reused, smallest first, from a heap. The allocator is verified against the
    priority-queue interface that [Heap.v] discharges. [cid_inv st live] says that the
    ids in use are [live], each once. *)
From S2P Require Import Prelude Interfaces Array Heap.
Local Open Scope Z_scope.

Definition THREAD_MAX_TASK_SIZE : Z := 100000.

(** [_id_cmp]: both pointers are converted to [cid_t] and then to [int]. *)
Definition _id_cmp (l r : ptr) : bool := i32 (u64 l) <? i32 (u64 r).

(** [(cid_t) -1], what a failed allocation returns. *)
Definition CID_ERROR : Z := u64 (-1).

(** [tid]: the thread's id, asked of the kernel ([gettid]) once and cached. Returns the
    id and the new value of [_cached_tid]. *)
Definition tid (gettid : Z) (_cached_tid : Z) : Z * Z :=
  let c := if bool_decide (_cached_tid = 0) then i32 gettid else _cached_tid in (c, c).

Inductive cid_op := Alloc | Free (n : nat).

(** [struct _id_dispatch_st] *)
Record id_dispatch_t (H : Type) := mk_idp {
  recycle : H;
  base : Z;
  max_id : Z;
  high_tid : Z
}.
Arguments mk_idp {H}. Arguments recycle {H}. Arguments base {H}.
Arguments max_id {H}. Arguments high_tid {H}.

Section cid.
Context {H : Type} `{PQ : !PriorityQueue H _id_cmp}.
(** What [malloc] leaves in the heap field, and the id of the running thread. *)
Context (junk : H) (this_tid : Z).
Implicit Types (idp : id_dispatch_t H) (live free : list Z).

Definition id_dispatch_init (h : H) (max : Z) : id_dispatch_t H :=
  mk_idp (pq_init h) 0 max (i32 (this_tid * max)).

(** [_cid_allocator] is the thread's allocator, [None] while the pointer is null. *)
Definition cid_allocator_init (al : option (id_dispatch_t H)) (max : Z)
    : Z * option (id_dispatch_t H) :=
  match al with
  | Some _ => (-1, al)
  | None => (0, Some (id_dispatch_init junk max))
  end.

Definition cid_allocator_destory (_ : option (id_dispatch_t H))
    : option (id_dispatch_t H) := None.

Definition alloc_cid (al : option (id_dispatch_t H))
    : option (Z * option (id_dispatch_t H)) :=
  let al := match al with
            | None => snd (cid_allocator_init al THREAD_MAX_TASK_SIZE)
            | Some _ => al
            end in
  idp ← al;
  if bool_decide (u64 (base idp) >= max_id idp) then
    '(elm, h) ← pq_pop (recycle idp);
    let al := Some (mk_idp h (base idp) (max_id idp) (high_tid idp)) in
    match elm with
    | None => Some (CID_ERROR, al)
    | Some elm => Some (u64 (i32 elm), al)
    end
  else if bool_decide (base idp < INT_MAX) then
    Some (u64 (base idp),
          Some (mk_idp (recycle idp) (base idp + 1) (max_id idp) (high_tid idp)))
  else None.

Definition free_cid (cid : Z) (al : option (id_dispatch_t H))
    : option (option (id_dispatch_t H)) :=
  match al with
  | None => Some None
  | Some idp =>
      if bool_decide (max_id idp = 0) then None else
      h ← pq_push (cid mod max_id idp) (recycle idp);
      Some (Some (mk_idp h (base idp) (max_id idp) (high_tid idp)))
  end.

(** A client that frees only ids it holds: [Free n] gives back its [n]-th id. *)
Definition cid_step (op : cid_op) (s : option (id_dispatch_t H) * list Z)
    : option (option (id_dispatch_t H) * list Z) :=
  let '(al, live) := s in
  match op with
  | Alloc =>
      '(r, al) ← alloc_cid al;
      Some (al, if bool_decide (r = CID_ERROR) then live else r :: live)
  | Free n =>
      match live !! n with
      | None => Some (al, live)
      | Some c => al ← free_cid c al; Some (al, delete n live)
      end
  end.

Fixpoint cid_run (ops : list cid_op) (s : option (id_dispatch_t H) * list Z)
    : option (option (id_dispatch_t H) * list Z) :=
  match ops with
  | [] => Some s
  | op :: ops => s ← cid_step op s; cid_run ops s
  end.

(** ** Invariant *)
(** The ids below [base] are split between [live] and the recycled ones. *)
Inductive cid_inv (max : Z) : option (id_dispatch_t H) -> list Z -> Prop :=
| inv_null : max = THREAD_MAX_TASK_SIZE -> cid_inv max None []
| inv_some h b ht live free :
    0 < max < 2 ^ 29 -> 0 <= b <= max ->
    pq_rep h free -> live ++ free ≡ₚ seqZ 0 b ->
    cid_inv max (Some (mk_idp h b max ht)) live.

Lemma cid_inv_live max al live :
  cid_inv max al live ->
  NoDup live /\ Forall (fun c => 0 <= c < max) live /\ Z.of_nat (length live) <= max.
Proof.
  destruct 1 as [->|h b ht live free Hm Hb Hr Hp];
    [split_and!; [constructor|constructor|done]|].
  assert (NoDup (live ++ free)) as Hnd by (rewrite Hp; apply NoDup_seqZ).
  split_and!.
  - by apply NoDup_app in Hnd as (?&_).
  - apply Forall_forall. intros c Hc.
    assert (c ∈ seqZ 0 b) as Hs by (rewrite <- Hp; set_solver).
    apply elem_of_seqZ in Hs. lia.
  - apply Permutation_length in Hp. rewrite length_app, length_seqZ in Hp. lia.
Qed.

Lemma id_cmp_small x y :
  0 <= x < 2 ^ 29 -> 0 <= y < 2 ^ 29 -> _id_cmp x y = (x <? y).
Proof. intros Hx Hy. unfold _id_cmp. by rewrite !u64_small, !i32_small by lia. Qed.

(** The three outcomes of an allocation. *)
Lemma alloc_cid_inv max al live :
  cid_inv max al live ->
  exists r al', alloc_cid al = Some (r, al') /\
    (((r ∉ live) /\ 0 <= r < max /\ cid_inv max al' (r :: live)) \/
     (r = CID_ERROR /\ Z.of_nat (length live) = max /\ cid_inv max al' live)).
Proof.
  assert (forall h b ht live free, 0 < max < 2 ^ 29 -> 0 <= b <= max ->
    pq_rep h free -> live ++ free ≡ₚ seqZ 0 b ->
    exists r al', alloc_cid (Some (mk_idp h b max ht)) = Some (r, al') /\
    (((r ∉ live) /\ 0 <= r < max /\ cid_inv max al' (r :: live)) \/
     (r = CID_ERROR /\ Z.of_nat (length live) = max /\ cid_inv max al' live))) as Hsome.
  { intros h b ht lv free Hm Hb Hr Hp. unfold alloc_cid; cbn [mbind option_bind base max_id].
    rewrite u64_small by lia. case_bool_decide as Hfull.
    - assert (b = max) as -> by lia. cbn [recycle high_tid].
      destruct (decide (free = [])) as [->|Hne].
      + rewrite (pq_pop_nil h Hr). cbn [mbind option_bind].
        do 2 eexists. split; [done|]. right. split; [done|].
        rewrite app_nil_r in Hp. split.
        * apply Permutation_length in Hp. rewrite length_seqZ in Hp. lia.
        * apply (inv_some _ _ _ _ _ []); [done|done|done|by rewrite app_nil_r].
      + destruct (pq_pop_spec h free Hr Hne) as (x & ys & h' & -> & Hr' & Hx & _).
        cbn [mbind option_bind].
        assert (x ∈ seqZ 0 max) as Hs.
        { rewrite <- Hp, Hx. set_solver. }
        apply elem_of_seqZ in Hs. rewrite i32_small, u64_small by lia.
        do 2 eexists. split; [done|]. left.
        assert (NoDup (lv ++ free)) as Hnd by (rewrite Hp; apply NoDup_seqZ).
        split_and!; [|lia|lia|].
        * rewrite Hx in Hnd. apply NoDup_app in Hnd as (_ & Hd & _).
          intros Hin. apply (Hd x Hin). left.
        * apply (inv_some _ _ _ _ _ ys); [done|done|done|].
          rewrite <- Hp, Hx. cbn. by rewrite Permutation_middle.
    - rewrite bool_decide_eq_true_2 by (unfold INT_MAX; lia).
      do 2 eexists. split; [done|]. left.
      assert (forall c, c ∈ lv -> c < b) as Hlt.
      { intros c Hc. assert (c ∈ seqZ 0 b) as Hs by (rewrite <- Hp; set_solver).
        apply elem_of_seqZ in Hs. lia. }
      split_and!; [intros Hin%Hlt; lia|lia|lia|].
      apply (inv_some _ _ _ _ _ free); [done|lia|done|].
      replace (b + 1) with (b + 1) by lia.
      rewrite seqZ_app by lia. cbn. rewrite Hp, Z.add_0_l.
      change (seqZ b 1) with [b]. by rewrite Permutation_app_comm. }
  destruct 1 as [->|h b ht live free Hm Hb Hr Hp]; [|by eapply Hsome].
  destruct (Hsome (pq_init junk) 0 (i32 (this_tid * THREAD_MAX_TASK_SIZE)) [] [])
    as (r & al' & E & Hc); [done|done|apply pq_init_rep|done|].
  exists r, al'. split; [exact E|exact Hc].
Qed.

Lemma free_cid_inv max al c live :
  cid_inv max al (c :: live) ->
  exists al', free_cid c al = Some al' /\ cid_inv max al' live.
Proof.
  inversion 1 as [|h b ht lv free Hm Hb Hr Hp]; subst. unfold free_cid; cbn.
  rewrite bool_decide_eq_false_2 by lia.
  assert (c ∈ seqZ 0 b) as Hs by (rewrite <- Hp; left).
  apply elem_of_seqZ in Hs. rewrite Z.mod_small by lia.
  destruct (pq_push_spec h free c Hr) as (h' & -> & Hr').
  { apply Permutation_length in Hp. cbn in Hp.
    rewrite length_app, length_seqZ in Hp. lia. }
  cbn [mbind option_bind]. eexists; split; [done|].
  apply (inv_some _ _ _ _ _ (c :: free)); [done|done|done|].
  rewrite <- Hp. cbn. by rewrite Permutation_middle.
Qed.

Lemma cid_inv_perm max al live live' :
  live ≡ₚ live' -> cid_inv max al live -> cid_inv max al live'.
Proof.
  intros Hp Hi. destruct Hi as [->|h b ht lv free Hm Hb Hr Hq].
  - apply Permutation_nil_l in Hp. subst live'. by constructor.
  - eapply inv_some; [done|done|done|]. by rewrite <- Hp.
Qed.

Lemma cid_step_inv max op al live :
  cid_inv max al live ->
  exists al' live', cid_step op (al, live) = Some (al', live') /\ cid_inv max al' live'.
Proof.
  intros Hi. destruct op as [|n]; cbn.
  - destruct (alloc_cid_inv max al live Hi) as (r & al' & -> & Hc).
    cbn [mbind option_bind]. do 2 eexists. split; [done|].
    destruct Hc as [(_&Hr&Hi')|(->&_&Hi')].
    + assert (max < 2 ^ 29).
      { by inversion Hi as [Hmax|]; [rewrite Hmax|lia]. }
      rewrite bool_decide_eq_false_2; [done|].
      change CID_ERROR with 18446744073709551615. lia.
    + by rewrite bool_decide_eq_true_2.
  - destruct (live !! n) as [c|] eqn:E; [|eauto].
    destruct (free_cid_inv max al c (delete n live)) as (al' & -> & Hi').
    { eapply cid_inv_perm; [|exact Hi]. by apply delete_Permutation. }
    cbn [mbind option_bind]. eauto.
Qed.

Lemma cid_run_inv max ops al live :
  cid_inv max al live ->
  exists al' live', cid_run ops (al, live) = Some (al', live') /\ cid_inv max al' live'.
Proof.
  revert al live. induction ops as [|op ops IH]; intros al live Hi; cbn [cid_run]; [eauto|].
  destruct (cid_step_inv max op al live Hi) as (al' & live' & -> & Hi'). by apply IH.
Qed.

Lemma cid_allocator_init_inv max :
  0 < max < 2 ^ 29 -> cid_inv max (snd (cid_allocator_init None max)) [].
Proof.
  intros Hm. cbn. apply (inv_some _ _ _ _ _ []); [done|lia|apply pq_init_rep|done].
Qed.

(** C5. unique ids. However the allocations and releases of a client that frees only
    ids it holds follow each other, after [cid_allocator_init(max)] no operation is
    undefined, the ids in use are distinct and below [max], and the next
    allocation gives an id that is not in use, or fails, and it fails exactly when
    [max] ids are in use. *)
Theorem cid_ids_unique (max : Z) (ops : list cid_op) :
  0 < max < 2 ^ 29 ->
  exists al live r al',
    cid_run ops (snd (cid_allocator_init None max), []) = Some (al, live) /\
    NoDup live /\ Forall (fun c => 0 <= c < max) live /\
    alloc_cid al = Some (r, al') /\
    (((r ∉ live) /\ 0 <= r < max /\ Z.of_nat (length live) < max) \/
     (r = CID_ERROR /\ Z.of_nat (length live) = max)).
Proof.
  intros Hm. destruct (cid_run_inv max ops _ [] (cid_allocator_init_inv max Hm))
    as (al & live & Hrun & Hi).
  destruct (alloc_cid_inv max al live Hi) as (r & al' & Ha & Hc).
  destruct (cid_inv_live max al live Hi) as (Hnd & Hr & _).
  exists al, live, r, al'. split_and!; [done..|].
  destruct Hc as [(Hn&Hb&Hi')|(->&Hl&_)]; [left|by right].
  destruct (cid_inv_live _ _ _ Hi') as (_&_&Hl). cbn in Hl.
  split_and!; [done|lia|lia|lia].
Qed.

(** the error id is a real id. [task_init] stores what [alloc_cid] returns without
    looking at it and [task_destory] gives it back; once all [max] ids are in use
    the failed allocation's [(cid_t) -1], freed, is reduced modulo [max] to an id that
    is in use, and the next allocation hands that id out a second time. *)
Theorem cid_error_freed (max : Z) (al : option (id_dispatch_t H)) (live : list Z) :
  cid_inv max al live -> Z.of_nat (length live) = max ->
  exists al1 al2 al3,
    alloc_cid al = Some (CID_ERROR, al1) /\
    free_cid CID_ERROR al1 = Some al2 /\
    alloc_cid al2 = Some (CID_ERROR mod max, al3) /\ CID_ERROR mod max ∈ live.
Proof.
  intros Hi Hl. destruct (alloc_cid_inv max al live Hi) as (r & al1 & Ha & Hc).
  destruct Hc as [(_&_&Hi')|(->&_&Hi')].
  { destruct (cid_inv_live _ _ _ Hi') as (_&_&?). cbn in *. lia. }
  destruct Hi' as [->|h b ht live free Hm Hb Hr Hp]; [done|].
  assert (free = []) as ->.
  { apply Permutation_length in Hp. rewrite length_app, length_seqZ in Hp.
    apply nil_length_inv. lia. }
  rewrite app_nil_r in Hp.
  assert (b = max) as ->.
  { apply Permutation_length in Hp. rewrite length_seqZ in Hp. lia. }
  pose proof (Z.mod_pos_bound CID_ERROR max ltac:(lia)) as Hmod.
  assert (CID_ERROR mod max ∈ live) as Hin
    by (rewrite Hp; apply elem_of_seqZ; lia).
  destruct (pq_push_spec h [] (CID_ERROR mod max) Hr ltac:(cbn; lia)) as (h' & Eh & Hr').
  destruct (pq_pop_spec h' _ Hr' ltac:(done)) as (x & ys & h'' & Ep & _ & Hx & _).
  apply Permutation_length_1_inv in Hx. injection Hx as -> ->.
  eexists _, _, _. split; [exact Ha|]. split; [|split; [|exact Hin]].
  - unfold free_cid. cbn [max_id recycle base high_tid].
    rewrite bool_decide_eq_false_2 by lia. rewrite Eh. reflexivity.
  - unfold alloc_cid. cbn [mbind option_bind max_id recycle base high_tid].
    rewrite u64_small, bool_decide_eq_true_2 by lia.
    rewrite Ep. cbn [mbind option_bind]. rewrite i32_small, u64_small by lia. reflexivity.
Qed.
End cid.

(** ** The allocator over heap.c *)
#[export] Instance id_cmp_sw : StrictWeak _id_cmp.
Proof.
  split; intros x y; unfold _id_cmp; intros; rewrite ?Z.ltb_ge, ?Z.ltb_lt in *; lia.
Qed.

#[local] Instance cid_heap : PriorityQueue heap_t _id_cmp := heap_pq _id_cmp RhsFirst.

Definition raw_heap : heap_t := mk_heap (mk_array None 0 0) _id_cmp.

(** An exhausted allocator of two ids, none freed yet. *)
Definition full_allocator : option (id_dispatch_t heap_t) :=
  Some (mk_idp (heap_init raw_heap (Some _id_cmp)) 2 2 0).

Lemma full_allocator_inv : cid_inv 2 full_allocator [1; 0].
Proof.
  apply (inv_some 2 _ 2 0 [1; 0] []); [done|done|apply heap_init_rep|].
  change (seqZ 0 2) with [0; 1]. apply perm_swap.
Qed.

Lemma cid_ids_unique_witness :
  exists al live r al',
    cid_run raw_heap 7 [Alloc; Alloc; Free 1; Alloc]
      (snd (cid_allocator_init raw_heap 7 None 2), []) = Some (al, live) /\
    NoDup live /\ Forall (fun c => 0 <= c < 2) live /\
    alloc_cid raw_heap 7 al = Some (r, al') /\
    (((r ∉ live) /\ 0 <= r < 2 /\ Z.of_nat (length live) < 2) \/
     (r = CID_ERROR /\ Z.of_nat (length live) = 2)).
Proof. apply (cid_ids_unique raw_heap 7 2 [Alloc; Alloc; Free 1; Alloc]). lia. Defined.

Lemma cid_error_freed_witness :
  exists al1 al2 al3,
    alloc_cid raw_heap 7 full_allocator = Some (CID_ERROR, al1) /\
    free_cid CID_ERROR al1 = Some al2 /\
    alloc_cid raw_heap 7 al2 = Some (CID_ERROR mod 2, al3) /\ CID_ERROR mod 2 ∈ [1; 0].
Proof. apply (cid_error_freed raw_heap 7 2 full_allocator [1; 0] full_allocator_inv eq_refl). Defined.

Example cid_reuse :
  (s ← cid_run raw_heap 7 [Alloc; Alloc; Alloc; Free 2; Free 1; Alloc]
     (snd (cid_allocator_init raw_heap 7 None 3), []);
   Some (snd s)) = Some [0; 2].
Proof. by vm_compute. Qed.
