(* ===== verification/Bytes.v ===== *)
(** * Bytes in memory

    A [std::vector<char>] or a [char] array is the list of its bytes, as numbers from 0 to
    255. Accesses outside the array are [None]. Multi-byte integers are stored as x86-64
    stores them, least significant byte first. *)
From stdpp Require Import strings.
From S2P Require Import Prelude.
Local Open Scope Z_scope.

(** String literals. *)
Definition text (s : string) : list Z := (fun c => Z.of_N (Ascii.N_of_ascii c)) <$> String.list_ascii_of_string s.

(** The size of an array, and a zero-extending or truncating [resize]. *)
Definition vsize (v : list Z) : Z := Z.of_nat (length v).
Definition vresize (v : list Z) (n : Z) : list Z :=
  take (Z.to_nat n) v ++ replicate (Z.to_nat n - length v) 0.

(** The [n] bytes from index [i] on; [memcpy] from there. *)
Definition mread (v : list Z) (i n : Z) : option (list Z) :=
  if bool_decide (0 <= i /\ 0 <= n /\ i + n <= vsize v)
  then Some (take (Z.to_nat n) (drop (Z.to_nat i) v)) else None.

(** Copy [bs] to index [i] on. *)
Definition mwrite (v : list Z) (i : Z) (bs : list Z) : option (list Z) :=
  if bool_decide (0 <= i /\ i + vsize bs <= vsize v)
  then Some (take (Z.to_nat i) v ++ bs ++ drop (Z.to_nat i + length bs) v) else None.

(** [v[i]] and [v[i] = x]. *)
Definition mget (v : list Z) (i : Z) : option Z :=
  if bool_decide (0 <= i) then v !! Z.to_nat i else None.
Definition mset (v : list Z) (i : Z) (x : Z) : option (list Z) :=
  if bool_decide (0 <= i < vsize v) then Some (<[Z.to_nat i := x]> v) else None.

(** ** Little-endian integers *)
Fixpoint le_bytes (n : nat) (z : Z) : list Z :=
  match n with
  | O => []
  | S n => z mod 256 :: le_bytes n (z / 256)
  end.

Fixpoint le_val (bs : list Z) : Z :=
  match bs with
  | [] => 0
  | b :: bs => b + 256 * le_val bs
  end.

(** The object representation of a signed [n]-byte integer and back. *)
Definition to_bytes (n : nat) (z : Z) : list Z := le_bytes n z.
Definition of_bytes (bs : list Z) : Z := swrap (8 * Z.of_nat (length bs)) (le_val bs).

(** A variable whose bytes were not all written has no defined value: [None]. *)
Definition load_int (n : nat) (bs : list Z) : option Z :=
  if bool_decide (length bs = n) then Some (of_bytes bs) else None.

Lemma length_le_bytes n z : length (le_bytes n z) = n.
Proof. revert z. induction n; intros; cbn; auto. Qed.

Lemma le_bytes_range n z : Forall (fun b => 0 <= b < 256) (le_bytes n z).
Proof.
  revert z. induction n as [|n IH]; intros z; cbn; constructor; [|done].
  apply Z.mod_pos_bound. lia.
Qed.

Lemma le_val_le_bytes n z : le_val (le_bytes n z) = z mod 2 ^ (8 * Z.of_nat n).
Proof.
  revert z. induction n as [|n IH]; intros z; cbn [le_bytes le_val].
  - by rewrite Z.mod_1_r.
  - rewrite IH. replace (2 ^ (8 * Z.of_nat (S n))) with (256 * 2 ^ (8 * Z.of_nat n)).
    + rewrite (Z.rem_mul_r z 256) by (try apply Z.pow_pos_nonneg; lia). done.
    + replace (8 * Z.of_nat (S n)) with (8 + 8 * Z.of_nat n) by lia.
      by rewrite Z.pow_add_r by lia.
Qed.

Lemma swrap_mod w z : 0 < w -> swrap w (z mod 2 ^ w) = swrap w z.
Proof.
  intros Hw. unfold swrap. f_equal. rewrite Zplus_mod_idemp_l. done.
Qed.

(** Storing an integer and loading it with its width is the conversion to that width. *)
Lemma of_to_bytes n z :
  (0 < n)%nat -> of_bytes (to_bytes n z) = swrap (8 * Z.of_nat n) z.
Proof.
  intros Hn. unfold of_bytes, to_bytes. rewrite length_le_bytes, le_val_le_bytes.
  apply swrap_mod. lia.
Qed.

Lemma take_le_bytes k n z :
  (k <= n)%nat -> take k (le_bytes n z) = le_bytes k z.
Proof.
  revert n z. induction k as [|k IH]; intros n z Hk; [done|].
  destruct n as [|n]; [lia|]. cbn. f_equal. apply IH. lia.
Qed.

Lemma le_bytes_mod n z : le_bytes n (z mod 2 ^ (8 * Z.of_nat n)) = le_bytes n z.
Proof.
  revert z. induction n as [|n IH]; intros z; [done|]. cbn [le_bytes].
  assert (2 ^ (8 * Z.of_nat (S n)) = 256 * 2 ^ (8 * Z.of_nat n)) as ->.
  { replace (8 * Z.of_nat (S n)) with (8 + 8 * Z.of_nat n) by lia. by rewrite Z.pow_add_r by lia. }
  assert (0 < 2 ^ (8 * Z.of_nat n)) by (apply Z.pow_pos_nonneg; lia).
  rewrite Z.rem_mul_r by lia. f_equal.
  - rewrite (Z.mul_comm 256), Z_mod_plus_full. apply Z.mod_mod. lia.
  - rewrite (Z.mul_comm 256), Z.div_add by lia.
    rewrite (Z.div_small (z mod 256)) by (apply Z.mod_pos_bound; lia). apply IH.
Qed.

(** The bytes of an integer only depend on its conversion to their width. *)
Lemma to_bytes_swrap n z :
  (0 < n)%nat -> to_bytes n (swrap (8 * Z.of_nat n) z) = to_bytes n z.
Proof.
  intros Hn. unfold to_bytes. rewrite <- (le_bytes_mod n (swrap _ _)), <- (le_bytes_mod n z).
  f_equal. unfold swrap. rewrite Zminus_mod_idemp_l. f_equal. lia.
Qed.

(** ** Accesses *)
Lemma vsize_app u v : vsize (u ++ v) = vsize u + vsize v.
Proof. unfold vsize. rewrite length_app. lia. Qed.

Lemma vsize_nonneg v : 0 <= vsize v.
Proof. unfold vsize. lia. Qed.

Lemma vsize_vresize v n : 0 <= n -> vsize (vresize v n) = n.
Proof.
  intros Hn. unfold vsize, vresize. rewrite length_app, length_take, length_replicate. lia.
Qed.

Lemma mread_ok v i n :
  0 <= i -> 0 <= n -> i + n <= vsize v ->
  mread v i n = Some (take (Z.to_nat n) (drop (Z.to_nat i) v)).
Proof. intros. unfold mread. by rewrite bool_decide_eq_true_2. Qed.

Lemma mwrite_ok v i bs :
  0 <= i -> i + vsize bs <= vsize v ->
  mwrite v i bs = Some (take (Z.to_nat i) v ++ bs ++ drop (Z.to_nat i + length bs) v).
Proof. intros. unfold mwrite. by rewrite bool_decide_eq_true_2. Qed.

Lemma mget_ok v i : 0 <= i < vsize v -> exists x, mget v i = Some x /\ v !! Z.to_nat i = Some x.
Proof.
  intros Hi. unfold mget. rewrite bool_decide_eq_true_2 by lia.
  destruct (lookup_lt_is_Some_2 v (Z.to_nat i)) as [x Hx]; [unfold vsize in Hi; lia|eauto].
Qed.

Lemma mset_ok v i x : 0 <= i < vsize v -> mset v i x = Some (<[Z.to_nat i := x]> v).
Proof. intros Hi. unfold mset. by rewrite bool_decide_eq_true_2. Qed.

Lemma vsize_mwrite v i bs v' : mwrite v i bs = Some v' -> vsize v' = vsize v.
Proof.
  unfold mwrite. case_bool_decide as H; [|done]. intros [= <-].
  rewrite !vsize_app. unfold vsize in *. rewrite length_take, length_drop. lia.
Qed.

(** The bytes from [i] to [j]. *)
Definition seg (v : list Z) (i j : Z) : list Z :=
  take (Z.to_nat (j - i)) (drop (Z.to_nat i) v).

Lemma vsize_seg v i j : 0 <= i <= j -> j <= vsize v -> vsize (seg v i j) = j - i.
Proof. intros. unfold vsize, seg in *. rewrite length_take, length_drop. lia. Qed.

Lemma mread_seg v i n :
  0 <= i -> 0 <= n -> i + n <= vsize v -> mread v i n = Some (seg v i (i + n)).
Proof.
  intros. rewrite mread_ok by done. unfold seg. by replace (i + n - i) with n by lia.
Qed.

Lemma seg_nil v i : seg v i i = [].
Proof. unfold seg. by replace (i - i) with 0 by lia. Qed.

Lemma seg_take v i j n :
  0 <= n -> i + n <= j -> take (Z.to_nat n) (seg v i j) = seg v i (i + n).
Proof.
  intros. unfold seg. rewrite take_take. f_equal. lia.
Qed.

Lemma seg_drop v i j n :
  0 <= i -> 0 <= n -> i + n <= j -> drop (Z.to_nat n) (seg v i j) = seg v (i + n) j.
Proof.
  intros. unfold seg. rewrite skipn_firstn_comm, drop_drop.
  f_equal; [lia|]. f_equal. lia.
Qed.

(** A write at the end of a segment extends it. *)
Lemma seg_mwrite_end v i j bs v' :
  0 <= i <= j -> j <= vsize v -> mwrite v j bs = Some v' ->
  seg v' i (j + vsize bs) = seg v i j ++ bs.
Proof.
  unfold mwrite. case_bool_decide as H; [|done]. intros Hi Hj [= <-].
  unfold seg, vsize in *.
  rewrite app_assoc, drop_app_le by (rewrite length_app, length_take; lia).
  rewrite take_app_le by (rewrite length_drop, length_app, length_take; lia).
  rewrite drop_app_le by (rewrite length_take; lia).
  rewrite take_ge by (rewrite length_app, length_drop, length_take; lia).
  f_equal. rewrite skipn_firstn_comm. f_equal. lia.
Qed.

Lemma seg_vresize v i j n :
  0 <= i <= j -> j <= vsize v -> j <= n -> seg (vresize v n) i j = seg v i j.
Proof.
  intros. unfold seg, vresize, vsize in *.
  rewrite drop_app_le by (rewrite length_take; lia).
  rewrite take_app_le by (rewrite length_drop, length_take; lia).
  rewrite skipn_firstn_comm, take_take. f_equal. lia.
Qed.

Lemma seg_lookup v i j k :
  0 <= i <= j -> j <= vsize v ->
  seg v i j !! k = if bool_decide (Z.of_nat k < j - i) then v !! (Z.to_nat i + k)%nat else None.
Proof.
  intros. unfold seg. case_bool_decide.
  - rewrite lookup_take_lt, lookup_drop by lia. done.
  - apply lookup_take_ge. lia.
Qed.
