(* ===== verification/Base64.v ===== *)
(** * util/base64/base64.c and util/Base64.h: base 64

    A [char] array is the list of its bytes (0 to 255); a pointer that walks over it is
    the suffix it still has to read, and a pointer that is only written through is the
    list of the bytes written. A read past the end of the array is [None]. *)
From S2P Require Import Prelude.
Local Open Scope Z_scope.

Definition pr2six_table : list Z := [
  64; 64; 64; 64; 64; 64; 64; 64; 64; 64; 64; 64; 64; 64; 64; 64;
  64; 64; 64; 64; 64; 64; 64; 64; 64; 64; 64; 64; 64; 64; 64; 64;
  64; 64; 64; 64; 64; 64; 64; 64; 64; 64; 64; 62; 64; 64; 64; 63;
  52; 53; 54; 55; 56; 57; 58; 59; 60; 61; 64; 64; 64; 64; 64; 64;
  64;  0;  1;  2;  3;  4;  5;  6;  7;  8;  9; 10; 11; 12; 13; 14;
  15; 16; 17; 18; 19; 20; 21; 22; 23; 24; 25; 64; 64; 64; 64; 64;
  64; 26; 27; 28; 29; 30; 31; 32; 33; 34; 35; 36; 37; 38; 39; 40;
  41; 42; 43; 44; 45; 46; 47; 48; 49; 50; 51; 64; 64; 64; 64; 64;
  64; 64; 64; 64; 64; 64; 64; 64; 64; 64; 64; 64; 64; 64; 64; 64;
  64; 64; 64; 64; 64; 64; 64; 64; 64; 64; 64; 64; 64; 64; 64; 64;
  64; 64; 64; 64; 64; 64; 64; 64; 64; 64; 64; 64; 64; 64; 64; 64;
  64; 64; 64; 64; 64; 64; 64; 64; 64; 64; 64; 64; 64; 64; 64; 64;
  64; 64; 64; 64; 64; 64; 64; 64; 64; 64; 64; 64; 64; 64; 64; 64;
  64; 64; 64; 64; 64; 64; 64; 64; 64; 64; 64; 64; 64; 64; 64; 64;
  64; 64; 64; 64; 64; 64; 64; 64; 64; 64; 64; 64; 64; 64; 64; 64;
  64; 64; 64; 64; 64; 64; 64; 64; 64; 64; 64; 64; 64; 64; 64; 64 ].

(** [pr2six[c]] for an [unsigned char c]. *)
Definition pr2six (c : Z) : Z := nth (Z.to_nat (u8 c)) pr2six_table 64.

(** "ABC...XYZabc...xyz0123456789+/" and its terminator. *)
Definition basis_64_table : list Z :=
  seqZ 65 26 ++ seqZ 97 26 ++ seqZ 48 10 ++ [43; 47; 0].
Definition basis_64 (x : Z) : Z := nth (Z.to_nat x) basis_64_table 0.

(** ** Decoding *)
(** [while (pr2six[*(bufin++)] <= 63);], the number of increments. *)
Fixpoint skip_coded (bufin : list Z) : option Z :=
  match bufin with
  | [] => None
  | c :: bufin =>
      if bool_decide (pr2six c <= 63) then n ← skip_coded bufin; Some (n + 1) else Some 1
  end.

Definition Base64decode_len (bufcoded : list Z) : option Z :=
  n ← skip_coded bufcoded;
  let nprbytes := i32 (n - 1) in
  t ← cint (nprbytes + 3);
  let nbytesdecoded := Z.quot t 4 * 3 in
  Some (nbytesdecoded + 1).

(** The three output bytes of a group of four characters. *)
Definition dec0 (a b : Z) : Z := u8 (Z.lor (Z.shiftl (pr2six a) 2) (Z.shiftr (pr2six b) 4)).
Definition dec1 (b c : Z) : Z := u8 (Z.lor (Z.shiftl (pr2six b) 4) (Z.shiftr (pr2six c) 2)).
Definition dec2 (c d : Z) : Z := u8 (Z.lor (Z.shiftl (pr2six c) 6) (pr2six d)).

Fixpoint decode_groups (fuel : nat) (nprbytes : Z) (bufin : list Z)
    : option (Z * list Z * list Z) :=
  if bool_decide (nprbytes > 4) then
    match fuel with
    | O => None
    | S fuel =>
        c0 ← bufin !! 0%nat; c1 ← bufin !! 1%nat; c2 ← bufin !! 2%nat; c3 ← bufin !! 3%nat;
        '(n, rest, out) ← decode_groups fuel (nprbytes - 4) (drop 4 bufin);
        Some (n, rest, dec0 c0 c1 :: dec1 c1 c2 :: dec2 c2 c3 :: out)
    end
  else Some (nprbytes, bufin, []).

(** What follows the loop writes up to three bytes and the terminator. *)
Definition decode_tail (nprbytes : Z) (bufin : list Z) : option (list Z) :=
  t0 ← (if bool_decide (nprbytes > 1)
        then c0 ← bufin !! 0%nat; c1 ← bufin !! 1%nat; Some [dec0 c0 c1] else Some []);
  t1 ← (if bool_decide (nprbytes > 2)
        then c1 ← bufin !! 1%nat; c2 ← bufin !! 2%nat; Some [dec1 c1 c2] else Some []);
  t2 ← (if bool_decide (nprbytes > 3)
        then c2 ← bufin !! 2%nat; c3 ← bufin !! 3%nat; Some [dec2 c2 c3] else Some []);
  Some (t0 ++ t1 ++ t2 ++ [0]).

(** The returned count and the bytes written to [bufplain]. *)
Definition Base64decode (bufcoded : list Z) : option (Z * list Z) :=
  n ← skip_coded bufcoded;
  let nprbytes := i32 (n - 1) in
  t ← cint (nprbytes + 3);
  let nbytesdecoded := Z.quot t 4 * 3 in
  '(m, bufin, out) ← decode_groups (Z.to_nat nprbytes) nprbytes bufcoded;
  tl ← decode_tail m bufin;
  Some (nbytesdecoded - Z.land (4 - m) 3, out ++ tl).

(** ** Encoding *)
Definition Base64encode_len (len : Z) : option Z :=
  t ← cint (len + 2); u ← cint (Z.quot t 3 * 4); cint (u + 1).

(** The four characters of a group; a [char] is signed. *)
Definition enc0 (a : Z) : Z := basis_64 (Z.land (Z.shiftr (i8 a) 2) 63).
Definition enc1 (a b : Z) : Z :=
  basis_64 (Z.lor (Z.shiftl (Z.land (i8 a) 3) 4) (Z.shiftr (Z.land (i8 b) 240) 4)).
Definition enc2 (b c : Z) : Z :=
  basis_64 (Z.lor (Z.shiftl (Z.land (i8 b) 15) 2) (Z.shiftr (Z.land (i8 c) 192) 6)).
Definition enc3 (c : Z) : Z := basis_64 (Z.land (i8 c) 63).
Definition PAD : Z := 61.

Fixpoint encode_groups (fuel : nat) (str : list Z) (len i : Z) : option (Z * list Z) :=
  if bool_decide (i < len - 2) then
    match fuel with
    | O => None
    | S fuel =>
        s0 ← str !! Z.to_nat i; s1 ← str !! Z.to_nat (i + 1); s2 ← str !! Z.to_nat (i + 2);
        '(i, p) ← encode_groups fuel str len (i + 3);
        Some (i, enc0 s0 :: enc1 s0 s1 :: enc2 s1 s2 :: enc3 s2 :: p)
    end
  else Some (i, []).

Definition encode_tail (str : list Z) (len i : Z) : option (list Z) :=
  if bool_decide (i < len) then
    s0 ← str !! Z.to_nat i;
    if bool_decide (i = len - 1) then
      Some [enc0 s0; basis_64 (Z.shiftl (Z.land (i8 s0) 3) 4); PAD; PAD]
    else
      s1 ← str !! Z.to_nat (i + 1);
      Some [enc0 s0; enc1 s0 s1; basis_64 (Z.shiftl (Z.land (i8 s1) 15) 2); PAD]
  else Some [].

(** The returned count and the bytes written to [encoded]. *)
Definition Base64encode (str : list Z) (len : Z) : option (Z * list Z) :=
  '(i, p) ← encode_groups (Z.to_nat len) str len 0;
  q ← encode_tail str len i;
  let p := p ++ q ++ [0] in
  Some (Z.of_nat (length p), p).

(** ** The C++ class *)
(** [std::string s = buf.data()]: the bytes before the first zero. *)
Fixpoint c_str (buf : list Z) : option (list Z) :=
  match buf with
  | [] => None
  | c :: buf => if bool_decide (c = 0) then Some [] else s ← c_str buf; Some (c :: s)
  end.

(** A zero-filled vector of [n] bytes after [p] was written to its front. *)
Definition fill_vector (n : Z) (p : list Z) : option (list Z) :=
  if bool_decide (Z.of_nat (length p) <= n)
  then Some (p ++ replicate (Z.to_nat n - length p) 0) else None.

(** [std::string::data()] is followed by a zero byte. *)
Definition encode (content : list Z) : option (list Z) :=
  if bool_decide (content = []) then Some [] else
  let len := i32 (Z.of_nat (length content)) in
  encode_len ← Base64encode_len len;
  '(_, p) ← Base64encode (content ++ [0]) len;
  buf ← fill_vector (encode_len + 1) p;
  c_str buf.

Definition decode (content : list Z) : option (list Z) :=
  if bool_decide (content = []) then Some [] else
  decode_len ← Base64decode_len (content ++ [0]);
  '(_, p) ← Base64decode (content ++ [0]);
  buf ← fill_vector (decode_len + 1) p;
  c_str buf.

Example encode_Man : encode [77; 97; 110; 77] = Some [84; 87; 70; 117; 84; 81; 61; 61].
Proof. by vm_compute. Qed.
Example decode_Man : decode [84; 87; 70; 117; 84; 81; 61; 61] = Some [77; 97; 110; 77].
Proof. by vm_compute. Qed.

(** ** Reference definitions on lists *)
Fixpoint enc_core (l : list Z) : list Z :=
  match l with
  | a :: b :: c :: l => enc0 a :: enc1 a b :: enc2 b c :: enc3 c :: enc_core l
  | [a; b] => [enc0 a; enc1 a b; enc2 b 0]
  | [a] => [enc0 a; enc1 a 0]
  | [] => []
  end.

Fixpoint enc_pad (l : list Z) : list Z :=
  match l with
  | _ :: _ :: _ :: l => enc_pad l
  | [_; _] => [PAD]
  | [_] => [PAD; PAD]
  | [] => []
  end.

Fixpoint dec_core (s : list Z) : list Z :=
  match s with
  | a :: b :: c :: d :: s => dec0 a b :: dec1 b c :: dec2 c d :: dec_core s
  | [a; b; c] => [dec0 a b; dec1 b c]
  | [a; b] => [dec0 a b]
  | _ => []
  end.

Definition is_byte (b : Z) : Prop := 0 <= b < 256.
Definition coded (c : Z) : Prop := pr2six c <= 63.

(** ** Bytes and sextets *)
Lemma pr2six_basis x : 0 <= x < 64 -> pr2six (basis_64 x) = x /\ basis_64 x <> 0.
Proof.
  intros Hx.
  pose proof (all_below_spec 64 (fun x => (pr2six (basis_64 x) =? x) && negb (basis_64 x =? 0))
    x ltac:(by vm_compute) Hx) as H.
  apply andb_prop in H as [H1%Z.eqb_eq H2%negb_true_iff%Z.eqb_neq]. done.
Qed.

Lemma byte_fields a :
  is_byte a ->
  Z.land (Z.shiftr (i8 a) 2) 63 = a / 4 /\ Z.shiftl (Z.land (i8 a) 3) 4 = a mod 4 * 16 /\
  Z.shiftr (Z.land (i8 a) 240) 4 = a / 16 /\ Z.shiftl (Z.land (i8 a) 15) 2 = a mod 16 * 4 /\
  Z.shiftr (Z.land (i8 a) 192) 6 = a / 64 /\ Z.land (i8 a) 63 = a mod 64.
Proof.
  intros Ha.
  pose proof (all_below_spec 256 (fun a =>
    (Z.land (Z.shiftr (i8 a) 2) 63 =? a / 4) && (Z.shiftl (Z.land (i8 a) 3) 4 =? a mod 4 * 16) &&
    (Z.shiftr (Z.land (i8 a) 240) 4 =? a / 16) && (Z.shiftl (Z.land (i8 a) 15) 2 =? a mod 16 * 4) &&
    (Z.shiftr (Z.land (i8 a) 192) 6 =? a / 64) && (Z.land (i8 a) 63 =? a mod 64))
    a ltac:(by vm_compute) Ha) as H. cbn beta in H.
  repeat (apply andb_prop in H as [H ?%Z.eqb_eq]). apply Z.eqb_eq in H. done.
Qed.

Lemma lor_fields x y :
  0 <= x < 16 -> 0 <= y < 16 ->
  (x < 4 -> Z.lor (x * 16) y = x * 16 + y) /\ (y < 4 -> Z.lor (x * 4) y = x * 4 + y).
Proof.
  intros Hx Hy.
  pose proof (all_below2_spec 16 16 (fun x y =>
    implb (x <? 4) (Z.lor (x * 16) y =? x * 16 + y) &&
    implb (y <? 4) (Z.lor (x * 4) y =? x * 4 + y)) x y ltac:(by vm_compute) Hx Hy) as H.
  cbn beta in H. apply andb_prop in H as [H1 H2]. split; intros Hlt.
  - rewrite (proj2 (Z.ltb_lt x 4) Hlt) in H1. by apply Z.eqb_eq.
  - rewrite (proj2 (Z.ltb_lt y 4) Hlt) in H2. by apply Z.eqb_eq.
Qed.

Lemma sextets a b :
  is_byte a -> is_byte b ->
  enc0 a = basis_64 (a / 4) /\ enc1 a b = basis_64 (a mod 4 * 16 + b / 16) /\
  enc2 a b = basis_64 (a mod 16 * 4 + b / 64) /\ enc3 a = basis_64 (a mod 64).
Proof.
  intros Ha Hb. unfold enc0, enc1, enc2, enc3.
  destruct (byte_fields a Ha) as (-> & -> & _ & -> & _ & ->).
  destruct (byte_fields b Hb) as (_ & _ & -> & _ & -> & _). unfold is_byte in *.
  assert (0 <= a mod 4 < 4 /\ 0 <= a mod 16 < 16 /\ 0 <= b / 16 < 16 /\ 0 <= b / 64 < 4)
    by (Z.to_euclidean_division_equations; lia).
  rewrite (proj1 (lor_fields (a mod 4) (b / 16) ltac:(lia) ltac:(lia))) by lia.
  by rewrite (proj2 (lor_fields (a mod 16) (b / 64) ltac:(lia) ltac:(lia))) by lia.
Qed.

Lemma decs x y :
  0 <= x < 64 -> 0 <= y < 64 ->
  dec0 (basis_64 x) (basis_64 y) = x * 4 + y / 16 /\
  dec1 (basis_64 x) (basis_64 y) = x mod 16 * 16 + y / 4 /\
  dec2 (basis_64 x) (basis_64 y) = x mod 4 * 64 + y.
Proof.
  intros Hx Hy. unfold dec0, dec1, dec2.
  rewrite (proj1 (pr2six_basis x Hx)), (proj1 (pr2six_basis y Hy)).
  pose proof (all_below2_spec 64 64 (fun x y =>
    (u8 (Z.lor (Z.shiftl x 2) (Z.shiftr y 4)) =? x * 4 + y / 16) &&
    (u8 (Z.lor (Z.shiftl x 4) (Z.shiftr y 2)) =? x mod 16 * 16 + y / 4) &&
    (u8 (Z.lor (Z.shiftl x 6) y) =? x mod 4 * 64 + y)) x y ltac:(by vm_compute) Hx Hy) as H.
  cbn beta in H. repeat (apply andb_prop in H as [H ?%Z.eqb_eq]). by apply Z.eqb_eq in H.
Qed.

Lemma is_byte_0 : is_byte 0.
Proof. unfold is_byte. lia. Qed.

Ltac byte_bounds :=
  unfold is_byte in *; Z.to_euclidean_division_equations; lia.

Lemma dec0_basis x y : 0 <= x < 64 -> 0 <= y < 64 ->
  dec0 (basis_64 x) (basis_64 y) = x * 4 + y / 16.
Proof. intros Hx Hy. apply (decs x y Hx Hy). Qed.
Lemma dec1_basis x y : 0 <= x < 64 -> 0 <= y < 64 ->
  dec1 (basis_64 x) (basis_64 y) = x mod 16 * 16 + y / 4.
Proof. intros Hx Hy. apply (decs x y Hx Hy). Qed.
Lemma dec2_basis x y : 0 <= x < 64 -> 0 <= y < 64 ->
  dec2 (basis_64 x) (basis_64 y) = x mod 4 * 64 + y.
Proof. intros Hx Hy. apply (decs x y Hx Hy). Qed.

(** Decoding inverts encoding, group by group. *)
Lemma dec_enc_core l : Forall is_byte l -> dec_core (enc_core l) = l.
Proof.
  pose proof is_byte_0 as H0.
  induction l as [|a|a b|a b c l IH] using list_ind3; intros Hl; [done|..].
  all: decompose_Forall_hyps; cbn [enc_core dec_core].
  - destruct (sextets a 0) as (-> & -> & _ & _); [done..|].
    rewrite dec0_basis by byte_bounds. f_equal. byte_bounds.
  - destruct (sextets a b) as (-> & -> & _ & _); [done..|].
    destruct (sextets b 0) as (_ & _ & -> & _); [done..|].
    rewrite dec0_basis, dec1_basis by byte_bounds.
    f_equal; [|f_equal]; byte_bounds.
  - destruct (sextets a b) as (-> & -> & _ & _); [done..|].
    destruct (sextets b c) as (_ & _ & -> & _); [done..|].
    destruct (sextets c 0) as (_ & _ & _ & ->); [done..|].
    rewrite dec0_basis, dec1_basis, dec2_basis by byte_bounds.
    rewrite IH by done. f_equal; [|f_equal; [|f_equal]]; byte_bounds.
Qed.

Lemma coded_basis x : 0 <= x < 64 -> coded (basis_64 x) /\ basis_64 x <> 0.
Proof. intros Hx. unfold coded. destruct (pr2six_basis x Hx) as [-> ?]. split; [lia|done]. Qed.

Lemma enc_core_coded l :
  Forall is_byte l -> Forall (fun c => coded c /\ c <> 0) (enc_core l).
Proof.
  pose proof is_byte_0 as H0.
  assert (forall a b, is_byte a -> is_byte b ->
    (coded (enc0 a) /\ enc0 a <> 0) /\ (coded (enc1 a b) /\ enc1 a b <> 0) /\
    (coded (enc2 a b) /\ enc2 a b <> 0) /\ (coded (enc3 a) /\ enc3 a <> 0)) as Hs.
  { intros a b Ha Hb. destruct (sextets a b Ha Hb) as (-> & -> & -> & ->).
    split_and!; apply coded_basis; byte_bounds. }
  induction l as [|a|a b|a b c l IH] using list_ind3; intros Hl; [done|..].
  all: decompose_Forall_hyps; cbn [enc_core]; repeat constructor.
  all: first [by apply IH | by eapply Hs | by apply (Hs _ _ ltac:(eassumption) H0)].
Qed.

Lemma length_enc_core l :
  Z.of_nat (length (enc_core l ++ enc_pad l)) = (Z.of_nat (length l) + 2) / 3 * 4.
Proof.
  induction l as [|a|a b|a b c l IH] using list_ind3; [done..|].
  cbn [enc_core enc_pad app length]. rewrite !Nat2Z.inj_succ, IH.
  replace (Z.succ (Z.succ (Z.succ (Z.of_nat (length l)))) + 2)
    with (Z.of_nat (length l) + 2 + 1 * 3) by lia.
  rewrite Z.div_add by lia. lia.
Qed.

Lemma enc_pad_cases l : enc_pad l = [] \/ exists t, enc_pad l = PAD :: t.
Proof.
  induction l as [|a|a b|a b c l IH] using list_ind3; cbn; [by left|by right; eexists..|done].
Qed.

Lemma enc_pad_nonzero l : Forall (fun c => c <> 0) (enc_pad l).
Proof.
  induction l as [|a|a b|a b c l IH] using list_ind3; cbn; [repeat constructor; done..|done].
Qed.

(** ** The loops compute the reference definitions *)
Lemma encode_groups_stop fuel str len i :
  len - 2 <= i -> encode_groups fuel str len i = Some (i, []).
Proof. intros. destruct fuel; cbn [encode_groups]; by rewrite bool_decide_eq_false_2 by lia. Qed.

Lemma encode_from fuel pre l z len i :
  (length l <= fuel)%nat -> i = Z.of_nat (length pre) -> len = Z.of_nat (length (pre ++ l)) ->
  exists i' p q, encode_groups fuel (pre ++ l ++ z) len i = Some (i', p) /\
    encode_tail (pre ++ l ++ z) len i' = Some q /\ p ++ q = enc_core l ++ enc_pad l.
Proof.
  assert (forall (l : list Z) (k : nat) x, l !! k = Some x ->
    forall pre z i, i = Z.of_nat (length pre) + Z.of_nat k ->
    (pre ++ l ++ z) !! Z.to_nat i = Some x) as Hget.
  { clear. intros l' k x Hk pre' z' i' ->.
    replace (Z.to_nat (Z.of_nat (length pre') + Z.of_nat k)) with (length pre' + k)%nat by lia.
    rewrite lookup_app_r by lia. replace (length pre' + k - length pre')%nat with k by lia.
    by apply lookup_app_l_Some. }
  revert fuel pre i. induction l as [|a|a b|a b c l IH] using list_ind3;
    intros fuel pre i Hf Hi Hl; rewrite length_app in Hl; cbn [length] in *.
  1-3: exists i, []; rewrite encode_groups_stop by lia.
  - eexists. split; [done|]. unfold encode_tail. rewrite bool_decide_eq_false_2 by lia. done.
  - eexists. split; [done|]. unfold encode_tail. rewrite bool_decide_eq_true_2 by lia.
    rewrite (Hget [a] 0%nat a eq_refl pre z i) by lia. cbn [mbind option_bind].
    rewrite bool_decide_eq_true_2 by lia. split; [done|].
    cbn [enc_core enc_pad app]. unfold enc1. cbn. by rewrite Z.lor_0_r.
  - eexists. split; [done|]. unfold encode_tail. rewrite bool_decide_eq_true_2 by lia.
    rewrite (Hget [a; b] 0%nat a eq_refl pre z i) by lia. cbn [mbind option_bind].
    rewrite bool_decide_eq_false_2 by lia.
    rewrite (Hget [a; b] 1%nat b eq_refl pre z (i + 1)) by lia. cbn [mbind option_bind]. split; [done|].
    cbn [enc_core enc_pad app]. unfold enc2. cbn. by rewrite Z.lor_0_r.
  - destruct fuel as [|fuel]; [lia|]. cbn [encode_groups]. rewrite bool_decide_eq_true_2 by lia.
    rewrite (Hget (a :: b :: c :: l) 0%nat a eq_refl pre z i) by lia. cbn [mbind option_bind].
    rewrite (Hget (a :: b :: c :: l) 1%nat b eq_refl pre z (i + 1)) by lia. cbn [mbind option_bind].
    rewrite (Hget (a :: b :: c :: l) 2%nat c eq_refl pre z (i + 2)) by lia. cbn [mbind option_bind].
    destruct (IH fuel (pre ++ [a; b; c]) (i + 3)) as (i' & p & q & E1 & E2 & E3).
    + lia.
    + rewrite length_app. cbn. lia.
    + rewrite !length_app. cbn. lia.
    + rewrite <- app_assoc in E1, E2. cbn [app] in E1, E2 |- *. rewrite E1.
      cbn [mbind option_bind]. exists i', (enc0 a :: enc1 a b :: enc2 b c :: enc3 c :: p), q.
      split_and!; [done|done|]. cbn. by rewrite E3.
Qed.

Lemma skip_coded_prefix s x z :
  Forall coded s -> ~ coded x -> skip_coded (s ++ x :: z) = Some (Z.of_nat (length s) + 1).
Proof.
  intros Hs Hx. induction Hs as [|c s Hc Hs IH]; cbn [app skip_coded].
  - by rewrite bool_decide_eq_false_2.
  - rewrite bool_decide_eq_true_2 by done. rewrite IH. cbn [mbind option_bind length].
    f_equal. lia.
Qed.

Lemma length_dec_core s : Z.of_nat (length (dec_core s)) = 3 * Z.of_nat (length s) / 4.
Proof.
  induction s as [|a|a b|a b c|a b c d s IH] using list_ind4; [done..|].
  cbn [dec_core length]. rewrite !Nat2Z.inj_succ, IH.
  replace (3 * Z.succ (Z.succ (Z.succ (Z.succ (Z.of_nat (length s))))))
    with (3 * Z.of_nat (length s) + 3 * 4) by lia.
  rewrite Z.div_add by lia. lia.
Qed.

Lemma decode_groups_stop fuel n buf :
  n <= 4 -> decode_groups fuel n buf = Some (n, buf, []).
Proof. intros. destruct fuel; cbn [decode_groups]; by rewrite bool_decide_eq_false_2 by lia. Qed.

Lemma decode_from fuel s z :
  (length s <= fuel)%nat ->
  exists m rest out tl j, decode_groups fuel (Z.of_nat (length s)) (s ++ z) = Some (m, rest, out) /\
    decode_tail m rest = Some tl /\ out ++ tl = dec_core s ++ [0] /\
    Z.of_nat (length s) = 4 * j + m /\ 0 <= m <= 4.
Proof.
  revert fuel. induction s as [|a|a b|a b c|a b c d s IH] using list_ind4; intros fuel Hf.
  1-4: rewrite decode_groups_stop by (cbn; lia); eexists _, _, [], _, 0; split_and!; done.
  destruct s as [|e s].
  { rewrite decode_groups_stop by (cbn; lia); eexists _, _, [], _, 0; split_and!; done. }
  destruct fuel as [|fuel]; [cbn in Hf; lia|].
  destruct (IH fuel) as (m & rest & out & tl & j & E1 & E2 & E3 & E4 & E5); [cbn in *; lia|].
  cbn [decode_groups]. rewrite bool_decide_eq_true_2 by (cbn [length]; lia).
  cbn [app lookup list_lookup drop mbind option_bind] in E1 |- *.
  replace (Z.of_nat (length (a :: b :: c :: d :: e :: s)) - 4)
    with (Z.of_nat (length (e :: s))) by (cbn [length]; lia).
  rewrite E1. cbn [mbind option_bind].
  exists m, rest, (dec0 a b :: dec1 b c :: dec2 c d :: out), tl, (j + 1).
  split_and!; [done|done| |cbn [length] in *; lia|lia|lia].
  cbn [app]. rewrite E3. done.
Qed.

(** The longest prefix of characters of the alphabet, all that decoding looks at. *)
Fixpoint coded_prefix (s : list Z) : list Z :=
  match s with
  | [] => []
  | c :: s => if bool_decide (pr2six c <= 63) then c :: coded_prefix s else []
  end.

Fixpoint before_nul (s : list Z) : list Z :=
  match s with
  | [] => []
  | c :: s => if bool_decide (c = 0) then [] else c :: before_nul s
  end.

Lemma coded_prefix_split s z :
  exists x t, s ++ 0 :: z = coded_prefix s ++ x :: t /\ ~ coded x /\ Forall coded (coded_prefix s).
Proof.
  induction s as [|c s (x & t & E & Hx & Hf)]; cbn.
  - exists 0, z. split_and!; [done| |constructor]. unfold coded. vm_compute. auto.
  - case_bool_decide as Hc; [|by exists c, (s ++ 0 :: z)].
    exists x, t. rewrite E. split_and!; [done|done|by constructor].
Qed.

Lemma coded_prefix_app s x t :
  Forall coded s -> ~ coded x -> coded_prefix (s ++ x :: t) = s.
Proof.
  intros Hs Hx. induction Hs as [|c s Hc Hs IH]; cbn.
  - by rewrite bool_decide_eq_false_2.
  - rewrite bool_decide_eq_true_2 by done. by rewrite IH.
Qed.

Lemma coded_prefix_all s : Forall coded s -> coded_prefix s = s.
Proof.
  induction 1 as [|c s Hc Hs IH]; cbn; [done|]. rewrite bool_decide_eq_true_2 by done.
  by rewrite IH.
Qed.

Lemma length_coded_prefix s : (length (coded_prefix s) <= length s)%nat.
Proof. induction s as [|c s IH]; cbn; [lia|]. case_bool_decide; cbn; lia. Qed.

Lemma c_str_app s z : c_str (s ++ 0 :: z) = Some (before_nul s).
Proof.
  induction s as [|c s IH]; cbn; [done|]. case_bool_decide; [done|]. by rewrite IH.
Qed.

Lemma before_nul_all s : Forall (fun c => c <> 0) s -> before_nul s = s.
Proof.
  induction 1 as [|c s Hc Hs IH]; cbn; [done|]. rewrite bool_decide_eq_false_2 by done.
  by rewrite IH.
Qed.

Lemma fill_vector_str n s z :
  Z.of_nat (length s) < n -> z = [0] -> exists buf, fill_vector n (s ++ z) = Some buf /\
    c_str buf = Some (before_nul s).
Proof.
  intros Hn ->. unfold fill_vector.
  rewrite bool_decide_eq_true_2 by (rewrite length_app; cbn; lia).
  eexists. split; [done|]. rewrite <- app_assoc. apply c_str_app.
Qed.

(** The functions of base64.c on a string with its terminator. *)
Lemma Base64decode_spec s z :
  Z.of_nat (length s) <= INT_MAX - 3 ->
  let p := coded_prefix s in
  Base64decode (s ++ 0 :: z) = Some (Z.of_nat (length (dec_core p)), dec_core p ++ [0]) /\
  exists n, Base64decode_len (s ++ 0 :: z) = Some n /\ Z.of_nat (length (dec_core p)) < n.
Proof.
  intros Hl p. pose proof (length_coded_prefix s) as Hp. fold p in Hp.
  destruct (coded_prefix_split s z) as (x & t & E & Hx & Hc). fold p in E, Hc.
  unfold Base64decode, Base64decode_len. unfold INT_MAX in Hl.
  rewrite E, (skip_coded_prefix p x t Hc Hx). cbn [mbind option_bind].
  replace (Z.of_nat (length p) + 1 - 1) with (Z.of_nat (length p)) by lia.
  rewrite i32_small by lia. rewrite cint_ok by (unfold INT_MAX; lia). cbn [mbind option_bind].
  rewrite Nat2Z.id. destruct (decode_from (length p) p (x :: t) ltac:(lia))
    as (m & rest & out & tl & j & -> & E2 & E3 & E4 & E5). cbn [mbind option_bind].
  rewrite E2. cbn [mbind option_bind]. rewrite E3, (length_dec_core p), Z.quot_div_nonneg by lia.
  split.
  - f_equal. f_equal. change 3 with (Z.ones 2) at 3. rewrite Z.land_ones by lia.
    change (2 ^ 2) with 4. Z.to_euclidean_division_equations; lia.
  - eexists. split; [done|]. Z.to_euclidean_division_equations; lia.
Qed.

Lemma Base64encode_spec s z :
  Base64encode (s ++ z) (Z.of_nat (length s)) =
    Some ((Z.of_nat (length s) + 2) / 3 * 4 + 1, enc_core s ++ enc_pad s ++ [0]).
Proof.
  unfold Base64encode. rewrite Nat2Z.id.
  destruct (encode_from (length s) [] s z (Z.of_nat (length s)) 0) as (i & p & q & E1 & E2 & E3);
    [lia|done|done|]. cbn [app] in E1, E2. rewrite E1. cbn [mbind option_bind].
  rewrite E2. cbn [mbind option_bind].
  assert (p ++ q ++ [0] = (enc_core s ++ enc_pad s) ++ [0]) as -> by (by rewrite app_assoc, E3).
  rewrite length_app, Nat2Z.inj_add, length_enc_core. by rewrite <- app_assoc.
Qed.

Definition encode_max : Z := 1610612730.

Lemma Base64encode_len_spec n :
  0 <= n <= encode_max -> Base64encode_len n = Some ((n + 2) / 3 * 4 + 1).
Proof.
  intros Hn. unfold encode_max in Hn. unfold Base64encode_len.
  rewrite !cint_ok by (unfold INT_MAX; lia). cbn [mbind option_bind].
  rewrite Z.quot_div_nonneg by lia.
  assert (0 <= (n + 2) / 3 * 4 <= 2147483640) by (Z.to_euclidean_division_equations; lia).
  rewrite !cint_ok by (unfold INT_MAX; lia). cbn [mbind option_bind].
  by rewrite cint_ok by (unfold INT_MAX; lia).
Qed.

Lemma encode_spec s :
  Forall is_byte s -> Z.of_nat (length s) <= encode_max ->
  encode s = Some (enc_core s ++ enc_pad s).
Proof.
  intros Hb Hl. unfold encode. case_bool_decide as Hnil; [by subst|].
  assert (Z.of_nat (length s) < 2147483648) by (unfold encode_max in Hl; lia).
  rewrite i32_small, (Base64encode_len_spec (Z.of_nat (length s))) by lia.
  cbn [mbind option_bind]. rewrite Base64encode_spec. cbn [mbind option_bind].
  rewrite app_assoc. pose proof (length_enc_core s) as Hle.
  destruct (fill_vector_str ((Z.of_nat (length s) + 2) / 3 * 4 + 1 + 1)
    (enc_core s ++ enc_pad s) [0]) as (buf & -> & E); [lia|done|].
  cbn [mbind option_bind]. rewrite E. f_equal. apply before_nul_all, Forall_app. split.
  - eapply Forall_impl; [by apply enc_core_coded|]. by intros c [_ ?].
  - apply enc_pad_nonzero.
Qed.

Lemma decode_spec s :
  Z.of_nat (length s) <= INT_MAX - 3 ->
  decode s = Some (before_nul (dec_core (coded_prefix s))).
Proof.
  intros Hl. unfold decode. case_bool_decide as Hnil; [by subst|].
  destruct (Base64decode_spec s [] Hl) as (E & n & -> & Hn). cbn [mbind option_bind].
  rewrite E. cbn [mbind option_bind].
  destruct (fill_vector_str (n + 1) (dec_core (coded_prefix s)) [0]) as (buf & -> & E2);
    [lia|done|exact E2].
Qed.

(** ** Properties *)
(** C3. Round trip: encoding any byte string and decoding the result gives the string up
    to its first zero byte (the classes pass the bytes through a C string). *)
Theorem base64_round_trip (s : list Z) :
  Forall is_byte s -> Z.of_nat (length s) <= encode_max ->
  exists t, encode s = Some t /\ decode t = Some (before_nul s).
Proof.
  intros Hb Hl. exists (enc_core s ++ enc_pad s). split; [by apply encode_spec|].
  pose proof (length_enc_core s) as Hle. unfold encode_max in Hl.
  rewrite decode_spec by (rewrite Hle; unfold INT_MAX; Z.to_euclidean_division_equations; lia).
  f_equal. f_equal. transitivity (dec_core (enc_core s)); [f_equal|by apply dec_enc_core].
  pose proof (enc_core_coded s Hb) as Hc.
  assert (Forall coded (enc_core s)) as Hc' by (eapply Forall_impl; [exact Hc|]; by intros c [? _]).
  destruct (enc_pad_cases s) as [->|(t & ->)].
  - rewrite app_nil_r. by apply coded_prefix_all.
  - apply coded_prefix_app; [done|]. unfold coded. vm_compute. auto.
Qed.

Lemma base64_round_trip_witness :
  exists t, encode [104; 105; 0; 255] = Some t /\ decode t = Some [104; 105].
Proof.
  apply (base64_round_trip [104; 105; 0; 255]); [|unfold encode_max; cbn; lia].
  repeat constructor; unfold is_byte; lia.
Defined.

(** Memory safety and result of decoding on every input, malformed ones included:
    neither function reads past the terminator, the bytes written fit in the
    [Base64decode_len] bytes that the caller reserves, and what is returned is the
    decoding of the longest prefix in the alphabet. *)
Theorem base64_decode_safe (s : list Z) :
  Z.of_nat (length s) <= INT_MAX - 3 ->
  exists n m out, Base64decode_len (s ++ [0]) = Some n /\ Base64decode (s ++ [0]) = Some (m, out) /\
    Z.of_nat (length out) <= n /\ out = dec_core (coded_prefix s) ++ [0] /\
    m = 3 * Z.of_nat (length (coded_prefix s)) / 4 /\
    decode s = Some (before_nul (dec_core (coded_prefix s))).
Proof.
  intros Hl. destruct (Base64decode_spec s [] Hl) as (E & n & E' & Hn).
  exists n, (Z.of_nat (length (dec_core (coded_prefix s)))), (dec_core (coded_prefix s) ++ [0]).
  split_and!; [done|done| |done|apply length_dec_core|by apply decode_spec].
  rewrite length_app. cbn. lia.
Qed.

Lemma base64_decode_safe_witness :
  exists n m out, Base64decode_len ([84; 87; 70; 33; 84] ++ [0]) = Some n /\
    Base64decode ([84; 87; 70; 33; 84] ++ [0]) = Some (m, out) /\
    Z.of_nat (length out) <= n /\ out = dec_core (coded_prefix [84; 87; 70; 33; 84]) ++ [0] /\
    m = 3 * Z.of_nat (length (coded_prefix [84; 87; 70; 33; 84])) / 4 /\
    decode [84; 87; 70; 33; 84] =
      Some (before_nul (dec_core (coded_prefix [84; 87; 70; 33; 84]))).
Proof. apply (base64_decode_safe [84; 87; 70; 33; 84]). unfold INT_MAX. cbn. lia. Defined.

(** Sizes: [Base64encode] writes exactly [Base64encode_len] bytes, terminator
    included, and the text consists of alphabet characters and at most two pads. *)
Theorem base64_encode_fits (s z : list Z) :
  Forall is_byte s -> Z.of_nat (length s) <= encode_max ->
  exists n p, Base64encode (s ++ z) (Z.of_nat (length s)) = Some (n, p ++ [0]) /\
    Base64encode_len (Z.of_nat (length s)) = Some n /\ Z.of_nat (length (p ++ [0])) = n /\
    exists body pads, p = body ++ pads /\ Forall coded body /\ (length pads <= 2)%nat /\
      Forall (fun c => c = PAD) pads.
Proof.
  intros Hb Hl. rewrite Base64encode_spec, Base64encode_len_spec by lia.
  exists ((Z.of_nat (length s) + 2) / 3 * 4 + 1), (enc_core s ++ enc_pad s).
  split_and!; [by rewrite <- app_assoc|done| |].
  - rewrite length_app, Nat2Z.inj_add, length_enc_core. done.
  - exists (enc_core s), (enc_pad s). split_and!; [done| | |].
    + eapply Forall_impl; [by apply enc_core_coded|]. by intros c [? _].
    + clear. induction s as [| | |a b c l IH] using list_ind3; cbn; lia.
    + clear. induction s as [| | |a b c l IH] using list_ind3; cbn; repeat constructor; done.
Qed.

Lemma base64_encode_fits_witness :
  exists n p, Base64encode ([77; 97] ++ [0]) 2 = Some (n, p ++ [0]) /\
    Base64encode_len 2 = Some n /\ Z.of_nat (length (p ++ [0])) = n /\
    exists body pads, p = body ++ pads /\ Forall coded body /\ (length pads <= 2)%nat /\
      Forall (fun c => c = PAD) pads.
Proof.
  apply (base64_encode_fits [77; 97] [0]); [|unfold encode_max; cbn; lia].
  repeat constructor; unfold is_byte; lia.
Defined.
