(* ===== verification/MemoryData.v ===== *)
(** * core/Data.h and core/MemoryData.h: typed access to byte stores

    [Data] is the abstract class of byte stores; the typed accessors of [MemoryData] are
    verified against it. [Buffer.v] discharges it. *)
From S2P Require Import Prelude Bytes.
Local Open Scope Z_scope.

(** The virtual methods [read] and [write]: a store holds a sequence of bytes, reads take
    from its front, writes that fit append to it. The bytes read are the second component
    of the result. *)
Class Data (D : Type) := {
  data_rep : D -> list Z -> Prop;
  data_fits : D -> Z -> Prop;
  data_read : D -> Z -> option (Z * list Z * D);
  data_write : D -> list Z -> option (Z * D);
  data_read_spec d c n :
    data_rep d c -> 0 <= n ->
    exists d', data_read d n = Some (Z.min n (vsize c), take (Z.to_nat n) c, d') /\
      data_rep d' (drop (Z.to_nat n) c);
  data_write_spec d c bs :
    data_rep d c -> data_fits d (vsize bs) ->
    exists d', data_write d bs = Some (vsize bs, d') /\ data_rep d' (c ++ bs)
}.

Section memory_data.
Context {D : Type} `{!Data D}.
Implicit Types (d : D).

(** A local variable of [n] bytes filled by [read]; [None] as its value when [read] did
    not fill it. *)
Definition read_var (n : nat) d : option (option Z * D) :=
  '(_, bs, d) ← data_read d (Z.of_nat n); Some (load_int n bs, d).

Definition readChar d : option (option Z * D) := read_var 1 d.
Definition readInt d : option (option Z * D) := read_var 4 d.
(** [int readLong()]: the [long] it read is returned as an [int]. *)
Definition readLong d : option (option Z * D) :=
  '(g, d) ← read_var 8 d; Some (option_map i32 g, d).
Definition writeChar d (c : Z) : option (Z * D) := data_write d (to_bytes 1 c).
Definition writeInt d (x : Z) : option (Z * D) := data_write d (to_bytes 4 x).
Definition writeLong d (x : Z) : option (Z * D) := data_write d (to_bytes 8 x).

(** The peeks read and write back; writing an indeterminate value is not modelled. *)
Definition peekChar d : option (Z * D) :=
  '(c, d) ← readChar d; c ← c; '(_, d) ← writeChar d c; Some (c, d).
Definition peekInt d : option (Z * D) :=
  '(v, d) ← readInt d; v ← v; '(_, d) ← writeInt d v; Some (v, d).
Definition peekLong d : option (Z * D) :=
  '(g, d) ← readLong d; g ← g; '(_, d) ← writeLong d g; Some (g, d).

Lemma read_var_spec n d z c :
  data_rep d (to_bytes n z ++ c) -> (0 < n)%nat ->
  exists d', read_var n d = Some (Some (swrap (8 * Z.of_nat n) z), d') /\ data_rep d' c.
Proof.
  intros Hd Hn. unfold read_var.
  destruct (data_read_spec d _ (Z.of_nat n) Hd ltac:(lia)) as (d' & -> & Hd').
  cbn [mbind option_bind]. rewrite Nat2Z.id in *.
  rewrite drop_app_length' in Hd' by (symmetry; apply length_le_bytes).
  rewrite take_app_length' by (symmetry; apply length_le_bytes).
  exists d'. split; [|done]. f_equal. f_equal. unfold load_int.
  rewrite bool_decide_eq_true_2 by apply length_le_bytes. f_equal. by apply of_to_bytes.
Qed.
End memory_data.

(** ** Properties *)
(** The peeks do not peek: on a store that starts with the four bytes of an [int] and
    more, [peekInt] returns the [int] but moves its bytes behind everything else, so a
    second [peekInt] reads other bytes. *)
Theorem peekInt_rotates {D} `{!Data D} (d : D) (v : Z) (rest : list Z) :
  data_rep d (to_bytes 4 v ++ rest) ->
  (forall r bs d', data_read d 4 = Some (r, bs, d') -> data_fits d' 4) ->
  exists d', peekInt d = Some (i32 v, d') /\ data_rep d' (rest ++ to_bytes 4 v).
Proof.
  intros Hd Hfit. destruct (read_var_spec 4 d v rest Hd ltac:(lia)) as (d1 & E1 & Hd1).
  assert (data_fits d1 4) as Hf1.
  { unfold read_var in E1. destruct (data_read d (Z.of_nat 4)) as [[[r bs] d1']|] eqn:E; [|done].
    cbn [mbind option_bind] in E1. injection E1 as _ ->. by eapply Hfit. }
  unfold peekInt, readInt. rewrite E1. cbn [mbind option_bind].
  destruct (data_write_spec d1 rest (to_bytes 4 (i32 v)) Hd1) as (d2 & E2 & Hd2).
  { exact Hf1. }
  change (i32 v) with (swrap (8 * Z.of_nat 4) v) in E2.
  unfold writeInt. rewrite E2. cbn [mbind option_bind]. exists d2. split; [done|].
  assert (to_bytes 4 (i32 v) = to_bytes 4 v) as <-; [|done].
  apply to_bytes_swrap. lia.
Qed.
