(* ===== verification/Buffer.v ===== *)
(** * core/Buffer.h, core/Data.h, core/MemoryData.h: the byte buffer

    A [Buffer] is a vector of bytes with a read and a write index; its content is the
    segment between them. Sizes are [size_t]: the subtractions of [right] and of the
    growth loop are reduced modulo 2^64, as the code has them, which is where the
    hazards of [makeSpace] come from. *)
From S2P Require Import Prelude Bytes MemoryData.
Local Open Scope Z_scope.

Definition kBufferPrefixed : Z := 8.

Record Buffer := mk_Buffer { fData : list Z; fReadIdx : Z; fWriteIdx : Z }.

(** [Buffer(const unsigned int init_size)]. *)
Definition Buffer_new (init_size : Z) : Buffer :=
  let n := if bool_decide (init_size > kBufferPrefixed) then init_size else 1024 in
  mk_Buffer (replicate (Z.to_nat n) 0) kBufferPrefixed kBufferPrefixed.

Definition capacity (b : Buffer) : Z := u64 (vsize (fData b) - kBufferPrefixed).
Definition length (b : Buffer) : Z := u64 (fWriteIdx b - fReadIdx b).
Definition right (b : Buffer) : Z := u64 (capacity b - fWriteIdx b).
Definition left (b : Buffer) : Z := u64 (fReadIdx b - kBufferPrefixed).
Definition clear (b : Buffer) : Buffer := mk_Buffer (fData b) kBufferPrefixed kBufferPrefixed.
Definition resize (b : Buffer) (size : Z) : Buffer :=
  mk_Buffer (vresize (fData b) size) (fReadIdx b) (fWriteIdx b).

(** [while(k < fWriteIdx) fData[i++] = fData[k++];], [n] iterations. *)
Fixpoint arrange_loop (n : nat) (i k : Z) (v : list Z) : option (list Z) :=
  match n with
  | O => Some v
  | S n => x ← mget v k; v ← mset v i x; arrange_loop n (i + 1) (k + 1) v
  end.

Definition arrange (b : Buffer) : option Buffer :=
  let n := Z.to_nat (fWriteIdx b - fReadIdx b) in
  v ← arrange_loop n kBufferPrefixed (fReadIdx b) (fData b);
  Some (mk_Buffer v kBufferPrefixed (kBufferPrefixed + Z.of_nat n)).

(** [(double) fReadIdx * 1.0 / (double) capacity() > 0.88]: for sizes below 2^47 the two
    sides of the comparison cannot round to the same double unless they are equal, so
    the quotient of doubles exceeds 0.88 exactly when the rational one does; a zero
    capacity gives an infinity, which exceeds it too. *)
Definition mostly_read (b : Buffer) : bool := bool_decide (25 * fReadIdx b > 22 * capacity b).

Definition tryArrange (b : Buffer) : option (bool * Buffer) :=
  if bool_decide (fReadIdx b = fWriteIdx b)
  then Some (true, mk_Buffer (fData b) kBufferPrefixed kBufferPrefixed)
  else if mostly_read b then b ← arrange b; Some (true, b)
  else Some (false, b).

(** The bytes copied out come before the new state. *)
Definition read (b : Buffer) (buf_len : Z) : option (Z * list Z * Buffer) :=
  let len := Z.min buf_len (length b) in
  if bool_decide (len = 0) then Some (0, [], b) else
  bs ← mread (fData b) (fReadIdx b) len;
  '(_, b) ← tryArrange (mk_Buffer (fData b) (u64 (fReadIdx b + len)) (fWriteIdx b));
  Some (len, bs, b).

Definition peek (b : Buffer) (buf_len : Z) : option (Z * list Z) :=
  let len := Z.min buf_len (length b) in
  if bool_decide (len = 0) then Some (0, []) else
  bs ← mread (fData b) (fReadIdx b) len; Some (len, bs).

(** [while(rz - length() < len) rz <<= 1;] *)
Fixpoint grow (fuel : nat) (rz len : Z) (b : Buffer) : option Z :=
  if bool_decide (u64 (rz - length b) < len) then
    match fuel with
    | O => None
    | S fuel => grow fuel (u64 (Z.shiftl rz 1)) len b
    end
  else Some rz.

Fixpoint makeSpace_loop (fuel : nat) (len : Z) (b : Buffer) : option Buffer :=
  if bool_decide (right b <= len) then
    match fuel with
    | O => None
    | S fuel =>
        if bool_decide (u64 (right b + left b) > len)
        then b ← arrange b; makeSpace_loop fuel len b
        else rz ← grow 64 (capacity b) len b; makeSpace_loop fuel len (resize b rz)
    end
  else Some b.

Definition makeSpace (len : Z) (b : Buffer) : option Buffer := makeSpace_loop 16 len b.

Definition write (b : Buffer) (buf : list Z) : option (Z * Buffer) :=
  b ← makeSpace (vsize buf) b;
  v ← mwrite (fData b) (fWriteIdx b) buf;
  Some (vsize buf, mk_Buffer v (fReadIdx b) (u64 (fWriteIdx b + vsize buf))).

(** [fill(char* c, size_t len)] with [None] for a null [c]. [vector::insert] shifts what
    is behind the position; a position past the end is undefined. *)
Definition fill (b : Buffer) (c : option Z) (len : Z) : option (Z * Buffer) :=
  let b := if bool_decide (right b < len) then resize b (u64 (length b + len)) else b in
  v ← match c with
      | None => Some (fData b)
      | Some c =>
          if bool_decide (fWriteIdx b <= vsize (fData b))
          then Some (take (Z.to_nat (fWriteIdx b)) (fData b) ++ replicate (Z.to_nat len) c
                     ++ drop (Z.to_nat (fWriteIdx b)) (fData b))
          else None
      end;
  Some (len, mk_Buffer v (fReadIdx b) (u64 (fWriteIdx b + len))).

Definition shrink (b : Buffer) (len : Z) : option (Z * Buffer) :=
  let l := i32 (Z.min (length b) len) in
  '(_, b) ← tryArrange (mk_Buffer (fData b) (u64 (fReadIdx b + l)) (fWriteIdx b));
  Some (u64 l, b).

(** [vcap] is [fData.capacity()], at least the size. *)
Definition expand (vcap : Z) (b : Buffer) : Buffer := resize b (u64 (vcap * 2)).

(** [sendTo]: the writer is handed what is left until all was taken or it refuses; a
    writer that claims more than it was given sends the iterator past the end. *)
Section sendTo.
Context {W : Type} (w_write : W -> list Z -> Z * W).

Fixpoint send_loop (fuel : nat) (bs : list Z) (total : Z) (w : W) : option (Z * W) :=
  match bs with
  | [] => Some (total, w)
  | _ =>
      match fuel with
      | O => None
      | S fuel =>
          let '(res, w) := w_write w bs in
          if bool_decide (res <= 0) then Some (res, w) else
          if bool_decide (res > vsize bs) then None else
          send_loop fuel (drop (Z.to_nat res) bs) total w
      end
  end.

Definition sendTo (b : Buffer) (w : W) : option (Z * W) :=
  if bool_decide (length b = 0) then Some (0, w) else
  bs ← mread (fData b) (fReadIdx b) (length b);
  send_loop (List.length bs) bs (length b) w.
End sendTo.

(** ** Typed access *)
Definition read_int (n : nat) (b : Buffer) : option (option Z * Buffer) :=
  '(_, bs, b) ← read b (Z.of_nat n); Some (load_int n bs, b).

Definition readChar : Buffer -> option (option Z * Buffer) := read_int 1.
Definition readShort : Buffer -> option (option Z * Buffer) := read_int 2.
Definition readInt : Buffer -> option (option Z * Buffer) := read_int 4.
(** The local of [readlong] is an [int]. *)
Definition readlong : Buffer -> option (option Z * Buffer) := read_int 4.

Definition writeChar (b : Buffer) (c : Z) : option (Z * Buffer) := write b (to_bytes 1 c).
Definition writeShort (b : Buffer) (s : Z) : option (Z * Buffer) := write b (to_bytes 2 s).
Definition writeInt (b : Buffer) (i : Z) : option (Z * Buffer) := write b (to_bytes 4 i).
Definition writeLong (b : Buffer) (l : Z) : option (Z * Buffer) := write b (to_bytes 8 l).

Example buffer_run :
  ('(_, b) ← write (Buffer_new 32) [1; 2; 3; 4; 5; 6; 7];
   '(_, _, b) ← read b 3; '(_, b) ← write b [8; 9; 10; 11; 12; 13; 14; 15; 16; 17];
   '(n, bs, b) ← read b 100; Some (n, bs, length b)) =
  Some (14, [4; 5; 6; 7; 8; 9; 10; 11; 12; 13; 14; 15; 16; 17], 0).
Proof. by vm_compute. Qed.

(** ** Invariant *)
Definition size_max : Z := 2 ^ 40.

(** The indices are ordered and leave the reserve that [right] subtracts. *)
Record inv (b : Buffer) : Prop := mk_inv {
  inv_read : 8 <= fReadIdx b <= fWriteIdx b;
  inv_write : fWriteIdx b <= vsize (fData b) - 8;
  inv_size : vsize (fData b) <= size_max
}.

(** The bytes that will be read, in order. *)
Definition content (b : Buffer) : list Z := seg (fData b) (fReadIdx b) (fWriteIdx b).

(** What is missing for a write of [len] bytes: the growth loop arranges when it exceeds
    16, drops 8 bytes of capacity when it lies from 8 to 16, and doubles below 8. *)
Definition slack (b : Buffer) (len : Z) : Z :=
  vsize (fData b) - (fWriteIdx b - fReadIdx b) - len.

(** The states in which dropping capacity cuts the vector below the write index. *)
Definition hazard (b : Buffer) (len : Z) : Prop :=
  8 <= slack b len <= 16 /\
  vsize (fData b) - (if decide (slack b len = 16) then 24 else 16) < fWriteIdx b.

#[export] Instance hazard_dec b len : Decision (hazard b len).
Proof. unfold hazard. apply _. Defined.

Section spec.
Implicit Types (b : Buffer) (len n : Z) (bs : list Z).

Lemma vsize_content b : inv b -> vsize (content b) = fWriteIdx b - fReadIdx b.
Proof. intros []. apply vsize_seg; lia. Qed.

Lemma sizes b :
  inv b -> capacity b = vsize (fData b) - 8 /\ length b = fWriteIdx b - fReadIdx b /\
    right b = vsize (fData b) - 8 - fWriteIdx b /\ left b = fReadIdx b - 8 /\
    u64 (right b + left b) = right b + left b.
Proof.
  intros [[] ? Hs]. unfold right, left, capacity, length, kBufferPrefixed, size_max in *.
  rewrite !u64_small by (rewrite ?u64_small by lia; lia). lia.
Qed.

Lemma arrange_loop_spec (n : nat) i k v :
  0 <= i <= k -> k + Z.of_nat n <= vsize v ->
  exists v', arrange_loop n i k v = Some v' /\ vsize v' = vsize v /\
    forall j, v' !! j = if decide (i <= Z.of_nat j < i + Z.of_nat n)
                        then v !! (j + Z.to_nat (k - i))%nat else v !! j.
Proof.
  revert i k v. induction n as [|n IH]; intros i k v Hi Hk; cbn [arrange_loop].
  - exists v. split_and!; [done..|]. intros j. rewrite decide_False by lia. done.
  - destruct (mget_ok v k) as (x & -> & Hx); [lia|]. cbn [mbind option_bind].
    rewrite mset_ok by lia. cbn [mbind option_bind].
    assert (vsize (<[Z.to_nat i:=x]> v) = vsize v) as Hs by (unfold vsize; by rewrite length_insert).
    destruct (IH (i + 1) (k + 1) (<[Z.to_nat i:=x]> v)) as (v' & -> & Hs' & Hl); [lia|lia|].
    exists v'. split_and!; [done|lia|]. intros j. rewrite Hl.
    replace (k + 1 - (i + 1)) with (k - i) by lia.
    destruct (decide (Z.of_nat j = i)) as [Hj|Hj].
    + rewrite decide_False, decide_True by lia.
      replace (j + Z.to_nat (k - i))%nat with (Z.to_nat k) by lia.
      replace (Z.to_nat i) with j by lia. rewrite Hx. apply list_lookup_insert_eq.
      unfold vsize in Hk. lia.
    + case_decide; case_decide; try lia; rewrite list_lookup_insert_ne by lia; done.
Qed.

Lemma arrange_spec b :
  inv b -> exists b', arrange b = Some b' /\ inv b' /\ content b' = content b /\
    vsize (fData b') = vsize (fData b) /\ fReadIdx b' = 8 /\
    fWriteIdx b' = 8 + (fWriteIdx b - fReadIdx b).
Proof.
  intros Hi. destruct Hi as [Hr Hw Hs]. unfold arrange, kBufferPrefixed.
  destruct (arrange_loop_spec (Z.to_nat (fWriteIdx b - fReadIdx b)) 8 (fReadIdx b) (fData b))
    as (v' & -> & Hv & Hl); [lia|lia|]. cbn [mbind option_bind].
  eexists. split; [done|]. cbn [fData fReadIdx fWriteIdx].
  split_and!; [constructor; cbn; lia| |done|done|lia].
  unfold content. cbn [fData fReadIdx fWriteIdx]. apply list_eq. intros j.
  rewrite !seg_lookup by lia. do 2 (case_bool_decide; try lia); [|done].
  rewrite Hl, decide_True by lia. f_equal. lia.
Qed.

Lemma content_nil b : fReadIdx b = fWriteIdx b -> content b = [].
Proof. intros E. unfold content. rewrite E. apply seg_nil. Qed.

Lemma tryArrange_spec b :
  inv b -> exists t b', tryArrange b = Some (t, b') /\ inv b' /\ content b' = content b /\
    vsize (fData b') = vsize (fData b).
Proof.
  intros Hi. unfold tryArrange. case_bool_decide as E; [|case_match].
  - do 2 eexists. split; [done|]. rewrite (content_nil b E). destruct Hi.
    split_and!; [constructor; unfold kBufferPrefixed; cbn; lia|by apply content_nil|done].
  - destruct (arrange_spec b Hi) as (b' & -> & ? & ? & ? & _). cbn [mbind option_bind]. eauto 6.
  - eauto 6.
Qed.

(** Advancing the read index. *)
Lemma advance_inv b n :
  inv b -> 0 <= n <= fWriteIdx b - fReadIdx b ->
  let b1 := mk_Buffer (fData b) (fReadIdx b + n) (fWriteIdx b) in
  inv b1 /\ content b1 = drop (Z.to_nat n) (content b).
Proof.
  intros [] Hn b1. split; [constructor; cbn; lia|].
  unfold content; cbn. by rewrite seg_drop by lia.
Qed.

Lemma read_spec b n :
  inv b -> 0 <= n ->
  exists b', read b n = Some (Z.min n (vsize (content b)), take (Z.to_nat n) (content b), b') /\
    inv b' /\ content b' = drop (Z.to_nat n) (content b) /\
    vsize (fData b') = vsize (fData b).
Proof.
  intros Hi Hn. destruct (sizes b Hi) as (_ & Hl & _). pose proof (vsize_content b Hi) as Hc.
  unfold read. rewrite Hl. destruct (Z.le_gt_cases n (fWriteIdx b - fReadIdx b)) as [Hle|Hgt].
  - rewrite Z.min_l, Hc, Z.min_l by lia. case_bool_decide as E.
    { subst n. eauto. }
    rewrite mread_seg by (destruct Hi; lia). cbn [mbind option_bind].
    destruct (advance_inv b n Hi ltac:(lia)) as [Hi1 Hc1].
    rewrite u64_small by (destruct Hi; unfold size_max in *; lia).
    destruct (tryArrange_spec _ Hi1) as (t & b' & -> & Hi' & Hc' & Hs'). cbn [mbind option_bind].
    exists b'. split_and!; [|done|congruence|done].
    unfold content. by rewrite seg_take by (destruct Hi; lia).
  - rewrite Z.min_r, Hc, Z.min_r by lia. rewrite take_ge, drop_ge by (unfold vsize in Hc; lia).
    case_bool_decide as E.
    { rewrite (content_nil b ltac:(lia)). rewrite E. exists b. split_and!; try done.
      by apply content_nil; lia. }
    rewrite mread_seg by (destruct Hi; lia). cbn [mbind option_bind].
    destruct (advance_inv b (fWriteIdx b - fReadIdx b) Hi ltac:(destruct Hi; lia)) as [Hi1 Hc1].
    rewrite u64_small by (destruct Hi; unfold size_max in *; lia).
    destruct (tryArrange_spec _ Hi1) as (t & b' & -> & Hi' & Hc' & Hs'). cbn [mbind option_bind].
    exists b'. split_and!; [|done| |done].
    + unfold content. by replace (fReadIdx b + (fWriteIdx b - fReadIdx b)) with (fWriteIdx b) by lia.
    + rewrite Hc', Hc1. apply drop_ge. unfold vsize in Hc. lia.
Qed.

Lemma resize_inv b n :
  inv b -> fWriteIdx b + 8 <= n <= size_max ->
  inv (resize b n) /\ content (resize b n) = content b /\ vsize (fData (resize b n)) = n.
Proof.
  intros [] Hn. assert (vsize (vresize (fData b) n) = n) by (apply vsize_vresize; lia).
  split_and!; [constructor; cbn; lia| |done].
  unfold content; cbn. apply seg_vresize; lia.
Qed.

(** The doubling loop returns the first sufficient power-of-two multiple. *)
Lemma grow_spec fuel rz len b :
  inv b -> 0 <= len -> fWriteIdx b - fReadIdx b <= rz -> 0 < rz <= 2 ^ 45 ->
  len + (fWriteIdx b - fReadIdx b) <= rz * 2 ^ Z.of_nat fuel ->
  len + (fWriteIdx b - fReadIdx b) <= 2 ^ 44 ->
  exists rz', grow fuel rz len b = Some rz' /\ rz <= rz' /\
    len <= rz' - (fWriteIdx b - fReadIdx b) /\
    (rz' = rz \/ (rz - (fWriteIdx b - fReadIdx b) < len /\ 2 * rz <= rz' /\ rz' < 2 * (len + (fWriteIdx b - fReadIdx b)))).
Proof.
  intros Hi Hlen. destruct (sizes b Hi) as (_ & El & _).
  revert rz. induction fuel as [|fuel IH]; intros rz Hrz Hp Hf Hb; cbn [grow]; rewrite El.
  all: rewrite (u64_small (rz - _)) by (destruct Hi; lia).
  - change (2 ^ Z.of_nat 0) with 1 in Hf. rewrite bool_decide_eq_false_2 by lia.
    exists rz. split_and!; [done|lia|lia|by left].
  - case_bool_decide as Hlt; [|exists rz; split_and!; [done|lia|lia|by left]].
    rewrite Z.shiftl_mul_pow2 by lia. change (2 ^ 1) with 2.
    rewrite (u64_small (rz * 2)) by lia.
    rewrite Nat2Z.inj_succ, Z.pow_succ_r in Hf by lia.
    destruct (IH (rz * 2)) as (rz' & -> & H1 & H2 & H3); [lia|lia|lia|lia|].
    exists rz'. split_and!; [done|lia|lia|right]. destruct H3; lia.
Qed.

(** *** The growth loop, by the slack of the state *)
(** What the loop promises from a state [b]: enough room, and at least [lo] bytes. *)
Definition makes_space (fuel : nat) len (c : list Z) (lo : Z) b : Prop :=
  exists b', makeSpace_loop fuel len b = Some b' /\ inv b' /\ content b' = c /\
    lo <= vsize (fData b') /\ len < vsize (fData b') - 8 - fWriteIdx b'.

Lemma makes_space_plenty fuel len lo b :
  inv b -> 0 <= len -> 16 < slack b len -> (1 <= fuel)%nat -> lo <= vsize (fData b) ->
  makes_space fuel len (content b) lo b.
Proof.
  intros Hi Hlen Hs Hf Hlo. destruct (sizes b Hi) as (_ & _ & Er & El & Es). unfold slack in Hs.
  destruct fuel as [|fuel]; [lia|]. unfold makes_space; cbn [makeSpace_loop].
  case_bool_decide as Hr; [|exists b; split_and!; [done..|lia]].
  rewrite bool_decide_eq_true_2 by lia.
  destruct (arrange_spec b Hi) as (b' & -> & Hi' & Hc & Hv & Hr' & Hw'). cbn [mbind option_bind].
  destruct (sizes b' Hi') as (_ & _ & Er' & _).
  exists b'. split_and!; [|done|done|lia|lia].
  destruct fuel; cbn [makeSpace_loop]; by rewrite bool_decide_eq_false_2 by lia.
Qed.

(** One iteration that resizes: to the capacity when that suffices, else a multiple. *)
Lemma makeSpace_resize fuel len b :
  inv b -> 0 <= len -> slack b len <= 16 -> vsize (fData b) + len <= 2 ^ 36 ->
  32 <= vsize (fData b) ->
  exists rz, makeSpace_loop (S fuel) len b = makeSpace_loop fuel len (resize b rz) /\
    ((8 <= slack b len /\ rz = vsize (fData b) - 8) \/
     (slack b len < 8 /\ 2 * (vsize (fData b) - 8) <= rz /\ 
      0 <= slack b len + (rz - vsize (fData b)) /\ rz < 2 * (vsize (fData b) + len))).
Proof.
  intros Hi Hlen Hs Hroom H32. unfold slack in *.
  pose proof Hi as [Hr Hw Hv]. unfold size_max in *.
  destruct (sizes b Hi) as (Ec & El & Er & Elf & Es).
  cbn [makeSpace_loop]. rewrite bool_decide_eq_true_2 by lia.
  rewrite bool_decide_eq_false_2 by lia.
  destruct (grow_spec 64 (capacity b) len b Hi) as (rz & -> & H1 & H2 & H3); try lia.
  cbn [mbind option_bind]. exists rz. split; [done|].
  destruct H3 as [->|(?&?&?)]; [left; lia|right; lia].
Qed.

Lemma step_shrink fuel len lo b :
  inv b -> 0 <= len -> 8 <= slack b len <= 16 -> vsize (fData b) + len <= 2 ^ 36 ->
  32 <= vsize (fData b) -> fWriteIdx b <= vsize (fData b) - 16 ->
  (forall b1, inv b1 -> content b1 = content b -> vsize (fData b1) = vsize (fData b) - 8 ->
     fWriteIdx b1 = fWriteIdx b -> slack b1 len = slack b len - 8 ->
     makes_space fuel len (content b) lo b1) ->
  makes_space (S fuel) len (content b) lo b.
Proof.
  intros Hi Hlen Hs Hroom H32 Hw Hk.
  destruct (makeSpace_resize fuel len b Hi Hlen ltac:(lia) Hroom H32) as (rz & E & [[_ ->]|?]); [|lia].
  destruct (resize_inv b (vsize (fData b) - 8) Hi) as (Hi1 & Hc1 & Hv1); [destruct Hi; lia|].
  destruct (Hk (resize b (vsize (fData b) - 8))) as (b' & E1 & H1);
    [done|done|done|done| |exists b'; by rewrite E].
  unfold slack in *. rewrite Hv1. cbn. lia.
Qed.

Lemma step_double fuel len lo b :
  inv b -> 0 <= len -> slack b len < 8 -> vsize (fData b) + len <= 2 ^ 36 ->
  32 <= vsize (fData b) ->
  (forall b1, inv b1 -> content b1 = content b ->
     2 * (vsize (fData b) - 8) <= vsize (fData b1) < 2 * (vsize (fData b) + len) ->
     fWriteIdx b1 = fWriteIdx b -> 0 <= slack b1 len ->
     slack b1 len = slack b len + (vsize (fData b1) - vsize (fData b)) ->
     makes_space fuel len (content b) lo b1) ->
  makes_space (S fuel) len (content b) lo b.
Proof.
  intros Hi Hlen Hs Hroom H32 Hk.
  destruct (makeSpace_resize fuel len b Hi Hlen ltac:(lia) Hroom H32) as (rz & E & [?|(_ & H1 & H2 & H3)]); [lia|].
  destruct (resize_inv b rz Hi) as (Hi1 & Hc1 & Hv1); [destruct Hi; unfold size_max in *; lia|].
  assert (slack (resize b rz) len = slack b len + (rz - vsize (fData b))) as Es
    by (unfold slack in *; rewrite Hv1; cbn; lia).
  destruct (Hk (resize b rz)) as (b' & E1 & H4);
    [done|done|lia|done|lia|lia|exists b'; by rewrite E].
Qed.

(** After one doubling at most two shrinks and one more doubling follow. *)
Lemma makes_space_again fuel len lo b :
  inv b -> 0 <= len -> 0 <= slack b len < 8 -> vsize (fData b) + len <= 2 ^ 36 ->
  48 <= vsize (fData b) -> lo <= 2 * (vsize (fData b) - 8) -> (2 <= fuel)%nat ->
  makes_space fuel len (content b) lo b.
Proof.
  intros Hi Hlen Hs Hroom H48 Hlo Hf. destruct fuel as [|fuel]; [lia|].
  apply step_double; [done|done|lia|done|lia|].
  intros b1 Hi1 Hc1 Hv1 Hw1 Hs1 Hs1'. rewrite <- Hc1.
  apply makes_space_plenty; [done|done|lia|lia|lia].
Qed.

Lemma makes_space_double fuel len lo b :
  inv b -> 0 <= len -> slack b len < 8 -> vsize (fData b) + len <= 2 ^ 34 ->
  48 <= vsize (fData b) -> lo <= 2 * (vsize (fData b) - 8) -> (6 <= fuel)%nat ->
  makes_space fuel len (content b) lo b.
Proof.
  intros Hi Hlen Hs Hroom H48 Hlo Hf. do 6 (destruct fuel as [|fuel]; [lia|]).
  apply step_double; [done|done|lia|lia|lia|].
  intros b1 Hi1 Hc1 Hv1 Hw1 Hs1 Hs1'. rewrite <- Hc1.
  pose proof (inv_write b Hi) as Hwb.
  destruct (Z.le_gt_cases (slack b1 len) 16); [|apply makes_space_plenty; (done || lia)].
  destruct (Z.lt_ge_cases (slack b1 len) 8);
    [apply makes_space_again; (done || lia)|].
  apply step_shrink; [done|done|lia|lia|lia|lia|].
  intros b2 Hi2 Hc2 Hv2 Hw2 Hs2. rewrite <- Hc2.
  destruct (Z.lt_ge_cases (slack b2 len) 8);
    [apply makes_space_again; (done || lia)|].
  apply step_shrink; [done|done|lia|lia|lia|lia|].
  intros b3 Hi3 Hc3 Hv3 Hw3 Hs3. rewrite <- Hc3.
  apply makes_space_again; (done || lia).
Qed.

Lemma makeSpace_spec len b :
  inv b -> 0 <= len -> ~ hazard b len -> 64 <= vsize (fData b) ->
  vsize (fData b) + len <= 2 ^ 34 ->
  makes_space 16 len (content b) (vsize (fData b)) b.
Proof.
  intros Hi Hlen Hh H64 Hroom.
  destruct (Z.le_gt_cases (slack b len) 16); [|apply makes_space_plenty; (done || lia)].
  destruct (Z.lt_ge_cases (slack b len) 8);
    [apply makes_space_double; (done || lia)|].
  assert (fWriteIdx b <= vsize (fData b) - (if decide (slack b len = 16) then 24 else 16)) as Hw.
  { unfold hazard in Hh. case_decide; lia. }
  apply step_shrink; [done|done|lia|lia|lia|case_decide; lia|].
  intros b2 Hi2 Hc2 Hv2 Hw2 Hs2. rewrite <- Hc2.
  destruct (Z.lt_ge_cases (slack b2 len) 8);
    [apply makes_space_double; (done || lia)|].
  rewrite decide_True in Hw by lia.
  apply step_shrink; [done|done|lia|lia|lia|lia|].
  intros b3 Hi3 Hc3 Hv3 Hw3 Hs3. rewrite <- Hc3.
  apply makes_space_double; (done || lia).
Qed.

Lemma write_spec b bs :
  inv b -> ~ hazard b (vsize bs) -> 64 <= vsize (fData b) ->
  vsize (fData b) + vsize bs <= 2 ^ 34 ->
  exists b', write b bs = Some (vsize bs, b') /\ inv b' /\ content b' = content b ++ bs /\
    vsize (fData b) <= vsize (fData b').
Proof.
  intros Hi Hh H64 Hroom. pose proof (vsize_nonneg bs) as Hb.
  destruct (makeSpace_spec (vsize bs) b Hi Hb Hh H64 Hroom) as (b1 & E & Hi1 & Hc & Hlo & Hsp).
  unfold write, makeSpace. rewrite E. cbn [mbind option_bind].
  pose proof Hi1 as [Hr1 Hw1 Hv1]. unfold size_max in Hv1.
  destruct (mwrite (fData b1) (fWriteIdx b1) bs) as [v|] eqn:Ev.
  2: { by rewrite mwrite_ok in Ev by lia. }
  cbn [mbind option_bind]. pose proof (vsize_mwrite _ _ _ _ Ev) as Hv.
  rewrite u64_small by lia. eexists. split; [done|]. cbn [fData].
  split_and!; [constructor; cbn; unfold size_max; lia| |lia].
  rewrite <- Hc. apply (seg_mwrite_end (fData b1) (fReadIdx b1) (fWriteIdx b1) bs v); (done || lia).
Qed.

Lemma makeSpace_roomy fuel len b :
  inv b -> 0 <= len -> 16 < slack b len ->
  exists b1, makeSpace_loop (S fuel) len b = Some b1 /\ inv b1 /\ content b1 = content b /\
    vsize (fData b1) = vsize (fData b) /\ len < vsize (fData b1) - 8 - fWriteIdx b1.
Proof.
  intros Hi Hb Hs. destruct (sizes b Hi) as (_ & _ & Er & El & Es). unfold slack in Hs.
  cbn [makeSpace_loop].
  case_bool_decide as Hr; [|exists b; split_and!; [done..|lia]]. rewrite bool_decide_eq_true_2 by lia.
  destruct (arrange_spec b Hi) as (b' & -> & Hi' & Hc & Hv & Hr' & Hw'). cbn [mbind option_bind].
  destruct (sizes b' Hi') as (_ & _ & Er' & _). exists b'.
  split_and!; [|done..|lia]. destruct fuel; cbn [makeSpace_loop]; by rewrite bool_decide_eq_false_2 by lia.
Qed.

(** With more than the reserve to spare nothing is reallocated. *)
Lemma write_roomy b bs :
  inv b -> 16 < slack b (vsize bs) ->
  exists b', write b bs = Some (vsize bs, b') /\ inv b' /\ content b' = content b ++ bs /\
    vsize (fData b') = vsize (fData b).
Proof.
  intros Hi Hs. pose proof (vsize_nonneg bs) as Hb.
  destruct (makeSpace_roomy 15 (vsize bs) b Hi Hb Hs) as (b1 & E & Hi1 & Hc & Hv1 & Hsp).
  change (makeSpace_loop 16 (vsize bs) b) with (makeSpace (vsize bs) b) in E.
  unfold write. rewrite E. cbn [mbind option_bind]. pose proof Hi1 as [Hr1 Hw1 Hx1]. unfold size_max in Hx1.
  destruct (mwrite (fData b1) (fWriteIdx b1) bs) as [v|] eqn:Ev; [|by rewrite mwrite_ok in Ev by lia].
  cbn [mbind option_bind]. pose proof (vsize_mwrite _ _ _ _ Ev) as Hv.
  rewrite u64_small by lia. eexists. split; [done|]. cbn [fData].
  split_and!; [constructor; cbn; unfold size_max; lia| |lia].
  rewrite <- Hc. apply (seg_mwrite_end (fData b1) (fReadIdx b1) (fWriteIdx b1) bs v); (done || lia).
Qed.

(** In a hazardous state the capacity is cut below the write index, [right] wraps
    around, the loop ends, and the copy starts beyond the end of the vector. *)
Lemma cut_exits fuel len b n :
  inv b -> fWriteIdx b + 8 > n -> 16 <= n -> 0 <= len <= 2 ^ 36 -> fWriteIdx b <= n + 16 ->
  n <= 2 ^ 36 ->
  makeSpace_loop fuel len (resize b n) = Some (resize b n).
Proof.
  intros Hi Hw Hn Hlen Hnear Hn36.
  assert (right (resize b n) > len) as Hr.
  { unfold right, capacity, resize, kBufferPrefixed; cbn. rewrite vsize_vresize by lia.
    rewrite (u64_small (n - 8)) by lia. unfold uwrap.
    rewrite <- (Z_mod_plus_full _ 1), Z.mod_small by lia. lia. }
  destruct fuel; cbn [makeSpace_loop]; by rewrite bool_decide_eq_false_2 by lia.
Qed.

Lemma write_overflow b bs :
  inv b -> 64 <= vsize (fData b) -> vsize (fData b) + vsize bs <= 2 ^ 34 ->
  hazard b (vsize bs) -> 8 < fReadIdx b ->
  write b bs = None.
Proof.
  intros Hi H64 Hroom [Hs Hw] Hr. pose proof (vsize_nonneg bs) as Hb. pose proof Hi as [Hr0 Hw0 _].
  assert (forall n, makeSpace_loop 16 (vsize bs) b = Some (resize b n) -> 0 <= n ->
    fWriteIdx b + vsize bs > n -> write b bs = None) as Hfin.
  { intros n E Hn Hover. unfold write, makeSpace. rewrite E. cbn [mbind option_bind].
    unfold mwrite, resize; cbn. rewrite vsize_vresize by lia. rewrite bool_decide_eq_false_2 by lia.
    done. }
  destruct (makeSpace_resize 15 (vsize bs) b Hi Hb ltac:(lia) ltac:(lia) ltac:(lia))
    as (rz & E & [[_ ->]|?]); [|lia].
  destruct (Z.le_gt_cases (fWriteIdx b) (vsize (fData b) - 16)) as [Hle|Hgt].
  - assert (slack b (vsize bs) = 16) as Hs16 by (case_decide; lia).
    rewrite decide_True in Hw by done.
    destruct (resize_inv b (vsize (fData b) - 8) Hi) as (Hi1 & _ & Hv1);
      [destruct Hi; lia|]. unfold slack in Hs, Hs16.
    destruct (makeSpace_resize 14 (vsize bs) _ Hi1 Hb) as (rz & E2 & [[_ ->]|?]);
      try (unfold slack; rewrite Hv1; cbn; lia).
    + apply (Hfin (vsize (fData b) - 16)); [|lia|lia].
      rewrite E, E2, Hv1.
      replace (vsize (fData b) - 8 - 8) with (vsize (fData b) - 16) by lia.
      assert (resize (resize b (vsize (fData b) - 8)) (vsize (fData b) - 16)
        = resize b (vsize (fData b) - 16)) as ->.
      { unfold resize; cbn. f_equal. unfold vresize, vsize in *.
        rewrite !length_app, !length_take, !length_replicate.
        replace (Z.to_nat (Z.of_nat (List.length (fData b)) - 8) - List.length (fData b))%nat
          with 0%nat by lia. cbn [replicate]. rewrite app_nil_r, take_take. f_equal; [f_equal; lia|].
        f_equal. lia. }
      apply cut_exits; (done || lia).
    + unfold slack in H. rewrite Hv1 in H. cbn in H. lia.
  - apply (Hfin (vsize (fData b) - 8)); [|lia|].
    + rewrite E. apply cut_exits; (done || lia).
    + unfold slack in *. lia.
Qed.
End spec.

(** ** The other operations *)
Section ops.
Implicit Types (b : Buffer) (n : Z).

Lemma peek_spec b n :
  inv b -> 0 <= n -> peek b n = Some (Z.min n (vsize (content b)), take (Z.to_nat n) (content b)).
Proof.
  intros Hi Hn. destruct (sizes b Hi) as (_ & Hl & _). pose proof (vsize_content b Hi) as Hc.
  unfold peek. rewrite Hl, Hc. case_bool_decide as E.
  - rewrite E. destruct (decide (n = 0)) as [->|Hn0]; [done|].
    rewrite (content_nil b); [by rewrite take_nil|]. destruct Hi; lia.
  - rewrite mread_seg by (destruct Hi; lia). cbn [mbind option_bind]. do 2 f_equal.
    destruct (Z.le_gt_cases n (fWriteIdx b - fReadIdx b)).
    + rewrite Z.min_l by lia. unfold content. by rewrite seg_take by (destruct Hi; lia).
    + rewrite Z.min_r by lia. rewrite take_ge by (unfold vsize in Hc; lia).
      unfold content. f_equal. lia.
Qed.

Lemma shrink_spec b n :
  inv b -> 0 <= n -> vsize (fData b) <= INT_MAX ->
  exists b', shrink b n = Some (Z.min (vsize (content b)) n, b') /\ inv b' /\
    content b' = drop (Z.to_nat n) (content b).
Proof.
  intros Hi Hn Hmax. destruct (sizes b Hi) as (_ & Hl & _). pose proof (vsize_content b Hi) as Hc.
  unfold shrink, INT_MAX in *. rewrite Hl, Hc. pose proof Hi as [Hr Hw _].
  rewrite i32_small by lia. rewrite !u64_small by lia.
  destruct (advance_inv b (Z.min (fWriteIdx b - fReadIdx b) n) Hi ltac:(lia)) as [Hi1 Hc1].
  destruct (tryArrange_spec _ Hi1) as (t & b' & -> & Hi' & Hc' & _). cbn [mbind option_bind].
  exists b'. split_and!; [done|done|]. rewrite Hc', Hc1. unfold vsize in Hc.
  destruct (Z.le_gt_cases n (fWriteIdx b - fReadIdx b)); [by rewrite Z.min_r by lia|].
  rewrite !drop_ge by lia. done.
Qed.

Lemma Buffer_new_inv n :
  64 <= n < 4294967296 ->
  inv (Buffer_new n) /\ content (Buffer_new n) = [] /\ vsize (fData (Buffer_new n)) = n.
Proof.
  intros Hn. unfold Buffer_new, kBufferPrefixed. rewrite bool_decide_eq_true_2 by lia.
  assert (vsize (replicate (Z.to_nat n) 0) = n) as Hv
    by (unfold vsize; rewrite length_replicate; lia).
  split_and!; [constructor; cbn; unfold size_max; lia|by apply content_nil|done].
Qed.

(** [fill(nullptr, len)] sizes the vector for the content alone, without the prefix and
    what was already read, and then moves the write index past its end. *)
Lemma fill_past_end b n :
  inv b -> right b < n -> n <= 2 ^ 32 ->
  exists b', fill b None n = Some (n, b') /\ fWriteIdx b' > vsize (fData b') /\
    forall m, length b' <= m -> read b' m = None.
Proof.
  intros Hi Hr Hn. destruct (sizes b Hi) as (_ & Hl & Er & _). pose proof Hi as [Hr0 Hw Hs].
  unfold size_max in Hs. unfold fill. rewrite bool_decide_eq_true_2 by done.
  cbn [mbind option_bind resize fData fReadIdx fWriteIdx].
  assert (0 < n) by lia. rewrite Hl, !u64_small by lia.
  eexists. split; [done|]. cbn [fData fReadIdx fWriteIdx]. rewrite vsize_vresize by lia.
  split; [lia|]. intros m Hm.
  unfold read, length in *; cbn [fData fReadIdx fWriteIdx] in *. rewrite u64_small in * by lia.
  rewrite Z.min_r by lia. rewrite bool_decide_eq_false_2 by lia.
  unfold mread. rewrite vsize_vresize by lia. rewrite bool_decide_eq_false_2 by lia. done.
Qed.
End ops.

(** ** The buffer as a [Data] *)
Definition fits (b : Buffer) (n : Z) : Prop :=
  ~ hazard b n /\ 64 <= vsize (fData b) /\ vsize (fData b) + n <= 2 ^ 34.

#[export] Program Instance buffer_data : Data Buffer := {
  data_rep := fun b c => inv b /\ content b = c;
  data_fits := fits;
  data_read := read;
  data_write := write
}.
Next Obligation.
  intros b c n [Hi <-] Hn. destruct (read_spec b n Hi Hn) as (b' & -> & ? & ? & _). eauto.
Qed.
Next Obligation.
  intros b c bs [Hi <-] (Hh & H64 & Hroom).
  destruct (write_spec b bs Hi Hh H64 Hroom) as (b' & -> & ? & ? & _). eauto.
Qed.

(** What the code relies on of a [Writeable]: on up to [lim] bytes it takes something from
    the front and says how much, or fails, perhaps in the middle. [taken] is what it has
    accepted so far, [good] what it keeps of its state. *)
Definition writer {W} (w_write : W -> list Z -> Z * W) (taken : W -> list Z) (good : W -> Prop) (lim : Z) : Prop :=
  forall w bs, good w -> bs <> [] -> vsize bs <= lim ->
  let '(res, w') := w_write w bs in
  good w' /\ ((0 < res <= vsize bs /\ taken w' = taken w ++ take (Z.to_nat res) bs) \/
              (-2147483648 <= res < 0 /\ exists k, taken w' = taken w ++ take k bs)).

Section send.
Context {W : Type} (w_write : W -> list Z -> Z * W) (taken : W -> list Z) (good : W -> Prop) (lim : Z).
Context (w_law : writer w_write taken good lim).

Lemma send_loop_spec fuel bs total w :
  (List.length bs <= fuel)%nat -> good w -> vsize bs <= lim ->
  exists res w' k, send_loop w_write fuel bs total w = Some (res, w') /\ good w' /\
    taken w' = taken w ++ take k bs /\ ((res = total /\ take k bs = bs) \/ -2147483648 <= res < 0).
Proof.
  revert bs w. induction fuel as [|fuel IH]; intros bs w Hf Hg Hb.
  { destruct bs; [|cbn in Hf; lia]. exists total, w, 0%nat. cbn. rewrite app_nil_r. auto 8. }
  destruct bs as [|b bs]; [exists total, w, 0%nat; cbn; rewrite app_nil_r; auto 8|].
  cbn [send_loop]. pose proof (w_law w (b :: bs) Hg ltac:(done) Hb) as Hw.
  destruct (w_write w (b :: bs)) as [res w1]. destruct Hw as [Hg1 [[Hle Ht]|[Hneg [k Ht]]]].
  2: { rewrite bool_decide_eq_true_2 by lia. exists res, w1, k. auto. }
  rewrite (bool_decide_eq_false_2 (res <= 0)), (bool_decide_eq_false_2 (res > _)) by lia.
  destruct (IH (drop (Z.to_nat res) (b :: bs)) w1) as (res' & w2 & k & -> & Hg2 & Ht2 & Hres); [|done| |].
  { rewrite length_drop. cbn in *. lia. }
  { unfold vsize in *. rewrite length_drop. lia. }
  exists res', w2, (Z.to_nat res + k)%nat. rewrite <- take_take_drop.
  split_and!; [done|done|by rewrite Ht2, Ht, app_assoc|].
  destruct Hres as [[-> Hk]|?]; [left|by right]. split; [done|]. by rewrite Hk, take_drop.
Qed.

Lemma sendTo_spec b w :
  inv b -> good w -> vsize (content b) <= lim ->
  exists res w' k, sendTo w_write b w = Some (res, w') /\ good w' /\
    taken w' = taken w ++ take k (content b) /\
    ((res = vsize (content b) /\ take k (content b) = content b) \/ -2147483648 <= res < 0).
Proof.
  intros Hi Hg Hb. destruct (sizes b Hi) as (_ & Hl & _). pose proof (vsize_content b Hi) as Hc.
  unfold sendTo. case_bool_decide as E.
  - exists 0, w, 0%nat. rewrite take_0, app_nil_r. split_and!; [done..|left].
    rewrite content_nil by (destruct Hi; lia). done.
  - rewrite mread_seg by (destruct Hi; lia). cbn [mbind option_bind].
    replace (fReadIdx b + length b) with (fWriteIdx b) by lia.
    change (seg _ _ _) with (content b). rewrite Hl, <- Hc. by apply send_loop_spec.
Qed.
End send.


(** A 96-byte buffer holding five bytes behind three that were read. *)
Definition demo_buffer : Buffer :=
  mk_Buffer (replicate 11 0 ++ [1; 2; 3; 4; 5] ++ replicate 80 0) 11 16.

Lemma demo_buffer_inv : inv demo_buffer.
Proof. constructor; repeat split; by vm_compute. Qed.


(** The hazard of [makeSpace] is a buffer overflow: when the free space in front and
    behind is not enough but the capacity just is, the vector is "resized" to its
    capacity, eight bytes less than its size; if the write index is then beyond the new
    capacity the unsigned [right()] wraps around, the loop takes it for room, and the
    bytes are copied past the end of the vector. *)
Theorem buffer_write_overflow (b : Buffer) (bs : list Z) :
  inv b -> 64 <= vsize (fData b) -> vsize (fData b) + vsize bs <= 2 ^ 34 ->
  8 < fReadIdx b -> hazard b (vsize bs) -> write b bs = None.
Proof. intros. by apply write_overflow. Qed.

(** The default buffer after 4077 bytes were written and 97 of them read. *)
Definition overflow_buffer : Buffer := mk_Buffer (replicate 4096 0) 105 4085.

Lemma buffer_write_overflow_witness :
  ('(_, b) ← write (Buffer_new 4096) (replicate 4077 0); '(_, _, b) ← read b 97; Some b)
    = Some overflow_buffer /\
  write overflow_buffer (replicate 100 1) = None.
Proof.
  split; [by vm_compute|].
  apply (buffer_write_overflow overflow_buffer (replicate 100 1)).
  - constructor; repeat split; by vm_compute.
  - by vm_compute.
  - by vm_compute.
  - by vm_compute.
  - unfold hazard. zeval.
Defined.

(** Integers through the buffer: what [writeInt] stores behind other data [readInt]
    returns when its turn comes, converted to 32 bits; but [readlong] reads only four of
    the eight bytes that [writeLong] stored: it returns the low half and leaves the high
    half in the buffer. *)
Theorem buffer_integers (b : Buffer) (x y : Z) :
  inv b -> content b = [] -> fits b 4 -> fits b 8 ->
  (exists b1 b2, writeInt b x = Some (4, b1) /\ readInt b1 = Some (Some (i32 x), b2) /\
     content b2 = []) /\
  (exists b1 b2, writeLong b y = Some (8, b1) /\ readlong b1 = Some (Some (i32 y), b2) /\
     content b2 = to_bytes 4 (y / 2 ^ 32)).
Proof.
  intros Hi Hc H4 H8. split.
  - destruct (data_write_spec b [] (to_bytes 4 x)) as (b1 & E1 & Hd1); [done|exact H4|].
    destruct (read_var_spec 4 b1 x []) as (b2 & E2 & Hd2); [by rewrite app_nil_r|lia|].
    exists b1, b2. split_and!; [exact E1|exact E2|apply Hd2].
  - destruct (data_write_spec b [] (to_bytes 8 y)) as (b1 & E1 & Hd1); [done|exact H8|].
    destruct (read_var_spec 4 b1 y (to_bytes 4 (y / 2 ^ 32))) as (b2 & E2 & Hd2); [|lia|].
    { assert (to_bytes 4 y ++ to_bytes 4 (y / 2 ^ 32) = to_bytes 8 y) as ->; [|done].
      unfold to_bytes. cbn [le_bytes app]. rewrite !Z.div_div by lia. done. }
    exists b1, b2. split_and!; [exact E1|exact E2|apply Hd2].
Qed.

Lemma fits_new n : ~ hazard (Buffer_new 4096) n -> n <= 2 ^ 33 -> fits (Buffer_new 4096) n.
Proof.
  intros Hh Hn. destruct (Buffer_new_inv 4096 ltac:(lia)) as (_ & _ & Hv).
  split_and!; [done|rewrite Hv; lia..].
Qed.

Lemma buffer_integers_witness :
  (exists b1 b2, writeInt (Buffer_new 4096) (-7) = Some (4, b1) /\
     readInt b1 = Some (Some (i32 (-7)), b2) /\ content b2 = []) /\
  (exists b1 b2, writeLong (Buffer_new 4096) (2 ^ 40 + 5) = Some (8, b1) /\
     readlong b1 = Some (Some (i32 (2 ^ 40 + 5)), b2) /\
     content b2 = to_bytes 4 ((2 ^ 40 + 5) / 2 ^ 32)).
Proof.
  apply (buffer_integers (Buffer_new 4096) (-7) (2 ^ 40 + 5)).
  - apply (Buffer_new_inv 4096). lia.
  - apply (Buffer_new_inv 4096). lia.
  - apply fits_new; [unfold hazard; zeval|lia].
  - apply fits_new; [unfold hazard; zeval|lia].
Defined.

(** [fill] without a character does not reserve what it claims: when there is less
    room than [n] it leaves the write index past the end of the vector, and reading the
    content back is an access outside the vector. *)
Theorem buffer_fill_past_end (b : Buffer) (n m : Z) :
  inv b -> right b < n -> n <= 2 ^ 32 ->
  exists b', fill b None n = Some (n, b') /\ fWriteIdx b' > vsize (fData b') /\
    (length b' <= m -> read b' m = None).
Proof.
  intros Hi Hr Hn. destruct (fill_past_end b n Hi Hr Hn) as (b' & ? & ? & Hread).
  exists b'. auto.
Qed.

Lemma buffer_fill_past_end_witness :
  exists b', fill demo_buffer None 100 = Some (100, b') /\ fWriteIdx b' > vsize (fData b') /\
    (length b' <= 200 -> read b' 200 = None).
Proof.
  apply (buffer_fill_past_end demo_buffer 100 200).
  - apply demo_buffer_inv.
  - by vm_compute.
  - lia.
Defined.

(** [sendTo] hands the writer a prefix of the content, in order and without gaps,
    however the writer splits it; it reports the full length exactly when everything
    was taken, and otherwise passes on the writer's refusal. *)
Theorem buffer_sendTo {W} (w_write : W -> list Z -> Z * W) (taken : W -> list Z) (good : W -> Prop) (lim : Z)
    (b : Buffer) (w : W) :
  inv b -> writer w_write taken good lim -> good w -> vsize (content b) <= lim ->
  exists res w' k, sendTo w_write b w = Some (res, w') /\ good w' /\
    taken w' = taken w ++ take k (content b) /\
    ((res = vsize (content b) /\ take k (content b) = content b) \/ -2147483648 <= res < 0).
Proof. intros Hi Hw. by apply sendTo_spec. Qed.

(** A writer that takes at most two bytes at a time. *)
Definition small_writer (w bs : list Z) : Z * list Z :=
  (Z.min 2 (vsize bs), w ++ take (Z.to_nat (Z.min 2 (vsize bs))) bs).

Lemma small_writer_law lim : writer small_writer id (fun _ => True) lim.
Proof.
  intros w [|b bs] _ Hne _; [done|]. unfold small_writer, vsize. cbn [List.length]. split; [done|]. left.
  split; [lia|done].
Qed.

Lemma buffer_sendTo_witness :
  exists res w' k, sendTo small_writer demo_buffer [] = Some (res, w') /\ True /\
    w' = [] ++ take k (content demo_buffer) /\
    ((res = vsize (content demo_buffer) /\ take k (content demo_buffer) = content demo_buffer) \/
     -2147483648 <= res < 0).
Proof.
  apply (buffer_sendTo small_writer id (fun _ => True) (2 ^ 40) demo_buffer []).
  - apply demo_buffer_inv.
  - apply small_writer_law.
  - done.
  - by vm_compute.
Defined.

(** ** The peeks of [MemoryData] on a buffer *)
Definition peek_buffer : Buffer :=
  mk_Buffer (replicate 8 0 ++ [1; 0; 0; 0; 9] ++ replicate 83 0) 8 13.

Lemma peekInt_rotates_witness :
  exists d', peekInt peek_buffer = Some (i32 1, d') /\ data_rep d' ([9] ++ to_bytes 4 1).
Proof.
  apply (peekInt_rotates peek_buffer 1 [9]).
  - split; [constructor; repeat split; by vm_compute|by vm_compute].
  - intros r bs d' E. vm_compute in E. injection E as _ _ <-.
    split_and!; [unfold hazard; zeval|by vm_compute|by vm_compute].
Defined.
