(* ===== verification/Ring.v ===== *)
(** * The bounded ring shared by sync/Chan.h and thread/ArrayBlockingQueue.h

    An array of [capacity] slots with a put and a take index that wrap around and a
    count, all [unsigned int]. Refined to a sequence of at most [capacity] elements. *)
From S2P Require Import Prelude.
Local Open Scope Z_scope.

Record ring (T : Type) := mk_ring {
  items : list T;
  putIndex : Z;
  takeIndex : Z;
  count : Z;
  capacity : Z
}.
Arguments mk_ring {T}. Arguments items {T}. Arguments putIndex {T}.
Arguments takeIndex {T}. Arguments count {T}. Arguments capacity {T}.

Section ring.
Context {T : Type}.
Implicit Types (r : ring T) (e : T) (xs : list T).

(** [junk] is what [new T[capacity]] leaves in the slots. *)
Definition ring_new (junk : T) (cap : Z) : ring T :=
  mk_ring (replicate (Z.to_nat cap) junk) 0 0 0 cap.

Definition isFull r : bool := bool_decide (count r = capacity r).
Definition isEmpty r : bool := bool_decide (count r = 0).

(** [if (++i == capacity) i = 0;] *)
Definition next_index r (i : Z) : Z :=
  let i := u32 (i + 1) in if bool_decide (i = capacity r) then 0 else i.

(** The waiters woken at the end of [enqueue] and [dequeue] are the client's part. *)
Definition enqueue e r : option (ring T) :=
  if bool_decide (0 <= putIndex r < Z.of_nat (length (items r))) then
    Some (mk_ring (<[Z.to_nat (putIndex r) := e]> (items r)) (next_index r (putIndex r))
            (takeIndex r) (u32 (count r + 1)) (capacity r))
  else None.

Definition dequeue r : option (T * ring T) :=
  e ← items r !! Z.to_nat (takeIndex r);
  Some (e, mk_ring (items r) (putIndex r) (next_index r (takeIndex r))
             (u32 (count r - 1)) (capacity r)).

Definition ring_clear r : ring T := mk_ring (items r) 0 0 0 (capacity r).

(** ** Representation *)
(** The slot of the [k]-th element. *)
Definition slot r (k : Z) : nat := Z.to_nat ((takeIndex r + k) mod capacity r).

Record ring_rep r xs : Prop := {
  rep_cap : 0 < capacity r < 4294967296;
  rep_items : Z.of_nat (length (items r)) = capacity r;
  rep_take : 0 <= takeIndex r < capacity r;
  rep_count : count r = Z.of_nat (length xs);
  rep_bound : Z.of_nat (length xs) <= capacity r;
  rep_put : putIndex r = (takeIndex r + count r) mod capacity r;
  rep_slots : forall k, (k < length xs)%nat -> items r !! slot r (Z.of_nat k) = xs !! k
}.

Lemma ring_new_rep junk cap : 0 < cap < 4294967296 -> ring_rep (ring_new junk cap) [].
Proof.
  intros Hc. constructor; cbn; try lia; [rewrite length_replicate; lia|done].
Qed.

Lemma isFull_rep r xs :
  ring_rep r xs -> isFull r = bool_decide (Z.of_nat (length xs) = capacity r).
Proof. intros []. unfold isFull. apply bool_decide_ext. lia. Qed.

Lemma isEmpty_rep r xs : ring_rep r xs -> isEmpty r = bool_decide (xs = []).
Proof.
  intros []. unfold isEmpty. apply bool_decide_ext.
  rewrite rep_count0. destruct xs; cbn; split; intros; (done || lia).
Qed.

Lemma next_index_mod r i :
  0 <= i < capacity r -> capacity r < 4294967296 -> next_index r i = (i + 1) mod capacity r.
Proof.
  intros Hi Hc. unfold next_index. rewrite u32_small by lia. case_bool_decide as E.
  - by rewrite E, Z_mod_same_full.
  - by rewrite Z.mod_small by lia.
Qed.

Lemma slot_inj r j k :
  0 < capacity r -> 0 <= j -> j < k -> k < j + capacity r ->
  slot r j <> slot r k.
Proof.
  intros Hc Hj Hjk Hk E. unfold slot in E.
  pose proof (Z.mod_pos_bound (takeIndex r + j) (capacity r) Hc).
  pose proof (Z.mod_pos_bound (takeIndex r + k) (capacity r) Hc).
  assert ((takeIndex r + j) mod capacity r = (takeIndex r + k) mod capacity r) as E' by lia.
  assert ((k - j) mod capacity r = 0) as E2.
  { replace (k - j) with ((takeIndex r + k) - (takeIndex r + j)) by lia.
    rewrite Zminus_mod, E', Z.sub_diag. by apply Z.mod_0_l; lia. }
  rewrite Z.mod_small in E2 by lia. lia.
Qed.

Lemma enqueue_rep e r xs :
  ring_rep r xs -> Z.of_nat (length xs) < capacity r ->
  exists r', enqueue e r = Some r' /\ ring_rep r' (xs ++ [e]) /\ capacity r' = capacity r.
Proof.
  intros Hr Hlt. pose proof Hr as [Hc Hi Ht Hn Hb Hp Hs]. unfold enqueue.
  pose proof (Z.mod_pos_bound (takeIndex r + count r) (capacity r) ltac:(lia)) as Hm.
  rewrite bool_decide_eq_true_2 by lia. eexists. split; [done|]. split; [|done].
  constructor; cbn; try done.
  - by rewrite length_insert.
  - rewrite length_app, u32_small; cbn; lia.
  - rewrite length_app. cbn. lia.
  - rewrite next_index_mod, u32_small, Hp by lia. rewrite Zplus_mod_idemp_l. f_equal. lia.
  - intros k Hk. rewrite length_app in Hk. cbn in Hk.
    change (slot _ (Z.of_nat k)) with (slot r (Z.of_nat k)).
    assert (Z.to_nat (putIndex r) = slot r (Z.of_nat (length xs))) as ->
      by (unfold slot; rewrite Hp, Hn; done).
    destruct (decide (k = length xs)) as [->|Hne].
    + rewrite list_lookup_insert_eq.
      2: { unfold slot. rewrite <- Hn. lia. }
      rewrite lookup_app_r by lia. by rewrite Nat.sub_diag.
    + rewrite list_lookup_insert_ne.
      2: { apply not_eq_sym, slot_inj; lia. }
      rewrite lookup_app_l by lia. apply Hs. lia.
Qed.

Lemma dequeue_rep x r xs :
  ring_rep r (x :: xs) ->
  exists r', dequeue r = Some (x, r') /\ ring_rep r' xs /\ capacity r' = capacity r.
Proof.
  intros Hr. pose proof Hr as [Hc Hi Ht Hn Hb Hp Hs]. cbn in Hb, Hn. unfold dequeue.
  assert (items r !! Z.to_nat (takeIndex r) = Some x) as ->.
  { specialize (Hs 0%nat ltac:(cbn; lia)). cbn in Hs. rewrite <- Hs. unfold slot.
    rewrite Z.add_0_r, Z.mod_small by lia. done. }
  cbn [mbind option_bind]. eexists. split; [done|]. split; [|done].
  assert (next_index r (takeIndex r) = (takeIndex r + 1) mod capacity r) as En
    by (apply next_index_mod; lia).
  constructor; cbn; try done.
  - rewrite En. apply Z.mod_pos_bound. lia.
  - rewrite u32_small; lia.
  - lia.
  - rewrite En, u32_small, Hp by lia. rewrite Zplus_mod_idemp_l. f_equal. lia.
  - intros k Hk. specialize (Hs (S k) ltac:(cbn; lia)). change ((x :: xs) !! S k) with (xs !! k) in Hs.
    rewrite <- Hs. cbn [items]. f_equal. unfold slot; cbn. rewrite En, Zplus_mod_idemp_l. do 2 f_equal. lia.
Qed.
End ring.
