(* ===== verification/CoMutex.v ===== *)
(** * co_mutex.c: the mutex of coroutines

    Tasks on any number of threads take steps in any order; a step is one atomic access:
    the compare-and-swaps on [lock], the acquisition and release of the spin lock
    [wait_lock], a test or list operation under it, the yield, and [co_resume], which
    puts a task into the run queue of its scheduler. A task that has yielded goes on once
    it is in the run queue; being put there before it has yielded counts, as the
    scheduler looks at the queue only after the switch. The wait list is the sequence
    that the ring of [Lists.v] represents. *)
From S2P Require Import Prelude.

(** Where a task is in [co_mutex_lock] ([L]), [task_wait_mutex], [co_mutex_unlock]
    ([U]) and [mutex_wakeup_task] ([W]). *)
Inductive pc :=
  | Idle
  | L0                  (* before the test for a recursive lock *)
  | L1                  (* before [ATOMIC_LOCK] *)
  | L2                  (* before [spin_lock(&wait_lock)] *)
  | L3                  (* holding it, before the recheck *)
  | L4                  (* in the wait list, before [spin_unlock] *)
  | L5                  (* before the yield *)
  | Asleep              (* yielded *)
  | CS                  (* has the mutex *)
  | U1                  (* before [ATOMIC_UNLOCK] *)
  | W0                  (* before [spin_lock(&wait_lock)] *)
  | W1                  (* holding it, before the test *)
  | W2 (t : nat)        (* popped [t], before [spin_unlock] *)
  | W3 (t : nat).       (* before [co_resume(t)] *)

#[export] Instance pc_eq_dec : EqDecision pc.
Proof. solve_decision. Defined.

Record co_mutex_t := mk_mutex {
  lock : option nat;       (* the owner; [MUTEX_UNLOCKED] is [None] *)
  wait_lock : option nat;
  wait_list : list nat;
  run_queue : nat -> bool;
  pcs : nat -> pc
}.

Definition co_mutex_init : co_mutex_t := mk_mutex None None [] (fun _ => false) (fun _ => Idle).

Definition co_mutex_locked (m : co_mutex_t) : bool :=
  match lock m with Some _ => true | None => false end.

Definition at_pc (t : nat) (p : pc) (m : co_mutex_t) : co_mutex_t :=
  mk_mutex (lock m) (wait_lock m) (wait_list m) (run_queue m) (upd (pcs m) t p).
Definition set_lock (l : option nat) (m : co_mutex_t) : co_mutex_t :=
  mk_mutex l (wait_lock m) (wait_list m) (run_queue m) (pcs m).
Definition set_wlock (l : option nat) (m : co_mutex_t) : co_mutex_t :=
  mk_mutex (lock m) l (wait_list m) (run_queue m) (pcs m).
Definition set_wait (ws : list nat) (m : co_mutex_t) : co_mutex_t :=
  mk_mutex (lock m) (wait_lock m) ws (run_queue m) (pcs m).
Definition set_run (t : nat) (b : bool) (m : co_mutex_t) : co_mutex_t :=
  mk_mutex (lock m) (wait_lock m) (wait_list m) (upd (run_queue m) t b) (pcs m).

Definition spin_enter (t : nat) (p : pc) (m : co_mutex_t) : option co_mutex_t :=
  match wait_lock m with None => Some (at_pc t p (set_wlock (Some t) m)) | Some _ => None end.
Definition spin_leave (t : nat) (p : pc) (m : co_mutex_t) : option co_mutex_t :=
  Some (at_pc t p (set_wlock None m)).

(** The next step of task [t]; [None] when it cannot go on (or panics). *)
Definition go (t : nat) (m : co_mutex_t) : option co_mutex_t :=
  match pcs m t with
  | Idle | CS => None
  | L0 => if bool_decide (lock m = Some t) then None else Some (at_pc t L1 m)
  | L1 =>
      match lock m with
      | None => Some (at_pc t CS (set_lock (Some t) m))
      | Some _ => Some (at_pc t L2 m)
      end
  | L2 => spin_enter t L3 m
  | L3 =>
      if co_mutex_locked m then Some (at_pc t L4 (set_wait (wait_list m ++ [t]) m))
      else spin_leave t L1 m
  | L4 => spin_leave t L5 m
  | L5 => Some (at_pc t Asleep m)
  | Asleep => if run_queue m t then Some (at_pc t L1 (set_run t false m)) else None
  | U1 => if bool_decide (lock m = Some t) then Some (at_pc t W0 (set_lock None m)) else None
  | W0 => spin_enter t W1 m
  | W1 =>
      if co_mutex_locked m then spin_leave t Idle m
      else match wait_list m with
           | [] => spin_leave t Idle m
           | u :: ws => Some (at_pc t (W2 u) (set_wait ws m))
           end
  | W2 u => spin_leave t (W3 u) m
  | W3 u => Some (at_pc t Idle (set_run u true m))
  end.

(** What a task does next of its own accord. *)
Inductive act := Lock (t : nat) | TryLock (t : nat) | Unlock (t : nat) | Go (t : nat).

Definition step (a : act) (m : co_mutex_t) : option co_mutex_t :=
  match a with
  | Lock t => match pcs m t with Idle => Some (at_pc t L0 m) | _ => None end
  | TryLock t =>
      match pcs m t with
      | Idle =>
          match lock m with
          | None => Some (at_pc t CS (set_lock (Some t) m))
          | Some _ => Some m
          end
      | CS => Some m                (* the owner is told that it has the lock *)
      | _ => None
      end
  | Unlock t => match pcs m t with CS => Some (at_pc t U1 m) | _ => None end
  | Go t => go t m
  end.

Fixpoint steps (acts : list act) (m : co_mutex_t) : option co_mutex_t :=
  match acts with
  | [] => Some m
  | a :: acts => m ← step a m; steps acts m
  end.

(** ** Invariant *)
Definition owns (p : pc) : bool := match p with CS | U1 => true | _ => false end.
Definition spins (p : pc) : bool :=
  match p with L3 | L4 | W1 | W2 _ => true | _ => false end.
Definition waits (p : pc) : bool := match p with L4 | L5 | Asleep => true | _ => false end.
Definition off_lock (p : pc) : bool := match p with L5 | Asleep => true | _ => false end.
Definition wakes (p : pc) : option nat := match p with W2 u | W3 u => Some u | _ => None end.
(** Points from which the lock will be taken, or a waiter looked for. *)
Definition retries (p : pc) : bool := match p with L1 | W0 | W1 => true | _ => false end.

Record inv (m : co_mutex_t) : Prop := mk_inv {
  inv_lock : forall t, lock m = Some t <-> owns (pcs m t) = true;
  inv_spin : forall t, wait_lock m = Some t <-> spins (pcs m t) = true;
  inv_nodup : NoDup (wait_list m);
  inv_wait : forall t, t ∈ wait_list m ->
    waits (pcs m t) = true /\ run_queue m t = false /\ forall u, wakes (pcs m u) <> Some t;
  inv_wakes : forall u t, wakes (pcs m u) = Some t ->
    off_lock (pcs m t) = true /\ run_queue m t = false;
  inv_wakes_once : forall u v t, wakes (pcs m u) = Some t -> wakes (pcs m v) = Some t -> u = v;
  inv_run : forall t, run_queue m t = true -> off_lock (pcs m t) = true;
  inv_waits : forall t, waits (pcs m t) = true ->
    (t ∈ wait_list m) \/ run_queue m t = true \/ exists u, wakes (pcs m u) = Some t;
  inv_live : lock m = None -> wait_list m <> [] ->
    exists u, retries (pcs m u) = true \/ run_queue m u = true \/ wakes (pcs m u) <> None
}.

Lemma init_inv : inv co_mutex_init.
Proof. constructor; cbn; try done; [constructor|by intros t Ht%elem_of_nil]. Qed.

(** Facts about the task that moves. *)
Lemma not_waiting m t :
  inv m -> waits (pcs m t) = false -> (t ∉ wait_list m) /\ run_queue m t = false /\
    forall u, wakes (pcs m u) <> Some t.
Proof.
  intros Hi Hw. assert (off_lock (pcs m t) = false) as Ho by (by destruct (pcs m t)).
  split_and!.
  - intros Hin. destruct (inv_wait m Hi t Hin). congruence.
  - destruct (run_queue m t) eqn:E; [|done]. pose proof (inv_run m Hi t E). congruence.
  - intros u E. destruct (inv_wakes m Hi u t E). congruence.
Qed.

Ltac solve_inv :=
  intros; upd_cases; cbn in *; simplify_eq; try done; try naive_solver.

(** A move that touches neither locks nor queues. *)
Lemma move_inv m t p :
  inv m -> owns p = owns (pcs m t) -> spins p = spins (pcs m t) -> waits p = waits (pcs m t) ->
  (off_lock (pcs m t) = true -> off_lock p = true) -> wakes p = None -> wakes (pcs m t) = None ->
  (retries (pcs m t) = true -> retries p = true \/ lock m <> None) ->
  inv (at_pc t p m).
Proof.
  intros Hi Ho Hs Hw Hoff Hwk Hwk' Hr. pose proof Hi as [H1 H2 H3 H4 H5 H6 H7 H8 H9].
  constructor; cbn; [..|clear H1 H2 H3 H4 H5 H6 H7 H8].
  - intros u. rewrite H1. upd_cases; [by rewrite Ho|done].
  - intros u. rewrite H2. upd_cases; [by rewrite Hs|done].
  - done.
  - intros u Hu. destruct (H4 u Hu) as (? & ? & Hn). split_and!; [|done|].
    + upd_cases; [congruence|done].
    + intros v. upd_cases; [by rewrite Hwk|apply Hn].
  - intros u v Hu. assert (wakes (pcs m u) = Some v) as E by (upd_cases; [congruence|done]).
    destruct (H5 u v E). split; [|done]. upd_cases; auto.
  - intros u v x Hu Hv. apply (H6 u v x); upd_cases; congruence.
  - intros u Hu. specialize (H7 u Hu). upd_cases; auto.
  - intros u Hu. assert (waits (pcs m u) = true) as E by (upd_cases; congruence).
    destruct (H8 u E) as [?|[?|[v Hv]]]; auto. right; right. exists v. upd_cases; congruence.
  - intros Hl Hne. destruct (H9 Hl Hne) as (u & Hu). destruct (decide (u = t)) as [->|Hut].
    + destruct Hu as [Hu|[Hu|Hu]]; [|by exists t; auto|congruence].
      destruct (Hr Hu) as [?|?]; [|done]. exists t. left. by rewrite upd_eq.
    + exists u. by rewrite upd_ne.
Qed.

Lemma take_inv m t :
  inv m -> lock m = None -> owns (pcs m t) = false -> waits (pcs m t) = false ->
  spins (pcs m t) = false -> wakes (pcs m t) = None ->
  inv (at_pc t CS (set_lock (Some t) m)).
Proof.
  intros Hi Hl Ho Hw Hs Hwk. pose proof (not_waiting m t Hi Hw) as (N1 & N2 & N3).
  pose proof Hi as [H1 H2 H3 H4 H5 H6 H7 H8 H9].
  assert (forall u, owns (pcs m u) = false) as Hnone.
  { intros u. destruct (owns (pcs m u)) eqn:E; [|done]. apply H1 in E. congruence. }
  constructor; cbn; [..|done].
  - intros u. upd_cases; [done|]. rewrite Hnone. split; [congruence|done].
  - intros u. rewrite H2. upd_cases; [by rewrite Hs|done].
  - done.
  - intros u Hu. destruct (H4 u Hu) as (? & ? & Hn). split_and!; [|done|].
    + upd_cases; first [done|congruence].
    + intros v. upd_cases; [done|apply Hn].
  - intros u v Hu. assert (wakes (pcs m u) = Some v) as E by (upd_cases; done).
    destruct (H5 u v E). split; [|done]. clear Hu. upd_cases; [exfalso; by eapply N3|done].
  - intros u v x Hu Hv. apply (H6 u v x); upd_cases; first [done|congruence].
  - intros u Hu. pose proof (H7 u Hu). upd_cases; first [done|congruence].
  - intros u Hu. assert (waits (pcs m u) = true) as E by (upd_cases; first [done|congruence]).
    destruct (H8 u E) as [?|[?|[v Hv]]]; auto. right; right. exists v. upd_cases; first [done|congruence].
Qed.

(** Entering and leaving the spin lock. *)
Lemma spin_move_inv m t p l :
  inv m -> (wait_lock m = None /\ l = Some t /\ spins p = true \/
            spins (pcs m t) = true /\ l = None /\ spins p = false) ->
  owns p = owns (pcs m t) -> waits p = waits (pcs m t) ->
  (off_lock (pcs m t) = true -> off_lock p = true) -> wakes p = wakes (pcs m t) ->
  (retries (pcs m t) = true -> retries p = true \/ lock m <> None \/ wait_list m = []) ->
  inv (at_pc t p (set_wlock l m)).
Proof.
  intros Hi Hs Ho Hw Hoff Hwk Hr. pose proof Hi as [H1 H2 H3 H4 H5 H6 H7 H8 H9].
  assert (forall u, wakes (upd (pcs m) t p u) = wakes (pcs m u)) as Ewk
    by (intros u; upd_cases; done).
  assert (forall u, waits (upd (pcs m) t p u) = waits (pcs m u)) as Ew
    by (intros u; upd_cases; done).
  constructor; cbn.
  - intros u. rewrite H1. upd_cases; [by rewrite Ho|done].
  - intros u. destruct Hs as [(Hn & -> & Hp)|(Hp & -> & Hn)].
    + assert (forall v, spins (pcs m v) = false) as Hnone.
      { intros v. destruct (spins (pcs m v)) eqn:E; [|done]. apply H2 in E. congruence. }
      upd_cases; [by rewrite Hp|]. rewrite Hnone. split; [congruence|done].
    + apply H2 in Hp. upd_cases; [by rewrite Hn|]. rewrite <- H2. split; [done|congruence].
  - done.
  - intros u Hu. rewrite Ew. destruct (H4 u Hu) as (? & ? & Hn). split_and!; [done..|].
    intros v. by rewrite Ewk.
  - intros u v. rewrite Ewk. intros Hu. destruct (H5 u v Hu). split; [|done]. upd_cases; auto.
  - intros u v x. rewrite !Ewk. apply H6.
  - intros u Hu. specialize (H7 u Hu). upd_cases; auto.
  - intros u. rewrite Ew. intros Hu. destruct (H8 u Hu) as [?|[?|[v Hv]]]; auto.
    right; right. exists v. by rewrite Ewk.
  - intros Hl Hne. destruct (H9 Hl Hne) as (u & Hu). setoid_rewrite Ewk.
    destruct Hu as [Hu|Hu]; [|by exists u; auto].
    destruct (decide (u = t)) as [->|Hut]; [|exists u; rewrite upd_ne by done; auto].
    destruct (Hr Hu) as [?|[?|?]]; [|done|done]. exists t. left. by rewrite upd_eq.
Qed.

(** [ATOMIC_UNLOCK] *)
Lemma mutex_release_inv m t :
  inv m -> pcs m t = U1 -> inv (at_pc t W0 (set_lock None m)).
Proof.
  intros Hi Hp. pose proof Hi as [H1 H2 H3 H4 H5 H6 H7 H8 H9].
  assert (lock m = Some t) as Hl by (apply H1; by rewrite Hp).
  assert (forall u, wakes (upd (pcs m) t W0 u) = wakes (pcs m u)) as Ewk
    by (intros u; upd_cases; by rewrite ?Hp).
  assert (forall u, waits (upd (pcs m) t W0 u) = waits (pcs m u)) as Ew
    by (intros u; upd_cases; by rewrite ?Hp).
  assert (forall u, off_lock (upd (pcs m) t W0 u) = off_lock (pcs m u)) as Eo
    by (intros u; upd_cases; by rewrite ?Hp).
  constructor; cbn.
  - intros u. upd_cases; [done|]. split; [done|]. intros Hu%H1. congruence.
  - intros u. rewrite H2. upd_cases; by rewrite ?Hp.
  - done.
  - intros u Hu. rewrite Ew. setoid_rewrite Ewk. by apply H4.
  - intros u v. rewrite Ewk, Eo. apply H5.
  - intros u v x. rewrite !Ewk. apply H6.
  - intros u. rewrite Eo. apply H7.
  - intros u. rewrite Ew. setoid_rewrite Ewk. apply H8.
  - intros _ _. exists t. left. by rewrite upd_eq.
Qed.

(** A task adds itself to the wait list, with the mutex taken. *)
Lemma append_inv m t :
  inv m -> pcs m t = L3 -> lock m <> None ->
  inv (at_pc t L4 (set_wait (wait_list m ++ [t]) m)).
Proof.
  intros Hi Hp Hl. pose proof (not_waiting m t Hi ltac:(by rewrite Hp)) as (N1 & N2 & N3).
  pose proof Hi as [H1 H2 H3 H4 H5 H6 H7 H8 H9].
  assert (forall u, wakes (upd (pcs m) t L4 u) = wakes (pcs m u)) as Ewk
    by (intros u; upd_cases; by rewrite ?Hp).
  assert (forall u, u <> t -> upd (pcs m) t L4 u = pcs m u) as Ene by (intros; by apply upd_ne).
  constructor; cbn.
  - intros u. rewrite H1. upd_cases; by rewrite ?Hp.
  - intros u. rewrite H2. upd_cases; by rewrite ?Hp.
  - apply NoDup_app. split_and!; [done|set_solver|apply NoDup_singleton].
  - intros u Hu. setoid_rewrite Ewk. destruct (decide (u = t)) as [->|Hut].
    + rewrite upd_eq. done.
    + rewrite Ene by done. apply H4. set_solver.
  - intros u v. rewrite Ewk. intros Hu. rewrite Ene; [by eapply H5|].
    intros ->. by eapply N3.
  - intros u v x. rewrite !Ewk. apply H6.
  - intros u Hu. rewrite Ene; [by apply H7|]. intros ->. congruence.
  - intros u Hu. setoid_rewrite Ewk. destruct (decide (u = t)) as [->|Hut]; [set_solver|].
    rewrite Ene in Hu by done. destruct (H8 u Hu) as [?|?]; [set_solver|by right].
  - done.
Qed.

(** A task in the run queue goes on. *)
Lemma awake_inv m t :
  inv m -> pcs m t = Asleep -> run_queue m t = true -> inv (at_pc t L1 (set_run t false m)).
Proof.
  intros Hi Hp Hrun. pose proof Hi as [H1 H2 H3 H4 H5 H6 H7 H8 H9].
  assert (forall u, wakes (upd (pcs m) t L1 u) = wakes (pcs m u)) as Ewk
    by (intros u; upd_cases; by rewrite ?Hp).
  assert (t ∉ wait_list m) as N1.
  { intros Hin. destruct (H4 t Hin) as (_ & ? & _). congruence. }
  assert (forall u, wakes (pcs m u) <> Some t) as N3.
  { intros u E. destruct (H5 u t E). congruence. }
  assert (forall u, u <> t -> upd (pcs m) t L1 u = pcs m u) as Ene by (intros; by apply upd_ne).
  constructor; cbn.
  - intros u. rewrite H1. upd_cases; by rewrite ?Hp.
  - intros u. rewrite H2. upd_cases; by rewrite ?Hp.
  - done.
  - intros u Hu. setoid_rewrite Ewk. assert (u <> t) as Hut by congruence.
    rewrite Ene, upd_ne by done. by apply H4.
  - intros u v. rewrite Ewk. intros Hu. assert (v <> t) as Hvt by (intros ->; by eapply N3).
    rewrite Ene, upd_ne by done. by eapply H5.
  - intros u v x. rewrite !Ewk. apply H6.
  - intros u Hu. assert (u <> t) as Hut by (intros ->; by rewrite upd_eq in Hu).
    rewrite Ene by done. rewrite upd_ne in Hu by done. by apply H7.
  - intros u Hu. setoid_rewrite Ewk.
    assert (u <> t) as Hut by (intros ->; by rewrite upd_eq in Hu).
    rewrite Ene in Hu by done. rewrite upd_ne by done. by apply H8.
  - intros _ _. exists t. left. by rewrite upd_eq.
Qed.

(** The first waiter is taken out of the wait list. *)
Lemma mutex_pop_inv m t u ws :
  inv m -> pcs m t = W1 -> wait_list m = u :: ws -> inv (at_pc t (W2 u) (set_wait ws m)).
Proof.
  intros Hi Hp Hw. pose proof Hi as [H1 H2 H3 H4 H5 H6 H7 H8 H9]. rewrite Hw in H3, H4, H8.
  apply NoDup_cons in H3 as [Hnin Hnd].
  destruct (H4 u ltac:(left)) as (U1' & U2 & U3).
  assert (wait_lock m = Some t) as Hsp by (apply H2; by rewrite Hp).
  assert (off_lock (pcs m u) = true) as Hoff.
  { destruct (pcs m u) eqn:E; try discriminate U1'; [|done|done].
    assert (wait_lock m = Some u) as E2 by (apply H2; by rewrite E).
    assert (u = t) by congruence. congruence. }
  assert (forall v, v <> t -> upd (pcs m) t (W2 u) v = pcs m v) as Ene by (intros; by apply upd_ne).
  assert (forall v, waits (upd (pcs m) t (W2 u) v) = waits (pcs m v)) as Ew
    by (intros v; upd_cases; by rewrite ?Hp).
  assert (forall v, off_lock (upd (pcs m) t (W2 u) v) = off_lock (pcs m v)) as Eo
    by (intros v; upd_cases; by rewrite ?Hp).
  assert (forall v x, wakes (upd (pcs m) t (W2 u) v) = Some x ->
    (v = t /\ x = u) \/ (v <> t /\ wakes (pcs m v) = Some x)) as Ewk.
  { intros v x. upd_cases; cbn; [intros; left; split; congruence|auto]. }
  constructor; cbn.
  - intros v. rewrite H1. upd_cases; by rewrite ?Hp.
  - intros v. rewrite H2. upd_cases; by rewrite ?Hp.
  - done.
  - intros v Hv. rewrite Ew. destruct (H4 v ltac:(by right)) as (? & ? & Hn).
    split_and!; [done..|]. intros x [[_ ->]|[_ ?]]%Ewk; [done|by eapply Hn].
  - intros v x [[_ ->]|[_ ?]]%Ewk; rewrite Eo; [done|by eapply H5].
  - intros v v' x [[-> ->]|[? Hv]]%Ewk [[-> Hx]|[? Hv']]%Ewk; [done| | |by eapply H6].
    + by destruct (U3 v').
    + subst x. by destruct (U3 v).
  - intros v. rewrite Eo. apply H7.
  - intros v. rewrite Ew. intros Hv. destruct (H8 v Hv) as [[->|?]%elem_of_cons|[?|[x Hx]]].
    + right; right. exists t. by rewrite upd_eq.
    + by left.
    + by right; left.
    + right; right. exists x. rewrite Ene; [done|]. intros ->. by rewrite Hp in Hx.
  - intros _ _. exists t. right; right. by rewrite upd_eq.
Qed.

(** [co_resume] *)
Lemma resume_inv m t u :
  inv m -> pcs m t = W3 u -> inv (at_pc t Idle (set_run u true m)).
Proof.
  intros Hi Hp. pose proof Hi as [H1 H2 H3 H4 H5 H6 H7 H8 H9].
  assert (wakes (pcs m t) = Some u) as Hwk by (by rewrite Hp).
  destruct (H5 t u Hwk) as (Hoff & Hrun).
  assert (forall v, waits (upd (pcs m) t Idle v) = waits (pcs m v)) as Ew
    by (intros v; upd_cases; by rewrite ?Hp).
  assert (forall v, off_lock (upd (pcs m) t Idle v) = off_lock (pcs m v)) as Eo
    by (intros v; upd_cases; by rewrite ?Hp).
  assert (forall v x, wakes (upd (pcs m) t Idle v) = Some x -> v <> t /\ wakes (pcs m v) = Some x)
    as Ewk by (intros v x; upd_cases; [done|auto]).
  assert (u ∉ wait_list m) as Nu by (intros Hin; destruct (H4 u Hin) as (_ & _ & Hn); by eapply Hn).
  constructor; cbn.
  - intros v. rewrite H1. upd_cases; by rewrite ?Hp.
  - intros v. rewrite H2. upd_cases; by rewrite ?Hp.
  - done.
  - intros v Hv. rewrite Ew. destruct (H4 v Hv) as (? & ? & Hn).
    split_and!; [done|rewrite upd_ne; congruence|]. intros x [_ ?]%Ewk. by eapply Hn.
  - intros v x [Hvt Hv]%Ewk. rewrite Eo. destruct (H5 v x Hv). split; [done|].
    rewrite upd_ne; [done|]. intros ->. apply Hvt. by eapply H6.
  - intros v v' x [_ ?]%Ewk [_ ?]%Ewk. by eapply H6.
  - intros v Hv. rewrite Eo. destruct (decide (v = u)) as [->|]; [done|].
    rewrite upd_ne in Hv by done. by apply H7.
  - intros v. rewrite Ew. intros Hv. destruct (decide (v = u)) as [->|Hvu].
    { right; left. by rewrite upd_eq. }
    destruct (H8 v Hv) as [?|[?|[x Hx]]]; [by left|right; left; by rewrite upd_ne|].
    right; right. exists x. rewrite upd_ne; [done|]. intros ->. congruence.
  - intros _ _. exists u. right; left. by rewrite upd_eq.
Qed.

Lemma go_inv m t m' : inv m -> go t m = Some m' -> inv m'.
Proof.
  intros Hi Hg. unfold go, spin_enter, spin_leave, co_mutex_locked in Hg.
  destruct (pcs m t) eqn:Hp; try done.
  - case_bool_decide; [done|]. injection Hg as <-. apply move_inv; rewrite ?Hp; auto.
  - destruct (lock m) eqn:Hl; injection Hg as <-.
    + apply move_inv; rewrite ?Hp; auto. right. congruence.
    + apply take_inv; by rewrite ?Hp.
  - destruct (wait_lock m) eqn:Hw; [done|]. injection Hg as <-.
    apply spin_move_inv; rewrite ?Hp; auto.
  - destruct (lock m) eqn:Hl; injection Hg as <-.
    + apply append_inv; [done|done|congruence].
    + apply spin_move_inv; rewrite ?Hp; auto.
  - injection Hg as <-. apply spin_move_inv; rewrite ?Hp; auto.
  - injection Hg as <-. apply move_inv; rewrite ?Hp; auto.
  - destruct (run_queue m t) eqn:Hr; [|done]. injection Hg as <-. by apply awake_inv.
  - case_bool_decide; [|done]. injection Hg as <-. by apply mutex_release_inv.
  - destruct (wait_lock m) eqn:Hw; [done|]. injection Hg as <-.
    apply spin_move_inv; rewrite ?Hp; auto.
  - destruct (lock m) eqn:Hl; [|destruct (wait_list m) as [|u ws] eqn:Hw]; injection Hg as <-.
    + apply spin_move_inv; rewrite ?Hp; auto. right; left. congruence.
    + apply spin_move_inv; rewrite ?Hp; auto.
    + by apply mutex_pop_inv.
  - injection Hg as <-. apply spin_move_inv; rewrite ?Hp; auto.
  - injection Hg as <-. by apply resume_inv.
Qed.

Lemma mutex_step_inv m a m' : inv m -> step a m = Some m' -> inv m'.
Proof.
  intros Hi Hs. destruct a as [t|t|t|t]; cbn in Hs; [| | |by eapply go_inv].
  - destruct (pcs m t) eqn:Hp; try done. injection Hs as <-. apply move_inv; rewrite ?Hp; auto.
  - destruct (pcs m t) eqn:Hp; try done; [|by injection Hs as <-].
    destruct (lock m) eqn:Hl; injection Hs as <-; [done|]. apply take_inv; by rewrite ?Hp.
  - destruct (pcs m t) eqn:Hp; try done. injection Hs as <-. apply move_inv; rewrite ?Hp; auto.
Qed.

Lemma mutex_steps_inv m acts m' : inv m -> steps acts m = Some m' -> inv m'.
Proof.
  revert m. induction acts as [|a acts IH]; intros m Hi Hs; cbn in Hs; [by simplify_eq|].
  destruct (step a m) as [m1|] eqn:E; [|done]. eapply IH; [by eapply mutex_step_inv|done].
Qed.

(** [co_mutex_lock_wait] after its [co_mutex_try_lock] failed and it has slept. *)
Definition co_mutex_lock_wait_result (m : co_mutex_t) : bool := co_mutex_locked m.

(** ** Properties *)
(** C24. Mutual exclusion: in every interleaving of the tasks' steps at most one task is
    between its [co_mutex_lock] (or [co_mutex_try_lock]) and its [co_mutex_unlock], the
    owner word names it, and its unlock does not panic. *)
Theorem mutex_excludes (acts : list act) (m : co_mutex_t) :
  steps acts co_mutex_init = Some m ->
  (forall t u, owns (pcs m t) = true -> owns (pcs m u) = true -> t = u) /\
  (forall t, owns (pcs m t) = true -> lock m = Some t) /\
  (forall t, pcs m t = U1 -> exists m', go t m = Some m').
Proof.
  intros Hs. pose proof (mutex_steps_inv _ _ _ init_inv Hs) as [H1 _ _ _ _ _ _ _ _].
  assert (forall t, owns (pcs m t) = true -> lock m = Some t) as Hown by (intros; by apply H1).
  split_and!; [|done|].
  - intros t u Ht%Hown Hu%Hown. congruence.
  - intros t Ht. unfold go. rewrite Ht, bool_decide_eq_true_2; [eauto|].
    apply Hown. by rewrite Ht.
Qed.

(** Task 0 locks, task 1 queues up, task 0 unlocks and wakes it. *)
Definition demo : list act :=
  [Lock 0; Go 0; Go 0; Lock 1; Go 1; Go 1; Go 1; Go 1; Unlock 0; Go 0; Go 1; Go 1;
   Go 0; Go 0; Go 0; Go 0; Go 1; Go 1].

Definition demo_end : co_mutex_t := default co_mutex_init (steps demo co_mutex_init).

Lemma mutex_excludes_witness :
  (forall t u, owns (pcs demo_end t) = true -> owns (pcs demo_end u) = true -> t = u) /\
  (forall t, owns (pcs demo_end t) = true -> lock demo_end = Some t) /\
  (forall t, pcs demo_end t = U1 -> exists m', go t demo_end = Some m').
Proof. apply (mutex_excludes demo demo_end), defined_default. by vm_compute. Defined.

Example demo_owner : lock demo_end = Some 1%nat.
Proof. by vm_compute. Qed.

(** A task that spins, wakes or is in the run queue can go on. *)
Lemma spinner_goes m t : inv m -> spins (pcs m t) = true -> exists m', go t m = Some m'.
Proof.
  intros Hi Hs. unfold go, spin_leave. destruct (pcs m t); try discriminate Hs.
  - destruct (co_mutex_locked m); eauto.
  - eauto.
  - destruct (co_mutex_locked m); [eauto|]. destruct (wait_list m); eauto.
  - eauto.
Qed.

Lemma enter_goes m : inv m ->
  wait_lock m = None \/ exists v m', go v m = Some m'.
Proof.
  intros Hi. destruct (wait_lock m) as [v|] eqn:E; [right|by left].
  apply (inv_spin m Hi) in E. exists v. by apply spinner_goes.
Qed.

(** In a state that keeps the invariant, somebody can go on while a task waits for a free
    mutex. *)
Lemma waiter_goes m t : inv m -> lock m = None -> waits (pcs m t) = true -> exists u m', go u m = Some m'.
Proof.
  intros Hi Hl Hw.
  assert (forall u, run_queue m u = true -> exists v m', go v m = Some m') as Hrun.
  { intros u Hu. exists u. pose proof (inv_run m Hi u Hu) as Ho. unfold go.
    destruct (pcs m u); try discriminate Ho; rewrite ?Hu; eauto. }
  assert (forall u, wakes (pcs m u) <> None -> exists v m', go v m = Some m') as Hwk.
  { intros u Hu. exists u. unfold go, spin_leave. destruct (pcs m u); try done; eauto. }
  destruct (inv_waits m Hi t Hw) as [Hin|[Hr|[u Hu]]]; [|by eapply Hrun|eapply (Hwk u); congruence].
  destruct (inv_live m Hi Hl) as (u & [Hu|[Hu|Hu]]); [by intros E; rewrite E in Hin; inversion Hin| | |].
  - destruct (pcs m u) eqn:Hp; try discriminate Hu.
    + exists u. unfold go. rewrite Hp, Hl. eauto.
    + destruct (enter_goes m Hi) as [Hn|?]; [|done]. exists u. unfold go, spin_enter.
      rewrite Hp, Hn. eauto.
    + exists u. apply spinner_goes; [done|by rewrite Hp].
  - by eapply Hrun.
  - by eapply Hwk.
Qed.

(** No lost wakeups: in every reachable state in which the mutex is free and some
    task is waiting for it (in the wait list, about to sleep, or asleep), some task can
    take a step; the system never comes to rest with the mutex free and a waiter left
    behind, whatever the interleaving of the recheck, the unlock and the wakeup. *)
Theorem mutex_no_lost_wakeup (acts : list act) (m : co_mutex_t) (t : nat) :
  steps acts co_mutex_init = Some m -> lock m = None -> waits (pcs m t) = true ->
  exists u m', go u m = Some m'.
Proof. intros Hs. apply waiter_goes, (mutex_steps_inv _ _ _ init_inv Hs). Qed.

(** Task 1 has added itself to the wait list when the owner's unlock begins to wake. *)
Definition handover : list act :=
  [Lock 0; Go 0; Go 0; Lock 1; Go 1; Go 1; Go 1; Go 1; Unlock 0; Go 0].
Definition handover_end : co_mutex_t := default co_mutex_init (steps handover co_mutex_init).

Lemma mutex_no_lost_wakeup_witness : exists u m', go u handover_end = Some m'.
Proof.
  apply (mutex_no_lost_wakeup handover handover_end 1);
    [by apply defined_default; vm_compute|by vm_compute|by vm_compute].
Defined.
