(* ===== verification/CoSem.v ===== *)
(** * co_sem.c: the semaphore of coroutines

    Steps and conventions as in [CoMutex.v]: each atomic access to [sem], each
    acquisition or release of [wait_lock], each test or list operation under it, the yield
    and [co_resume] are steps of their own, and tasks interleave between them. The
    counter is taken not to reach the limits of [int]. The counts of posts and of
    acquisitions are recorded next to the state. *)
From S2P Require Import Prelude.
From stdpp Require Import fin_sets.
Local Open Scope Z_scope.

(** Where a task is in [co_sem_wait] ([A]), [co_sem_try_wait] ([T]) and [co_sem_post]
    ([P]). *)
Inductive pc :=
  | Idle
  | A0                  (* before the decrement *)
  | A1                  (* decremented below zero, before [spin_lock] *)
  | A2                  (* holding the spin lock, before the recheck *)
  | A3                  (* in the wait list, before [spin_unlock] *)
  | A4                  (* before the yield *)
  | Asleep
  | T1 | T2             (* as [A1] and [A2] *)
  | T3                  (* after the increment, before [spin_unlock] *)
  | P1 | P2             (* before [spin_lock]; holding it, before the recheck *)
  | P3 (t : option nat) (* popped, before [spin_unlock] *)
  | P4 (t : option nat) (* before [co_resume] *)
  | Leave.              (* before the [spin_unlock] that ends the call *)

Record co_sem_t := mk_sem {
  sem : Z;
  wait_lock : option nat;
  wait_list : list nat;
  run_queue : nat -> bool;
  pcs : nat -> pc;
  posts : Z;
  acquired : Z
}.

Definition co_sem_init (count : Z) : co_sem_t :=
  mk_sem (i32 count) None [] (fun _ => false) (fun _ => Idle) 0 0.

Definition goto (t : nat) (p : pc) (s : co_sem_t) : co_sem_t :=
  mk_sem (sem s) (wait_lock s) (wait_list s) (run_queue s) (upd (pcs s) t p) (posts s) (acquired s).
Definition add_sem (d : Z) (s : co_sem_t) : co_sem_t :=
  mk_sem (sem s + d) (wait_lock s) (wait_list s) (run_queue s) (pcs s) (posts s) (acquired s).
Definition set_spin (l : option nat) (s : co_sem_t) : co_sem_t :=
  mk_sem (sem s) l (wait_list s) (run_queue s) (pcs s) (posts s) (acquired s).
Definition set_list (ws : list nat) (s : co_sem_t) : co_sem_t :=
  mk_sem (sem s) (wait_lock s) ws (run_queue s) (pcs s) (posts s) (acquired s).
Definition set_run (t : nat) (b : bool) (s : co_sem_t) : co_sem_t :=
  mk_sem (sem s) (wait_lock s) (wait_list s) (upd (run_queue s) t b) (pcs s) (posts s) (acquired s).
(** Records that a wait succeeded, or that a post was made. *)
Definition got (s : co_sem_t) : co_sem_t :=
  mk_sem (sem s) (wait_lock s) (wait_list s) (run_queue s) (pcs s) (posts s) (acquired s + 1).
Definition posted (s : co_sem_t) : co_sem_t :=
  mk_sem (sem s) (wait_lock s) (wait_list s) (run_queue s) (pcs s) (posts s + 1) (acquired s).

Definition spin_enter (t : nat) (p : pc) (s : co_sem_t) : option co_sem_t :=
  match wait_lock s with None => Some (goto t p (set_spin (Some t) s)) | Some _ => None end.

(** [atomic_dec_and_negative] and [atomic_inc_and_negative]. *)
Definition dec_and_negative (s : co_sem_t) : bool * co_sem_t :=
  (bool_decide (sem s - 1 < 0), add_sem (-1) s).
Definition inc_and_negative (s : co_sem_t) : bool * co_sem_t :=
  (bool_decide (sem s + 1 < 0), add_sem 1 s).

Definition go (t : nat) (s : co_sem_t) : option co_sem_t :=
  match pcs s t with
  | Idle => None
  | A0 =>
      let '(neg, s) := dec_and_negative s in
      Some (if neg : bool then goto t A1 s else goto t Idle (got s))
  | A1 => spin_enter t A2 s
  | A2 =>
      if bool_decide (sem s >= 0) then Some (goto t Leave (got s))
      else Some (goto t A3 (set_list (wait_list s ++ [t]) s))
  | A3 => Some (goto t A4 (set_spin None s))
  | A4 => Some (goto t Asleep s)
  | Asleep => if run_queue s t then Some (goto t A0 (set_run t false s)) else None
  | T1 => spin_enter t T2 s
  | T2 =>
      if bool_decide (sem s >= 0) then Some (goto t Leave (got s))
      else Some (goto t T3 (add_sem 1 s))
  | T3 => Some (goto t Idle (set_spin None s))
  | P1 => spin_enter t P2 s
  | P2 =>
      if bool_decide (sem s >= 0) then Some (goto t Leave s)
      else match wait_list s with
           | [] => Some (goto t (P3 None) s)
           | u :: ws => Some (goto t (P3 (Some u)) (set_list ws s))
           end
  | P3 u => Some (goto t (P4 u) (set_spin None s))
  | P4 None => Some (goto t Idle s)
  | P4 (Some u) => Some (goto t Idle (set_run u true s))
  | Leave => Some (goto t Idle (set_spin None s))
  end.

Inductive act := Wait (t : nat) | TryWait (t : nat) | Post (t : nat) | Go (t : nat).

Definition step (a : act) (s : co_sem_t) : option co_sem_t :=
  match a with
  | Wait t => match pcs s t with Idle => Some (goto t A0 s) | _ => None end
  | TryWait t =>
      match pcs s t with
      | Idle =>
          let '(neg, s) := dec_and_negative s in
          Some (if neg : bool then goto t T1 s else goto t Idle (got s))
      | _ => None
      end
  | Post t =>
      match pcs s t with
      | Idle =>
          let '(neg, s) := inc_and_negative (posted s) in
          Some (if neg : bool then goto t P1 s else goto t Idle s)
      | _ => None
      end
  | Go t => go t s
  end.

Fixpoint steps (acts : list act) (s : co_sem_t) : option co_sem_t :=
  match acts with
  | [] => Some s
  | a :: acts => s ← step a s; steps acts s
  end.

(** ** Accounting *)
(** Tasks whose decrement is not yet decided. *)
Definition undecided (p : pc) : bool := match p with A1 | A2 | T1 | T2 => true | _ => false end.

(** [sem] is what was put in less the decrements: those that succeeded, those undecided,
    and those of waits that went to sleep, which are never given back. *)
Definition accounted (count : Z) (s : co_sem_t) : Prop :=
  exists (pend : gset nat) (lost : Z), 0 <= lost /\
    (forall t, undecided (pcs s t) = true -> t ∈ pend) /\
    (forall t, t ∈ pend -> undecided (pcs s t) = true) /\
    sem s = count + posts s - acquired s - Z.of_nat (size pend) - lost.

Definition safe (count : Z) (s : co_sem_t) : Prop :=
  accounted count s /\ acquired s <= count + posts s.

(** The four ways a step can change the accounts of the task that takes it. *)
Lemma acc_same count s t p d da dp :
  accounted count s -> undecided p = undecided (pcs s t) -> d = dp - da ->
  accounted count (mk_sem (sem s + d) (wait_lock s) (wait_list s) (run_queue s)
    (upd (pcs s) t p) (posts s + dp) (acquired s + da)).
Proof.
  intros (pend & lost & Hl & H1 & H2 & He) Hp ->. exists pend, lost. cbn.
  split_and!; [done|intros u; upd_cases; rewrite ?Hp; auto..|lia].
Qed.

Lemma acc_enter count s t p :
  accounted count s -> undecided (pcs s t) = false -> undecided p = true ->
  accounted count (mk_sem (sem s + -1) (wait_lock s) (wait_list s) (run_queue s)
    (upd (pcs s) t p) (posts s) (acquired s)).
Proof.
  intros (pend & lost & Hl & H1 & H2 & He) Hn Hp. exists ({[t]} ∪ pend), lost. cbn.
  assert (t ∉ pend) by (intros Hin%H2; congruence).
  split_and!; [done| | |].
  - intros u. upd_cases; set_solver.
  - intros u Hu. upd_cases; [done|]. apply H2. set_solver.
  - rewrite size_union, size_singleton by set_solver. lia.
Qed.

Lemma acc_leave count s t p d da :
  accounted count s -> undecided (pcs s t) = true -> undecided p = false -> d + da <= 1 ->
  accounted count (mk_sem (sem s + d) (wait_lock s) (wait_list s) (run_queue s)
    (upd (pcs s) t p) (posts s) (acquired s + da)).
Proof.
  intros (pend & lost & Hl & H1 & H2 & He) Hu Hp Hd. exists (pend ∖ {[t]}), (lost + 1 - d - da). cbn.
  pose proof (H1 t Hu) as Hin.
  assert (size pend = S (size (pend ∖ {[t]}))) as Es.
  { rewrite size_difference, size_singleton by set_solver.
    assert (size pend <> 0)%nat; [|lia]. intros E. apply size_empty_inv in E. set_solver. }
  split_and!; [lia| | |lia].
  - intros u Hu'. upd_cases; [congruence|]. apply elem_of_difference. set_solver.
  - intros u Hu'. upd_cases; [set_solver|]. apply H2. set_solver.
Qed.

(** The accounts do not look at the locks, the list and the run queue. *)
Lemma acc_ext count s s' :
  accounted count s -> sem s' = sem s -> pcs s' = pcs s -> posts s' = posts s ->
  acquired s' = acquired s -> accounted count s'.
Proof.
  intros (pend & lost & Hl & H1 & H2 & He) E1 E2 E3 E4. exists pend, lost.
  rewrite E1, E2, E3, E4. done.
Qed.

Lemma acc_move count s t p :
  accounted count s -> undecided p = undecided (pcs s t) -> accounted count (goto t p s).
Proof.
  intros Ha Hp. eapply acc_ext; [apply (acc_same count s t p 0 0 0 Ha Hp eq_refl)|cbn; first [done|lia]..].
Qed.

Lemma acc_sem count s : accounted count s ->
  sem s <= count + posts s - acquired s /\
  forall t, undecided (pcs s t) = true -> sem s + 1 <= count + posts s - acquired s.
Proof.
  intros (pend & lost & Hl & H1 & H2 & He). split; [lia|]. intros t Ht.
  pose proof (H1 t Ht). assert (size pend <> 0)%nat; [|lia].
  intros E. apply size_empty_inv in E. set_solver.
Qed.

Lemma go_safe count s t s' : safe count s -> go t s = Some s' -> safe count s'.
Proof.
  intros [Ha Hs] Hg. destruct (acc_sem count s Ha) as [Hle Hund].
  unfold go, spin_enter, dec_and_negative in Hg.
  destruct (pcs s t) as [| | | | | | | | | | | |[u|]|[u|]|] eqn:Hp; try done.
  - case_bool_decide; injection Hg as <-.
    + split; [|done]. by apply (acc_enter count s t A1); rewrite ?Hp.
    + split; [|cbn; lia].
      eapply acc_ext; [apply (acc_same count s t Idle (-1) 1 0 Ha); by rewrite ?Hp|cbn; first [done|lia]..].
  - destruct (wait_lock s); [done|]. injection Hg as <-. split; [|done].
    eapply acc_ext; [apply (acc_move count s t A2 Ha); by rewrite Hp|done..].
  - specialize (Hund t ltac:(by rewrite Hp)). case_bool_decide; injection Hg as <-.
    + split; [|cbn; lia].
      eapply acc_ext; [apply (acc_leave count s t Leave 0 1 Ha); by rewrite ?Hp|cbn; first [done|lia]..].
    + split; [|done].
      eapply acc_ext; [apply (acc_leave count s t A3 0 0 Ha); by rewrite ?Hp|cbn; first [done|lia]..].
  - injection Hg as <-. split; [|done].
    eapply acc_ext; [apply (acc_move count s t A4 Ha); by rewrite Hp|done..].
  - injection Hg as <-. split; [|done]. apply acc_move; by rewrite ?Hp.
  - destruct (run_queue s t); [|done]. injection Hg as <-. split; [|done].
    eapply acc_ext; [apply (acc_move count s t A0 Ha); by rewrite Hp|done..].
  - destruct (wait_lock s); [done|]. injection Hg as <-. split; [|done].
    eapply acc_ext; [apply (acc_move count s t T2 Ha); by rewrite Hp|done..].
  - specialize (Hund t ltac:(by rewrite Hp)). case_bool_decide; injection Hg as <-.
    + split; [|cbn; lia].
      eapply acc_ext; [apply (acc_leave count s t Leave 0 1 Ha); by rewrite ?Hp|cbn; first [done|lia]..].
    + split; [|done].
      eapply acc_ext; [apply (acc_leave count s t T3 1 0 Ha); by rewrite ?Hp|cbn; first [done|lia]..].
  - injection Hg as <-. split; [|done].
    eapply acc_ext; [apply (acc_move count s t Idle Ha); by rewrite Hp|done..].
  - destruct (wait_lock s); [done|]. injection Hg as <-. split; [|done].
    eapply acc_ext; [apply (acc_move count s t P2 Ha); by rewrite Hp|done..].
  - case_bool_decide; [injection Hg as <-; split; [|done]; apply acc_move; by rewrite ?Hp|].
    destruct (wait_list s) as [|u ws]; injection Hg as <-; (split; [|done]).
    + apply acc_move; by rewrite ?Hp.
    + eapply acc_ext; [apply (acc_move count s t (P3 (Some u)) Ha); by rewrite Hp|done..].
  - injection Hg as <-. split; [|done].
    eapply acc_ext; [apply (acc_move count s t (P4 (Some u)) Ha); by rewrite Hp|done..].
  - injection Hg as <-. split; [|done].
    eapply acc_ext; [apply (acc_move count s t (P4 None) Ha); by rewrite Hp|done..].
  - injection Hg as <-. split; [|done].
    eapply acc_ext; [apply (acc_move count s t Idle Ha); by rewrite Hp|done..].
  - injection Hg as <-. split; [|done]. apply acc_move; by rewrite ?Hp.
  - injection Hg as <-. split; [|done].
    eapply acc_ext; [apply (acc_move count s t Idle Ha); by rewrite Hp|done..].
Qed.

Lemma step_safe count s a s' : safe count s -> step a s = Some s' -> safe count s'.
Proof.
  intros [Ha Hs] Hg. destruct (acc_sem count s Ha) as [Hle _].
  destruct a as [t|t|t|t]; [| | |by eapply go_safe];
    unfold step, dec_and_negative, inc_and_negative in Hg; destruct (pcs s t) eqn:Hp; try done.
  - injection Hg as <-. split; [|done]. apply acc_move; by rewrite ?Hp.
  - case_bool_decide; injection Hg as <-.
    + split; [|done]. by apply (acc_enter count s t T1); rewrite ?Hp.
    + split; [|cbn; lia].
      eapply acc_ext; [apply (acc_same count s t Idle (-1) 1 0 Ha); by rewrite ?Hp|cbn; first [done|lia]..].
  - case_bool_decide; injection Hg as <-; (split; [|cbn; lia]).
    + eapply acc_ext; [apply (acc_same count s t P1 1 0 1 Ha); by rewrite ?Hp|cbn; first [done|lia]..].
    + eapply acc_ext; [apply (acc_same count s t Idle 1 0 1 Ha); by rewrite ?Hp|cbn; first [done|lia]..].
Qed.

Lemma steps_safe count acts s s' : safe count s -> steps acts s = Some s' -> safe count s'.
Proof.
  revert s. induction acts as [|a acts IH]; intros s Hi Hs; cbn in Hs; [by simplify_eq|].
  destruct (step a s) as [s1|] eqn:E; [|done]. eapply IH; [by eapply step_safe|done].
Qed.

Lemma steps_app acts acts' s s1 s2 :
  steps acts s = Some s1 -> steps acts' s1 = Some s2 -> steps (acts ++ acts') s = Some s2.
Proof.
  revert s. induction acts as [|a acts IH]; intros s E1 E2; cbn in E1 |- *; [by simplify_eq|].
  destruct (step a s) as [s'|]; [|done]. by apply IH.
Qed.

Lemma init_safe count : 0 <= count < 2147483648 -> safe count (co_sem_init count).
Proof.
  intros Hc. split; [|cbn; lia]. exists ∅, 0. cbn. rewrite size_empty, i32_small by lia.
  split_and!; [lia|done|set_solver|lia].
Qed.

(** ** Two sleepers *)
(** Both [a] and [b] have gone to sleep on a semaphore that stands at -2, and nobody else
    is at work. *)
Definition two_asleep (a b : nat) (s : co_sem_t) : Prop :=
  sem s = -2 /\ wait_lock s = None /\ wait_list s = [a; b] /\
  (forall t, run_queue s t = false) /\
  forall t, pcs s t = if decide (t = a \/ t = b) then Asleep else Idle.

(** A post by [p] and everything it sets off: [a] is woken, decrements again, and goes back
    to sleep. *)
Definition post_round (p a : nat) : list act :=
  [Post p; Go p; Go p; Go p; Go p; Go a; Go a; Go a; Go a; Go a; Go a].

Lemma steps_cons a acts s s1 s' :
  step a s = Some s1 -> steps acts s1 = Some s' -> steps (a :: acts) s = Some s'.
Proof. intros E1 E2. cbn. by rewrite E1. Qed.

(** Evaluate the comparisons of numerals in the goal. *)
Ltac decide_closed :=
  repeat match goal with
  | |- context [bool_decide ?P] =>
      let v := eval vm_compute in (bool_decide P) in
      match v with true => idtac | false => idtac end;
      change (bool_decide P) with v
  end.

(** Run the next action of a schedule, looking points up in the chain of updates. *)
Ltac tick :=
  eapply steps_cons;
    [unfold step, go, spin_enter, dec_and_negative, inc_and_negative; cbn;
     repeat first [rewrite upd_eq | rewrite upd_ne by congruence];
     repeat match goal with H : _ = _ |- _ => rewrite H end; decide_closed; cbn; reflexivity|].

Lemma post_round_spec p a b s :
  a <> b -> p <> a -> p <> b -> two_asleep a b s ->
  exists s', steps (post_round p a) s = Some s' /\ two_asleep b a s' /\
    posts s' = posts s + 1 /\ acquired s' = acquired s.
Proof.
  intros Hab Hpa Hpb (E1 & E2 & E3 & E4 & E5). unfold post_round.
  assert (pcs s p = Idle) as Ep by (rewrite E5, decide_False; naive_solver).
  assert (pcs s a = Asleep) as Ea by (rewrite E5, decide_True; naive_solver).
  eexists. split; [do 11 tick; reflexivity|]. split; [|done].
  split_and!; cbn.
  - by rewrite E1.
  - done.
  - done.
  - intros t. upd_cases; rewrite ?E4; done.
  - intros t. upd_cases; rewrite ?E5; repeat case_decide; naive_solver.
Qed.


Definition demo : list act :=
  [Wait 0; Go 0; Wait 1; Go 1; TryWait 2; Go 2; Post 3; Go 2; Go 2; Go 1; Go 1].


(** Posts are lost. A post that raises the counter from -1 to 0 wakes nobody: with one
    task asleep, after a complete post the counter is 0, the task is still asleep and
    nobody can take a step. With two tasks asleep a post does wake one, but it decrements
    the counter again, finds it negative, and goes back to sleep: after any number of
    posts both are still asleep and nothing was acquired. *)
Theorem sem_posts_lost :
  (exists acts s, steps acts (co_sem_init 0) = Some s /\ posts s = 1 /\ acquired s = 0 /\
     sem s = 0 /\ pcs s 0%nat = Asleep /\ forall t, go t s = None) /\
  (forall n : nat, exists acts s, steps acts (co_sem_init 0) = Some s /\
     posts s = Z.of_nat n /\ acquired s = 0 /\
     pcs s 0%nat = Asleep /\ pcs s 1%nat = Asleep /\ forall t, go t s = None).
Proof.
  split.
  - exists [Wait 0; Go 0; Go 0; Go 0; Go 0; Go 0; Post 1]. eexists.
    split; [do 7 tick; reflexivity|]. split_and!; [done..|].
    intros t. unfold go. cbn. upd_cases; done.
  - assert (forall n, exists acts s a b, steps acts (co_sem_init 0) = Some s /\
      two_asleep a b s /\ posts s = Z.of_nat n /\ acquired s = 0 /\
      ((a = 0%nat /\ b = 1%nat) \/ (a = 1%nat /\ b = 0%nat))) as H.
    { induction n as [|n (acts & s & a & b & Hs & H2 & Hp & Ha & Hab)].
      - exists [Wait 0; Go 0; Go 0; Go 0; Go 0; Go 0; Wait 1; Go 1; Go 1; Go 1; Go 1; Go 1].
        eexists _, 0%nat, 1%nat. split; [do 12 tick; reflexivity|]. split_and!; [|done|done|by left].
        split_and!; [done..|]. intros t. cbn. upd_cases; repeat case_decide; naive_solver.
      - destruct (post_round_spec 2 a b s) as (s' & Hs' & H2' & Hp' & Ha'); [lia..|done|].
        exists (acts ++ post_round 2 a), s', b, a. split_and!; [|done|lia|lia|naive_solver].
        by eapply steps_app. }
    intros n. destruct (H n) as (acts & s & a & b & Hs & (E1 & E2 & E3 & E4 & E5) & Hp & Ha & Hab).
    exists acts, s. split_and!; [done|done|done| | |].
    + rewrite E5, decide_True; naive_solver.
    + rewrite E5, decide_True; naive_solver.
    + intros t. unfold go. rewrite E5. case_decide; [|done]. by rewrite E4.
Qed.
