(* ===== verification/TaskChan.v ===== *)
(** * sync/Chan.h: the bounded channel between coroutines

    The operations run under the channel's mutex, so an execution is a sequence of
    critical sections: from taking the lock (or retaking it after a wait) to the return
    or the next wait. Threads of control are numbered; a schedule is a list of actions,
    [Run t] being the next critical section of [t]. The mutex and the condition
    variables ([sync/TaskMutex.h], [sync/TaskCond.h]) only forward to libcask; what is used of
    them is that sections exclude each other and that [signalAll] makes every waiter
    ready to retake the lock. *)
From S2P Require Import Prelude Ring.
Local Open Scope Z_scope.

Section chan.
Context {T : Type}.

(** Where a caller is. [Send], [Recv] and the timed variants are about to take the lock
    and test; the [Wait] forms are in [wait]/[waitTill]; the [Last] forms have returned
    from [waitTill] and test once more. *)
Inductive pc :=
  | Send (e : T) | SendWait (e : T)
  | SendTill (e : T) | SendTillWait (e : T) | SendTillLast (e : T)
  | Recv | RecvWait
  | RecvTill | RecvTillWait | RecvTillLast
  | Done (ok : bool) (res : option T).

Record chan := mk_chan {
  closed : bool;
  messages : ring T;
  pcs : gmap nat pc;
  sent : list T;
  received : list T
}.

Definition chan_new (junk : T) (cap : Z) : chan := mk_chan false (ring_new junk cap) ∅ [] [].

Definition chan_isFull (c : chan) : bool := isFull (messages c).
Definition chan_isEmpty (c : chan) : bool := isEmpty (messages c).
Definition chan_size (c : chan) : Z := i32 (count (messages c)).

Definition set_pc (t : nat) (p : pc) (c : chan) : chan :=
  mk_chan (closed c) (messages c) (<[t := p]> (pcs c)) (sent c) (received c).

(** [notFull.signalAll()] and [notEmpty.signalAll()]. *)
Definition wake_full (p : pc) : pc :=
  match p with SendWait e => Send e | SendTillWait e => SendTillLast e | p => p end.
Definition wake_empty (p : pc) : pc :=
  match p with RecvWait => Recv | RecvTillWait => RecvTillLast | p => p end.

Definition chan_enqueue (e : T) (c : chan) : option chan :=
  r ← enqueue e (messages c);
  Some (mk_chan (closed c) r (wake_empty <$> pcs c) (sent c ++ [e]) (received c)).

Definition chan_dequeue (c : chan) : option (T * chan) :=
  '(e, r) ← dequeue (messages c);
  Some (e, mk_chan (closed c) r (wake_full <$> pcs c) (sent c) (received c ++ [e])).

(** One critical section of [t]; [None] when [t] has none to run. *)
Definition run (t : nat) (c : chan) : option chan :=
  let send e := c ← chan_enqueue e c; Some (set_pc t (Done true None) c) in
  let recv := '(e, c) ← chan_dequeue c; Some (set_pc t (Done true (Some e)) c) in
  match pcs c !! t with
  | Some (Send e) => if chan_isFull c then Some (set_pc t (SendWait e) c) else send e
  | Some (SendTill e) => if chan_isFull c then Some (set_pc t (SendTillWait e) c) else send e
  | Some (SendTillLast e) => if chan_isFull c then Some (set_pc t (Done false None) c) else send e
  | Some Recv => if chan_isEmpty c then Some (set_pc t RecvWait c) else recv
  | Some RecvTill => if chan_isEmpty c then Some (set_pc t RecvTillWait c) else recv
  | Some RecvTillLast => if chan_isEmpty c then Some (set_pc t (Done false None) c) else recv
  | _ => None
  end.

(** [close] takes no lock and wakes nobody. *)
Definition chan_close (c : chan) : chan :=
  mk_chan true (ring_clear (messages c)) (pcs c) (sent c) (received c).

Inductive act := Call (t : nat) (p : pc) | Run (t : nat) | Timeout (t : nat) | Close.

Definition entry (p : pc) : bool :=
  match p with Send _ | SendTill _ | Recv | RecvTill => true | _ => false end.
Definition idle (p : option pc) : bool :=
  match p with None | Some (Done _ _) => true | _ => false end.

Definition step (a : act) (c : chan) : option chan :=
  match a with
  | Call t p => if entry p && idle (pcs c !! t) then Some (set_pc t p c) else None
  | Run t => run t c
  | Timeout t =>
      match pcs c !! t with
      | Some (SendTillWait e) => Some (set_pc t (SendTillLast e) c)
      | Some RecvTillWait => Some (set_pc t RecvTillLast c)
      | _ => None
      end
  | Close => Some (chan_close c)
  end.

Fixpoint steps (acts : list act) (c : chan) : option chan :=
  match acts with
  | [] => Some c
  | a :: acts => c ← step a c; steps acts c
  end.

(** ** Invariant *)
Definition waits_full (p : pc) : bool :=
  match p with SendWait _ | SendTillWait _ => true | _ => false end.
Definition waits_empty (p : pc) : bool :=
  match p with RecvWait | RecvTillWait => true | _ => false end.
Definition ready (p : pc) : bool :=
  match p with
  | Send _ | SendTill _ | SendTillLast _ | Recv | RecvTill | RecvTillLast => true
  | _ => false
  end.

(** Everything sent was received or is stored, in order; who waits has reason to. *)
Record chan_inv (cap : Z) (c : chan) (xs : list T) : Prop := {
  inv_ring : ring_rep (messages c) xs;
  inv_cap : capacity (messages c) = cap;
  inv_log : sent c = received c ++ xs;
  inv_full : forall t p, pcs c !! t = Some p -> waits_full p = true -> Z.of_nat (length xs) = cap;
  inv_empty : forall t p, pcs c !! t = Some p -> waits_empty p = true -> xs = []
}.

Lemma chan_new_inv junk cap : 0 < cap < 4294967296 -> chan_inv cap (chan_new junk cap) [].
Proof. intros Hc. constructor; try done; by apply ring_new_rep. Qed.

(** Changing one control point keeps the invariant if the new one may wait. *)
Lemma set_pc_inv cap c xs t p :
  chan_inv cap c xs ->
  (waits_full p = true -> Z.of_nat (length xs) = cap) -> (waits_empty p = true -> xs = []) ->
  chan_inv cap (set_pc t p c) xs.
Proof.
  intros [] Hf He. constructor; cbn; [done..| |]; intros t' p' Ht Hw;
    (destruct (decide (t' = t)) as [->|];
      [rewrite lookup_insert_eq in Ht; simplify_eq; auto|rewrite lookup_insert_ne in Ht by done; eauto]).
Qed.

Lemma enqueue_inv cap e c xs :
  chan_inv cap c xs -> chan_isFull c = false ->
  exists c', chan_enqueue e c = Some c' /\ chan_inv cap c' (xs ++ [e]).
Proof.
  intros [Hr Hc Hl Hf He] Hfull. unfold chan_isFull in Hfull.
  rewrite (isFull_rep _ xs Hr), bool_decide_eq_false in Hfull.
  destruct (enqueue_rep e (messages c) xs Hr) as (r & E & Hr' & Hc').
  { destruct Hr. lia. }
  unfold chan_enqueue. rewrite E. cbn [mbind option_bind]. eexists. split; [done|].
  constructor; cbn; [done|congruence|by rewrite Hl, app_assoc| |].
  - intros t p Ht Hw. rewrite lookup_fmap in Ht. exfalso.
    destruct (pcs c !! t) as [q|] eqn:Eq; [|done]. injection Ht as <-.
    apply Hfull. rewrite Hc. apply (Hf t q Eq). by destruct q.
  - intros t p Ht Hw. rewrite lookup_fmap in Ht.
    destruct (pcs c !! t) as [q|] eqn:Eq; [|done]. injection Ht as <-. by destruct q.
Qed.

Lemma dequeue_inv cap c xs :
  chan_inv cap c xs -> chan_isEmpty c = false ->
  exists x ys c', xs = x :: ys /\ chan_dequeue c = Some (x, c') /\ chan_inv cap c' ys.
Proof.
  intros [Hr Hc Hl Hf He] Hem. unfold chan_isEmpty in Hem.
  rewrite (isEmpty_rep _ xs Hr), bool_decide_eq_false in Hem.
  destruct xs as [|x ys]; [done|].
  destruct (dequeue_rep x (messages c) ys Hr) as (r & E & Hr' & Hc').
  unfold chan_dequeue. rewrite E. cbn [mbind option_bind]. do 3 eexists. split_and!; [done..|].
  constructor; cbn; [done|congruence|by rewrite Hl, <- app_assoc| |].
  - intros t p Ht Hw. rewrite lookup_fmap in Ht.
    destruct (pcs c !! t) as [q|] eqn:Eq; [|done]. injection Ht as <-. by destruct q.
  - intros t p Ht Hw. rewrite lookup_fmap in Ht.
    destruct (pcs c !! t) as [q|] eqn:Eq; [|done]. injection Ht as <-.
    by discriminate (He t q Eq ltac:(by destruct q)).
Qed.

(** A ready caller runs, whatever the state. *)
Lemma run_inv cap c xs t p :
  chan_inv cap c xs -> pcs c !! t = Some p -> ready p = true ->
  exists c' xs', run t c = Some c' /\ chan_inv cap c' xs'.
Proof.
  intros Hi Hp Hready. unfold run. rewrite Hp.
  assert (forall e, chan_isFull c = false -> exists c' xs',
    (c0 ← chan_enqueue e c; Some (set_pc t (Done true None) c0)) = Some c' /\ chan_inv cap c' xs')
    as Hsend.
  { intros e Hf. destruct (enqueue_inv cap e c xs Hi Hf) as (c' & -> & Hi').
    cbn [mbind option_bind]. do 2 eexists. split; [done|]. by apply set_pc_inv. }
  assert (chan_isEmpty c = false -> exists c' xs',
    ('(e, c0) ← chan_dequeue c; Some (set_pc t (Done true (Some e)) c0)) = Some c' /\
    chan_inv cap c' xs') as Hrecv.
  { intros Hf. destruct (dequeue_inv cap c xs Hi Hf) as (x & ys & c' & -> & -> & Hi').
    cbn [mbind option_bind]. do 2 eexists. split; [done|]. by apply set_pc_inv. }
  assert (chan_isFull c = true -> Z.of_nat (length xs) = cap) as Hfull.
  { intros Hf. destruct Hi as [Hr <- _ _ _]. unfold chan_isFull in Hf.
    by rewrite (isFull_rep _ xs Hr), bool_decide_eq_true in Hf. }
  assert (chan_isEmpty c = true -> xs = []) as Hempty.
  { intros Hf. destruct Hi as [Hr _ _ _ _]. unfold chan_isEmpty in Hf.
    by rewrite (isEmpty_rep _ xs Hr), bool_decide_eq_true in Hf. }
  destruct p; try discriminate Hready.
  all: first [destruct (chan_isFull c) eqn:Hf; [|by apply Hsend]
             |destruct (chan_isEmpty c) eqn:Hf; [|by apply Hrecv]].
  all: eexists _, xs; split; [done|]; apply set_pc_inv; [done|auto..]; done.
Qed.

Lemma step_inv cap c xs a c' :
  chan_inv cap c xs -> a <> Close -> step a c = Some c' -> exists xs', chan_inv cap c' xs'.
Proof.
  intros Hi Ha Hs. destruct a as [t p|t|t|]; cbn in Hs; [| | |done].
  - destruct (entry p) eqn:Ep; [|done]. destruct (idle _); [|done]. cbn in Hs. injection Hs as <-.
    exists xs. apply set_pc_inv; [done|..]; by destruct p.
  - destruct (pcs c !! t) as [p|] eqn:Ep; [|by unfold run in Hs; rewrite Ep in Hs].
    destruct (ready p) eqn:Er.
    + destruct (run_inv cap c xs t p Hi Ep Er) as (c1 & xs' & E & Hi').
      exists xs'. congruence.
    + unfold run in Hs. rewrite Ep in Hs. by destruct p.
  - destruct (pcs c !! t) as [[]|]; try done; injection Hs as <-; exists xs;
      by apply set_pc_inv.
Qed.

Lemma steps_inv cap acts c xs c' :
  chan_inv cap c xs -> Close ∉ acts -> steps acts c = Some c' -> exists xs', chan_inv cap c' xs'.
Proof.
  revert c xs. induction acts as [|a acts IH]; intros c xs Hi Hn Hs; cbn in Hs.
  - injection Hs as <-. eauto.
  - destruct (step a c) as [c1|] eqn:E; [|done].
    destruct (step_inv cap c xs a c1 Hi) as (xs1 & Hi1); [set_solver|done|].
    apply (IH c1 xs1); [done|set_solver|done].
Qed.
End chan.

Arguments pc : clear implicits. Arguments chan : clear implicits. Arguments act : clear implicits.

(** ** Properties *)
(** FIFO, capacity and no lost wakeups, over all interleavings: whatever callers do
    (closing apart), what was received followed by what is stored is what was sent, in
    order; at most [cap] messages are stored; every caller that is ready to run its next
    critical section can; a sender waits only while the channel is full and a receiver
    only while it is empty, so the two never wait together. *)
Theorem chan_fifo {T} (junk : T) (cap : Z) (acts : list (act T)) (c : chan T) :
  0 < cap < 4294967296 -> Close ∉ acts -> steps acts (chan_new junk cap) = Some c ->
  (exists xs, sent c = received c ++ xs /\ chan_size c = i32 (Z.of_nat (length xs)) /\
     Z.of_nat (length xs) <= cap) /\
  (forall t p, pcs c !! t = Some p -> ready p = true -> exists c', run t c = Some c') /\
  (forall t p, pcs c !! t = Some p -> waits_full p = true -> chan_isFull c = true) /\
  (forall t p, pcs c !! t = Some p -> waits_empty p = true -> chan_isEmpty c = true) /\
  ~ (chan_isFull c = true /\ chan_isEmpty c = true).
Proof.
  intros Hc Hn Hs. destruct (steps_inv cap acts _ [] c (chan_new_inv junk cap Hc) Hn Hs) as (xs & Hi).
  pose proof Hi as [Hr Hcap Hl Hf He]. unfold chan_size, chan_isFull, chan_isEmpty.
  rewrite (isFull_rep _ xs Hr), (isEmpty_rep _ xs Hr), Hcap.
  split_and!.
  - exists xs. destruct Hr. split_and!; [done|by rewrite rep_count|lia].
  - intros t p Hp Hready. destruct (run_inv cap c xs t p Hi Hp Hready) as (c' & _ & ? & _). eauto.
  - intros t p Hp Hw. apply bool_decide_eq_true. by eapply Hf.
  - intros t p Hp Hw. apply bool_decide_eq_true. by eapply He.
  - rewrite !bool_decide_eq_true. intros [H1 ->]. cbn in H1. lia.
Qed.

(** Two senders on a channel of one slot, a receiver, and a timed receiver that gives up. *)
Definition demo_acts : list (act Z) :=
  [Call 0 (Send 7); Call 1 (Send 8); Run 0; Run 1; Call 2 Recv; Run 2; Run 1;
   Call 3 RecvTill; Run 3; Call 4 RecvTill; Run 4; Timeout 4; Run 4].

Definition demo_end : chan Z :=
  default (chan_new 0 1) (steps demo_acts (chan_new 0 1)).

Lemma chan_fifo_witness :
  (exists xs, sent demo_end = received demo_end ++ xs /\
     chan_size demo_end = i32 (Z.of_nat (length xs)) /\ Z.of_nat (length xs) <= 1) /\
  (forall t p, pcs demo_end !! t = Some p -> ready p = true -> exists c', run t demo_end = Some c') /\
  (forall t p, pcs demo_end !! t = Some p -> waits_full p = true -> chan_isFull demo_end = true) /\
  (forall t p, pcs demo_end !! t = Some p -> waits_empty p = true -> chan_isEmpty demo_end = true) /\
  ~ (chan_isFull demo_end = true /\ chan_isEmpty demo_end = true).
Proof.
  apply (chan_fifo 0 1 demo_acts demo_end).
  - lia.
  - unfold demo_acts. intros Hin. repeat (apply elem_of_cons in Hin as [?|Hin]; [done|]).
    by apply elem_of_nil in Hin.
  - by vm_compute.
Defined.

Example demo_received : received demo_end = [7; 8].
Proof. by vm_compute. Qed.

(** [close] strands its senders: it empties the channel without waking anyone, so a
    sender that was waiting for room stays in its wait although the channel is empty, no
    critical section of its own is enabled, and a later send is still accepted. *)
Theorem chan_close_strands {T} (c : chan T) (xs : list T) (cap : Z) (t u : nat) (e x : T) :
  chan_inv cap c xs -> pcs c !! t = Some (SendWait e) -> t <> u ->
  exists c1, step Close c = Some c1 /\ closed c1 = true /\ chan_isEmpty c1 = true /\
    pcs c1 !! t = Some (SendWait e) /\ run t c1 = None /\
    exists c2, run u (set_pc u (Send x) c1) = Some c2 /\ chan_size c2 = 1 /\
      pcs c2 !! t = Some (SendWait e).
Proof.
  intros [Hr Hcap _ _ _] Ht Hne. pose proof Hr as [Hc Hi _ _ _ _ _]. cbn [step].
  eexists. split; [done|]. split_and!; [done|done|done|by unfold run; cbn; rewrite Ht|].
  assert (ring_rep (ring_clear (messages c)) []) as Hr'.
  { constructor; cbn; try done; [lia|lia|]. intros k Hk. lia. }
  destruct (enqueue_rep x _ [] Hr') as (r & E & Hr2 & _); [cbn; lia|].
  unfold run, set_pc, chan_close; cbn [pcs messages closed sent received].
  rewrite lookup_insert_eq. unfold chan_isFull; cbn [messages].
  rewrite (isFull_rep _ [] Hr'), bool_decide_eq_false_2 by (cbn; lia).
  unfold chan_enqueue; cbn [pcs messages closed sent received]. rewrite E. cbn [mbind option_bind].
  eexists. split; [done|]. split.
  - unfold chan_size; cbn. by rewrite (rep_count _ _ Hr2).
  - cbn. rewrite lookup_insert_ne by done. rewrite lookup_fmap, lookup_insert_ne, Ht by done. done.
Qed.

Definition full_chan : chan Z :=
  default (chan_new 0 1) (steps [Call 0 (Send 7); Call 1 (Send 8); Run 0; Run 1] (chan_new 0 1)).

Lemma full_chan_inv : chan_inv 1 full_chan [7].
Proof.
  constructor; [|done|done| |].
  - constructor; cbn; try done; try lia. intros [|k] Hk; [done|lia].
  - intros t p Ht Hw. done.
  - intros t p Ht Hw.
    assert (pcs full_chan = <[1%nat := SendWait 8]> {[0%nat := Done true None]}) as E
      by (by vm_compute).
    rewrite E, lookup_insert_Some, lookup_singleton_Some in Ht.
    by destruct Ht as [[_ <-]|(_ & _ & <-)].
Qed.

Lemma chan_close_strands_witness :
  exists c1, step Close full_chan = Some c1 /\ closed c1 = true /\ chan_isEmpty c1 = true /\
    pcs c1 !! 1%nat = Some (SendWait 8) /\ run 1 c1 = None /\
    exists c2, run 2 (set_pc 2 (Send 9) c1) = Some c2 /\ chan_size c2 = 1 /\
      pcs c2 !! 1%nat = Some (SendWait 8).
Proof.
  apply (chan_close_strands full_chan [7] 1 1 2 8 9).
  - apply full_chan_inv.
  - by vm_compute.
  - done.
Defined.
