(* ===== verification/ThreadMutex.v ===== *)
(** * thread/ThreadMutex.h and thread/Condition.h

    [ThreadMutex] pairs a pthread mutex with a [holder_] field that is written without
    protection, after [pthread_mutex_lock] and after [pthread_mutex_unlock]. Each of those
    accesses is a step of its own here, so that threads interleave between them. The
    pthread mutex is what pthreads document: at most one owner, [lock] waits for none.
    [Condition::wait] erases the holder, releases the mutex and sleeps in one step, and
    takes the mutex again like [lock] once somebody notifies it, its time is up, or for no
    reason. *)
From S2P Require Import Prelude.
Local Open Scope Z_scope.

(** Where a thread is: outside, inside [lock()] before and after the pthread call,
    holding the lock, inside [unlock()] after the pthread call, inside [wait()] before the
    pthread call and asleep in it. Thread ids are positive. *)
Inductive mpc := Outside | Locking | Assigning | Holding | Unassigning | PreWait | Waiting.

#[export] Instance mpc_eq_dec : EqDecision mpc.
Proof. solve_decision. Defined.

Record thread_mutex := mk_tm {
  owner : option Z;        (* of the pthread mutex *)
  holder_ : Z;
  mpcs : gmap Z mpc
}.

Definition ThreadMutex_new : thread_mutex := mk_tm None 0 ∅.
Definition mpc_of (t : Z) (m : thread_mutex) : mpc := default Outside (mpcs m !! t).

Definition assignHolder (t : Z) (m : thread_mutex) : thread_mutex := mk_tm (owner m) t (mpcs m).
Definition unassignHolder (m : thread_mutex) : thread_mutex := mk_tm (owner m) 0 (mpcs m).
Definition at_pc (t : Z) (p : mpc) (m : thread_mutex) : thread_mutex :=
  mk_tm (owner m) (holder_ m) (<[t := p]> (mpcs m)).

Definition isLockedByCurrentThread (t : Z) (m : thread_mutex) : bool := bool_decide (holder_ m = t).

Inductive mact := CallLock (t : Z) | CallTryLock (t : Z) | CallUnlock (t : Z) | Go (t : Z)
  | CallWait (t : Z) | Wake (t : Z) | NotifyAll.

(** [UnassignGuard] on the way into [pthread_cond_wait]; on the way out the thread assigns
    itself like after [lock]. *)
Definition wait_begins (t : Z) (m : thread_mutex) : thread_mutex := at_pc t PreWait (unassignHolder m).

(** [pthread_cond_broadcast] *)
Definition notifyAll (m : thread_mutex) : thread_mutex :=
  mk_tm (owner m) (holder_ m) ((fun p => if decide (p = Waiting) then Locking else p) <$> mpcs m).

(** One step; [None] when the thread cannot take it (blocked, or not there). *)
Definition mstep (a : mact) (m : thread_mutex) : option thread_mutex :=
  match a with
  | CallLock t =>
      if decide (0 < t /\ mpc_of t m = Outside) then Some (at_pc t Locking m) else None
  | CallTryLock t =>
      if decide (0 < t /\ mpc_of t m = Outside) then
        match owner m with
        | None => Some (at_pc t Assigning (mk_tm (Some t) (holder_ m) (mpcs m)))
        | Some _ => Some m
        end
      else None
  | CallUnlock t =>
      if decide (mpc_of t m = Holding) then
        Some (at_pc t Unassigning (mk_tm None (holder_ m) (mpcs m)))
      else None
  | Go t =>
      match mpc_of t m with
      | Locking =>
          match owner m with
          | None => Some (at_pc t Assigning (mk_tm (Some t) (holder_ m) (mpcs m)))
          | Some _ => None
          end
      | Assigning => Some (at_pc t Holding (assignHolder t m))
      | Unassigning => Some (at_pc t Outside (unassignHolder m))
      | PreWait => Some (at_pc t Waiting (mk_tm None (holder_ m) (mpcs m)))
      | _ => None
      end
  | CallWait t =>
      if decide (mpc_of t m = Holding) then Some (wait_begins t m) else None
  | Wake t =>
      if decide (mpc_of t m = Waiting) then Some (at_pc t Locking m) else None
  | NotifyAll => Some (notifyAll m)
  end.

Fixpoint msteps (acts : list mact) (m : thread_mutex) : option thread_mutex :=
  match acts with
  | [] => Some m
  | a :: acts => m ← mstep a m; msteps acts m
  end.

Definition owns (p : mpc) : bool := match p with Assigning | Holding | PreWait => true | _ => false end.

(** The owner is the one thread between the pthread calls; [holder_], when set, names a
    thread that has the lock or is still in its [unlock]. *)
Record minv (m : thread_mutex) : Prop := {
  minv_owner : forall t, owner m = Some t <-> owns (mpc_of t m) = true;
  minv_holder : holder_ m <> 0 -> mpc_of (holder_ m) m = Holding \/ mpc_of (holder_ m) m = Unassigning;
  minv_pos : forall t, mpc_of t m <> Outside -> 0 < t
}.

Lemma mpc_of_at t p u m : mpc_of u (at_pc t p m) = if decide (u = t) then p else mpc_of u m.
Proof.
  unfold mpc_of, at_pc; cbn. case_decide as E; [by rewrite E, lookup_insert_eq|].
  by rewrite lookup_insert_ne.
Qed.

Lemma ThreadMutex_new_inv : minv ThreadMutex_new.
Proof.
  assert (forall t, mpc_of t ThreadMutex_new = Outside) as E
    by (intros t; unfold mpc_of; cbn; by rewrite lookup_empty).
  by constructor; [intros t; rewrite E|done|intros t; rewrite E].
Qed.

(** Thread [t] moves to [p]; the mutex has owner [o], the field is [h]. *)
Lemma minv_move t p o h m :
  minv m -> (p <> Outside -> 0 < t) ->
  (o = owner m /\ owns p = owns (mpc_of t m) \/ owner m = None /\ o = Some t /\ owns p = true \/
   owns (mpc_of t m) = true /\ o = None /\ owns p = false) ->
  (h = 0 \/ h = t /\ (p = Holding \/ p = Unassigning) \/
   h = holder_ m /\ (h = t -> (mpc_of t m = Holding \/ mpc_of t m = Unassigning) -> p = Holding \/ p = Unassigning)) ->
  minv (mk_tm o h (<[t := p]> (mpcs m))).
Proof.
  intros [Ho Hh Hp] Ht Hown Hhold.
  assert (forall u, mpc_of u (mk_tm o h (<[t := p]> (mpcs m))) = if decide (u = t) then p else mpc_of u m) as E
    by (intros u; apply (mpc_of_at t p u (mk_tm o h (mpcs m)))).
  constructor; intros *; rewrite ?E; cbn.
  - destruct Hown as [[-> Heq]|[(Hn & -> & Hpo)|(Hpo & -> & Hpn)]].
    + rewrite Ho. case_decide; [|done]. subst. by rewrite Heq.
    + case_decide; [subst; by rewrite Hpo|]. rewrite <- Ho, Hn. split; [intros [= ->]|]; done.
    + case_decide; [by rewrite Hpn|]. split; [done|]. intros Hu%Ho. apply Ho in Hpo. congruence.
  - intros Hnz. destruct Hhold as [->|[[-> Hpp]|[-> Himp]]]; [done|by rewrite decide_True|].
    case_decide as Ed; [|by apply Hh]. rewrite Ed in *. by apply Himp, Hh.
  - case_decide; [subst; apply Ht|apply Hp].
Qed.

Lemma minv_notifyAll m : minv m -> minv (notifyAll m).
Proof.
  intros [Ho Hh Hp].
  assert (forall u, mpc_of u (notifyAll m) = if decide (mpc_of u m = Waiting) then Locking else mpc_of u m) as E.
  { intros u. unfold mpc_of, notifyAll. cbn. rewrite lookup_fmap. by destruct (mpcs m !! u). }
  constructor; intros *; rewrite E.
  - rewrite (Ho t). case_decide as Ew; [|done]. by rewrite Ew.
  - change (holder_ (notifyAll m)) with (holder_ m). intros Hnz. case_decide as Ew; [|by apply Hh].
    destruct (Hh Hnz); congruence.
  - case_decide as Ew; intros ?; apply Hp; congruence.
Qed.

(** The three premises of [minv_move] for a thread whose place [Hpc] tells. *)
Ltac moved Hi Hpc :=
  unfold wait_begins, at_pc, assignHolder, unassignHolder; cbn [owner holder_ mpcs];
  match type of Hi with minv ?m => apply (minv_move _ _ _ _ m) end; [exact Hi|try done; intros _; first [lia|apply (minv_pos _ Hi); congruence]
    |cbn; rewrite Hpc; cbn; auto 6
    |cbn; first [by left|right; left; by auto|right; right; split; [done|intros _; rewrite Hpc; intros [?|?]; auto; congruence]]].

Lemma mstep_inv a m m' : minv m -> mstep a m = Some m' -> minv m'.
Proof.
  intros Hi Hs. destruct a as [t|t|t|t|t|t|]; cbn in Hs; try (case_decide as Hd; [|done]).
  - destruct Hd as [Ht Hpc]. injection Hs as <-. moved Hi Hpc.
  - destruct Hd as [Ht Hpc]. destruct (owner m) as [o|] eqn:Eo; injection Hs as <-; [done|]. moved Hi Hpc.
  - injection Hs as <-. moved Hi Hd.
  - destruct (mpc_of t m) eqn:Hpc; try done; [destruct (owner m) eqn:Eo; [done|]|..]; injection Hs as <-; moved Hi Hpc.
  - injection Hs as <-. moved Hi Hd.
  - injection Hs as <-. moved Hi Hd.
  - injection Hs as <-. by apply minv_notifyAll.
Qed.

Lemma msteps_inv acts m m' : minv m -> msteps acts m = Some m' -> minv m'.
Proof.
  revert m. induction acts as [|a acts IH]; intros m Hi Hs; cbn in Hs; [by simplify_eq|].
  destruct (mstep a m) as [m1|] eqn:E; [|done]. eapply IH; [by eapply mstep_inv|done].
Qed.

(** ** [Condition::waitForSeconds] *)
Definition kNanoSecondsPerSecond : Z := 1000000000.

(** The absolute deadline computed from the clock's [(sec, nsec)]; time_t and long have
    64 bits, and C division truncates. *)
Definition deadline (now : Z * Z) (nanoseconds : Z) : Z * Z :=
  (fst now + Z.quot (fst now + nanoseconds) kNanoSecondsPerSecond,
   Z.rem (snd now + nanoseconds) kNanoSecondsPerSecond).

Definition in_ns (ts : Z * Z) : Z := fst ts * kNanoSecondsPerSecond + snd ts.

(** ** Properties *)
(** Mutual exclusion and soundness of [locked()]: in every interleaving at most one
    thread is between its [lock] and [unlock], it is the owner of the pthread mutex, and
    when [locked()] tells a thread that is not inside [unlock] that it has the lock, it
    does. *)
Theorem thread_mutex_excludes (acts : list mact) (m : thread_mutex) :
  msteps acts ThreadMutex_new = Some m ->
  (forall t u, mpc_of t m = Holding -> mpc_of u m = Holding -> t = u) /\
  (forall t, mpc_of t m = Holding -> owner m = Some t) /\
  (forall t, 0 < t -> isLockedByCurrentThread t m = true -> mpc_of t m <> Unassigning ->
     mpc_of t m = Holding).
Proof.
  intros Hs. destruct (msteps_inv acts _ m ThreadMutex_new_inv Hs) as [Ho Hh _].
  assert (forall t, mpc_of t m = Holding -> owner m = Some t) as Hown by (intros t Ht; apply Ho; by rewrite Ht).
  split_and!; [|done|].
  - intros t u Ht%Hown Hu%Hown. congruence.
  - intros t Ht Hl Hn. apply bool_decide_eq_true in Hl. subst t. destruct (Hh ltac:(lia)); done.
Qed.

(** A thread that sleeps in [wait] has given the mutex up, is not marked as its holder, and
    after [notifyAll] none sleeps. *)
Lemma condition_wait_releases (acts : list mact) (m : thread_mutex) (t : Z) :
  msteps acts ThreadMutex_new = Some m ->
  (mpc_of t m = Waiting -> owner m <> Some t /\ holder_ m <> t) /\ mpc_of t (notifyAll m) <> Waiting.
Proof.
  intros Hs. destruct (msteps_inv acts _ m ThreadMutex_new_inv Hs) as [Ho Hh Hp]. split.
  - intros Hw. split; [rewrite Ho; by rewrite Hw|]. intros E. assert (0 < t) by (apply Hp; congruence).
    destruct (Hh ltac:(lia)); congruence.
  - unfold mpc_of, notifyAll. cbn. rewrite lookup_fmap. destruct (mpcs m !! t) as [[]|]; done.
Qed.

(** Thread 1 waits, thread 2 notifies it and unlocks; thread 1 has the mutex and its mark. *)
Example condition_hands_over :
  (fun m => (owner m, holder_ m, mpc_of 1 m)) <$>
    msteps [CallLock 1; Go 1; Go 1; CallWait 1; Go 1; CallLock 2; Go 2; Go 2; Wake 1; CallUnlock 2; Go 2; Go 1; Go 1]
      ThreadMutex_new = Some (Some 1, 1, Holding).
Proof. by vm_compute. Qed.

(** Thread 2 takes the lock between the two halves of thread 1's [unlock]. *)
Definition race : list mact :=
  [CallLock 1; Go 1; Go 1; CallLock 2; CallUnlock 1; Go 2; Go 2; Go 1].

Lemma thread_mutex_excludes_witness :
  (forall t u, mpc_of t (default ThreadMutex_new (msteps race ThreadMutex_new)) = Holding ->
     mpc_of u (default ThreadMutex_new (msteps race ThreadMutex_new)) = Holding -> t = u) /\
  (forall t, mpc_of t (default ThreadMutex_new (msteps race ThreadMutex_new)) = Holding ->
     owner (default ThreadMutex_new (msteps race ThreadMutex_new)) = Some t) /\
  (forall t, 0 < t ->
     isLockedByCurrentThread t (default ThreadMutex_new (msteps race ThreadMutex_new)) = true ->
     mpc_of t (default ThreadMutex_new (msteps race ThreadMutex_new)) <> Unassigning ->
     mpc_of t (default ThreadMutex_new (msteps race ThreadMutex_new)) = Holding).
Proof. apply (thread_mutex_excludes race). by vm_compute. Defined.

(** [locked()] is not complete: an [unlock] in progress can erase the next owner's
    mark. There is an interleaving after which a thread holds the mutex, nobody is inside
    [lock] or [unlock], and [locked()] tells the owner that it does not hold it. *)
Theorem thread_mutex_mark_erased :
  exists acts m, msteps acts ThreadMutex_new = Some m /\
    owner m = Some 2 /\ mpc_of 2 m = Holding /\ mpc_of 1 m = Outside /\
    isLockedByCurrentThread 2 m = false.
Proof. exists race. eexists. split; [vm_compute; reflexivity|]. by vm_compute. Qed.

(** [waitForSeconds] waits too long: the carry of the deadline is computed from the
    seconds of the clock instead of its nanoseconds, so on today's clock (between 2001 and
    2033) a wait of [n] nanoseconds ends up to two seconds late, never early. *)
Theorem waitForSeconds_late (sec nsec n : Z) :
  1000000000 <= sec < 2000000000 -> 0 <= nsec < 1000000000 -> 0 <= n ->
  exists k, 0 <= k <= 2 /\
    in_ns (deadline (sec, nsec) n) = in_ns (sec, nsec) + n + k * kNanoSecondsPerSecond.
Proof.
  intros Hs Hf Hn. unfold in_ns, deadline, kNanoSecondsPerSecond; cbn [fst snd].
  rewrite Z.quot_div_nonneg, Z.rem_mod_nonneg by lia.
  exists ((sec + n) / 1000000000 - (nsec + n) / 1000000000).
  Z.to_euclidean_division_equations. lia.
Qed.

Lemma waitForSeconds_late_witness :
  exists k, 0 <= k <= 2 /\
    in_ns (deadline (1700000000, 0) 500000000)
      = in_ns (1700000000, 0) + 500000000 + k * kNanoSecondsPerSecond.
Proof. apply (waitForSeconds_late 1700000000 0 500000000); lia. Defined.

Example half_second : in_ns (deadline (1700000000, 0) 500000000) - in_ns (1700000000, 0) = 2500000000.
Proof. by vm_compute. Qed.
