(* ===== verification/BlockingQueue.v ===== *)
(** * thread/ArrayBlockingQueue.h: the bounded queue between threads

    The queue mixes unprotected tests, [try_lock], and guarded sections, so its steps are
    fine: each test outside the lock, each lock operation and each section under the lock
    is a step of its own, and any threads interleave between them. [Wake] is a wakeup of
    [pthread_cond_wait] without a notification. *)
From S2P Require Import Prelude Ring.
Local Open Scope Z_scope.

Section queue.
Context {T : Type}.

(** Where a caller is. [Offer1]/[Poll1] before the first test, [2] before [try_lock], [3]
    holding the lock before the second test, [4] before [unlock]; [Put1]/[Take1] before
    taking (or retaking) the lock, [2] holding it at the test of the loop, [Wait] in the
    condition's wait, [3] before the guard releases the lock. *)
Inductive qpc :=
  | Offer1 (e : T) | Offer2 (e : T) | Offer3 (e : T) | Offer4
  | Put1 (e : T) | Put2 (e : T) | PutWait (e : T) | Put3
  | Poll1 | Poll2 | Poll3 | Poll4 (e : T)
  | Take1 | Take2 | TakeWait | Take3 (e : T)
  | Returned (ok : bool) (res : option T).

Record queue := mk_queue {
  items_ : ring T;
  lock_ : option nat;
  qpcs : gmap nat qpc;
  put_log : list T;
  take_log : list T
}.

Definition queue_new (junk : T) (cap : Z) : queue := mk_queue (ring_new junk cap) None ∅ [] [].

Definition goto (t : nat) (p : qpc) (q : queue) : queue :=
  mk_queue (items_ q) (lock_ q) (<[t := p]> (qpcs q)) (put_log q) (take_log q).
Definition set_lock (l : option nat) (q : queue) : queue :=
  mk_queue (items_ q) l (qpcs q) (put_log q) (take_log q).

(** [notFull_.notifyAll()] and [notEmpty_.notifyAll()]. *)
Definition notify_full (p : qpc) : qpc := match p with PutWait e => Put1 e | p => p end.
Definition notify_empty (p : qpc) : qpc := match p with TakeWait => Take1 | p => p end.

Definition q_enqueue (e : T) (q : queue) : option queue :=
  r ← enqueue e (items_ q);
  Some (mk_queue r (lock_ q) (notify_empty <$> qpcs q) (put_log q ++ [e]) (take_log q)).

Definition q_dequeue (q : queue) : option (T * queue) :=
  '(e, r) ← dequeue (items_ q);
  Some (e, mk_queue r (lock_ q) (notify_full <$> qpcs q) (put_log q) (take_log q ++ [e])).

Definition q_full (q : queue) : bool := isFull (items_ q).
Definition q_empty (q : queue) : bool := isEmpty (items_ q).

(** The next step of thread [t]; [None] when it is blocked or has returned. *)
Definition go (t : nat) (q : queue) : option queue :=
  match qpcs q !! t with
  | Some (Offer1 e) => Some (goto t (if q_full q then Returned false None else Offer2 e) q)
  | Some (Offer2 e) =>
      match lock_ q with
      | None => Some (goto t (Offer3 e) (set_lock (Some t) q))
      | Some _ => Some (goto t (Returned false None) q)
      end
  | Some (Offer3 e) =>
      if q_full q then Some (goto t (Returned false None) q)
      else q ← q_enqueue e q; Some (goto t Offer4 q)
  | Some Offer4 => Some (goto t (Returned true None) (set_lock None q))
  | Some (Put1 e) =>
      match lock_ q with
      | None => Some (goto t (Put2 e) (set_lock (Some t) q)) | Some _ => None end
  | Some (Put2 e) =>
      if q_full q then Some (goto t (PutWait e) (set_lock None q))
      else q ← q_enqueue e q; Some (goto t Put3 q)
  | Some Put3 => Some (goto t (Returned true None) (set_lock None q))
  | Some Poll1 => Some (goto t (if q_empty q then Returned false None else Poll2) q)
  | Some Poll2 =>
      match lock_ q with
      | None => Some (goto t Poll3 (set_lock (Some t) q))
      | Some _ => Some (goto t (Returned false None) q)
      end
  | Some Poll3 =>
      if q_empty q then Some (goto t (Returned false None) q)
      else '(e, q) ← q_dequeue q; Some (goto t (Poll4 e) q)
  | Some (Poll4 e) => Some (goto t (Returned true (Some e)) (set_lock None q))
  | Some Take1 =>
      match lock_ q with
      | None => Some (goto t Take2 (set_lock (Some t) q)) | Some _ => None end
  | Some Take2 =>
      if q_empty q then Some (goto t TakeWait (set_lock None q))
      else '(e, q) ← q_dequeue q; Some (goto t (Take3 e) q)
  | Some (Take3 e) => Some (goto t (Returned true (Some e)) (set_lock None q))
  | _ => None
  end.

Inductive qact := Invoke (t : nat) (p : qpc) | Go (t : nat) | Wake (t : nat).

Definition q_entry (p : qpc) : bool :=
  match p with Offer1 _ | Put1 _ | Poll1 | Take1 => true | _ => false end.
Definition q_idle (p : option qpc) : bool :=
  match p with None | Some (Returned _ _) => true | _ => false end.

Definition qstep (a : qact) (q : queue) : option queue :=
  match a with
  | Invoke t p => if q_entry p && q_idle (qpcs q !! t) then Some (goto t p q) else None
  | Go t => go t q
  | Wake t =>
      match qpcs q !! t with
      | Some (PutWait e) => Some (goto t (Put1 e) q)
      | Some TakeWait => Some (goto t Take1 q)
      | _ => None
      end
  end.

Fixpoint qsteps (acts : list qact) (q : queue) : option queue :=
  match acts with
  | [] => Some q
  | a :: acts => q ← qstep a q; qsteps acts q
  end.

(** ** Invariant *)
Definition holds (p : qpc) : bool :=
  match p with
  | Offer3 _ | Offer4 | Put2 _ | Put3 | Poll3 | Poll4 _ | Take2 | Take3 _ => true
  | _ => false
  end.

Record qinv (cap : Z) (q : queue) (xs : list T) : Prop := {
  qinv_ring : ring_rep (items_ q) xs;
  qinv_cap : capacity (items_ q) = cap;
  qinv_log : put_log q = take_log q ++ xs;
  qinv_lock : forall t p, qpcs q !! t = Some p -> holds p = true -> lock_ q = Some t;
  qinv_put : forall t e, qpcs q !! t = Some (PutWait e) -> Z.of_nat (length xs) = cap;
  qinv_take : forall t, qpcs q !! t = Some TakeWait -> xs = []
}.

Lemma queue_new_inv junk cap : 0 < cap < 4294967296 -> qinv cap (queue_new junk cap) [].
Proof. intros Hc. constructor; try done. by apply ring_new_rep. Qed.

(** Moving one thread, possibly passing the lock: [l] is the lock after the step. *)
Lemma goto_inv cap q xs t p l :
  qinv cap q xs ->
  (forall e, p = PutWait e -> Z.of_nat (length xs) = cap) -> (p = TakeWait -> xs = []) ->
  (holds p = true -> l = Some t) ->
  (forall u p', u <> t -> qpcs q !! u = Some p' -> holds p' = true -> l = Some u) ->
  qinv cap (goto t p (set_lock l q)) xs.
Proof.
  intros [] Hp Ht Hh Ho. constructor; cbn; try done.
  - intros u p' Hu Hhold. destruct (decide (u = t)) as [->|].
    + rewrite lookup_insert_eq in Hu. simplify_eq. auto.
    + rewrite lookup_insert_ne in Hu by done. eauto.
  - intros u e Hu. destruct (decide (u = t)) as [->|].
    + rewrite lookup_insert_eq in Hu. simplify_eq. eauto.
    + rewrite lookup_insert_ne in Hu by done. eauto.
  - intros u Hu. destruct (decide (u = t)) as [->|].
    + rewrite lookup_insert_eq in Hu. simplify_eq. auto.
    + rewrite lookup_insert_ne in Hu by done. eauto.
Qed.

Lemma goto_same cap q xs t p :
  qinv cap q xs ->
  (forall e, p = PutWait e -> Z.of_nat (length xs) = cap) -> (p = TakeWait -> xs = []) ->
  (holds p = true -> lock_ q = Some t) ->
  qinv cap (goto t p q) xs.
Proof.
  intros Hi ???. replace q with (set_lock (lock_ q) q) by (by destruct q).
  apply goto_inv; try done. intros u p' _. by apply (qinv_lock _ _ _ Hi).
Qed.

(** The owner of the lock is alone in holding it. *)
Lemma others_free cap q xs t u p :
  qinv cap q xs -> lock_ q = Some t -> u <> t -> qpcs q !! u = Some p -> holds p = false.
Proof.
  intros Hi Hl Hne Hu. destruct (holds p) eqn:E; [|done].
  pose proof (qinv_lock _ _ _ Hi u p Hu E). congruence.
Qed.

Lemma q_enqueue_inv cap e q xs :
  qinv cap q xs -> q_full q = false ->
  exists q', q_enqueue e q = Some q' /\ qinv cap q' (xs ++ [e]) /\ lock_ q' = lock_ q.
Proof.
  intros [Hr Hc Hl Hk Hp Ht] Hf. unfold q_full in Hf.
  rewrite (isFull_rep _ xs Hr), bool_decide_eq_false in Hf.
  destruct (enqueue_rep e (items_ q) xs Hr) as (r & E & Hr' & Hc'); [destruct Hr; lia|].
  unfold q_enqueue. rewrite E. cbn [mbind option_bind]. eexists. split; [done|].
  split; [|done].
  constructor; cbn; [done|congruence|by rewrite Hl, app_assoc| | |].
  - intros t p Hu Hh. rewrite lookup_fmap in Hu.
    destruct (qpcs q !! t) as [p0|] eqn:E0; [|done]. injection Hu as <-.
    apply (Hk t p0 E0). by destruct p0.
  - intros t e' Hu. rewrite lookup_fmap in Hu.
    destruct (qpcs q !! t) as [[]|] eqn:E0; try done. exfalso. apply Hf. rewrite Hc. by eapply Hp.
  - intros t Hu. rewrite lookup_fmap in Hu. by destruct (qpcs q !! t) as [[]|].
Qed.

Lemma q_dequeue_inv cap q xs :
  qinv cap q xs -> q_empty q = false ->
  exists x ys q', xs = x :: ys /\ q_dequeue q = Some (x, q') /\ qinv cap q' ys /\ lock_ q' = lock_ q.
Proof.
  intros [Hr Hc Hl Hk Hp Ht] Hf. unfold q_empty in Hf.
  rewrite (isEmpty_rep _ xs Hr), bool_decide_eq_false in Hf. destruct xs as [|x ys]; [done|].
  destruct (dequeue_rep x (items_ q) ys Hr) as (r & E & Hr' & Hc').
  unfold q_dequeue. rewrite E. cbn [mbind option_bind]. do 3 eexists. split_and!; [done|done| |done].
  constructor; cbn; [done|congruence|by rewrite Hl, <- app_assoc| | |].
  - intros t p Hu Hh. rewrite lookup_fmap in Hu.
    destruct (qpcs q !! t) as [p0|] eqn:E0; [|done]. injection Hu as <-.
    apply (Hk t p0 E0). by destruct p0.
  - intros t e' Hu. rewrite lookup_fmap in Hu. by destruct (qpcs q !! t) as [[]|].
  - intros t Hu. rewrite lookup_fmap in Hu.
    destruct (qpcs q !! t) as [[]|] eqn:E0; try done. by discriminate (Ht t E0).
Qed.

Lemma q_full_inv cap q xs : qinv cap q xs -> q_full q = true -> Z.of_nat (length xs) = cap.
Proof.
  intros [Hr <- _ _ _ _] Hf. unfold q_full in Hf.
  by rewrite (isFull_rep _ xs Hr), bool_decide_eq_true in Hf.
Qed.

Lemma q_empty_inv cap q xs : qinv cap q xs -> q_empty q = true -> xs = [].
Proof.
  intros [Hr _ _ _ _ _] Hf. unfold q_empty in Hf.
  by rewrite (isEmpty_rep _ xs Hr), bool_decide_eq_true in Hf.
Qed.
End queue.

Arguments qpc : clear implicits. Arguments queue : clear implicits. Arguments qact : clear implicits.

Section steps.
Context {T : Type}.
Implicit Types (q : queue T) (xs : list T).

(** A thread that cannot go: waiting for the lock, for a notification, or returned. *)
Definition blocked (p : qpc T) (q : queue T) : bool :=
  match p with
  | Put1 _ | Take1 => bool_decide (lock_ q <> None)
  | PutWait _ | TakeWait | Returned _ _ => true
  | _ => false
  end.

(** Entering with a free lock, and leaving with one's own. *)
Lemma acquire_inv cap q xs t p :
  qinv cap q xs -> lock_ q = None -> holds p = true ->
  (forall e, p <> PutWait e) -> p <> TakeWait ->
  qinv cap (goto t p (set_lock (Some t) q)) xs.
Proof.
  intros Hi Hl Hh Hp Ht. apply goto_inv; [done|intros e E; by destruct (Hp e)|done|done|].
  intros u p' _ Hu Hh'. pose proof (qinv_lock _ _ _ Hi u p' Hu Hh'). congruence.
Qed.

Lemma release_inv cap q xs t p p' :
  qinv cap q xs -> qpcs q !! t = Some p -> holds p = true -> holds p' = false ->
  (forall e, p' = PutWait e -> Z.of_nat (length xs) = cap) -> (p' = TakeWait -> xs = []) ->
  qinv cap (goto t p' (set_lock None q)) xs.
Proof.
  intros Hi Hu Hh Hh' Hp Ht. apply goto_inv; [done|done|done|congruence|].
  intros u p0 Hne Hu0 Hh0.
  pose proof (others_free cap q xs t u p0 Hi (qinv_lock _ _ _ Hi t p Hu Hh) Hne Hu0). congruence.
Qed.

Lemma go_spec cap q xs t p :
  qinv cap q xs -> qpcs q !! t = Some p ->
  (exists q' xs', go t q = Some q' /\ qinv cap q' xs') \/ (go t q = None /\ blocked p q = true).
Proof.
  intros Hi Hp.
  assert (holds p = true -> lock_ q = Some t) as Hown by (by apply (qinv_lock _ _ _ Hi)).
  unfold go. rewrite Hp. destruct p; cbn [blocked].
  (* tests without the lock *)
  1,9: left; eexists _, xs; split; [done|]; case_match; by apply goto_same.
  (* try_lock *)
  1,8: destruct (lock_ q) eqn:El; left; eexists _, xs; (split; [done|]);
    [by apply goto_same|by apply acquire_inv].
  (* lock *)
  3,9: destruct (lock_ q) eqn:El;
    [by right|left; eexists _, xs; split; [done|]; by apply acquire_inv].
  (* waiting or returned *)
  4,9,11: by right.
  (* unlock *)
  2,4,6,8: left; eexists _, xs; split; [done|]; by eapply release_inv.
  - destruct (q_full q) eqn:Ef; left; [eexists _, xs; split; [done|]; by apply goto_same|].
    destruct (q_enqueue_inv cap e q xs Hi Ef) as (q' & -> & Hi' & El). cbn [mbind option_bind].
    eexists _, _. split; [done|]. apply goto_same; [done|done|done|]. intros _. rewrite El. auto.
  - destruct (q_full q) eqn:Ef; left.
    { eexists _, xs; split; [done|]. eapply release_inv; try done.
      intros. by apply (q_full_inv cap q). }
    destruct (q_enqueue_inv cap e q xs Hi Ef) as (q' & -> & Hi' & El). cbn [mbind option_bind].
    eexists _, _. split; [done|]. apply goto_same; [done|done|done|]. intros _. rewrite El. auto.
  - destruct (q_empty q) eqn:Ef; left; [eexists _, xs; split; [done|]; by apply goto_same|].
    destruct (q_dequeue_inv cap q xs Hi Ef) as (x & ys & q' & -> & -> & Hi' & El).
    cbn [mbind option_bind].
    eexists _, _. split; [done|]. apply goto_same; [done|done|done|]. intros _. rewrite El. auto.
  - destruct (q_empty q) eqn:Ef; left.
    { eexists _, xs; split; [done|]. eapply release_inv; try done.
      intros. by apply (q_empty_inv cap q). }
    destruct (q_dequeue_inv cap q xs Hi Ef) as (x & ys & q' & -> & -> & Hi' & El).
    cbn [mbind option_bind].
    eexists _, _. split; [done|]. apply goto_same; [done|done|done|]. intros _. rewrite El. auto.
Qed.

Lemma qstep_inv cap q xs a q' :
  qinv cap q xs -> qstep a q = Some q' -> exists xs', qinv cap q' xs'.
Proof.
  intros Hi Hs. destruct a as [t p|t|t]; cbn in Hs.
  - destruct (q_entry p) eqn:Ep; [|done]. destruct (q_idle _); [|done]. cbn in Hs.
    injection Hs as <-. exists xs. apply goto_same; [done|..]; by destruct p.
  - destruct (qpcs q !! t) as [p|] eqn:Ep; [|by unfold go in Hs; rewrite Ep in Hs].
    destruct (go_spec cap q xs t p Hi Ep) as [(q1 & xs' & E & Hi')|[E _]]; [|congruence].
    exists xs'. congruence.
  - destruct (qpcs q !! t) as [[]|] eqn:Ep; try done; injection Hs as <-; exists xs;
      by apply goto_same.
Qed.

Lemma qsteps_inv cap acts q xs q' :
  qinv cap q xs -> qsteps acts q = Some q' -> exists xs', qinv cap q' xs'.
Proof.
  revert q xs. induction acts as [|a acts IH]; intros q xs Hi Hs; cbn in Hs; [simplify_eq; eauto|].
  destruct (qstep a q) as [q1|] eqn:E; [|done].
  destruct (qstep_inv cap q xs a q1 Hi E) as (xs1 & Hi1). by eapply IH.
Qed.

(** *** A leaked lock *)
(** The lock is held by a thread that is no longer in the code that releases it. *)
Definition leaked (t : nat) q : Prop :=
  lock_ q = Some t /\ forall u p, qpcs q !! u = Some p -> holds p = false.

Lemma leaked_goto t u p q : leaked t q -> holds p = false -> leaked t (goto u p q).
Proof.
  intros [Hl Hh] Hp. split; [done|]. intros v p' Hv. cbn in Hv.
  destruct (decide (v = u)) as [->|]; [rewrite lookup_insert_eq in Hv; by simplify_eq|].
  rewrite lookup_insert_ne in Hv by done. by eapply Hh.
Qed.

Lemma leaked_step t q a q' :
  leaked t q -> qstep a q = Some q' ->
  leaked t q' /\ put_log q' = put_log q /\ take_log q' = take_log q.
Proof.
  intros Hk Hs. pose proof Hk as [Hl Hh].
  assert (forall u p, holds p = false -> q' = goto u p q ->
    leaked t q' /\ put_log q' = put_log q /\ take_log q' = take_log q) as Hgo.
  { intros u p Hp ->. split; [by apply leaked_goto|done]. }
  destruct a as [u p|u|u]; cbn in Hs.
  - destruct (q_entry p) eqn:Ep; [|done]. destruct (q_idle _); [|done]. cbn in Hs.
    injection Hs as <-. apply (Hgo u p); [by destruct p|done].
  - unfold go in Hs. destruct (qpcs q !! u) as [p|] eqn:Ep; [|done].
    pose proof (Hh u p Ep) as Hp. destruct p; try discriminate Hp; try done.
    all: rewrite ?Hl in Hs; try discriminate Hs; injection Hs as <-.
    all: eapply Hgo; [|reflexivity]; try case_match; done.
  - destruct (qpcs q !! u) as [[]|]; try done; injection Hs as <-;
      (eapply Hgo; [|reflexivity]; done).
Qed.

Lemma leaked_steps t acts q q' :
  leaked t q -> qsteps acts q = Some q' ->
  leaked t q' /\ put_log q' = put_log q /\ take_log q' = take_log q.
Proof.
  revert q. induction acts as [|a acts IH]; intros q Hk Hs; cbn in Hs; [by simplify_eq|].
  destruct (qstep a q) as [q1|] eqn:E; [|done].
  destruct (leaked_step t q a q1 Hk E) as (Hk1 & <- & <-). by apply IH.
Qed.
End steps.

(** ** Properties *)
(** Over all interleavings of [offer], [put], [poll] and [take]: what was taken
    followed by what is stored is what was put, in order; at most [cap] elements are
    stored; at most one thread is in a section under the lock; a [put] waits only while
    the queue is full and a [take] only while it is empty; and a thread that does not go
    on is waiting for the lock or for a notification, or has returned. *)
Theorem queue_fifo {T} (junk : T) (cap : Z) (acts : list (qact T)) (q : queue T) :
  0 < cap < 4294967296 -> qsteps acts (queue_new junk cap) = Some q ->
  (exists xs, put_log q = take_log q ++ xs /\ Z.of_nat (length xs) <= cap) /\
  (forall t u p p', qpcs q !! t = Some p -> holds p = true ->
     qpcs q !! u = Some p' -> holds p' = true -> t = u) /\
  (forall t e, qpcs q !! t = Some (PutWait e) -> q_full q = true) /\
  (forall t, qpcs q !! t = Some TakeWait -> q_empty q = true) /\
  (forall t p, qpcs q !! t = Some p -> go t q = None -> blocked p q = true).
Proof.
  intros Hc Hs. destruct (qsteps_inv cap acts _ [] q (queue_new_inv junk cap Hc) Hs) as (xs & Hi).
  pose proof Hi as [Hr Hcap Hl Hk Hp Ht]. unfold q_full, q_empty.
  rewrite (isFull_rep _ xs Hr), (isEmpty_rep _ xs Hr), Hcap. split_and!.
  - exists xs. split; [done|]. destruct Hr. lia.
  - intros t u p p' Hpt Hh Hpu Hh'. pose proof (Hk t p Hpt Hh). pose proof (Hk u p' Hpu Hh').
    congruence.
  - intros t e Hw. apply bool_decide_eq_true. by eapply Hp.
  - intros t Hw. apply bool_decide_eq_true. by eapply Ht.
  - intros t p Hpt Hn. destruct (go_spec cap q xs t p Hi Hpt) as [(?&?&?&_)|[_ ?]]; congruence.
Qed.

Definition q_demo_acts : list (qact Z) :=
  [Invoke 0 (Put1 5); Go 0; Go 0; Invoke 1 (Put1 6); Go 0; Go 1; Go 1;
   Invoke 2 Take1; Go 2; Go 2; Go 2; Go 1; Go 1; Go 1].

Definition q_demo : queue Z := default (queue_new 0 1) (qsteps q_demo_acts (queue_new 0 1)).

Lemma queue_fifo_witness :
  (exists xs, put_log q_demo = take_log q_demo ++ xs /\ Z.of_nat (length xs) <= 1) /\
  (forall t u p p', qpcs q_demo !! t = Some p -> holds p = true ->
     qpcs q_demo !! u = Some p' -> holds p' = true -> t = u) /\
  (forall t e, qpcs q_demo !! t = Some (PutWait e) -> q_full q_demo = true) /\
  (forall t, qpcs q_demo !! t = Some TakeWait -> q_empty q_demo = true) /\
  (forall t p, qpcs q_demo !! t = Some p -> go t q_demo = None -> blocked p q_demo = true).
Proof. apply (queue_fifo 0 1 q_demo_acts q_demo); [lia|by vm_compute]. Defined.

Example q_demo_logs : (put_log q_demo, take_log q_demo) = ([5; 6], [5]).
Proof. by vm_compute. Qed.

(** [offer] and [poll] leak the lock: when the queue fills up (or empties) between
    their first test and their [try_lock], they return without unlocking. Such a state
    is reachable with two threads, and after it, whatever any thread does, the lock is
    never released and nothing is ever put or taken again. *)
Theorem offer_leaks_lock :
  exists acts q, qsteps acts (queue_new 0 1) = Some q /\
    qpcs q !! 0%nat = Some (Returned false None) /\ lock_ q = Some 0%nat /\
    forall acts' q', qsteps acts' q = Some q' ->
      lock_ q' = Some 0%nat /\ put_log q' = put_log q /\ take_log q' = take_log q.
Proof.
  exists [Invoke 0 (Offer1 7); Go 0; Invoke 1 (Put1 5); Go 1; Go 1; Go 1; Go 0; Go 0].
  eexists. split; [vm_compute; reflexivity|]. split_and!; [done|done|].
  intros acts' q' Hs. eapply (leaked_steps 0) in Hs.
  - destruct Hs as ([? _] & ? & ?). done.
  - split; [done|].
    refine (bool_decide_unpack (map_Forall (fun _ p => holds p = false) _) _). by vm_compute.
Qed.
