(* ===== verification/TaskThread.v ===== *)
(** * task/TaskThread.h: a thread of tasks that runs what is submitted

    A boss hands each runnable to a worker that has nothing to do, or to a new one. A step is
    what a coroutine does between two points where it may be switched away; the channels
    are the sequences that TaskChan.v shows them to be, the queue of the thread the one of
    BlockingQueue.v. Runnables are numbered. [submit] from a task goes to the boss's
    channel, from a plain thread to the queue. *)
From stdpp Require Import gmultiset.
From S2P Require Import Prelude.
Local Open Scope Z_scope.

(** A worker: about to receive, in [recv], in [recvTill], back from the latter with time
    up or with something sent, inside [runner->run()], at [rest()]. *)
Inductive wpc := WLoop | WWait | WTimed | WLast | WRun (r : nat) | WRest.
Record worker := mk_worker { wchan : list nat; wat : wpc }.

(** The boss: before [poll], before [recv], waiting in it, with a runnable. *)
Inductive bpc := BPoll | BRecv | BWait | BHave (r : nat).

(** [fRunState]: [run()] has been reached. *)
Record tthread := mk_tthread {
  fTimeout : Z;
  alive : bool;
  fTasks : list nat;  taskCap : nat;        (* the queue of plain threads *)
  bchan : list nat;                          (* the channel of the boss *)
  boss : bpc;
  workers : gmap nat worker;
  fIdleWorkers : gset nat;
  accepted : list nat;
  ran : list nat
}.

Definition BOSS_CHAN : nat := 128.
Definition WORKER_CHAN : nat := 1.

Definition TaskThread_new (timeout : Z) (cap : nat) : tthread :=
  mk_tthread timeout false [] cap [] BPoll ∅ ∅ [] [].

Definition with_boss (p : bpc) (s : tthread) : tthread :=
  mk_tthread (fTimeout s) (alive s) (fTasks s) (taskCap s) (bchan s) p (workers s) (fIdleWorkers s) (accepted s) (ran s).
Definition with_tasks (q : list nat) (s : tthread) : tthread :=
  mk_tthread (fTimeout s) (alive s) q (taskCap s) (bchan s) (boss s) (workers s) (fIdleWorkers s) (accepted s) (ran s).
Definition with_bchan (c : list nat) (s : tthread) : tthread :=
  mk_tthread (fTimeout s) (alive s) (fTasks s) (taskCap s) c (boss s) (workers s) (fIdleWorkers s) (accepted s) (ran s).
Definition with_workers (m : gmap nat worker) (s : tthread) : tthread :=
  mk_tthread (fTimeout s) (alive s) (fTasks s) (taskCap s) (bchan s) (boss s) m (fIdleWorkers s) (accepted s) (ran s).
Definition with_idle (i : gset nat) (s : tthread) : tthread :=
  mk_tthread (fTimeout s) (alive s) (fTasks s) (taskCap s) (bchan s) (boss s) (workers s) i (accepted s) (ran s).
Definition accept (r : nat) (s : tthread) : tthread :=
  mk_tthread (fTimeout s) (alive s) (fTasks s) (taskCap s) (bchan s) (boss s) (workers s) (fIdleWorkers s)
    (accepted s ++ [r]) (ran s).
Definition log_run (r : nat) (s : tthread) : tthread :=
  mk_tthread (fTimeout s) (alive s) (fTasks s) (taskCap s) (bchan s) (boss s) (workers s) (fIdleWorkers s)
    (accepted s) (ran s ++ [r]).

(** [TaskThread::run]. *)
Definition thread_run (s : tthread) : option tthread :=
  if alive s then None
  else Some (mk_tthread (fTimeout s) true (fTasks s) (taskCap s) (bchan s) (boss s) (workers s) (fIdleWorkers s)
               (accepted s) (ran s)).

(** [submit]: the answer; [None]: the sender waits for room. *)
Definition submit (in_task : bool) (r : nat) (s : tthread) : option (bool * tthread) :=
  if negb (alive s) then Some (false, s)
  else if in_task then
    if bool_decide (length (bchan s) = BOSS_CHAN) then None
    else
      let s := accept r (with_bchan (bchan s ++ [r]) s) in
      Some (true, match boss s with BWait => with_boss BRecv s | _ => s end)
  else if bool_decide (length (fTasks s) = taskCap s) then Some (false, s)
  else Some (true, accept r (with_tasks (fTasks s ++ [r]) s)).

(** [send] into the channel of a worker that has room. *)
Definition deliver (r : nat) (w : worker) : worker :=
  mk_worker (wchan w ++ [r]) (match wat w with WWait => WLoop | WTimed => WLast | p => p end).

(** [task->send(runner)]; [None]: the channel of the worker is full. *)
Definition send_to (w r : nat) (s : tthread) : option tthread :=
  x ← workers s !! w;
  if bool_decide (length (wchan x) = WORKER_CHAN) then None
  else Some (with_boss BPoll (with_workers (<[w := deliver r x]> (workers s)) s)).

(** [TaskBoss::run]; [w] is the first worker of the set of idle ones, or a new one. Nothing
    is switched between the choice of the worker and the end of [send], as long as that
    does not wait. *)
Definition boss_step (w : nat) (s : tthread) : option tthread :=
  if negb (alive s) then None
  else
    match boss s with
    | BPoll =>
        match fTasks s with
        | r :: q => Some (with_boss (BHave r) (with_tasks q s))
        | [] => Some (with_boss BRecv s)
        end
    | BRecv =>
        match bchan s with
        | r :: c => Some (with_boss (BHave r) (with_bchan c s))
        | [] => Some (with_boss BWait s)
        end
    | BWait => None
    | BHave r =>
        if bool_decide (fIdleWorkers s = ∅) then
          if bool_decide (workers s !! w = None)
          then send_to w r (with_workers (<[w := mk_worker [] WLoop]> (workers s)) s)
          else None
        else if bool_decide (w ∈ fIdleWorkers s)
        then send_to w r (with_idle (fIdleWorkers s ∖ {[w]}) s)
        else None
    end.

(** [TaskWorker::run], [easeWorker] and [removeWorker]. A worker whose time is up goes. *)
Definition worker_step (w : nat) (s : tthread) : option tthread :=
  x ← workers s !! w;
  let put x s := with_workers (<[w := x]> (workers s)) s in
  match wat x with
  | WLoop =>
      match wchan x with
      | r :: c => Some (put (mk_worker c (WRun r)) s)
      | [] => Some (put (mk_worker [] (if bool_decide (0 < fTimeout s) then WTimed else WWait)) s)
      end
  | WLast =>
      match wchan x with
      | r :: c => Some (put (mk_worker c (WRun r)) s)
      | [] => Some (with_workers (delete w (workers s)) (with_idle (fIdleWorkers s ∖ {[w]}) s))
      end
  | WRun r => Some (put (mk_worker (wchan x) WRest) (log_run r s))
  | WRest => Some (put (mk_worker (wchan x) WLoop) (with_idle ({[w]} ∪ fIdleWorkers s) s))
  | WWait | WTimed => None
  end.

(** [Miss]: [poll] finds the queue empty or locked by another thread. *)
Inductive act := Start | Submit (in_task : bool) (r : nat) | Boss (w : nat) | Miss | Worker (w : nat) | Timeout (w : nat).

Definition step (a : act) (s : tthread) : option tthread :=
  match a with
  | Start => thread_run s
  | Submit b r => snd <$> submit b r s
  | Boss w => boss_step w s
  | Miss =>
      match boss s with BPoll => if alive s then Some (with_boss BRecv s) else None | _ => None end
  | Worker w => worker_step w s
  | Timeout w =>
      x ← workers s !! w;
      match wat x with
      | WTimed => Some (with_workers (<[w := mk_worker (wchan x) WLast]> (workers s)) s)
      | _ => None
      end
  end.

Fixpoint steps (acts : list act) (s : tthread) : option tthread :=
  match acts with [] => Some s | a :: acts => s ← step a s; steps acts s end.

(** ** Where the runnables are *)
#[local] Arguments disj_union _ _ _ _ : simpl never.
#[local] Arguments singletonMS _ _ _ _ : simpl never.
Definition bag (l : list nat) : gmultiset nat := list_to_set_disj l.

#[local] Arguments bag _ : simpl never.

Definition hold (x : worker) : gmultiset nat :=
  bag (wchan x) ⊎ match wat x with WRun r => {[+ r +]} | _ => ∅ end.
Definition held (m : gmap nat worker) : gmultiset nat := map_fold (fun _ x acc => hold x ⊎ acc) ∅ m.

Lemma held_new w x m : m !! w = None -> held (<[w := x]> m) = hold x ⊎ held m.
Proof. intros Hm. unfold held. rewrite map_fold_insert_L; [done|intros; multiset_solver|done]. Qed.

Lemma held_delete w x m : m !! w = Some x -> held m = hold x ⊎ held (delete w m).
Proof.
  intros Hm. rewrite <- (held_new w x (delete w m)) by apply lookup_delete_eq.
  by rewrite insert_delete_eq, insert_id.
Qed.

Lemma held_insert w x y m : m !! w = Some x -> held (<[w := y]> m) = hold y ⊎ held (delete w m).
Proof. intros Hm. rewrite <- insert_delete_eq. by rewrite held_new by apply lookup_delete_eq. Qed.

Definition boss_hand (p : bpc) : gmultiset nat :=
  match p with BHave r => {[+ r +]} | _ => ∅ end.

(** Everything that was accepted and has not been run. *)
Definition pending (s : tthread) : gmultiset nat :=
  bag (fTasks s) ⊎ bag (bchan s) ⊎ boss_hand (boss s) ⊎ held (workers s).

Lemma bag_app l k : bag (l ++ k) = bag l ⊎ bag k.
Proof. apply list_to_set_disj_app. Qed.
Lemma bag_cons r l : bag (r :: l) = {[+ r +]} ⊎ bag l.
Proof. done. Qed.
Lemma bag_nil : bag [] = ∅.
Proof. done. Qed.
Ltac bags := rewrite ?bag_app, ?bag_cons, ?bag_nil; multiset_solver.

(** ** Invariant *)
Definition waits (p : wpc) : bool := match p with WWait | WTimed => true | _ => false end.
(** Able to take a message at once: nothing to run and nothing received. *)
Definition free (x : worker) : Prop :=
  wchan x = [] /\ match wat x with WRun _ | WRest => False | _ => True end.

Record tinv (s : tthread) : Prop := {
  ti_idle w : w ∈ fIdleWorkers s -> exists x, workers s !! w = Some x /\ free x;
  ti_one w x : workers s !! w = Some x -> (length (wchan x) <= 1)%nat /\
    (wchan x <> [] -> wat x = WLoop \/ wat x = WLast);
  ti_wait : boss s = BWait -> bchan s = [];
  ti_all : bag (accepted s) = bag (ran s) ⊎ pending s
}.

Lemma tinv_new timeout cap : tinv (TaskThread_new timeout cap).
Proof. constructor; cbn; try done; set_solver. Qed.

Lemma free_deliver r x : free x -> (length (wchan x) <= 1)%nat ->
  hold (deliver r x) = {[+ r +]} ⊎ hold x /\ length (wchan (deliver r x)) = 1%nat /\
  (wat (deliver r x) = WLoop \/ wat (deliver r x) = WLast).
Proof.
  intros [Hc Hw] _. unfold deliver, hold. cbn. rewrite Hc. cbn. split_and!; [|done|].
  - destruct (wat x); try done; bags.
  - destruct (wat x); auto; done.
Qed.

(** The state of one worker changes; what it holds goes into the log, or stays. *)
Lemma tinv_worker s w x y idle ran' :
  tinv s -> workers s !! w = Some x ->
  (length (wchan y) <= 1)%nat -> (wchan y <> [] -> wat y = WLoop \/ wat y = WLast) ->
  (forall u, u ∈ idle -> (u = w /\ free y) \/ (u <> w /\ u ∈ fIdleWorkers s)) ->
  bag ran' ⊎ hold y = bag (ran s) ⊎ hold x ->
  tinv (mk_tthread (fTimeout s) (alive s) (fTasks s) (taskCap s) (bchan s) (boss s) (<[w := y]> (workers s)) idle
          (accepted s) ran').
Proof.
  intros [] Hx Hl Hn Hi Hb. constructor; cbn; try done.
  - intros u Hu. destruct (Hi u Hu) as [[-> Hf]|[Hne Hu']]; [exists y; by rewrite lookup_insert_eq|].
    rewrite lookup_insert_ne by done. by apply ti_idle0.
  - intros u z. destruct (decide (u = w)) as [->|Hne]; [rewrite lookup_insert_eq; by intros [= <-]|].
    rewrite lookup_insert_ne by done. apply ti_one0.
  - rewrite ti_all0. unfold pending. cbn. rewrite (held_insert w x y) by done. rewrite (held_delete w x) by done.
    bags.
Qed.

Lemma tinv_submit b r s ok s' : tinv s -> submit b r s = Some (ok, s') -> tinv s'.
Proof.
  intros Hi. pose proof Hi as []. unfold submit. destruct (alive s); cbn [negb]; [|by intros [= _ <-]].
  destruct b.
  - case_bool_decide; [done|]. cbn zeta. intros [= _ <-].
    constructor; [| | |]; destruct s as [? ? ? ? c [| | |] ? ? ? ?]; cbn in *; try done;
      rewrite !bag_app, ti_all0; unfold pending; cbn; rewrite bag_app; bags.
  - case_bool_decide; [by intros [= _ <-]|]. intros [= _ <-]. constructor; cbn; try done.
    rewrite !bag_app, ti_all0. unfold pending. cbn. rewrite bag_app. bags.
Qed.

Lemma tinv_send w r x s :
  tinv s -> workers s !! w = Some x -> free x -> (w ∉ fIdleWorkers s) -> boss s = BHave r ->
  exists s', send_to w r s = Some s' /\ tinv s'.
Proof.
  intros [] Hx Hf Hw Hb. unfold send_to. rewrite Hx. cbn.
  destruct (ti_one0 w x Hx) as [Hl _]. destruct (free_deliver r x Hf Hl) as (Hh & Hlen & Hat).
  destruct Hf as [Hc _]. rewrite Hc, bool_decide_eq_false_2 by done. eexists. split; [done|].
  constructor; cbn; try done.
  - intros u Hu. destruct (decide (u = w)) as [->|Hne]; [done|]. rewrite lookup_insert_ne by done. by apply ti_idle0.
  - intros u z. destruct (decide (u = w)) as [->|Hne].
    + rewrite lookup_insert_eq. intros [= <-]. split; [lia|done].
    + rewrite lookup_insert_ne by done. apply ti_one0.
  - rewrite ti_all0. unfold pending. cbn. rewrite (held_insert w x) by done. rewrite (held_delete w x (workers s)) by done.
    rewrite Hb, Hh. cbn. bags.
Qed.

Lemma tinv_boss w s s' : tinv s -> boss_step w s = Some s' -> tinv s'.
Proof.
  intros Hi. pose proof Hi as []. unfold boss_step. destruct (alive s); cbn [negb]; [|done].
  destruct (boss s) as [| | |r] eqn:Eb; [| |done|].
  - destruct (fTasks s) as [|r q] eqn:Eq; intros [= <-]; constructor; cbn; try done; rewrite ti_all0;
      unfold pending; rewrite Eq, Eb; cbn; rewrite ?Eq; bags.
  - destruct (bchan s) as [|r c] eqn:Eq; intros [= <-]; constructor; cbn; try done; rewrite ti_all0;
      unfold pending; rewrite Eq, Eb; cbn; rewrite ?Eq; bags.
  - case_bool_decide as Hid.
    + case_bool_decide as Hw; [|done]. intros Hs.
      set (s1 := with_workers _ s) in *. assert (tinv s1) as Hi1.
      { constructor; cbn; try done.
        - intros u. rewrite Hid. set_solver.
        - intros u z. destruct (decide (u = w)) as [->|Hne]; [rewrite lookup_insert_eq; intros [= <-]; cbn; split; [lia|done]|].
          rewrite lookup_insert_ne by done. apply ti_one0.
        - congruence.
        - rewrite ti_all0. unfold pending. cbn. rewrite held_new by done. unfold hold. cbn. bags. }
      destruct (tinv_send w r (mk_worker [] WLoop) s1 Hi1) as (s2 & E & ?); [|done| |done|congruence].
      * cbn. by rewrite lookup_insert_eq.
      * cbn. rewrite Hid. set_solver.
    + case_bool_decide as Hw; [|done]. intros Hs. destruct (ti_idle0 w Hw) as (x & Hx & Hf).
      set (s1 := with_idle _ s) in *. assert (tinv s1) as Hi1.
      { constructor; cbn; try done; [|congruence]. intros u Hu. apply ti_idle0. set_solver. }
      destruct (tinv_send w r x s1 Hi1) as (s2 & E & ?); [done|done|cbn; set_solver|done|congruence].
Qed.

Lemma idle_free s w x u :
  tinv s -> workers s !! w = Some x -> u ∈ fIdleWorkers s -> u = w /\ free x \/ u <> w /\ u ∈ fIdleWorkers s.
Proof.
  intros Hi Hx Hu. destruct (decide (u = w)) as [->|]; [left|by right]. split; [done|].
  destruct (ti_idle s Hi w Hu) as (z & Hz & Hf). congruence.
Qed.

Lemma tinv_take w r c x s :
  tinv s -> workers s !! w = Some x -> wchan x = r :: c -> wat x = WLoop \/ wat x = WLast ->
  tinv (with_workers (<[w := mk_worker c (WRun r)]> (workers s)) s).
Proof.
  intros Hi Hx Ec Ew. destruct (ti_one s Hi w x Hx) as [Hl Hn]. rewrite Ec in Hl. cbn in Hl.
  apply (tinv_worker s w x); [done|done|cbn; lia|..]; cbn.
  - destruct c; [done|cbn in Hl; lia].
  - intros u Hu. destruct (idle_free s w x u Hi Hx Hu) as [[-> [Hc _]]|?]; [congruence|by right].
  - unfold hold. cbn. rewrite Ec. destruct Ew as [-> | ->]; bags.
Qed.

Lemma tinv_worker_step w s s' : tinv s -> worker_step w s = Some s' -> tinv s'.
Proof.
  intros Hi. pose proof Hi as []. unfold worker_step. destruct (workers s !! w) as [x|] eqn:Hx; [|done]. cbn.
  destruct (ti_one0 w x Hx) as [Hl Hn]. pose proof (fun u => idle_free s w x u Hi Hx) as Hid.
  destruct (wat x) as [| | | |r|] eqn:Ew; try done.
  - destruct (wchan x) as [|r c] eqn:Ec; intros [= <-]; [|by eapply tinv_take; eauto].
    apply (tinv_worker s w x); [done|done|cbn; lia|done|..]; cbn.
    + intros u Hu. destruct (Hid u Hu) as [[-> _]|?]; [left|by right]. split; [done|]. split; [done|]. cbn. by case_bool_decide.
    + unfold hold. cbn. rewrite Ec, Ew. by case_bool_decide.
  - destruct (wchan x) as [|r c] eqn:Ec; intros [= <-]; [|by eapply tinv_take; eauto].
    constructor; cbn; try done.
    + intros u Hu. rewrite lookup_delete_ne by set_solver. apply ti_idle0. set_solver.
    + intros u z [_ Hz]%lookup_delete_Some. by apply ti_one0 in Hz.
    + rewrite ti_all0. unfold pending. cbn. rewrite (held_delete w x (workers s)) by done.
      unfold hold at 1. rewrite Ec, Ew. bags.
  - intros [= <-]. apply (tinv_worker s w x); [done|done|done|..]; cbn.
    + intros Hc. destruct (Hn Hc); congruence.
    + intros u Hu. destruct (Hid u Hu) as [[-> [_ Hf]]|?]; [by rewrite Ew in Hf|by right].
    + unfold hold. cbn. rewrite Ew. bags.
  - intros [= <-]. apply (tinv_worker s w x); [done|done|done|..]; cbn.
    + auto.
    + intros u Hu. destruct (decide (u = w)) as [->|Hne]; [left|right; set_solver]. split; [done|]. split; [|done]. cbn.
      destruct (wchan x) eqn:Ec; [done|]. destruct Hn; [done|congruence..].
    + unfold hold. cbn. by rewrite Ew.
Qed.

Lemma tinv_step a s s' : tinv s -> step a s = Some s' -> tinv s'.
Proof.
  intros Hi Hs. destruct a as [|b r|w| |w|w]; cbn in Hs.
  - unfold thread_run in Hs. destruct (alive s); [done|]. injection Hs as <-. by destruct Hi.
  - destruct (submit b r s) as [[ok s1]|] eqn:E; [|done]. injection Hs as <-. by eapply tinv_submit.
  - by eapply tinv_boss.
  - destruct (boss s) eqn:Eb, (alive s); try done. injection Hs as <-. destruct Hi. constructor; cbn; try done.
    rewrite ti_all0. unfold pending. by rewrite Eb.
  - by eapply tinv_worker_step.
  - destruct (workers s !! w) as [x|] eqn:Hx; [|done]. cbn in Hs. destruct (wat x) eqn:Ew; try done.
    injection Hs as <-. destruct (ti_one s Hi w x Hx) as [Hl Hn]. eapply (tinv_worker s w x); try done; cbn.
    + auto.
    + intros u Hu. destruct (decide (u = w)) as [->|]; [left|by right]. split; [done|].
      destruct (ti_idle s Hi w Hu) as (z & Hz & [Hc _]). split; [|done]. cbn. congruence.
    + unfold hold. cbn. by rewrite Ew.
Qed.

Lemma tinv_steps acts : forall s s', tinv s -> steps acts s = Some s' -> tinv s'.
Proof.
  induction acts as [|a acts IH]; intros s s' Hi Hs; cbn in Hs; [by simplify_eq|].
  destruct (step a s) as [s1|] eqn:E; [|done]. by eapply IH, Hs; eapply tinv_step.
Qed.

Lemma held_empty m : (forall w x, m !! w = Some x -> hold x = ∅) -> held m = ∅.
Proof.
  induction m as [|w x m Hw IH] using map_ind; intros Hm; [done|].
  rewrite held_new by done. rewrite (Hm w x) by apply lookup_insert_eq. rewrite IH; [bags|].
  intros u z Hz. apply (Hm u z). rewrite lookup_insert_ne by congruence. done.
Qed.

(** A boss with a runnable can always give it away. *)
Lemma boss_gives r s : tinv s -> alive s = true -> boss s = BHave r -> exists w, is_Some (boss_step w s).
Proof.
  intros Hi Ha Hb. unfold boss_step. rewrite Ha, Hb. cbn [negb].
  destruct (decide (fIdleWorkers s = ∅)) as [He|[w Hw]%set_choose_L].
  - exists (fresh (dom (workers s))). rewrite bool_decide_eq_true_2 by done.
    rewrite bool_decide_eq_true_2 by apply not_elem_of_dom, is_fresh.
    unfold send_to. cbn. rewrite lookup_insert_eq. cbn. eauto.
  - exists w. rewrite bool_decide_eq_false_2 by set_solver. rewrite bool_decide_eq_true_2 by done.
    destruct (ti_idle s Hi w Hw) as (x & Hx & [Hc _]). unfold send_to. cbn. rewrite Hx. cbn. rewrite Hc. cbn. eauto.
Qed.

(** A worker that cannot move holds nothing. *)
Lemma worker_still w x s : tinv s -> workers s !! w = Some x -> worker_step w s = None -> waits (wat x) = true /\ hold x = ∅.
Proof.
  intros Hi Hx. unfold worker_step, hold. rewrite Hx. cbn.
  destruct (ti_one s Hi w x Hx) as [_ Hn].
  assert (waits (wat x) = true -> wchan x = []) as Hc.
  { intros Hw. destruct (wchan x); [done|]. destruct Hn as [E|E]; [done|rewrite E in Hw..]; done. }
  destruct (wat x); cbn; try done; try (by destruct (wchan x)); intros _; rewrite Hc by done; split; done || bags.
Qed.

Lemma bag_elements l : elements (bag l) ≡ₚ l.
Proof.
  induction l as [|r l IH]; [done|]. rewrite bag_cons, gmultiset_elements_disj_union, gmultiset_elements_singleton, IH. done.
Qed.


(** When neither the boss nor a worker can move, the boss waits for a message, every worker for a runnable, and all that
    has been accepted from tasks is done: what is left is in the queue of the plain threads. *)
Theorem taskthread_quiet timeout cap acts s :
  steps acts (TaskThread_new timeout cap) = Some s -> alive s = true ->
  (forall w, boss_step w s = None /\ worker_step w s = None) ->
  boss s = BWait /\ (forall w x, workers s !! w = Some x -> waits (wat x) = true) /\
  accepted s ≡ₚ ran s ++ fTasks s.
Proof.
  intros Hs Ha Hq. pose proof (tinv_steps acts _ s (tinv_new timeout cap) Hs) as Hi.
  assert (boss s = BWait) as Hb.
  { pose proof (proj1 (Hq 0%nat)) as H0. unfold boss_step in H0. rewrite Ha in H0. cbn in H0.
    destruct (boss s) as [| | |r] eqn:Eb; [by destruct (fTasks s)|by destruct (bchan s)|done|].
    destruct (boss_gives r s Hi Ha Eb) as (w & x & Hw). rewrite (proj1 (Hq w)) in Hw. done. }
  assert (forall w x, workers s !! w = Some x -> waits (wat x) = true /\ hold x = ∅) as Hw
    by (intros w x Hx; apply (worker_still w x s Hi Hx), Hq).
  split_and!; [done|intros w x Hx; by apply (Hw w x)|].
  rewrite <- (bag_elements (accepted s)), (ti_all s Hi). unfold pending.
  rewrite Hb, (ti_wait s Hi Hb), held_empty by (intros w x Hx; by apply (Hw w x)). cbn.
  replace (bag (fTasks s) ⊎ bag [] ⊎ ∅ ⊎ ∅) with (bag (fTasks s)) by bags.
  rewrite gmultiset_elements_disj_union, !bag_elements. done.
Qed.

(** Two runnables from tasks and one from a plain thread, workers that live for 100 ms. The first worker takes two, the
    second one's time is up; the third runnable is given to the first. *)
Definition demo_acts : list act :=
  [Start; Submit false 7; Boss 0; Boss 1; Submit true 8; Worker 1; Boss 0; Boss 0; Boss 2; Worker 2; Worker 1; Worker 2;
   Worker 1; Worker 2; Worker 1; Worker 2; Timeout 2; Worker 2; Boss 0; Boss 0; Submit true 9; Boss 0; Boss 1;
   Worker 1; Worker 1; Worker 1; Worker 1; Boss 0; Boss 0].
Definition demo : tthread := default (TaskThread_new 100 64) (steps demo_acts (TaskThread_new 100 64)).


(** A runnable from a plain thread, while the boss waits in [recv]: [offer] only wakes who waits on the queue. It stays
    until some task submits. *)
Definition unnoticed_acts : list act := [Start; Boss 0; Boss 0; Submit false 7].
Definition unnoticed : tthread := default (TaskThread_new 0 64) (steps unnoticed_acts (TaskThread_new 0 64)).
Lemma taskthread_quiet_witness :
  (accepted unnoticed = [7%nat] /\ ran unnoticed = []) /\
  boss unnoticed = BWait /\ (forall w x, workers unnoticed !! w = Some x -> waits (wat x) = true) /\
  accepted unnoticed ≡ₚ ran unnoticed ++ fTasks unnoticed.
Proof.
  split; [by vm_compute|]. apply (taskthread_quiet 0 64 unnoticed_acts).
  - apply defined_default. by vm_compute.
  - by vm_compute.
  - intros w. assert (workers unnoticed = ∅) as Hw by (by vm_compute). split; [by vm_compute|].
    unfold worker_step. by rewrite Hw.
Defined.

(** The same submit from a task gets the boss to move; so does the next submit from a task, first with
    the runnable of that task. *)
Example plain_submit_unnoticed :
  (fun s => (boss s, fTasks s)) <$> steps (unnoticed_acts ++ [Submit true 8; Boss 1; Boss 1; Boss 2]) (TaskThread_new 0 64)
    = Some (BHave 7, []) /\
  steps (unnoticed_acts ++ [Boss 1]) (TaskThread_new 0 64) = None.
Proof. split; by vm_compute. Qed.

(** Nothing is accepted before [run]: the boss does not exist yet. *)
Example not_started : submit true 1 (TaskThread_new 0 64) = Some (false, TaskThread_new 0 64).
Proof. done. Qed.

(** A free worker that is chosen when its time is up, before it has left the set, takes the runnable and lives on. *)
Example chosen_late :
  (fun s => (ran s, elements (dom (workers s)))) <$>
    steps [Start; Boss 0; Submit true 1; Boss 0; Boss 1; Worker 1; Worker 1; Worker 1; Worker 1; Boss 0; Boss 0;
           Submit true 2; Timeout 1; Boss 0; Boss 1; Worker 1; Worker 1] (TaskThread_new 10 64) = Some ([1; 2]%nat, [1%nat]).
Proof. by vm_compute. Qed.
