(* ===== verification/Pool.v ===== *)
(** * thread/Thread.h, Thread.cpp, ThreadPool.h: threads and the pool

    The pool is composed with the queue of BlockingQueue.v: a worker inside [take] and a
    caller inside [offer] or [put] take that queue's steps. Thread 0 calls [start] and
    [stop], worker [i] is thread [i + 1], every other thread, and a runnable while it runs,
    may call [offer] and [put]. [pthread_create] succeeds. A step is [None] when it cannot be
    taken, or when it would read [running] before [start] has set it. *)
From S2P Require Import Prelude Ring BlockingQueue.
Local Open Scope Z_scope.

(** ** Thread *)
Inductive THREAD_STATE_T := THREAD_INIT | THREAD_RUNNING | THREAD_SLEEP | THREAD_DEAD.

#[export] Instance thread_state_eq_dec : EqDecision THREAD_STATE_T.
Proof. solve_decision. Defined.

Definition state_num (s : THREAD_STATE_T) : Z :=
  match s with THREAD_INIT => 0 | THREAD_RUNNING => 1 | THREAD_SLEEP => 2 | THREAD_DEAD => 3 end.

Record thread := mk_thread { threadId : Z; detached : bool; threadState : THREAD_STATE_T }.

Definition Thread_new : thread := mk_thread (-1) false THREAD_INIT.

(** Whether [start] goes on to [pthread_create]; it returns [-1] otherwise. *)
Definition startable (th : thread) : bool :=
  bool_decide (state_num (threadState th) < state_num THREAD_RUNNING) ||
  bool_decide (state_num (threadState th) >= state_num THREAD_DEAD).

(** [start]; [rc] is what [pthread_create] answers. *)
Definition thread_start (rc : Z) (th : thread) : Z := if startable th then rc else -1.

(** The parts of [_thread_run] in front of and behind [run()]. *)
Definition thread_enter (tid : Z) (th : thread) : thread :=
  mk_thread tid (detached th) THREAD_RUNNING.
Definition thread_leave (th : thread) : thread :=
  mk_thread (threadId th) (detached th) THREAD_DEAD.

(** [rc] is what [pthread_detach] answers. *)
Definition thread_detach (rc : Z) (th : thread) : Z * thread :=
  if detached th then (0, th)
  else if bool_decide (threadState th <> THREAD_RUNNING) then (-1, th)
  else (rc, mk_thread (threadId th) (if bool_decide (rc = 0) then true else detached th)
              (threadState th)).

(** ** ThreadPool *)
Inductive runnable := Job (id : nat) | EmptyRunner.

#[export] Instance runnable_eq_dec : EqDecision runnable.
Proof. solve_decision. Defined.

(** A worker: created, at the test of its loop, inside [pool.take()], inside [r->run()],
    behind its loop, ended. *)
Inductive wpc := WEnter | WTest | WTake | WRun (r : runnable) | WLeave | WEnd.

Record worker := mk_worker { wthread : thread; wat : wpc }.

(** The thread that calls [start] and [stop]: in the loop that creates the workers, in the
    loop of offers between two of them and inside one, in the loop of joins. *)
Inductive cpc := CIdle | CStart (i : nat) | COffer (i : nat) | COffering (i : nat) | CJoin (i : nat).

Record pool := mk_pool {
  threadNum : nat;
  running : option bool;
  bStarted : bool;
  tasks : queue runnable;
  workers : list worker;
  ctl : cpc;
  accepted : nat;          (* offers of the current [stop] that returned true *)
  ran : list runnable      (* what was run, in order of the calls *)
}.

Definition ThreadPool_new (junk : runnable) (n : nat) (cap : Z) : pool :=
  mk_pool n None false (queue_new junk cap) [] CIdle 0 [].

Definition set_running (r : bool) (p : pool) : pool :=
  mk_pool (threadNum p) (Some r) (bStarted p) (tasks p) (workers p) (ctl p) (accepted p) (ran p).
Definition set_started (p : pool) : pool :=
  mk_pool (threadNum p) (running p) true (tasks p) (workers p) (ctl p) (accepted p) (ran p).
Definition set_tasks (q : queue runnable) (p : pool) : pool :=
  mk_pool (threadNum p) (running p) (bStarted p) q (workers p) (ctl p) (accepted p) (ran p).
Definition set_workers (ws : list worker) (p : pool) : pool :=
  mk_pool (threadNum p) (running p) (bStarted p) (tasks p) ws (ctl p) (accepted p) (ran p).
Definition set_ctl (c : cpc) (k : nat) (p : pool) : pool :=
  mk_pool (threadNum p) (running p) (bStarted p) (tasks p) (workers p) c k (ran p).
Definition log_run (r : runnable) (p : pool) : pool :=
  mk_pool (threadNum p) (running p) (bStarted p) (tasks p) (workers p) (ctl p) (accepted p)
    (ran p ++ [r]).

Definition move (i : nat) (w : worker) (at_ : wpc) (p : pool) : pool :=
  set_workers (<[i := mk_worker (wthread w) at_]> (workers p)) p.

(** [Worker::run] inside [_thread_run]. *)
Definition worker_step (i : nat) (p : pool) : option pool :=
  w ← workers p !! i;
  match wat w with
  | WEnter =>
      Some (set_workers (<[i := mk_worker (thread_enter (Z.of_nat (S i)) (wthread w)) WTest]>
                           (workers p)) p)
  | WTest =>
      r ← running p;
      if (r : bool) then
        q ← qstep (Invoke (S i) Take1) (tasks p);
        Some (move i w WTake (set_tasks q p))
      else Some (move i w WLeave p)
  | WTake =>
      match qpcs (tasks p) !! S i with
      | Some (Returned _ (Some r)) => Some (log_run r (move i w (WRun r) p))
      | _ => q ← qstep (Go (S i)) (tasks p); Some (set_tasks q p)
      end
  | WRun _ => if q_idle (qpcs (tasks p) !! S i) then Some (move i w WTest p) else None
  | WLeave =>
      Some (set_workers (<[i := mk_worker (thread_leave (wthread w)) WEnd]> (workers p)) p)
  | WEnd => None
  end.

(** The new worker of [start]: made, started and kept. *)
Definition new_worker (p : pool) : pool :=
  let th := Thread_new in
  set_workers (workers p ++ [mk_worker th (if startable th then WEnter else WEnd)]) p.

(** [join] returns at once for a dead thread and otherwise when the pthread has ended. *)
Definition join_returns (w : worker) : bool :=
  bool_decide (threadState (wthread w) = THREAD_DEAD) ||
  match wat w with WEnd => true | _ => false end.

(** The rest of [start] and [stop]. *)
Definition ctl_step (p : pool) : option pool :=
  match ctl p with
  | CIdle => None
  | CStart i =>
      if bool_decide (i < threadNum p)%nat then Some (set_ctl (CStart (S i)) (accepted p) (new_worker p))
      else Some (set_ctl CIdle (accepted p) p)
  | COffer i =>
      if bool_decide (i < threadNum p)%nat then
        q ← qstep (Invoke 0 (Offer1 EmptyRunner)) (tasks p);
        Some (set_ctl (COffering i) (accepted p) (set_tasks q p))
      else Some (set_ctl (CJoin 0) (accepted p) p)
  | COffering i =>
      match qpcs (tasks p) !! 0%nat with
      | Some (Returned ok _) =>
          Some (set_ctl (COffer (S i)) (if ok then S (accepted p) else accepted p) p)
      | _ => q ← qstep (Go 0) (tasks p); Some (set_tasks q p)
      end
  | CJoin i =>
      match workers p !! i with
      | Some w => if join_returns w then Some (set_ctl (CJoin (S i)) (accepted p) p) else None
      | None => Some (set_ctl CIdle (accepted p) (set_workers [] p))
      end
  end.

(** Threads that may call [offer] and [put]. *)
Definition client (p : pool) (t : nat) : bool :=
  match t with
  | 0%nat => false
  | S i =>
      match workers p !! i with
      | Some w => match wat w with WRun _ => true | _ => false end
      | None => bool_decide (threadNum p < t)%nat
      end
  end.

(** [offer] and [put] up to their call of the queue, whose entry is [pc]. *)
Definition submit (t : nat) (pc : qpc runnable) (p : pool) : option pool :=
  if client p t && q_idle (qpcs (tasks p) !! t) then
    r ← running p;
    if (r : bool) then q ← qstep (Invoke t pc) (tasks p); Some (set_tasks q p)
    else Some (set_tasks (goto t (Returned false None) (tasks p)) p)
  else None.

Inductive pact :=
  | Start | Stop | Ctl | Worker (i : nat)
  | CallOffer (t : nat) (r : runnable) | CallPut (t : nat) (r : runnable)
  | Client (t : nat) | Spurious (t : nat).

Definition pstep (a : pact) (p : pool) : option pool :=
  match a with
  | Start =>
      match ctl p with
      | CIdle => if bStarted p then Some p
                 else Some (set_ctl (CStart 0) (accepted p) (set_running true (set_started p)))
      | _ => None
      end
  | Stop =>
      match ctl p with CIdle => Some (set_ctl (COffer 0) 0 (set_running false p)) | _ => None end
  | Ctl => ctl_step p
  | Worker i => worker_step i p
  | CallOffer t r => submit t (Offer1 r) p
  | CallPut t r => submit t (Put1 r) p
  | Client t => if client p t then q ← qstep (Go t) (tasks p); Some (set_tasks q p) else None
  | Spurious t => q ← qstep (Wake t) (tasks p); Some (set_tasks q p)
  end.

Fixpoint psteps (acts : list pact) (p : pool) : option pool :=
  match acts with
  | [] => Some p
  | a :: acts => p ← pstep a p; psteps acts p
  end.

(** ** The specification *)
(** What can be seen of a worker: it wants a runnable, has one that it has not run yet, or
    neither. *)
Inductive view := VHungry | VHand (r : runnable) | VOther.

Definition hand (v : view) : list runnable := match v with VHand r => [r] | _ => [] end.
Definition hungry (v : view) : nat := match v with VHungry => 1 | _ => 0 end.

Definition hands (vs : list view) : list runnable := concat (hand <$> vs).
Definition hungers (vs : list view) : nat := sum_list_with hungry vs.

#[local] Arguments hands : simpl never.
#[local] Arguments hungers : simpl never.

(** What was accepted, taken and run so far, and how many empty runners the current [stop]
    got in. *)
Record apool := mk_apool {
  views : list view;
  puts : list runnable;
  takes : list runnable;
  runs : list runnable;
  arunning : bool;
  asked : nat
}.

(** The changes of the pool, for [n] workers. *)
Inductive astep (n : nat) : apool -> apool -> Prop :=
  | a_same a : astep n a a
  | a_start vs ps ts rs b k : astep n (mk_apool vs ps ts rs b k) (mk_apool vs ps ts rs true k)
  | a_stop vs ps ts rs b k : astep n (mk_apool vs ps ts rs b k) (mk_apool vs ps ts rs false 0)
  | a_spawn vs ps ts rs b k :
      (length vs < n)%nat -> astep n (mk_apool vs ps ts rs b k) (mk_apool (vs ++ [VOther]) ps ts rs b k)
  | a_put vs ps ts rs b k r k' :
      (k' <= S k)%nat -> astep n (mk_apool vs ps ts rs b k) (mk_apool vs (ps ++ [r]) ts rs b k')
  | a_ask vs ps ts rs k i :
      vs !! i = Some VOther ->
      astep n (mk_apool vs ps ts rs true k) (mk_apool (<[i := VHungry]> vs) ps ts rs true k)
  | a_take vs ps ts rs b k i r xs :
      vs !! i = Some VHungry -> ps = ts ++ r :: xs ->
      astep n (mk_apool vs ps ts rs b k) (mk_apool (<[i := VHand r]> vs) ps (ts ++ [r]) rs b k)
  | a_run vs ps ts rs b k i r :
      vs !! i = Some (VHand r) ->
      astep n (mk_apool vs ps ts rs b k) (mk_apool (<[i := VOther]> vs) ps ts (rs ++ [r]) b k)
  | a_clear vs ps ts rs b k :
      Forall (eq VOther) vs -> astep n (mk_apool vs ps ts rs b k) (mk_apool [] ps ts rs b k).

(** Nothing is lost or run twice, a single worker keeps the order, and since [stop] no more
    workers want a runnable than there are runnables, except for those that the offers of
    [stop] did not cover. *)
Record ainv (n : nat) (a : apool) : Prop := {
  ainv_len : (length (views a) <= n)%nat;
  ainv_stored : exists xs, puts a = takes a ++ xs;
  ainv_perm : takes a ≡ₚ runs a ++ hands (views a);
  ainv_order : (n <= 1)%nat -> takes a = runs a ++ hands (views a);
  ainv_stop : arunning a = false ->
    (asked a + hungers (views a) + length (takes a) <= n + length (puts a))%nat
}.

Lemma hands_insert (vs : list view) i v v' :
  vs !! i = Some v ->
  exists l k, vs = l ++ v :: k /\ <[i := v']> vs = l ++ v' :: k.
Proof.
  intros E. exists (take i vs), (drop (S i) vs). split; [by rewrite take_drop_middle|].
  apply insert_take_drop. by eapply lookup_lt_Some.
Qed.

Lemma hands_app vs ws : hands (vs ++ ws) = hands vs ++ hands ws.
Proof. unfold hands. by rewrite fmap_app, concat_app. Qed.

Lemma hungers_app vs ws : hungers (vs ++ ws) = (hungers vs + hungers ws)%nat.
Proof. apply sum_list_with_app. Qed.

Lemma hands_cons v vs : hands (v :: vs) = hand v ++ hands vs. Proof. done. Qed.
Lemma hungers_cons v vs : hungers (v :: vs) = (hungry v + hungers vs)%nat. Proof. done. Qed.

Lemma hungers_le vs : (hungers vs <= length vs)%nat.
Proof. induction vs as [|v vs IH]; [done|]. rewrite hungers_cons. destruct v; cbn; lia. Qed.

Lemma quiet_hands vs : Forall (eq VOther) vs -> hands vs = [].
Proof. induction 1 as [|? ? <- _ IH]; [done|]. by rewrite hands_cons. Qed.

Lemma quiet_hungers vs : Forall (eq VOther) vs -> hungers vs = 0%nat.
Proof. induction 1 as [|? ? <- _ IH]; [done|]. by rewrite hungers_cons. Qed.

Lemma astep_inv n a a' : ainv n a -> astep n a a' -> ainv n a'.
Proof.
  intros [Hl [xs0 Hx] Hp Ho Hs] Ha. destruct Ha; cbn in *.
  - constructor; cbn; eauto.
  - constructor; cbn; [done|eauto|done|done|done].
  - constructor; cbn; [done|eauto|done|done|]. intros _.
    pose proof (hungers_le vs). rewrite Hx, length_app. lia.
  - assert (hands (vs ++ [VOther]) = hands vs) as E by (rewrite hands_app; apply app_nil_r).
    constructor; cbn; [rewrite length_app; cbn; lia|eauto|by rewrite E|by rewrite E|].
    rewrite hungers_app, hungers_cons. change (hungers []) with 0%nat. cbn. intros Hb%Hs. lia.
  - constructor; cbn; [done|exists (xs0 ++ [r]); by rewrite Hx, app_assoc|done|done|].
    rewrite length_app. cbn. intros Hb%Hs. lia.
  - destruct (hands_insert vs i VOther VHungry H) as (l & r & -> & E). rewrite E.
    rewrite hands_app in Hp, Ho. constructor; cbn; rewrite ?hands_app; try done; [|eauto].
    rewrite length_app in *; cbn in *; lia.
  - destruct (hands_insert vs i VHungry (VHand r) H) as (l & k' & -> & E). rewrite E.
    rewrite hands_app, hands_cons in Hp, Ho. cbn in Hp, Ho.
    constructor; cbn; rewrite ?hands_app, ?hands_cons; cbn.
    + rewrite length_app in *; cbn in *; lia.
    + exists xs. by rewrite H0, <- app_assoc.
    + rewrite Hp. solve_Permutation.
    + intros Hn. rewrite length_app in Hl; cbn in Hl.
      destruct l, k'; cbn in Hl; try lia. rewrite Ho by done. cbn. by rewrite !app_nil_r.
    + intros Hb. specialize (Hs Hb). rewrite hungers_app, hungers_cons in *.
      rewrite length_app. cbn in *. lia.
  - destruct (hands_insert vs i (VHand r) VOther H) as (l & k' & -> & E). rewrite E.
    rewrite hands_app, hands_cons in Hp, Ho. cbn in Hp, Ho.
    constructor; cbn; rewrite ?hands_app, ?hands_cons; cbn.
    + rewrite length_app in *; cbn in *; lia.
    + eauto.
    + rewrite Hp. solve_Permutation.
    + intros Hn. rewrite length_app in Hl; cbn in Hl.
      destruct l, k'; cbn in Hl; try lia. rewrite Ho by done. cbn. by rewrite !app_nil_r.
    + intros Hb. specialize (Hs Hb). rewrite hungers_app, hungers_cons in *. cbn in *. lia.
  - pose proof (quiet_hands vs H) as E. pose proof (quiet_hungers vs H) as E'. rewrite E in Hp, Ho.
    constructor; cbn; [lia|eauto|done|done|]. rewrite E' in Hs. done.
Qed.

(** ** The pool refines it *)
Definition taking (pc : qpc runnable) : bool :=
  match pc with Take1 | Take2 | TakeWait | Take3 _ | Returned true (Some _) => true | _ => false end.
Definition giving (pc : option (qpc runnable)) : bool :=
  match pc with
  | None | Some (Offer1 _ | Offer2 _ | Offer3 _ | Offer4) => true
  | Some (Put1 _ | Put2 _ | PutWait _ | Put3 | Returned _ _) => true
  | _ => false
  end.
Definition offering (pc : option (qpc runnable)) : bool :=
  match pc with
  | Some (Offer1 _ | Offer2 _ | Offer3 _ | Offer4 | Returned _ _) => true | _ => false end.

(** Inside an offer that has stored its element. *)
Definition stored (pc : option (qpc runnable)) : nat :=
  match pc with Some (Offer4 | Returned true _) => 1 | _ => 0 end.

Definition view_of (at_ : wpc) (pc : option (qpc runnable)) : view :=
  match at_, pc with
  | WTake, Some (Take1 | Take2 | TakeWait) => VHungry
  | WTake, Some (Take3 r | Returned _ (Some r)) => VHand r
  | _, _ => VOther
  end.

(** The calls of the queue that a worker may be in. *)
Definition fits (at_ : wpc) (pc : option (qpc runnable)) : bool :=
  match at_ with
  | WTake => match pc with Some pc => taking pc | None => false end
  | WRun _ => giving pc
  | _ => q_idle pc
  end.

Definition views_of (p : pool) : list view :=
  imap (fun i w => view_of (wat w) (qpcs (tasks p) !! S i)) (workers p).

Definition asked_of (p : pool) : nat :=
  accepted p + match ctl p with COffering _ => stored (qpcs (tasks p) !! 0%nat) | _ => 0 end.

Definition abs (p : pool) : apool :=
  mk_apool (views_of p) (put_log (tasks p)) (take_log (tasks p)) (ran p)
    (bool_decide (running p = Some true)) (asked_of p).

(** The calls that the other threads may be in: before it is made, a worker is in none. *)
Definition rest_ok (n i : nat) (pc : option (qpc runnable)) : bool :=
  if bool_decide (i < n)%nat then q_idle pc else giving pc.

Definition ctl_ok (c : cpc) (pc : option (qpc runnable)) : bool :=
  match c with COffering _ => offering pc | _ => q_idle pc end.

Definition phase_ok (c : cpc) (ws : list worker) : Prop :=
  match c with
  | CStart i => i = length ws
  | CJoin i => forall k w, (k < i)%nat -> ws !! k = Some w -> wat w = WEnd
  | _ => True
  end.

Definition starting (c : cpc) : bool := match c with CStart _ => true | _ => false end.

Record pinv (cap : Z) (p : pool) (xs : list runnable) : Prop := {
  pinv_queue : qinv cap (tasks p) xs;
  pinv_len : (length (workers p) <= threadNum p)%nat;
  pinv_fits : forall i w, workers p !! i = Some w -> fits (wat w) (qpcs (tasks p) !! S i) = true;
  pinv_rest : forall i, workers p !! i = None -> rest_ok (threadNum p) i (qpcs (tasks p) !! S i) = true;
  pinv_dead : forall i w, workers p !! i = Some w ->
    threadState (wthread w) = THREAD_DEAD -> wat w = WEnd;
  pinv_ctl : ctl_ok (ctl p) (qpcs (tasks p) !! 0%nat) = true;
  pinv_phase : phase_ok (ctl p) (workers p);
  pinv_fresh : bStarted p = false -> workers p = [] /\ starting (ctl p) = false
}.

(** What the step of another thread does to a call. *)
Definition told (o o' : option (qpc runnable)) : Prop :=
  o' = o \/ o' = notify_full <$> o \/ o' = notify_empty <$> o.

Lemma told_same o o' :
  told o o' ->
  (forall at_, view_of at_ o' = view_of at_ o /\ fits at_ o' = fits at_ o) /\
  (forall n i, rest_ok n i o' = rest_ok n i o) /\ (forall c, ctl_ok c o' = ctl_ok c o) /\
  stored o' = stored o.
Proof.
  unfold rest_ok, ctl_ok. intros [-> | [-> | ->]]; [done|..];
    (destruct o as [[]|]; repeat split; intros; repeat case_match; done).
Qed.

Lemma go_told t u q q' :
  go t q = Some q' -> u <> t -> told (qpcs q !! u) (qpcs q' !! u).
Proof.
  intros Hg Hne. unfold go in Hg. destruct (qpcs q !! t) as [pc|] eqn:E; [|done].
  unfold q_enqueue, q_dequeue in Hg.
  destruct pc; repeat (case_match || simplify_option_eq || simplify_eq).
  all: cbn; rewrite lookup_insert_ne by done; rewrite ?lookup_fmap; unfold told; auto.
Qed.

(** A step inside [take]. *)
Lemma go_taking cap t q xs pc q' :
  qinv cap q xs -> qpcs q !! t = Some pc -> taking pc = true -> go t q = Some q' ->
  put_log q' = put_log q /\ exists pc', qpcs q' !! t = Some pc' /\ taking pc' = true /\
    ((take_log q' = take_log q /\ view_of WTake (Some pc') = view_of WTake (Some pc)) \/
     exists r ys, take_log q' = take_log q ++ [r] /\ put_log q = take_log q ++ r :: ys /\
       view_of WTake (Some pc) = VHungry /\ view_of WTake (Some pc') = VHand r).
Proof.
  intros Hi Hp Ht Hg. unfold go in Hg. rewrite Hp in Hg.
  destruct pc; try done.
  - destruct (lock_ q); [done|]. injection Hg as <-. split; [done|]. cbn.
    rewrite lookup_insert_eq. eexists. split_and!; [done..|by left].
  - destruct (q_empty q) eqn:Ee.
    + injection Hg as <-. split; [done|]. cbn. rewrite lookup_insert_eq. eexists. split_and!; [done..|by left].
    + destruct (q_dequeue_inv cap q xs Hi Ee) as (r & ys & q1 & -> & E & Hi' & _).
      rewrite E in Hg. cbn in Hg. injection Hg as <-.
      pose proof (qinv_log _ _ _ Hi) as L. unfold q_dequeue in E.
      destruct (dequeue (items_ q)) as [[e1 r1]|]; [|done]. cbn in E. injection E as -> <-. cbn.
      split; [done|]. rewrite lookup_insert_eq. eexists. split_and!; [done|done|].
      right. exists r, ys. done.
  - injection Hg as <-. split; [done|]. cbn. rewrite lookup_insert_eq. eexists. split_and!; [done..|by left].
Qed.

(** A step inside [offer] or [put]. *)
Lemma go_giving cap t q xs pc q' :
  qinv cap q xs -> qpcs q !! t = Some pc -> giving (Some pc) = true -> go t q = Some q' ->
  take_log q' = take_log q /\ exists l, put_log q' = put_log q ++ l /\ (length l <= 1)%nat /\
    giving (qpcs q' !! t) = true /\
    (offering (Some pc) = true -> offering (qpcs q' !! t) = true /\
       stored (qpcs q' !! t) = (stored (Some pc) + length l)%nat).
Proof.
  intros Hi Hp Ht Hg. unfold go in Hg. rewrite Hp in Hg.
  assert (forall e, q_full q = false -> exists q1, q_enqueue e q = Some q1 /\
    take_log q1 = take_log q /\ put_log q1 = put_log q ++ [e]) as Hen.
  { intros e Ef. destruct (q_enqueue_inv cap e q xs Hi Ef) as (q1 & E & _).
    exists q1. split; [done|]. unfold q_enqueue in E. destruct (enqueue e (items_ q)); [|done].
    cbn in E. by injection E as <-. }
  destruct pc; try done.
  3,6: specialize (Hen e); destruct (q_full q); [|destruct (Hen eq_refl) as (q1 & E & Et & Epu); rewrite E in Hg;
    cbn in Hg; injection Hg as <-; cbn; rewrite lookup_insert_eq; split; [done|];
    exists [e]; cbn; repeat split; done].
  all: try (destruct (lock_ q)); try (destruct (q_full q)); try done; injection Hg as <-; cbn;
    rewrite lookup_insert_eq; (split; [done|]); exists []; rewrite app_nil_r; repeat split; cbn; lia || done.
Qed.

(** A change of one thread [t], of its worker if it has one, and of the controller. *)
Lemma pinv_change cap p xs p' xs' t :
  pinv cap p xs -> qinv cap (tasks p') xs' -> threadNum p' = threadNum p ->
  (forall u, u <> t -> told (qpcs (tasks p) !! u) (qpcs (tasks p') !! u)) ->
  length (workers p') = length (workers p) ->
  (forall i, S i <> t -> workers p' !! i = workers p !! i) ->
  (forall i w, t = S i -> workers p' !! i = Some w ->
     fits (wat w) (qpcs (tasks p') !! S i) = true /\
     (threadState (wthread w) = THREAD_DEAD -> wat w = WEnd)) ->
  (forall i, t = S i -> workers p !! i = None ->
     rest_ok (threadNum p) i (qpcs (tasks p') !! S i) = true) ->
  (t <> 0%nat -> ctl p' = ctl p) -> (t = 0%nat -> ctl_ok (ctl p') (qpcs (tasks p') !! 0%nat) = true) ->
  phase_ok (ctl p') (workers p') -> bStarted p' = bStarted p ->
  (starting (ctl p') = true -> starting (ctl p) = true) ->
  pinv cap p' xs'.
Proof.
  intros [_ Hlen Hfit Hrest Hdead Hctl Hph Hfr] Hq Hn Hu Hl Hws Hown Hrs Hc Hc0 Hph' Hb Hst.
  constructor; try done.
  - congruence.
  - intros i w Hw. destruct (decide (S i = t)) as [<-|Hne]; [by apply (Hown i w)|].
    rewrite Hws in Hw by done. destruct (told_same _ _ (Hu (S i) Hne)) as [Hs _].
    destruct (Hs (wat w)) as [_ ->]. by apply Hfit.
  - intros i Hw. apply lookup_ge_None in Hw. rewrite Hl in Hw. apply lookup_ge_None in Hw.
    rewrite Hn. destruct (decide (S i = t)) as [<-|Hne]; [by apply Hrs|].
    destruct (told_same _ _ (Hu (S i) Hne)) as (_ & -> & _). by apply Hrest.
  - intros i w Hw. destruct (decide (S i = t)) as [<-|Hne]; [by apply (Hown i w)|].
    rewrite Hws in Hw by done. by apply (Hdead i).
  - destruct (decide (t = 0)%nat) as [->|Hne]; [by apply Hc0|].
    destruct (told_same _ _ (Hu 0%nat ltac:(done))) as (_ & _ & -> & _). by rewrite Hc.
  - rewrite Hb. intros [E E']%Hfr. split; [apply nil_length_inv; by rewrite Hl, E|].
    destruct (starting (ctl p')); [|done]. rewrite Hst in E' by done. done.
Qed.

Lemma phase_insert c ws i w w' :
  phase_ok c ws -> ws !! i = Some w -> (wat w = WEnd -> wat w' = WEnd) ->
  phase_ok c (<[i := w']> ws).
Proof.
  destruct c; cbn; try done; [by rewrite length_insert|].
  intros Hk Hw Hend k w0 Hlt Hk0. destruct (decide (k = i)) as [->|].
  - rewrite list_lookup_insert_eq in Hk0 by (by eapply lookup_lt_Some). injection Hk0 as <-. eauto.
  - rewrite list_lookup_insert_ne in Hk0 by done. eauto.
Qed.

Lemma views_lookup p i :
  views_of p !! i = (fun w => view_of (wat w) (qpcs (tasks p) !! S i)) <$> workers p !! i.
Proof. apply list_lookup_imap. Qed.

(** The views after such a change. *)
Lemma views_change p p' t v :
  (forall u, u <> t -> told (qpcs (tasks p) !! u) (qpcs (tasks p') !! u)) ->
  length (workers p') = length (workers p) ->
  (forall i, S i <> t -> workers p' !! i = workers p !! i) ->
  (forall i w, t = S i -> workers p' !! i = Some w -> view_of (wat w) (qpcs (tasks p') !! S i) = v) ->
  views_of p' = match t with 0%nat => views_of p | S i => <[i := v]> (views_of p) end.
Proof.
  intros Hu Hl Hws Hown. apply list_eq. intros j.
  assert (S j <> t -> views_of p' !! j = views_of p !! j) as Hne.
  { intros Hne. rewrite !views_lookup, (Hws j Hne).
    destruct (told_same _ _ (Hu (S j) Hne)) as [Hs _].
    destruct (workers p !! j) as [w|]; cbn; [|done]. f_equal. by destruct (Hs (wat w)). }
  destruct t as [|i]; [by apply Hne|]. destruct (decide (j = i)) as [->|].
  - rewrite views_lookup. destruct (workers p' !! i) as [w|] eqn:Ew; cbn.
    + rewrite list_lookup_insert_eq; [by rewrite (Hown i w)|].
      unfold views_of. rewrite length_imap. rewrite <- Hl. by eapply lookup_lt_Some.
    + symmetry. apply lookup_ge_None. rewrite length_insert. unfold views_of.
      rewrite length_imap, <- Hl. by apply lookup_ge_None.
  - rewrite list_lookup_insert_ne by done. apply Hne. congruence.
Qed.

Lemma asked_told p q' :
  told (qpcs (tasks p) !! 0%nat) (qpcs q' !! 0%nat) -> asked_of (set_tasks q' p) = asked_of p.
Proof.
  intros Ht. destruct (told_same _ _ Ht) as (_ & _ & _ & Hs). unfold asked_of; cbn.
  destruct (ctl p); by rewrite ?Hs.
Qed.

(** The three kinds of threads, after a step of theirs: worker [i], another caller, the
    controller. *)
Lemma worker_change cap p xs i w w' q' xs' rs :
  pinv cap p xs -> qinv cap q' xs' -> workers p !! i = Some w ->
  (forall u, u <> S i -> told (qpcs (tasks p) !! u) (qpcs q' !! u)) ->
  fits (wat w') (qpcs q' !! S i) = true ->
  (threadState (wthread w') = THREAD_DEAD -> wat w' = WEnd) -> (wat w = WEnd -> wat w' = WEnd) ->
  let p' := mk_pool (threadNum p) (running p) (bStarted p) q' (<[i := w']> (workers p)) (ctl p)
              (accepted p) rs in
  pinv cap p' xs' /\
  views_of p !! i = Some (view_of (wat w) (qpcs (tasks p) !! S i)) /\
  abs p' = mk_apool (<[i := view_of (wat w') (qpcs q' !! S i)]> (views_of p)) (put_log q')
             (take_log q') rs (arunning (abs p)) (asked (abs p)).
Proof.
  intros Hi Hq Hw Hu Hf Hd He p'.
  assert (i < length (workers p))%nat as Hlt by (by eapply lookup_lt_Some).
  assert (forall k w0, S i = S k -> workers p' !! k = Some w0 -> w0 = w') as Hown.
  { intros k w0 [= <-] E. cbn in E. rewrite list_lookup_insert_eq in E by done. congruence. }
  assert (forall k, S k <> S i -> workers p' !! k = workers p !! k) as Hws
    by (intros; apply list_lookup_insert_ne; congruence).
  assert (length (workers p') = length (workers p)) as Hl by apply length_insert.
  split_and!.
  - apply (pinv_change cap p xs p' xs' (S i)); try done.
    + intros k w0 E E0. by rewrite (Hown k w0 E E0), <- (eq_add_S _ _ E).
    + intros k [= <-] E. cbn in E. apply lookup_ge_None in E. lia.
    + eapply phase_insert; [by apply Hi|done|done].
  - by rewrite views_lookup, Hw.
  - unfold abs; cbn. f_equal.
    + apply (views_change p p' (S i)); try done. intros k w0 E E0.
      by rewrite (Hown k w0 E E0), <- (eq_add_S _ _ E).
    + apply (asked_told p q'), Hu. done.
Qed.

Lemma client_change cap p xs i q' xs' :
  pinv cap p xs -> qinv cap q' xs' -> workers p !! i = None -> (threadNum p <= i)%nat ->
  (forall u, u <> S i -> told (qpcs (tasks p) !! u) (qpcs q' !! u)) ->
  giving (qpcs q' !! S i) = true ->
  pinv cap (set_tasks q' p) xs' /\
  abs (set_tasks q' p) = mk_apool (views_of p) (put_log q') (take_log q') (ran p)
                           (arunning (abs p)) (asked (abs p)).
Proof.
  intros Hi Hq Hw Hn Hu Hg. split.
  - apply (pinv_change cap p xs _ xs' (S i)); try done.
    + intros k w [= <-] E. cbn in E. congruence.
    + intros k [= <-] _. unfold rest_ok. by rewrite bool_decide_eq_false_2 by lia.
    + apply Hi.
  - unfold abs; cbn. f_equal; [|apply asked_told, Hu; done].
    etrans; [apply (views_change p (set_tasks q' p) (S i) VOther)|]; try done.
    + intros k w [= <-] E. cbn in E. congruence.
    + apply list_insert_ge. unfold views_of. rewrite length_imap. by apply lookup_ge_None.
Qed.

Lemma ctl_change cap p xs q' xs' c k :
  pinv cap p xs -> qinv cap q' xs' ->
  (forall u, u <> 0%nat -> told (qpcs (tasks p) !! u) (qpcs q' !! u)) ->
  ctl_ok c (qpcs q' !! 0%nat) = true -> phase_ok c (workers p) ->
  (starting c = true -> starting (ctl p) = true) ->
  pinv cap (set_ctl c k (set_tasks q' p)) xs' /\
  abs (set_ctl c k (set_tasks q' p)) =
    mk_apool (views_of p) (put_log q') (take_log q') (ran p) (arunning (abs p))
      (k + match c with COffering _ => stored (qpcs q' !! 0%nat) | _ => 0 end).
Proof.
  intros Hi Hq Hu Hc Hp Hst. split.
  - by apply (pinv_change cap p xs _ xs' 0).
  - unfold abs; cbn. f_equal. by apply (views_change p (set_tasks q' p) 0 VOther).
Qed.

Lemma abs_eta p :
  abs p = mk_apool (views_of p) (put_log (tasks p)) (take_log (tasks p)) (ran p) (arunning (abs p))
            (asked (abs p)).
Proof. done. Qed.

Lemma told_goto t pc q u : u <> t -> told (qpcs q !! u) (qpcs (goto t pc q) !! u).
Proof. intros. left. cbn. by rewrite lookup_insert_ne. Qed.

Lemma told_id (q : queue runnable) (u : nat) : told (qpcs q !! u) (qpcs q !! u).
Proof. by left. Qed.

Lemma astep_eq n a b b' : b = b' -> astep n a b' -> astep n a b.
Proof. by intros ->. Qed.

(** Steps that the specification does not see. *)
Lemma worker_quiet cap p xs i w w' :
  pinv cap p xs -> workers p !! i = Some w -> fits (wat w') (qpcs (tasks p) !! S i) = true ->
  (threadState (wthread w') = THREAD_DEAD -> wat w' = WEnd) -> (wat w = WEnd -> wat w' = WEnd) ->
  view_of (wat w') (qpcs (tasks p) !! S i) = view_of (wat w) (qpcs (tasks p) !! S i) ->
  (exists xs', pinv cap (set_workers (<[i := w']> (workers p)) p) xs') /\
  astep (threadNum p) (abs p) (abs (set_workers (<[i := w']> (workers p)) p)).
Proof.
  intros Hi Ew Hf Hd He Hv.
  destruct (worker_change cap p xs i w w' (tasks p) xs (ran p)) as (Hi' & Hl & Ea);
    try done; [by apply Hi|intros; apply told_id|].
  split; [by exists xs|]. apply (astep_eq _ _ _ _ Ea). rewrite Hv, list_insert_id by done.
  apply a_same.
Qed.

(** Steps inside a call of the queue. *)
Lemma worker_taking cap p xs i w q' :
  pinv cap p xs -> workers p !! i = Some w -> wat w = WTake -> go (S i) (tasks p) = Some q' ->
  (exists xs', pinv cap (set_tasks q' p) xs') /\ astep (threadNum p) (abs p) (abs (set_tasks q' p)).
Proof.
  intros Hi Ew Eat Hg. pose proof (pinv_queue _ _ _ Hi) as Hq.
  pose proof (pinv_fits _ _ _ Hi i w Ew) as Hf. rewrite Eat in Hf. cbn in Hf.
  destruct (qpcs (tasks p) !! S i) as [pc|] eqn:Epc; [|done].
  destruct (qstep_inv cap (tasks p) xs (Go (S i)) q' Hq Hg) as (xs' & Hq').
  destruct (go_taking cap (S i) (tasks p) xs pc q' Hq Epc Hf Hg) as (Hput & pc' & Epc' & Ht' & Hv).
  destruct (worker_change cap p xs i w w q' xs' (ran p)) as (Hi' & Hl & Ea); try done.
  { intros u Hu. by eapply go_told. }
  { by rewrite Eat, Epc'. }
  { by apply Hi with i. }
  rewrite list_insert_id in Hi', Ea by done. rewrite Eat, Epc in Hl. rewrite Eat, Epc' in Ea.
  split; [by exists xs'|].
  apply (astep_eq _ _ _ _ Ea). rewrite abs_eta, Hput. destruct Hv as [[-> Hv]|(r & ys & -> & E & Hv & Hv')].
  - rewrite Hv, list_insert_id by done. apply a_same.
  - rewrite Hv'. rewrite Hv in Hl. by eapply a_take.
Qed.

Lemma worker_sim cap p xs i p' :
  pinv cap p xs -> worker_step i p = Some p' ->
  (exists xs', pinv cap p' xs') /\ astep (threadNum p) (abs p) (abs p').
Proof.
  intros Hi Hs. unfold worker_step in Hs. destruct (workers p !! i) as [w|] eqn:Ew; [|done].
  pose proof (pinv_queue _ _ _ Hi) as Hq. pose proof (pinv_fits _ _ _ Hi i w Ew) as Hf.
  pose proof (pinv_dead _ _ _ Hi i w Ew) as Hdead.
  pose proof (fun w' => worker_quiet cap p xs i w w' Hi Ew) as Hquiet.
  cbn in Hs. destruct (wat w) eqn:Eat; cbn in Hf.
  - injection Hs as <-. by apply Hquiet.
  - destruct (running p) as [[]|] eqn:Er; [..|done]; cbn in Hs.
    + rewrite Hf in Hs. cbn in Hs. injection Hs as <-.
      destruct (worker_change cap p xs i w (mk_worker (wthread w) WTake) (goto (S i) Take1 (tasks p)) xs
        (ran p)) as (Hi' & Hl & Ea); try done.
      { by apply goto_same. }
      { intros. by apply told_goto. }
      { cbn. by rewrite lookup_insert_eq. }
      { by intros ?%Hdead. }
      { by rewrite Eat. }
      split; [by exists xs|]. apply (astep_eq _ _ _ _ Ea). rewrite abs_eta. cbn [wat tasks goto qpcs].
      replace (arunning (abs p)) with true by (symmetry; by apply bool_decide_eq_true).
      rewrite lookup_insert_eq. rewrite Eat in Hl. by apply a_ask.
    + injection Hs as <-. apply Hquiet; [done|by intros ?%Hdead|done|done].
  - destruct (qpcs (tasks p) !! S i) as [pc|] eqn:Epc; [|done].
    destruct pc as [| | | | | | | | | | | | | | | |[] [r|]]; try done.
    1-4: cbn in Hs; destruct (go (S i) (tasks p)) as [q'|] eqn:Eg; [|done]; injection Hs as <-;
      by eapply worker_taking.
    injection Hs as <-.
    destruct (worker_change cap p xs i w (mk_worker (wthread w) (WRun r)) (tasks p) xs
      (ran p ++ [r])) as (Hi' & Hl & Ea); try done.
    { intros. apply told_id. }
    { cbn. by rewrite Epc. }
    { by intros ?%Hdead. }
    { by rewrite Eat. }
    split; [by exists xs|]. apply (astep_eq _ _ _ _ Ea). rewrite abs_eta, Eat, Epc in *.
    by apply a_run.
  - destruct (q_idle (qpcs (tasks p) !! S i)) eqn:Ei; [|done]. injection Hs as <-.
    apply Hquiet; [done|by intros ?%Hdead|done|done].
  - injection Hs as <-. apply Hquiet; done.
  - done.
Qed.

Lemma a_puts n a l k :
  (length l <= 1)%nat -> (k <= asked a + length l)%nat -> (l = [] -> k = asked a) ->
  astep n a (mk_apool (views a) (puts a ++ l) (takes a) (runs a) (arunning a) k).
Proof.
  intros Hl Hk H0. destruct a as [vs ps ts rs b k0]; cbn in *.
  destruct l as [|r [|]]; cbn in *; [|apply a_put; lia|lia].
  rewrite app_nil_r, H0 by done. apply a_same.
Qed.

(** A step of another caller of [offer] and [put]: a runnable on worker [i], or a thread
    outside the pool. *)
Lemma giver_step cap p xs t q' :
  pinv cap p xs -> client p t = true -> (exists xs', qinv cap q' xs') ->
  (forall u, u <> t -> told (qpcs (tasks p) !! u) (qpcs q' !! u)) ->
  giving (qpcs q' !! t) = true ->
  take_log q' = take_log (tasks p) ->
  (exists l, put_log q' = put_log (tasks p) ++ l /\ (length l <= 1)%nat) ->
  (exists xs', pinv cap (set_tasks q' p) xs') /\ astep (threadNum p) (abs p) (abs (set_tasks q' p)).
Proof.
  intros Hi Hc (xs' & Hq') Hu Hg Ht (l & Hput & Hl).
  assert (exists xs', pinv cap (set_tasks q' p) xs' /\ abs (set_tasks q' p) =
    mk_apool (views_of p) (put_log q') (take_log q') (ran p) (arunning (abs p)) (asked (abs p)))
    as (xs1 & Hi' & Ea).
  { exists xs'. destruct t as [|i]; [done|]. cbn in Hc. destruct (workers p !! i) as [w|] eqn:Ew.
    - destruct (wat w) as [| | |r| |] eqn:Eat; try done.
      destruct (worker_change cap p xs i w w q' xs' (ran p)) as (Hi' & Hl' & Ea); try done.
      { by rewrite Eat. }
      { by apply (pinv_dead _ _ _ Hi i). }
      rewrite list_insert_id in Hi', Ea by done. split; [done|]. etrans; [exact Ea|].
      rewrite Eat in *. cbn. by rewrite list_insert_id.
    - apply bool_decide_eq_true in Hc. eapply client_change; try done. lia. }
  split; [by exists xs1|]. rewrite Ea, Ht, Hput.
  apply (a_puts _ (abs p) l); [done|lia|done].
Qed.

Lemma submit_sim cap p xs t pc p' :
  pinv cap p xs -> q_entry pc = true -> giving (Some pc) = true -> submit t pc p = Some p' ->
  (exists xs', pinv cap p' xs') /\ astep (threadNum p) (abs p) (abs p').
Proof.
  intros Hi He Hg Hs. pose proof (pinv_queue _ _ _ Hi) as Hq. unfold submit in Hs.
  destruct (client p t) eqn:Ec; [|done]. destruct (q_idle _) eqn:Ei; [|done]. cbn in Hs.
  destruct (running p) as [[]|]; [..|done]; cbn in Hs.
  1: rewrite He, Ei in Hs; cbn in Hs.
  all: injection Hs as <-; eapply giver_step; try done; [|intros; by apply told_goto| |].
  1,4: exists xs; apply goto_same; [done|..]; by destruct pc.
  1,3: cbn; by rewrite lookup_insert_eq.
  all: exists []; rewrite app_nil_r; split; [done|cbn; lia].
Qed.

Lemma client_sim cap p xs t q' :
  pinv cap p xs -> client p t = true -> go t (tasks p) = Some q' ->
  (exists xs', pinv cap (set_tasks q' p) xs') /\ astep (threadNum p) (abs p) (abs (set_tasks q' p)).
Proof.
  intros Hi Hc Hg. pose proof (pinv_queue _ _ _ Hi) as Hq.
  destruct (qstep_inv cap (tasks p) xs (Go t) q' Hq Hg) as (xs' & Hq').
  assert (giving (qpcs (tasks p) !! t) = true) as Hgv.
  { destruct t as [|i]; [done|]. cbn in Hc. destruct (workers p !! i) as [w|] eqn:Ew.
    - pose proof (pinv_fits _ _ _ Hi i w Ew) as Hf. by destruct (wat w).
    - pose proof (pinv_rest _ _ _ Hi i Ew) as Hr. apply bool_decide_eq_true in Hc.
      unfold rest_ok in Hr. by rewrite bool_decide_eq_false_2 in Hr by lia. }
  destruct (qpcs (tasks p) !! t) as [pc|] eqn:Epc; [|by unfold go in Hg; rewrite Epc in Hg].
  destruct (go_giving cap t (tasks p) xs pc q' Hq Epc Hgv Hg) as (Ht & l & Hp & Hl & Hg' & _).
  eapply giver_step; try done; [by exists xs'|intros; by eapply go_told|by exists l].
Qed.

Lemma wake_sim cap p xs t q' :
  pinv cap p xs -> qstep (Wake t) (tasks p) = Some q' ->
  (exists xs', pinv cap (set_tasks q' p) xs') /\ astep (threadNum p) (abs p) (abs (set_tasks q' p)).
Proof.
  intros Hi Hs. pose proof (pinv_queue _ _ _ Hi) as Hq.
  destruct (qstep_inv cap (tasks p) xs (Wake t) q' Hq Hs) as (xs' & Hq').
  assert ((forall u, told (qpcs (tasks p) !! u) (qpcs q' !! u)) /\
    put_log q' = put_log (tasks p) /\ take_log q' = take_log (tasks p)) as (Hu & Hp & Ht).
  { cbn in Hs. destruct (qpcs (tasks p) !! t) as [[]|] eqn:Et; try done; injection Hs as <-;
      (split; [|done]); intros u; (destruct (decide (u = t)) as [->|]; [|by apply told_goto]);
      cbn; rewrite Et, lookup_insert_eq; unfold told; auto. }
  assert (ctl_ok (ctl p) (qpcs q' !! 0%nat) = true) as Hc.
  { destruct (told_same _ _ (Hu 0%nat)) as (_ & _ & -> & _). apply Hi. }
  destruct (ctl_change cap p xs q' xs' (ctl p) (accepted p) Hi Hq') as (Hi' & Ea);
    [intros; apply Hu|done|apply Hi|done|].
  split; [by exists xs'|]. apply (astep_eq _ _ _ _ Ea). rewrite Hp, Ht.
  destruct (told_same _ _ (Hu 0%nat)) as (_ & _ & _ & ->). rewrite abs_eta. apply a_same.
Qed.

(** The controller: a new worker, and the steps of an offer of [stop]. *)
Lemma spawn_sim cap p xs :
  pinv cap p xs -> ctl p = CStart (length (workers p)) -> (length (workers p) < threadNum p)%nat ->
  let p' := set_ctl (CStart (S (length (workers p)))) (accepted p) (new_worker p) in
  pinv cap p' xs /\ astep (threadNum p) (abs p) (abs p').
Proof.
  intros Hi Hc Hlt p'. pose proof Hi as [Hq Hlen Hfit Hrest Hdead Hctl Hph Hfr].
  assert (forall i w, workers p' !! i = Some w -> workers p !! i = Some w \/
    i = length (workers p) /\ w = mk_worker Thread_new WEnter) as Hws.
  { intros i w Hw. apply lookup_app_Some in Hw as [Hw|[Hge Hw]]; [by left|right].
    apply list_lookup_singleton_Some in Hw as [? <-]. split; [lia|done]. }
  split.
  - constructor; try done.
    + cbn. rewrite length_app. cbn. lia.
    + intros i w [Hw|[-> ->]]%Hws; [by apply Hfit|]. cbn.
      assert (workers p !! length (workers p) = None) as Hn by (by apply lookup_ge_None).
      pose proof (Hrest _ Hn) as Hr. unfold rest_ok in Hr. by rewrite bool_decide_eq_true_2 in Hr.
    + intros i Hn. apply Hrest. apply lookup_ge_None. apply lookup_ge_None in Hn. cbn in Hn.
      rewrite length_app in Hn. lia.
    + intros i w [Hw|[-> ->]]%Hws; [by eapply Hdead|done].
    + cbn. by rewrite Hc in Hctl.
    + cbn. rewrite length_app. cbn. lia.
    + intros [_ E]%Hfr. by rewrite Hc in E.
  - assert (abs p' = mk_apool (views_of p ++ [VOther]) (put_log (tasks p)) (take_log (tasks p))
      (ran p) (arunning (abs p)) (asked (abs p))) as Ea.
    { unfold abs; cbn. f_equal; [|by unfold asked_of; cbn; rewrite Hc].
      unfold views_of; cbn. by rewrite imap_app. }
    rewrite Ea, abs_eta. apply a_spawn. unfold views_of. by rewrite length_imap.
Qed.

Lemma offer_sim cap p xs i q' :
  pinv cap p xs -> ctl p = COffering i -> go 0 (tasks p) = Some q' ->
  (exists xs', pinv cap (set_tasks q' p) xs') /\ astep (threadNum p) (abs p) (abs (set_tasks q' p)).
Proof.
  intros Hi Hc Hg. pose proof (pinv_queue _ _ _ Hi) as Hq.
  destruct (qstep_inv cap (tasks p) xs (Go 0) q' Hq Hg) as (xs' & Hq').
  pose proof (pinv_ctl _ _ _ Hi) as Hok. rewrite Hc in Hok. cbn in Hok.
  destruct (qpcs (tasks p) !! 0%nat) as [pc|] eqn:Epc; [|done].
  assert (giving (Some pc) = true) as Hgv by (by destruct pc).
  destruct (go_giving cap 0 (tasks p) xs pc q' Hq Epc Hgv Hg) as (Ht & l & Hp & Hl & _ & Hof).
  destruct (Hof Hok) as [Hof' Hst].
  destruct (ctl_change cap p xs q' xs' (COffering i) (accepted p) Hi Hq') as (Hi' & Ea); try done.
  { intros. by eapply go_told. }
  assert (set_ctl (COffering i) (accepted p) (set_tasks q' p) = set_tasks q' p) as Eq
    by (unfold set_ctl, set_tasks; cbn; by rewrite Hc).
  rewrite Eq in Hi', Ea. split; [by exists xs'|]. rewrite Ea, Ht, Hp, Hst.
  assert (asked (abs p) = accepted p + stored (Some pc))%nat as Eask
    by (unfold abs, asked_of; cbn; by rewrite Hc, Epc).
  apply (a_puts _ (abs p) l); rewrite ?Eask; [done|lia|]. intros ->. cbn. lia.
Qed.

(** [workers.clear()] after the last join. *)
Lemma clear_sim cap p xs i :
  pinv cap p xs -> ctl p = CJoin i -> workers p !! i = None ->
  let p' := set_ctl CIdle (accepted p) (set_workers [] p) in
  pinv cap p' xs /\ astep (threadNum p) (abs p) (abs p').
Proof.
  intros Hi Hc Hn p'. pose proof Hi as [Hq Hlen Hfit Hrest Hdead Hctl Hph Hfr].
  rewrite Hc in Hph, Hctl. cbn in Hph. apply lookup_ge_None in Hn.
  assert (forall k w, workers p !! k = Some w -> wat w = WEnd) as Hend.
  { intros k w Hw. apply (Hph k); [|done]. apply lookup_lt_Some in Hw. lia. }
  split.
  - constructor; try done; cbn; [lia|].
    intros k _. destruct (workers p !! k) as [w|] eqn:Ew; [|by apply Hrest].
    pose proof (Hfit k w Ew) as Hf. rewrite (Hend k w Ew) in Hf. unfold rest_ok.
    rewrite bool_decide_eq_true_2; [done|]. apply lookup_lt_Some in Ew. lia.
  - rewrite (abs_eta p). replace (abs p') with (mk_apool [] (put_log (tasks p)) (take_log (tasks p)) (ran p)
      (arunning (abs p)) (asked (abs p))).
    + apply a_clear, Forall_lookup. intros k v. rewrite views_lookup.
      destruct (workers p !! k) as [w|] eqn:Ew; cbn; [|done]. by rewrite (Hend k w Ew); intros [= <-].
    + unfold abs, asked_of; cbn. by rewrite Hc.
Qed.

Lemma ctl_sim cap p xs p' :
  pinv cap p xs -> ctl_step p = Some p' ->
  (exists xs', pinv cap p' xs') /\ astep (threadNum p) (abs p) (abs p').
Proof.
  intros Hi Hs. unfold ctl_step in Hs. pose proof (pinv_queue _ _ _ Hi) as Hq.
  pose proof (pinv_ctl _ _ _ Hi) as Hok. pose proof (pinv_phase _ _ _ Hi) as Hph.
  (* a new place of the controller *)
  assert (forall c k, ctl_ok c (qpcs (tasks p) !! 0%nat) = true -> phase_ok c (workers p) ->
    starting c = false ->
    (k + match c with COffering _ => stored (qpcs (tasks p) !! 0%nat) | _ => 0 end)%nat = asked_of p ->
    (exists xs', pinv cap (set_ctl c k p) xs') /\ astep (threadNum p) (abs p) (abs (set_ctl c k p)))
    as Hmove.
  { intros c k Hc Hp Hst Hk.
    destruct (ctl_change cap p xs (tasks p) xs c k Hi Hq) as (Hi' & Ea); try done;
      [intros; apply told_id|by rewrite Hst|].
    split; [by exists xs|]. apply (astep_eq _ _ _ _ Ea). rewrite Hk. apply a_same. }
  unfold asked_of in Hmove. destruct (ctl p) as [|i|i|i|i] eqn:Ec; cbn in Hok, Hph; [done|..].
  - case_bool_decide as Hlt; injection Hs as <-; [|by apply Hmove]. subst i.
    destruct (spawn_sim cap p xs Hi Ec Hlt). eauto.
  - case_bool_decide as Hlt.
    + cbn in Hs. rewrite Hok in Hs. cbn in Hs. injection Hs as <-.
      destruct (ctl_change cap p xs (goto 0 (Offer1 EmptyRunner) (tasks p)) xs (COffering i)
        (accepted p) Hi) as (Hi' & Ea); try done.
      { by apply goto_same. }
      { intros. by apply told_goto. }
      { cbn. by rewrite lookup_insert_eq. }
      split; [by exists xs|]. apply (astep_eq _ _ _ _ Ea). rewrite abs_eta.
      unfold abs, asked_of. cbn. rewrite Ec, lookup_insert_eq. apply a_same.
    + injection Hs as <-. apply Hmove; try done. cbn. lia.
  - destruct (qpcs (tasks p) !! 0%nat) as [pc|] eqn:Epc; [|done]. destruct pc; try done.
    1-4: cbn in Hs; destruct (go 0 (tasks p)) as [q'|] eqn:Eg; [|done]; injection Hs as <-;
      by eapply offer_sim.
    injection Hs as <-. apply Hmove; try done. destruct ok; cbn; lia.
  - destruct (workers p !! i) as [w|] eqn:Ew.
    + destruct (join_returns w) eqn:Ej; [|done]. injection Hs as <-. apply Hmove; try done.
      intros k w0 Hlt Hw0. destruct (decide (k = i)) as [->|]; [|apply (Hph k); [lia|done]].
      assert (w0 = w) as -> by congruence. unfold join_returns in Ej.
      apply orb_true_iff in Ej as [Ej%bool_decide_eq_true|Ej]; [by apply (pinv_dead _ _ _ Hi i)|].
      by destruct (wat w).
    + injection Hs as <-. destruct (clear_sim cap p xs i Hi Ec Ew). eauto.
Qed.

Lemma pstep_sim cap p xs a p' :
  pinv cap p xs -> pstep a p = Some p' ->
  (exists xs', pinv cap p' xs') /\ astep (threadNum p) (abs p) (abs p').
Proof.
  intros Hi Hs. destruct a as [| | |i|t r|t r|t|t]; cbn [pstep] in Hs.
  - destruct (ctl p) eqn:Ec; try done. destruct (bStarted p) eqn:Eb; injection Hs as <-.
    { split; [by exists xs|]. apply a_same. }
    pose proof Hi as [Hq Hlen Hfit Hrest Hdead Hctl Hph Hfr]. destruct (Hfr Eb) as [Ews _].
    split.
    + exists xs. constructor; try done; cbn; [by rewrite Ec in Hctl|by rewrite Ews].
    + eapply astep_eq; [|rewrite (abs_eta p); apply a_start].
      unfold abs, asked_of; cbn. by rewrite Ec.
  - destruct (ctl p) eqn:Ec; try done. injection Hs as <-.
    pose proof Hi as [Hq Hlen Hfit Hrest Hdead Hctl Hph Hfr]. rewrite Ec in Hctl.
    split; [|apply a_stop]. exists xs. constructor; try done. intros E. split; [by apply Hfr|done].
  - by eapply ctl_sim.
  - by eapply worker_sim.
  - by eapply (submit_sim cap p xs t (Offer1 r)).
  - by eapply (submit_sim cap p xs t (Put1 r)).
  - destruct (client p t) eqn:Ec; [|done]. cbn in Hs.
    destruct (go t (tasks p)) as [q'|] eqn:Eg; [|done]. injection Hs as <-. by eapply client_sim.
  - destruct (qstep (Wake t) (tasks p)) as [q'|] eqn:Eq; [|done]. injection Hs as <-.
    by eapply wake_sim.
Qed.

Lemma pstep_threadNum a p p' : pstep a p = Some p' -> threadNum p' = threadNum p.
Proof.
  destruct a; cbn [pstep]; unfold ctl_step, worker_step, submit; intros Hs;
    repeat (case_match || simplify_option_eq || simplify_eq); done.
Qed.

Lemma ThreadPool_new_inv junk n cap :
  0 < cap < 4294967296 ->
  pinv cap (ThreadPool_new junk n cap) [] /\ ainv n (abs (ThreadPool_new junk n cap)).
Proof.
  intros Hc. split.
  - constructor; try done; [by apply queue_new_inv|cbn; lia|].
    intros i _. unfold rest_ok. by case_bool_decide.
  - constructor; cbn; try done; [lia|by exists []|]. intros _. change (hungers _) with 0%nat. lia.
Qed.

Lemma psteps_inv cap n acts p xs p' :
  pinv cap p xs -> ainv n (abs p) -> threadNum p = n -> psteps acts p = Some p' ->
  exists xs', pinv cap p' xs' /\ ainv n (abs p') /\ threadNum p' = n.
Proof.
  revert p xs. induction acts as [|a acts IH]; intros p xs Hi Ha Hn Hs; cbn in Hs.
  { injection Hs as <-. by exists xs. }
  destruct (pstep a p) as [p1|] eqn:E; [|done]. cbn in Hs.
  destruct (pstep_sim cap p xs a p1 Hi E) as [(xs1 & Hi1) Hst]. rewrite Hn in Hst.
  eapply (IH p1 xs1); [done|by eapply astep_inv| |done].
  by rewrite (pstep_threadNum a p p1).
Qed.

Lemma hungry_counts vs i : vs !! i = Some VHungry -> (1 <= hungers vs)%nat.
Proof.
  intros Hv. destruct (hands_insert vs i _ VHungry Hv) as (l & k & -> & _).
  rewrite hungers_app, hungers_cons. cbn. lia.
Qed.

(** ** Properties *)
(** C15. Every runnable that [offer] or [put] accepted is run exactly once, is in a worker's
    hands, or is stored in the queue, whatever the interleaving of workers, callers,
    [start] and [stop]; nothing else is run; and a pool with one worker runs them in the
    order in which they were accepted. *)
Theorem pool_runs_once (junk : runnable) (n : nat) (cap : Z) (acts : list pact) (p : pool) :
  0 < cap < 4294967296 -> psteps acts (ThreadPool_new junk n cap) = Some p ->
  exists xs,
    put_log (tasks p) ≡ₚ ran p ++ hands (views_of p) ++ xs /\ Z.of_nat (length xs) <= cap /\
    ((n <= 1)%nat -> put_log (tasks p) = ran p ++ hands (views_of p) ++ xs).
Proof.
  intros Hc Hs. destruct (ThreadPool_new_inv junk n cap Hc) as [Hi Ha].
  destruct (psteps_inv cap n acts _ [] p Hi Ha eq_refl Hs) as (xs & Hi' & Ha' & _).
  pose proof (qinv_ring _ _ _ (pinv_queue _ _ _ Hi')) as Hr.
  pose proof (qinv_log _ _ _ (pinv_queue _ _ _ Hi')) as Hl.
  pose proof (qinv_cap _ _ _ (pinv_queue _ _ _ Hi')) as Hcap.
  pose proof (ainv_perm _ _ Ha') as Hp. pose proof (ainv_order _ _ Ha') as Ho. cbn in Hp, Ho.
  exists xs. rewrite Hl. split_and!.
  - by rewrite Hp, <- app_assoc.
  - destruct Hr. lia.
  - intros Hn. by rewrite Ho, <- app_assoc.
Qed.

(** C25. A [stop] whose offers were all accepted leaves no worker waiting for work: every
    worker that has not ended is on its way to see that the pool has stopped, or waits for
    the lock at most, so that the joins are not in vain. *)
Theorem pool_stop_wakes_all (junk : runnable) (n : nat) (cap : Z) (acts : list pact) (p : pool)
    (k : nat) :
  0 < cap < 4294967296 -> psteps acts (ThreadPool_new junk n cap) = Some p ->
  running p = Some false -> ctl p = CJoin k -> accepted p = n ->
  forall i w, workers p !! i = Some w ->
    qpcs (tasks p) !! S i <> Some TakeWait /\
    (wat w = WTake -> worker_step i p = None -> lock_ (tasks p) <> None).
Proof.
  intros Hc Hs Hr Hctl Hacc i w Ew. destruct (ThreadPool_new_inv junk n cap Hc) as [Hi Ha].
  destruct (psteps_inv cap n acts _ [] p Hi Ha eq_refl Hs) as (xs & Hi' & Ha' & _).
  pose proof (pinv_queue _ _ _ Hi') as Hq. pose proof (pinv_fits _ _ _ Hi' i w Ew) as Hf.
  pose proof (ainv_stop _ _ Ha') as Hst. cbn in Hst. unfold asked_of in Hst.
  rewrite Hr, Hctl, Hacc, (qinv_log _ _ _ Hq), length_app in Hst. specialize (Hst eq_refl).
  assert (qpcs (tasks p) !! S i <> Some TakeWait) as Hnw.
  { intros Ew'. rewrite Ew' in Hf. pose proof (qinv_take _ _ _ Hq _ Ew') as ->.
    assert (views_of p !! i = Some VHungry) as Hv.
    { rewrite views_lookup, Ew. cbn. rewrite Ew'. by destruct (wat w). }
    apply hungry_counts in Hv. cbn in Hst. lia. }
  split; [done|]. intros Eat Hn. rewrite Eat in Hf. cbn in Hf.
  unfold worker_step in Hn. rewrite Ew in Hn. cbn in Hn. rewrite Eat in Hn.
  destruct (qpcs (tasks p) !! S i) as [pc|] eqn:Epc; [|done].
  destruct (go_spec cap (tasks p) xs (S i) pc Hq Epc) as [(q1 & xs1 & E & _)|[_ Hb]].
  - rewrite E in Hn. by destruct pc as [| | | | | | | | | | | | | | | |? []].
  - destruct pc as [| | | | | | | | | | | | | | | |[] [r|]]; try done.
    by apply bool_decide_eq_true in Hb.
Qed.

Definition pool_demo : pool := ThreadPool_new EmptyRunner 1 4.

Definition run_acts : list pact :=
  [Start; Ctl; Ctl; Worker 0; CallPut 5 (Job 7); Client 5; Client 5; Client 5; CallOffer 6 (Job 8);
   Client 6; Client 6; Client 6; Client 6; Worker 0; Worker 0; Worker 0; Worker 0; Worker 0].

Definition run_demo : pool := default pool_demo (psteps run_acts pool_demo).

Lemma pool_runs_once_witness :
  exists xs,
    put_log (tasks run_demo) ≡ₚ ran run_demo ++ hands (views_of run_demo) ++ xs /\
    Z.of_nat (length xs) <= 4 /\
    ((1 <= 1)%nat -> put_log (tasks run_demo) = ran run_demo ++ hands (views_of run_demo) ++ xs).
Proof. apply (pool_runs_once EmptyRunner 1 4 run_acts run_demo); [lia|by vm_compute]. Defined.

Example run_demo_logs : (put_log (tasks run_demo), ran run_demo) = ([Job 7; Job 8], [Job 7]).
Proof. by vm_compute. Qed.

Definition stop_acts : list pact :=
  [Start; Ctl; Ctl; Worker 0; Worker 0; Stop; Ctl; Ctl; Ctl; Ctl; Ctl; Ctl; Ctl].

Definition stop_demo : pool := default pool_demo (psteps stop_acts pool_demo).

Lemma pool_stop_wakes_all_witness :
  ctl stop_demo = CJoin 0 /\ accepted stop_demo = 1%nat /\
  forall i w, workers stop_demo !! i = Some w ->
    qpcs (tasks stop_demo) !! S i <> Some TakeWait /\
    (wat w = WTake -> worker_step i stop_demo = None -> lock_ (tasks stop_demo) <> None).
Proof.
  split_and!; [by vm_compute|by vm_compute|].
  apply (pool_stop_wakes_all EmptyRunner 1 4 stop_acts stop_demo 0); by vm_compute.
Defined.

(** One worker, started; [stop] offers its empty runner while the worker is about to wait. *)
Definition hang_acts : list pact :=
  [Start; Ctl; Ctl; Worker 0; Worker 0; Worker 0; Stop; Ctl; Ctl; Ctl; Ctl; Ctl; Worker 0].

(** [stop] in its first join, the only worker inside [take] on an empty queue, and nobody
    who could put anything. *)
Record stuck (p : pool) : Prop := {
  stuck_ctl : ctl p = CJoin 0;
  stuck_running : running p = Some false;
  stuck_worker : exists w, workers p = [w] /\ wat w = WTake /\ threadState (wthread w) <> THREAD_DEAD;
  stuck_empty : q_empty (tasks p) = true;
  stuck_pc : exists pc, qpcs (tasks p) !! 1%nat = Some pc /\ view_of WTake (Some pc) = VHungry;
  stuck_rest : forall u, u <> 1%nat -> q_idle (qpcs (tasks p) !! u) = true
}.

(** Moving the worker within its wait, or an idle thread, leaves it stuck. *)
Lemma stuck_goto p t pc l :
  stuck p -> (if decide (t = 1)%nat then view_of WTake (Some pc) = VHungry else q_idle (Some pc) = true) ->
  stuck (set_tasks (goto t pc (set_lock l (tasks p))) p).
Proof.
  intros [Hc Hr Hw He (pc0 & Hp & Hv) Ho] Ht. constructor; try done.
  - cbn. case_decide as E; [subst t; rewrite lookup_insert_eq; eauto|].
    rewrite lookup_insert_ne by done. eauto.
  - intros u Hu. cbn. destruct (decide (u = t)) as [->|].
    + rewrite lookup_insert_eq. by rewrite decide_False in Ht.
    + rewrite lookup_insert_ne by done. by apply Ho.
Qed.

Lemma set_lock_id (q : queue runnable) : set_lock (lock_ q) q = q.
Proof. by destruct q. Qed.

Lemma stuck_step p a p' : stuck p -> pstep a p = Some p' -> stuck p'.
Proof.
  intros Hst Hs. pose proof Hst as [Hc Hr (w & Hw & Hat & Hd) He (pc & Hp & Hv) Ho].
  assert (forall t pc, (if decide (t = 1)%nat then view_of WTake (Some pc) = VHungry
    else q_idle (Some pc) = true) -> stuck (set_tasks (goto t pc (tasks p)) p)) as Hgo.
  { intros t pc1 H1. rewrite <- (set_lock_id (tasks p)) at 1. by apply stuck_goto. }
  assert (forall t, client p t = true -> t <> 1%nat) as Hcl.
  { intros t Ht ->. cbn in Ht. by rewrite Hw in Ht; cbn in Ht; rewrite Hat in Ht. }
  assert (forall t pc p', submit t pc p = Some p' -> stuck p') as Hsub.
  { intros t pc1 p1 H1. unfold submit in H1. destruct (client p t) eqn:Ec; [|done].
    destruct (q_idle _); [|done]. rewrite Hr in H1. cbn in H1. injection H1 as <-.
    apply Hgo. by rewrite decide_False by auto. }
  destruct a as [| | |i|t r|t r|t|t]; cbn [pstep] in Hs; rewrite ?Hc in Hs; try done; eauto.
  - unfold ctl_step in Hs. rewrite Hc, Hw in Hs. cbn in Hs. unfold join_returns in Hs.
    by rewrite Hat, bool_decide_eq_false_2 in Hs by done.
  - unfold worker_step in Hs. rewrite Hw in Hs. destruct i; [|done]. cbn in Hs. rewrite Hat, Hp in Hs.
    destruct pc as [| | | | | | | | | | | | | | | |ok [r|]]; try done; cbn in Hs;
      unfold go in Hs; rewrite Hp in Hs; [destruct (lock_ _); [done|]| |done].
    + injection Hs as <-. by apply stuck_goto.
    + rewrite He in Hs. injection Hs as <-. by apply stuck_goto.
  - destruct (client p t) eqn:Ec; [|done]. cbn in Hs. pose proof (Ho t (Hcl t Ec)) as Hidle.
    unfold go in Hs. destruct (qpcs (tasks p) !! t) as [[]|]; done.
  - cbn in Hs. destruct (decide (t = 1)%nat) as [->|Hne].
    + rewrite Hp in Hs. destruct pc; try done. injection Hs as <-. by apply Hgo.
    + pose proof (Ho t Hne) as Hidle. destruct (qpcs (tasks p) !! t) as [[]|]; done.
Qed.

(** An offer is refused while another thread has the lock. So [stop] can fail to hand its
    empty runner to a worker that is just going to wait, and then joins it for ever, spurious
    wakeups and later calls included: from the state reached here no execution gets past the
    first join. *)
Theorem pool_stop_hangs :
  exists p, psteps hang_acts pool_demo = Some p /\ ctl p = CJoin 0 /\ accepted p = 0%nat /\
    forall acts p', psteps acts p = Some p' -> ctl p' = CJoin 0.
Proof.
  eexists. split; [vm_compute; reflexivity|]. split_and!; [done|done|].
  intros acts p' Hs. apply stuck_ctl. revert Hs.
  match goal with |- psteps _ ?p = _ -> _ => assert (stuck p) as Hst end.
  { constructor; try done.
    - by eexists.
    - by eexists.
    - intros u Hu. destruct (_ !! u) as [pc|] eqn:Eu; [|done]. revert u pc Eu Hu.
      refine (bool_decide_unpack
        (map_Forall (fun u pc => u <> 1%nat -> q_idle (Some pc) = true) _) _). by vm_compute. }
  match type of Hst with stuck ?p => revert Hst; generalize p end.
  induction acts as [|a acts IH]; intros p Hst Hs; cbn in Hs; [by injection Hs as <-|].
  destruct (pstep a p) as [p1|] eqn:E; [|done]. eapply IH; [by eapply stuck_step|done].
Qed.
