(* ===== verification/Future.v ===== *)
(** * thread/Future.h: results that other threads wait for

    [run] works under the mutex of the future, [get] looks at [bFinished] without it first.
    Each access of a shared field, each lock operation and the notification is a step, and
    threads interleave between them. [call n] is what the [n]-th call of the [Callable]
    returns; [pthread_cond_signal] wakes one waiting thread, named by the action, and
    [FWake] is a wakeup without a notification. *)
From S2P Require Import Prelude.
Local Open Scope Z_scope.

Section future.
Context {T : Type} (call : nat -> T).

(** Where a thread is. [Run1] before the lock, [2] at the call, [3] before [bFinished] is set,
    [4] before [notify], [5] before the guard unlocks. [Get1] at the first test, [2] before the
    lock, [3] at the test of the loop, [4] before the guard unlocks, [5] before the result is
    read; [Got] has returned it ([None] when it was never assigned). *)
Inductive fpc :=
  | Run1 | Run2 | Run3 | Run4 | Run5 | Ran
  | Get1 | Get2 | Get3 | GetWait | Get4 | Get5 | Got (v : option T).

Record future := mk_future {
  fMutex : option nat;
  bFinished : bool;
  fResult : option T;
  ncalls : nat;
  fpcs : gmap nat fpc
}.

Definition Future_new : future := mk_future None false None 0 ∅.

Definition done (f : future) : bool := bFinished f.

Definition fgoto (t : nat) (pc : fpc) (f : future) : future :=
  mk_future (fMutex f) (bFinished f) (fResult f) (ncalls f) (<[t := pc]> (fpcs f)).
Definition set_mutex (l : option nat) (f : future) : future :=
  mk_future l (bFinished f) (fResult f) (ncalls f) (fpcs f).

(** The next step of thread [t], except for the notification. *)
Definition fgo (t : nat) (f : future) : option future :=
  match fpcs f !! t with
  | Some Run1 =>
      match fMutex f with None => Some (fgoto t Run2 (set_mutex (Some t) f)) | Some _ => None end
  | Some Run2 =>
      Some (fgoto t Run3 (mk_future (fMutex f) (bFinished f) (Some (call (ncalls f)))
                            (S (ncalls f)) (fpcs f)))
  | Some Run3 => Some (fgoto t Run4 (mk_future (fMutex f) true (fResult f) (ncalls f) (fpcs f)))
  | Some Run5 => Some (fgoto t Ran (set_mutex None f))
  | Some Get1 => Some (fgoto t (if bFinished f then Get5 else Get2) f)
  | Some Get2 =>
      match fMutex f with None => Some (fgoto t Get3 (set_mutex (Some t) f)) | Some _ => None end
  | Some Get3 =>
      if bFinished f then Some (fgoto t Get4 f) else Some (fgoto t GetWait (set_mutex None f))
  | Some Get4 => Some (fgoto t Get5 (set_mutex None f))
  | Some Get5 => Some (fgoto t (Got (fResult f)) f)
  | _ => None
  end.

Definition waiting (pc : fpc) : bool := match pc with GetWait => true | _ => false end.

(** [fCond.notify()] of thread [t]: it wakes [u], or nobody when nobody waits. *)
Definition fnotify (t : nat) (u : option nat) (f : future) : option future :=
  match fpcs f !! t, u with
  | Some Run4, Some u =>
      match fpcs f !! u with
      | Some GetWait => Some (fgoto t Run5 (fgoto u Get2 f))
      | _ => None
      end
  | Some Run4, None =>
      if bool_decide (map_Forall (fun _ pc => waiting pc = false) (fpcs f))
      then Some (fgoto t Run5 f) else None
  | _, _ => None
  end.

Inductive fact := FRun (t : nat) | FGet (t : nat) | FGo (t : nat) | FNotify (t : nat) (u : option nat)
  | FWake (t : nat).

Definition fidle (pc : option fpc) : bool :=
  match pc with None | Some (Ran | Got _) => true | _ => false end.

Definition fstep (a : fact) (f : future) : option future :=
  match a with
  | FRun t => if fidle (fpcs f !! t) then Some (fgoto t Run1 f) else None
  | FGet t => if fidle (fpcs f !! t) then Some (fgoto t Get1 f) else None
  | FGo t => fgo t f
  | FNotify t u => fnotify t u f
  | FWake t => match fpcs f !! t with Some GetWait => Some (fgoto t Get2 f) | _ => None end
  end.

Fixpoint fsteps (acts : list fact) (f : future) : option future :=
  match acts with
  | [] => Some f
  | a :: acts => f ← fstep a f; fsteps acts f
  end.

(** ** Invariant *)
Definition has_mutex (pc : fpc) : bool :=
  match pc with Run2 | Run3 | Run4 | Run5 | Get3 | Get4 => true | _ => false end.
(** Has seen or set [bFinished], respectively has called. *)
Definition finished_at (pc : fpc) : bool :=
  match pc with Run4 | Run5 | Ran | Get4 | Get5 | Got _ => true | _ => false end.
Definition called_at (pc : fpc) : bool := match pc with Run3 => true | _ => finished_at pc end.

Definition last_result (n : nat) : option T := match n with 0%nat => None | S n => Some (call n) end.

Record finv (f : future) : Prop := {
  finv_lock : forall t pc, fpcs f !! t = Some pc -> has_mutex pc = true -> fMutex f = Some t;
  finv_result : fResult f = last_result (ncalls f);
  finv_finished : bFinished f = true -> (0 < ncalls f)%nat;
  finv_at : forall t pc, fpcs f !! t = Some pc -> finished_at pc = true -> bFinished f = true;
  finv_called : forall t pc, fpcs f !! t = Some pc -> called_at pc = true -> (0 < ncalls f)%nat;
  finv_got : forall t v, fpcs f !! t = Some (Got v) -> exists n, (n < ncalls f)%nat /\ v = Some (call n)
}.

(** Thread [t] moves to [pc], the shared fields change with it. *)
Lemma finv_move f t pc l b r n :
  finv f -> (has_mutex pc = true -> l = Some t) ->
  (forall u pc', u <> t -> fpcs f !! u = Some pc' -> has_mutex pc' = true -> l = Some u) ->
  r = last_result n -> (b = true -> (0 < n)%nat) -> (bFinished f = true -> b = true) ->
  (ncalls f <= n)%nat -> (finished_at pc = true -> b = true) -> (called_at pc = true -> (0 < n)%nat) ->
  (forall v, pc = Got v -> exists k, (k < n)%nat /\ v = Some (call k)) ->
  finv (mk_future l b r n (<[t := pc]> (fpcs f))).
Proof.
  intros [Hl Hr Hf Ha Hc Hg] Hm Ho Hr' Hb Hmb Hn Hfa Hca Hgot.
  constructor; cbn; try done; intros u pc'; (destruct (decide (u = t)) as [->|Hne];
    [rewrite lookup_insert_eq|rewrite lookup_insert_ne by done]).
  1,3,5: by intros [= <-].
  - by apply Ho.
  - intros Hu Hfin. by eapply Hmb, Ha.
  - intros Hu Hcal. eapply Nat.lt_le_trans; [by eapply Hc|done].
  - intros [= ->]. by apply Hgot.
  - intros (k & Hk & ->)%Hg. exists k. split; [lia|done].
Qed.

Lemma Future_new_inv : finv Future_new.
Proof. by constructor. Qed.

(** The mutex is kept by its owner, or taken or released. *)
Lemma finv_others f t pc u pc' :
  finv f -> fpcs f !! t = Some pc -> has_mutex pc = true -> u <> t -> fpcs f !! u = Some pc' ->
  has_mutex pc' = false.
Proof.
  intros Hi Ht Hm Hne Hu. destruct (has_mutex pc') eqn:E; [|done].
  pose proof (finv_lock f Hi t pc Ht Hm). pose proof (finv_lock f Hi u pc' Hu E). congruence.
Qed.

Lemma finv_keep f t pc :
  finv f -> (has_mutex pc = true -> fMutex f = Some t) -> (finished_at pc = true -> bFinished f = true) ->
  (called_at pc = true -> (0 < ncalls f)%nat) ->
  (forall v, pc = Got v -> exists k, (k < ncalls f)%nat /\ v = Some (call k)) ->
  finv (fgoto t pc f).
Proof.
  intros Hi Hm Hf Hc Hg. apply finv_move; try done; try apply Hi.
  intros u pc' _ Hu Hm'. by apply (finv_lock f Hi u pc').
Qed.

Lemma finv_acquire f t pc :
  finv f -> fMutex f = None -> finished_at pc = false -> called_at pc = false ->
  finv (fgoto t pc (set_mutex (Some t) f)).
Proof.
  intros Hi Hm Hf Hc. apply (finv_move f t pc (Some t)); try done; try apply Hi; try congruence.
  - intros u pc' _ Hu Hm'. pose proof (finv_lock f Hi u pc' Hu Hm'). congruence.
  - intros v ->. done.
Qed.

Lemma finv_release f t pc0 pc :
  finv f -> fpcs f !! t = Some pc0 -> has_mutex pc0 = true -> has_mutex pc = false ->
  (finished_at pc = true -> bFinished f = true) -> (forall v, pc <> Got v) -> called_at pc = finished_at pc ->
  finv (fgoto t pc (set_mutex None f)).
Proof.
  intros Hi Ht Hm Hm' Hf Hg Hc.
  apply (finv_move f t pc None); try done; try apply Hi; try congruence.
  - intros u pc' Hne Hu Hm2. by rewrite (finv_others f t pc0 u pc' Hi Ht Hm Hne Hu) in Hm2.
  - rewrite Hc. intros Hfin. by apply (finv_finished f Hi), Hf.
Qed.

Lemma fstep_inv f a f' : finv f -> fstep a f = Some f' -> finv f'.
Proof.
  intros Hi Hs. destruct a as [t|t|t|t u|t]; cbn in Hs.
  - destruct (fidle _); [|done]. injection Hs as <-. by apply finv_keep.
  - destruct (fidle _); [|done]. injection Hs as <-. by apply finv_keep.
  - unfold fgo in Hs. destruct (fpcs f !! t) as [pc|] eqn:Ep; [|done].
    pose proof (finv_lock f Hi t pc Ep) as Hlk. pose proof (finv_at f Hi t pc Ep) as Hat.
    pose proof (finv_called f Hi t pc Ep) as Hca. pose proof (finv_result f Hi) as Hre.
    destruct pc; try done.
    + destruct (fMutex f) eqn:E; [done|]. injection Hs as <-. by apply finv_acquire.
    + injection Hs as <-.
      apply (finv_move f t Run3 (fMutex f) (bFinished f) (Some (call (ncalls f))) (S (ncalls f)));
        try done; try lia.
      intros u pc' Hne Hu Hm. by rewrite (finv_others f t _ u pc' Hi Ep eq_refl Hne Hu) in Hm.
    + injection Hs as <-.
      apply (finv_move f t Run4 (fMutex f) true (fResult f) (ncalls f)); try done; auto.
      intros u pc' _ Hu Hm. by apply (finv_lock f Hi u pc').
    + injection Hs as <-. by eapply finv_release.
    + injection Hs as <-. apply finv_keep; try done; destruct (bFinished f) eqn:Eb; try done.
      intros _. by apply (finv_finished f Hi).
    + destruct (fMutex f) eqn:E; [done|]. injection Hs as <-. by apply finv_acquire.
    + destruct (bFinished f) eqn:Eb; injection Hs as <-.
      * apply finv_keep; try done; auto. intros _. by apply (finv_finished f Hi).
      * by eapply finv_release.
    + injection Hs as <-. by eapply finv_release.
    + injection Hs as <-. apply finv_keep; try done; auto. intros v [= <-].
      rewrite Hre. specialize (Hca eq_refl). destruct (ncalls f) as [|k]; [lia|]. exists k.
      split; [lia|done].
  - unfold fnotify in Hs. destruct (fpcs f !! t) as [pc|] eqn:Ep; [|done].
    pose proof (finv_lock f Hi t pc Ep) as Hlk. pose proof (finv_at f Hi t pc Ep) as Hat.
    pose proof (finv_called f Hi t pc Ep) as Hca.
    destruct pc; try done. destruct u as [u|].
    + destruct (fpcs f !! u) as [[]|] eqn:Eu; try done. injection Hs as <-.
      apply finv_keep; try done; auto. by apply finv_keep.
    + case_bool_decide; [|done]. injection Hs as <-. apply finv_keep; try done; auto.
  - destruct (fpcs f !! t) as [[]|]; try done. injection Hs as <-. by apply finv_keep.
Qed.

Lemma fsteps_inv acts f f' : finv f -> fsteps acts f = Some f' -> finv f'.
Proof.
  revert f. induction acts as [|a acts IH]; intros f Hi Hs; cbn in Hs; [by injection Hs as <-|].
  destruct (fstep a f) as [f1|] eqn:E; [|done]. eapply IH; [by eapply fstep_inv|done].
Qed.

(** *** One getter *)
Definition in_get (pc : fpc) : bool :=
  match pc with Get1 | Get2 | Get3 | GetWait | Get4 | Get5 | Got _ => true | _ => false end.
(** Has notified. *)
Definition notified (pc : fpc) : bool := match pc with Run5 | Ran => true | _ => false end.

Definition gets_only (g : nat) (a : fact) : Prop := match a with FGet t => t = g | _ => True end.

Record ginv (g : nat) (f : future) : Prop := {
  ginv_only : forall t pc, fpcs f !! t = Some pc -> in_get pc = true -> t = g;
  ginv_wait : fpcs f !! g = Some GetWait -> forall t pc, fpcs f !! t = Some pc -> notified pc = false
}.

Lemma ginv_move g f t pc f' :
  ginv g f -> fpcs f' = <[t := pc]> (fpcs f) -> (in_get pc = true -> t = g) ->
  (notified pc = true -> fpcs f !! g = Some GetWait -> t = g) ->
  (pc = GetWait -> forall u pc', fpcs f !! u = Some pc' -> notified pc' = false) ->
  ginv g f'.
Proof.
  intros [Ho Hw] E Hg Hn Hwt. constructor; rewrite E.
  - intros u pc'. destruct (decide (u = t)) as [->|Hne];
      [rewrite lookup_insert_eq; by intros [= <-]|rewrite lookup_insert_ne by done; apply Ho].
  - intros Hgw u pc'. destruct (decide (g = t)) as [->|Hgt].
    + rewrite lookup_insert_eq in Hgw. injection Hgw as ->.
      destruct (decide (u = t)) as [->|Hne]; [rewrite lookup_insert_eq; by intros [= <-]|].
      rewrite lookup_insert_ne by done. by apply Hwt.
    + rewrite lookup_insert_ne in Hgw by done.
      destruct (decide (u = t)) as [->|Hne]; [rewrite lookup_insert_eq; intros [= <-]|].
      * destruct (notified pc) eqn:En; [|done]. exfalso. by apply Hgt, eq_sym, Hn.
      * rewrite lookup_insert_ne by done. by apply Hw.
Qed.

Lemma ginv_step g f a f' :
  finv f -> ginv g f -> gets_only g a -> fstep a f = Some f' -> ginv g f'.
Proof.
  intros Hi Hg Ha Hs. destruct a as [t|t|t|t u|t]; cbn in Hs, Ha.
  - destruct (fidle _); [|done]. injection Hs as <-. by eapply ginv_move.
  - destruct (fidle _); [|done]. injection Hs as <-. by eapply ginv_move.
  - unfold fgo in Hs. destruct (fpcs f !! t) as [pc|] eqn:Ep; [|done].
    pose proof (ginv_only g f Hg t pc Ep) as Hot.
    destruct pc; try done; cbn in Hot; repeat case_match; try done; injection Hs as <-;
      eapply ginv_move; try done; auto.
    + (* leaving [run]: the getter is not waiting, or [t] had notified before *)
      intros _ Hw. by discriminate (ginv_wait g f Hg Hw t Run5 Ep).
    + intros _ u pc' Hu. destruct (notified pc') eqn:En; [|done].
      assert (finished_at pc' = true) as Hfin by (by destruct pc').
      pose proof (finv_at f Hi u pc' Hu Hfin). congruence.
  - unfold fnotify in Hs. destruct (fpcs f !! t) as [[]|] eqn:Ep; try done. destruct u as [u|].
    + destruct (fpcs f !! u) as [[]|] eqn:Eu; try done. injection Hs as <-.
      assert (u = g) as -> by (by apply (ginv_only g f Hg u GetWait)).
      assert (ginv g (fgoto g Get2 f)) as Hg' by (by eapply ginv_move).
      eapply ginv_move; [exact Hg'|done|done| |done]. cbn. by rewrite lookup_insert_eq.
    + case_bool_decide as Hall; [|done]. injection Hs as <-.
      eapply ginv_move; try done. intros _ Hw. by discriminate (Hall g GetWait Hw).
  - destruct (fpcs f !! t) as [[]|] eqn:Ep; try done. injection Hs as <-.
    eapply ginv_move; try done. intros _. by apply (ginv_only g f Hg t GetWait).
Qed.

Lemma ginv_steps g acts f f' :
  finv f -> ginv g f -> Forall (gets_only g) acts -> fsteps acts f = Some f' -> ginv g f'.
Proof.
  revert f. induction acts as [|a acts IH]; intros f Hi Hg Ha Hs; cbn in Hs; [by injection Hs as <-|].
  inversion_clear Ha as [|?? Ha1 Ha2]. destruct (fstep a f) as [f1|] eqn:E; [|done].
  eapply IH; [by eapply fstep_inv|by eapply ginv_step|done|done].
Qed.

(** *** Two getters *)
Definition running_pc (pc : fpc) : bool :=
  match pc with Run1 | Run2 | Run3 | Run4 | Run5 => true | _ => false end.

(** Thread [t] waits and nobody is in [run]. *)
Definition stranded (t : nat) (f : future) : Prop :=
  fpcs f !! t = Some GetWait /\ forall u pc, fpcs f !! u = Some pc -> running_pc pc = false.

Definition no_rescue (t : nat) (a : fact) : Prop :=
  match a with FRun _ => False | FWake u => u <> t | _ => True end.

Lemma stranded_move t u pc f f' :
  stranded t f -> fpcs f' = <[u := pc]> (fpcs f) -> u <> t -> running_pc pc = false -> stranded t f'.
Proof.
  intros [Hw Hr] E Hne Hpc. split; rewrite E; [by rewrite lookup_insert_ne|].
  intros v pc'. destruct (decide (v = u)) as [->|];
    [rewrite lookup_insert_eq; by intros [= <-]|rewrite lookup_insert_ne by done; apply Hr].
Qed.

Lemma stranded_step t a f f' :
  stranded t f -> no_rescue t a -> fstep a f = Some f' -> stranded t f'.
Proof.
  intros Hst Ha Hs. pose proof Hst as [Hw Hr]. destruct a as [u|u|u|u v|u]; cbn in Hs, Ha; [done|..].
  - destruct (decide (u = t)) as [->|Hne]; [by rewrite Hw in Hs|].
    destruct (fidle _); [|done]. injection Hs as <-. by eapply stranded_move.
  - destruct (decide (u = t)) as [->|Hne]; [unfold fgo in Hs; by rewrite Hw in Hs|].
    unfold fgo in Hs. destruct (fpcs f !! u) as [pc|] eqn:Ep; [|done].
    pose proof (Hr u pc Ep) as Hpc. destruct pc; try done; repeat case_match; try done;
      injection Hs as <-; by eapply stranded_move.
  - unfold fnotify in Hs. destruct (fpcs f !! u) as [pc|] eqn:Ep; [|done].
    pose proof (Hr u pc Ep) as Hpc. by destruct pc.
  - destruct (fpcs f !! u) as [[]|]; try done. injection Hs as <-. by eapply stranded_move.
Qed.

Lemma stranded_steps t acts f f' :
  stranded t f -> Forall (no_rescue t) acts -> fsteps acts f = Some f' -> stranded t f'.
Proof.
  revert f. induction acts as [|a acts IH]; intros f Hst Ha Hs; cbn in Hs; [by injection Hs as <-|].
  inversion_clear Ha as [|?? Ha1 Ha2]. destruct (fstep a f) as [f1|] eqn:E; [|done].
  eapply IH; [by eapply stranded_step|done|done].
Qed.
End future.

(** ** Properties *)
(** In every interleaving of any number of threads that run the future and get its
    result, [get] returns a value that a completed call produced, never an unassigned one;
    once [done] the future holds the result of the last call; the sections under the mutex
    exclude each other. *)
Theorem future_get_value {T} (call : nat -> T) (acts : list fact) (f : future) :
  fsteps call acts Future_new = Some f ->
  (forall t v, fpcs f !! t = Some (Got v) -> exists n, (n < ncalls f)%nat /\ v = Some (call n)) /\
  (done f = true -> exists n, ncalls f = S n /\ fResult f = Some (call n)) /\
  (forall t u pc pc', fpcs f !! t = Some pc -> has_mutex pc = true ->
     fpcs f !! u = Some pc' -> has_mutex pc' = true -> t = u).
Proof.
  intros Hs. pose proof (fsteps_inv call acts _ f (Future_new_inv call) Hs) as Hi. split_and!.
  - apply (finv_got call f Hi).
  - intros Hd%(finv_finished call f Hi). destruct (ncalls f) as [|n] eqn:En; [lia|].
    exists n. split; [done|]. by rewrite (finv_result call f Hi), En.
  - intros t u pc pc' Ht Hm Hu Hm'. pose proof (finv_lock call f Hi t pc Ht Hm).
    pose proof (finv_lock call f Hi u pc' Hu Hm'). congruence.
Qed.

Definition get_demo : list fact :=
  [FGet 1; FGo 1; FGo 1; FGo 1; FRun 0; FGo 0; FGo 0; FGo 0; FNotify 0 (Some 1%nat); FGo 0;
   FGo 1; FGo 1; FGo 1; FGo 1].

Definition square (n : nat) : Z := Z.of_nat n * Z.of_nat n + 5.

Definition got_demo : @future Z := default Future_new (fsteps square get_demo Future_new).

Lemma future_get_value_witness :
  (forall t v, fpcs got_demo !! t = Some (Got v) ->
     exists n, (n < ncalls got_demo)%nat /\ v = Some (square n)) /\
  (done got_demo = true -> exists n, ncalls got_demo = S n /\ fResult got_demo = Some (square n)) /\
  (forall t u pc pc', fpcs got_demo !! t = Some pc -> has_mutex pc = true ->
     fpcs got_demo !! u = Some pc' -> has_mutex pc' = true -> t = u).
Proof. apply (future_get_value square get_demo got_demo). by vm_compute. Defined.

Example get_demo_result : fpcs got_demo !! 1%nat = Some (Got (Some 5)).
Proof. by vm_compute. Qed.

(** C29. The notification of [run] is not lost on a single getter, whenever it comes in: once a
    [run] has returned, the getter is not waiting, and it goes on unless another thread has
    the mutex. *)
Theorem future_get_wakes {T} (call : nat -> T) (g : nat) (acts : list fact) (f : future) (r : nat) :
  Forall (gets_only g) acts -> fsteps call acts Future_new = Some f -> fpcs f !! r = Some Ran ->
  fpcs f !! g <> Some GetWait /\
  (forall pc, fpcs f !! g = Some pc -> in_get pc = true -> (forall v, pc <> Got v) ->
     fgo call g f = None -> fMutex f <> None).
Proof.
  intros Ha Hs Hr. pose proof (Future_new_inv call) as Hi.
  assert (ginv g (@Future_new T)) as Hg by done.
  pose proof (ginv_steps call g acts _ f Hi Hg Ha Hs) as Hg'.
  assert (fpcs f !! g <> Some GetWait) as Hnw by
    (intros Hw; by discriminate (ginv_wait g f Hg' Hw r Ran Hr)).
  split; [done|]. intros pc Hp Hget Hngot Hgo. unfold fgo in Hgo. rewrite Hp in Hgo.
  destruct pc; try done; repeat case_match; try done. by destruct (Hngot v).
Qed.

Definition woken_demo : @future Z := default Future_new (fsteps square (take 10 get_demo) Future_new).

Lemma future_get_wakes_witness :
  fpcs woken_demo !! 1%nat <> Some GetWait /\
  (forall pc, fpcs woken_demo !! 1%nat = Some pc -> in_get pc = true -> (forall v, pc <> Got v) ->
     fgo square 1 woken_demo = None -> fMutex woken_demo <> None).
Proof.
  apply (future_get_wakes square 1 (take 10 get_demo) woken_demo 0);
    [repeat constructor|by vm_compute|by vm_compute].
Defined.

(** Two getters wait, the one [notify] wakes one of them, and [run] is over: the other
    waits for as long as nobody runs the future again and no wakeup comes by accident. *)
Definition strand_acts : list fact :=
  [FGet 1; FGo 1; FGo 1; FGo 1; FGet 2; FGo 2; FGo 2; FGo 2; FRun 0; FGo 0; FGo 0; FGo 0;
   FNotify 0 (Some 1%nat); FGo 0; FGo 1; FGo 1; FGo 1; FGo 1].

Theorem future_strands_second :
  exists f, fsteps square strand_acts Future_new = Some f /\ done f = true /\
    fpcs f !! 1%nat = Some (Got (Some 5)) /\
    forall acts f', Forall (no_rescue 2) acts -> fsteps square acts f = Some f' ->
      fpcs f' !! 2%nat = Some GetWait.
Proof.
  eexists. split; [vm_compute; reflexivity|]. split_and!; [done|done|]. intros acts f' Ha Hs.
  eapply (stranded_steps square 2) in Hs as [? _]; [done| |done]. split; [done|].
  refine (bool_decide_unpack (map_Forall (fun _ pc => running_pc pc = false) _) _). by vm_compute.
Qed.
