(* ===== verification/UUID.v ===== *)
(** * util/UUID.h: time-based identifiers

    [gettimeofday] is a stream of readings: [clock i] is the [(tv_sec, tv_usec)] of the
    [i]-th call, and the state counts the calls made. *)
From S2P Require Import Prelude.
From stdpp Require Import sorting.
Local Open Scope Z_scope.

Definition SEQUENCE_MASK : Z := Z.shiftl 1 13 - 1.

Record uuid_state := mk_uuid { LAST_TIME_STAMP : Z; SEQUENCE : Z; reads : nat }.
Definition uuid_init : uuid_state := mk_uuid (-1) 0 0.

Section uuid.
Context (clock : nat -> Z * Z).

Definition getTimeStamp (i : nat) : Z :=
  let '(tv_sec, tv_usec) := clock i in i64 (tv_sec * 1000 + Z.quot tv_usec 1000).

(** [while(current <= lastTimestamp) current = getTimeStamp();], from the [i]-th reading
    on; the reading that ended it and the number of the next. *)
Fixpoint tillNextMillis (fuel : nat) (lastTimestamp : Z) (i : nat) : option (Z * nat) :=
  let current := getTimeStamp i in
  if bool_decide (current <= lastTimestamp) then
    match fuel with
    | O => None
    | S fuel => tillNextMillis fuel lastTimestamp (S i)
    end
  else Some (current, S i).

(** The bits of an id: [current << 22] is a [long], [tid() << 12] an [int] that must not
    overflow. *)
Definition pack (current tid seq : Z) : option Z :=
  t ← cint (tid * 4096); Some (Z.lor (Z.lor (i64 (Z.shiftl current 22)) t) seq).

Definition get (fuel : nat) (tid : Z) (s : uuid_state) : option (Z * uuid_state) :=
  let current := getTimeStamp (reads s) in
  let i := S (reads s) in
  '(current, seq, i) ←
    (if bool_decide (current = LAST_TIME_STAMP s) then
       let seq := Z.land (SEQUENCE s + 1) SEQUENCE_MASK in
       if bool_decide (seq = 0) then '(c, i) ← tillNextMillis fuel current i; Some (c, seq, i)
       else Some (current, seq, i)
     else Some (current, 0, i));
  id ← pack current tid seq;
  Some (id, mk_uuid current seq i).

Fixpoint get_n (n : nat) (fuel : nat) (tid : Z) (s : uuid_state) : option (list Z * uuid_state) :=
  match n with
  | O => Some ([], s)
  | S n => '(id, s) ← get fuel tid s; '(ids, s) ← get_n n fuel tid s; Some (id :: ids, s)
  end.

(** ** The fields of an id *)
(** Below 2^41 ms (the year 2039), with a thread id of ten bits and a sequence of twelve,
    the fields do not overlap. *)
Lemma pack_fields c tid seq :
  0 <= c < 2 ^ 41 -> 0 <= tid < 1024 -> 0 <= seq < 4096 ->
  pack c tid seq = Some (c * 2 ^ 22 + tid * 2 ^ 12 + seq).
Proof.
  intros Hc Ht Hs. unfold pack. rewrite cint_ok by (unfold INT_MAX; lia). cbn [mbind option_bind].
  rewrite Z.shiftl_mul_pow2, i64_small by lia.
  change 4096 with (2 ^ 12). rewrite (Z_lor_fields c (tid * 2 ^ 12) 22) by lia.
  replace (c * 2 ^ 22 + tid * 2 ^ 12) with ((c * 2 ^ 10 + tid) * 2 ^ 12) by lia.
  by rewrite Z_lor_fields by lia.
Qed.

(** A sequence of 4096 or more sets the lowest bit of an odd thread id again. *)
Lemma pack_odd_tid c tid seq :
  Z.odd tid = true -> 0 <= seq < 4096 -> pack c tid (seq + 4096) = pack c tid seq.
Proof.
  intros Ho Hs. unfold pack. destruct (cint (tid * 4096)) as [t|] eqn:E; [|done].
  unfold cint in E. case_bool_decide; [|done]. injection E as <-. cbn [mbind option_bind]. f_equal.
  assert (Z.lor (tid * 4096) 4096 = tid * 4096) as Et.
  { apply Z.odd_spec in Ho as [k ->].
    replace ((2 * k + 1) * 4096) with (k * 2 ^ 13 + 4096) by lia.
    rewrite <- (Z_lor_fields k 4096 13) by lia. by rewrite <- Z.lor_assoc, Z.lor_diag. }
  replace (seq + 4096) with (1 * 2 ^ 12 + seq) by lia. rewrite <- (Z_lor_fields 1 seq 12) by lia.
  rewrite Z.lor_assoc, <- (Z.lor_assoc _ _ (1 * 2 ^ 12)). change (1 * 2 ^ 12) with 4096.
  by rewrite Et.
Qed.

(** The bits of a thread id from 1024 on fall on the time. *)
Lemma pack_odd_time c tid seq :
  0 <= c < 2 ^ 41 -> Z.odd c = true -> 0 <= tid < 1024 ->
  pack c (tid + 1024) seq = pack c tid seq.
Proof.
  intros Hc Ho Ht. unfold pack. rewrite !cint_ok by (unfold INT_MAX; lia).
  cbn [mbind option_bind]. do 2 f_equal. rewrite Z.shiftl_mul_pow2, i64_small by lia.
  replace ((tid + 1024) * 4096) with (1 * 2 ^ 22 + tid * 4096) by lia.
  rewrite <- (Z_lor_fields 1 (tid * 4096) 22) by lia. rewrite Z.lor_assoc. f_equal.
  apply Z.odd_spec in Ho as [k ->]. change (1 * 2 ^ 22) with (2 ^ 22).
  replace ((2 * k + 1) * 2 ^ 22) with (k * 2 ^ 23 + 2 ^ 22) by lia.
  rewrite <- (Z_lor_fields k (2 ^ 22) 23) by lia. by rewrite <- Z.lor_assoc, Z.lor_diag.
Qed.

Lemma land_mask x : 0 <= x < 8192 -> Z.land x SEQUENCE_MASK = x.
Proof.
  intros Hx. change SEQUENCE_MASK with (Z.ones 13). rewrite Z.land_ones by lia.
  apply Z.mod_small. lia.
Qed.

(** The wait for the next millisecond ends at the first later reading. *)
Lemma tillNextMillis_spec fuel last i n :
  (n <= fuel)%nat -> last < getTimeStamp (i + n) ->
  (forall j, (j < n)%nat -> getTimeStamp (i + j) <= last) ->
  tillNextMillis fuel last i = Some (getTimeStamp (i + n), S (i + n)).
Proof.
  revert fuel i. induction n as [|n IH]; intros fuel i Hf Hn Hb.
  - rewrite Nat.add_0_r in *. destruct fuel; cbn; by rewrite bool_decide_eq_false_2 by lia.
  - destruct fuel as [|fuel]; [lia|]. cbn [tillNextMillis].
    rewrite bool_decide_eq_true_2 by (specialize (Hb 0%nat ltac:(lia)); by rewrite Nat.add_0_r in Hb).
    rewrite (IH fuel (S i)); [do 2 f_equal; f_equal; lia|lia| |].
    + by replace (S i + n)%nat with (i + S n)%nat by lia.
    + intros j Hj. replace (S i + j)%nat with (i + S j)%nat by lia. apply Hb. lia.
Qed.

(** ** One thread with a steady clock *)
Section steady.
Context (tid : Z) (Htid : 0 <= tid < 1024).
Context (N : nat) (Hrange : forall i, (i < N)%nat -> 0 <= getTimeStamp i < 2 ^ 41).
Context (Hmono : forall i, (S i < N)%nat -> getTimeStamp i <= getTimeStamp (S i)).
Context (Hburst : forall i, (i + 4095 < N)%nat -> getTimeStamp i < getTimeStamp (i + 4095)).

Lemma mono_le i j : (i <= j)%nat -> (j < N)%nat -> getTimeStamp i <= getTimeStamp j.
Proof. induction 1; [lia|]. intros HN. specialize (Hmono m HN). lia. Qed.

(** The last [SEQUENCE + 1] readings were the same. *)
Inductive steady : uuid_state -> Prop :=
  | steady_init : steady uuid_init
  | steady_run i k : (k <= i)%nat -> getTimeStamp (i - k) = getTimeStamp i ->
      steady (mk_uuid (getTimeStamp i) (Z.of_nat k) (S i)).

(** The last id given out, or [-1]. *)
Definition last_id (s : uuid_state) : Z :=
  if bool_decide (LAST_TIME_STAMP s = -1) then -1
  else LAST_TIME_STAMP s * 2 ^ 22 + tid * 2 ^ 12 + SEQUENCE s.

Lemma get_steady fuel s :
  steady s -> (reads s < N)%nat ->
  exists id s', get fuel tid s = Some (id, s') /\ steady s' /\ reads s' = S (reads s) /\
    last_id s < id /\ last_id s' = id.
Proof.
  assert (forall i k, (i < N)%nat -> (k <= i)%nat -> getTimeStamp (i - k) = getTimeStamp i ->
    (k < 4095)%nat) as Hk.
  { intros i k HiN Hik E. destruct (decide (k < 4095)%nat) as [|Hge]; [done|].
    pose proof (Hburst (i - k) ltac:(lia)).
    pose proof (mono_le (i - k + 4095) i ltac:(lia) HiN). lia. }
  intros Hs HN. destruct Hs as [|i k Hik E]; cbn [reads uuid_init] in HN.
  - unfold get; cbn [LAST_TIME_STAMP SEQUENCE reads uuid_init]. pose proof (Hrange 0 HN).
    rewrite bool_decide_eq_false_2 by lia. cbn [mbind option_bind].
    rewrite pack_fields by (lia || done). cbn [mbind option_bind].
    do 2 eexists. split; [done|]. split; [apply (steady_run 0 0); [lia|done]|]. split; [done|].
    change (last_id uuid_init) with (-1). unfold last_id; cbn [LAST_TIME_STAMP SEQUENCE].
    rewrite bool_decide_eq_false_2 by lia. lia.
  - unfold get; cbn [LAST_TIME_STAMP SEQUENCE reads]. pose proof (Hk i k ltac:(lia) Hik E) as Hlt.
    pose proof (Hrange i ltac:(lia)). pose proof (Hrange (S i) HN). pose proof (Hmono i HN).
    case_bool_decide as Eq.
    + rewrite land_mask by lia. rewrite bool_decide_eq_false_2 by lia. cbn [mbind option_bind].
      rewrite pack_fields by (lia || done). cbn [mbind option_bind].
      do 2 eexists. split; [done|]. split.
      { replace (Z.of_nat k + 1) with (Z.of_nat (S k)) by lia. apply steady_run; [lia|].
        replace (S i - S k)%nat with (i - k)%nat by lia. lia. }
      split; [done|].
      unfold last_id; cbn [LAST_TIME_STAMP SEQUENCE]. rewrite !bool_decide_eq_false_2 by lia. lia.
    + cbn [mbind option_bind]. rewrite pack_fields by (lia || done). cbn [mbind option_bind].
      do 2 eexists. split; [done|]. split.
      { apply (steady_run (S i) 0); [lia|]. by replace (S i - 0)%nat with (S i) by lia. }
      split; [done|].
      unfold last_id; cbn [LAST_TIME_STAMP SEQUENCE]. rewrite !bool_decide_eq_false_2 by lia. lia.
Qed.

Lemma get_n_steady n fuel s :
  steady s -> (reads s + n <= N)%nat -> exists ids s', get_n n fuel tid s = Some (ids, s') /\ length ids = n /\
    StronglySorted Z.lt ids /\ Forall (fun x => last_id s < x) ids.
Proof.
  revert s. induction n as [|n IH]; intros s Hs HN; cbn [get_n].
  - exists [], s. split_and!; [done|done|constructor|constructor].
  - destruct (get_steady fuel s Hs ltac:(lia)) as (id & s1 & -> & Hs1 & Hrd & Hlt & Hlast).
    cbn [mbind option_bind].
    destruct (IH s1 Hs1 ltac:(lia)) as (ids & s2 & -> & Hl & Hsort & Hall). cbn [mbind option_bind].
    rewrite Hlast in Hall. exists (id :: ids), s2. split_and!; [done|cbn; lia| |].
    + by constructor.
    + constructor; [done|]. eapply Forall_impl; [exact Hall|]. intros x Hx. cbv beta in *. lia.
Qed.
End steady.

(** ** A clock that stands still *)
Lemma get_n_same n fuel tid c k i :
  (forall j, getTimeStamp j = c) -> Z.of_nat (k + n) < 8192 -> 0 <= tid < 2 ^ 19 ->
  exists ids s', get_n n fuel tid (mk_uuid c (Z.of_nat k) i) = Some (ids, s') /\
    forall j, (j < n)%nat -> ids !! j = pack c tid (Z.of_nat (k + S j)).
Proof.
  intros Hc. revert k i. induction n as [|n IH]; intros k i Hk Ht; cbn [get_n].
  - do 2 eexists. split; [done|]. intros j Hj. lia.
  - unfold get; cbn [LAST_TIME_STAMP SEQUENCE reads]. rewrite Hc, bool_decide_eq_true_2 by done.
    rewrite land_mask by lia. rewrite bool_decide_eq_false_2 by lia. cbn [mbind option_bind].
    assert (exists id, pack c tid (Z.of_nat (S k)) = Some id) as [id Eid].
    { unfold pack. rewrite cint_ok by (unfold INT_MAX; lia). eauto. }
    replace (Z.of_nat k + 1) with (Z.of_nat (S k)) by lia. rewrite Eid. cbn [mbind option_bind].
    destruct (IH (S k) (S i)) as (ids & s' & -> & Hids); [lia|done|]. cbn [mbind option_bind].
    do 2 eexists. split; [done|]. intros [|j] Hj.
    + cbn. rewrite <- Eid. do 2 f_equal. lia.
    + cbn. rewrite Hids by lia. do 2 f_equal. lia.
Qed.
End uuid.

(** ** Properties *)
(** As long as the clock does not go back and fewer than 4096 ids are made per
    millisecond, a thread whose id is below 1024 gets strictly increasing, hence distinct,
    ids (until the year 2039). *)
Theorem uuid_increasing (clock : nat -> Z * Z) (tid : Z) (n fuel : nat) :
  0 <= tid < 1024 ->
  (forall i, (i < n)%nat -> 0 <= getTimeStamp clock i < 2 ^ 41) ->
  (forall i, (S i < n)%nat -> getTimeStamp clock i <= getTimeStamp clock (S i)) ->
  (forall i, (i + 4095 < n)%nat -> getTimeStamp clock i < getTimeStamp clock (i + 4095)) ->
  exists ids s, get_n clock n fuel tid uuid_init = Some (ids, s) /\ length ids = n /\
    StronglySorted Z.lt ids.
Proof.
  intros Ht Hr Hm Hb.
  destruct (get_n_steady clock tid Ht n Hr Hm Hb n fuel uuid_init (steady_init clock))
    as (ids & s & ? & ? & ? & _); [done|eauto].
Qed.

(** A clock that advances a millisecond with every third reading. *)
Definition demo_clock (i : nat) : Z * Z :=
  (1700000000 + Z.of_nat i / 3000, Z.of_nat i / 3 mod 1000 * 1000).

Lemma demo_clock_ms i :
  Z.of_nat i < 10000 -> getTimeStamp demo_clock i = 1700000000000 + Z.of_nat i / 3.
Proof.
  intros Hi. unfold getTimeStamp, demo_clock.
  rewrite Z.quot_mul by lia. rewrite i64_small; Z.to_euclidean_division_equations; lia.
Qed.

Lemma uuid_increasing_witness :
  exists ids s, get_n demo_clock 4500 0 7 uuid_init = Some (ids, s) /\ length ids = 4500%nat /\
    StronglySorted Z.lt ids.
Proof.
  apply (uuid_increasing demo_clock 7 4500 0); [lia|..]; intros i Hi;
    rewrite ?demo_clock_ms by lia; Z.to_euclidean_division_equations; lia.
Defined.

(** Ids collide where the fields overlap. The sequence has 13 bits but the thread id
    starts at bit 12: on a thread with an odd id, the first and the 4097th id of the same
    millisecond are equal. The thread id has no upper bound but the time starts at bit
    22: in an odd millisecond the threads [tid] and [tid + 1024] make the same ids. *)
Theorem uuid_collisions (clock : nat -> Z * Z) (c tid : Z) (fuel : nat) :
  (forall i, getTimeStamp clock i = c) -> 0 <= c < 2 ^ 41 -> 0 <= tid < 1024 ->
  (Z.odd tid = true -> exists ids s id, get_n clock 4097 fuel tid uuid_init = Some (ids, s) /\
     ids !! 0%nat = Some id /\ ids !! 4096%nat = Some id) /\
  (Z.odd c = true -> exists id s s', get clock fuel tid uuid_init = Some (id, s) /\
     get clock fuel (tid + 1024) uuid_init = Some (id, s')).
Proof.
  intros Hclock Hc Ht.
  assert (forall t, 0 <= t < 2048 -> exists id, pack c t 0 = Some id) as Hpack.
  { intros t Htt. unfold pack. rewrite cint_ok by (unfold INT_MAX; lia). eauto. }
  assert (forall t id, pack c t 0 = Some id ->
    get clock fuel t uuid_init = Some (id, mk_uuid c 0 1)) as Hget.
  { intros t id E. unfold get; cbn [LAST_TIME_STAMP SEQUENCE reads uuid_init].
    rewrite Hclock, bool_decide_eq_false_2 by lia. cbn [mbind option_bind]. by rewrite E. }
  split; intros Ho.
  - destruct (Hpack tid ltac:(lia)) as [id E].
    assert (forall n s, get_n clock (S n) fuel tid s =
      ('(id, s) ← get clock fuel tid s; '(ids, s) ← get_n clock n fuel tid s; Some (id :: ids, s)))
      as Hn by done.
    rewrite (Hn 4096%nat), (Hget tid id E). cbn [mbind option_bind].
    destruct (get_n_same clock 4096 fuel tid c 0 1 Hclock ltac:(lia) ltac:(lia))
      as (ids & s' & E' & Hids).
    change (Z.of_nat 0) with 0 in E'. rewrite E'. cbn [mbind option_bind].
    exists (id :: ids), s', id. split_and!; [done|done|].
    change (ids !! 4095%nat = Some id). rewrite Hids by lia.
    change (Z.of_nat (0 + S 4095)) with (0 + 4096). by rewrite pack_odd_tid.
  - destruct (Hpack tid ltac:(lia)) as [id E].
    exists id, (mk_uuid c 0 1), (mk_uuid c 0 1). split; apply Hget; [done|].
    by rewrite pack_odd_time.
Qed.

Definition still_clock (_ : nat) : Z * Z := (1700000000, 1000).

Lemma uuid_collisions_witness :
  (Z.odd 1 = true -> exists ids s id, get_n still_clock 4097 0 1 uuid_init = Some (ids, s) /\
     ids !! 0%nat = Some id /\ ids !! 4096%nat = Some id) /\
  (Z.odd 1700000000001 = true -> exists id s s', get still_clock 0 1 uuid_init = Some (id, s) /\
     get still_clock 0 (1 + 1024) uuid_init = Some (id, s')).
Proof. apply (uuid_collisions still_clock 1700000000001 1 0); [done|lia|lia]. Defined.
