(* ===== verification/ConfigParser.v ===== *)
(** * core/ConfigParser.h and core/ConfigParser.cpp: the configuration file

    A [std::string] is the list of its bytes; [line[line.length()]] is a zero byte. A
    [std::map] is a finite map whose [insert] keeps an existing entry. The file system
    is a function from names to the lines that [getline] gives. *)
From S2P Require Import Prelude.
From stdpp Require Import strings.
Local Open Scope Z_scope.

Abbreviation bytes := (list Z).

(** String literals as bytes. *)
Definition str (s : string) : bytes :=
  map (fun a => Z.of_N (Ascii.N_of_ascii a)) (String.list_ascii_of_string s).

Definition char_at (s : bytes) (i : nat) : Z := nth i s 0.

(** [substr(pos, n)]: [None] is the exception for a position past the end; a count that
    does not fit is cut, a negative [int] is a huge one. *)
Definition substr (s : bytes) (pos : nat) (n : Z) : option bytes :=
  if bool_decide (pos <= length s)%nat then
    Some (if bool_decide (n < 0) then drop pos s else take (Z.to_nat n) (drop pos s))
  else None.

Definition SECTB : Z := 91.
Definition COMTB : Z := 35.
Definition KEYB : Z := 61.
Definition SPACE : Z := 32.

Inductive line_type := SECTION | COMMENT | KEYVAL | ERRLINE.

(** The first loop: skip spaces; [true] when the end was reached. *)
Fixpoint skip_spaces (fuel : nat) (line : bytes) (idx : nat) : option bool :=
  if bool_decide (char_at line idx <> SPACE) || bool_decide (length line <= idx)%nat
  then Some (bool_decide (length line <= idx)%nat)
  else match fuel with O => None | S fuel => skip_spaces fuel line (S idx) end.

(** The loops that look for [c] from [idx] on; [None] out of fuel, [Some false] when the
    end was reached without it. *)
Fixpoint look_for (fuel : nat) (c : Z) (line : bytes) (idx : nat) : option bool :=
  if bool_decide (char_at line idx = c) || bool_decide (length line <= idx)%nat
  then Some (negb (bool_decide (length line <= idx)%nat && bool_decide (char_at line idx <> c)))
  else match fuel with O => None | S fuel => look_for fuel c line (S idx) end.

Definition decideLineType (line : bytes) : option (line_type * bytes) :=
  let len := length line in
  emptyLine ← skip_spaces len line 0;
  let lst := char_at line 0 in
  if bool_decide (lst = SECTB) then
    found ← look_for len SECTB line 0;
    if found : bool then content ← substr line 1 (Z.of_nat len - 2); Some (SECTION, content)
    else Some (ERRLINE, [])
  else if bool_decide (lst = COMTB) then Some (COMMENT, [])
  else if emptyLine : bool then Some (ERRLINE, [])
  else
    found ← look_for len KEYB line 0;
    if found : bool then Some (KEYVAL, line) else Some (ERRLINE, []).

(** The search for the first ['='] has no bound; the line type promises one. *)
Fixpoint find_eq (fuel : nat) (content : bytes) (idx : nat) : option nat :=
  if bool_decide (char_at content idx = KEYB) then Some idx
  else match fuel with O => None | S fuel => find_eq fuel content (S idx) end.

(** [std::map::insert] *)
Definition map_insert {V} (k : bytes) (v : V) (m : gmap bytes V) : gmap bytes V :=
  match m !! k with Some _ => m | None => <[k := v]> m end.

Record load_state := mk_load {
  is1stSec : bool;
  section : bytes;
  kvMap : gmap bytes bytes;
  cMap : gmap bytes (gmap bytes bytes)
}.

Definition load_line (st : load_state) (line : bytes) : option load_state :=
  '(ret, content) ← decideLineType line;
  match ret with
  | SECTION =>
      Some (if is1stSec st then mk_load false content (kvMap st) (cMap st)
            else mk_load false content ∅ (map_insert (section st) (kvMap st) (cMap st)))
  | KEYVAL =>
      idx ← find_eq (length content) content 0;
      key ← substr content 0 (Z.of_nat idx);
      value ← substr content (S idx) (-1);
      Some (mk_load (is1stSec st) (section st) (map_insert key value (kvMap st)) (cMap st))
  | _ => Some st
  end.

Fixpoint load_lines (st : load_state) (lines : list bytes) : option load_state :=
  match lines with
  | [] => Some st
  | l :: lines => st ← load_line st l; load_lines st lines
  end.

(** The whole of [loadConfig2Map], starting from the object's map. *)
Definition loadConfig2Map (lines : list bytes) (m : gmap bytes (gmap bytes bytes))
    : option (gmap bytes (gmap bytes bytes)) :=
  st ← load_lines (mk_load true [] ∅ m) lines;
  Some (map_insert (section st) (kvMap st) (cMap st)).

(** ** The class *)
Record ConfigParser := mk_cp {
  filename : bytes;
  isFileExisted : bool;
  configMap : gmap bytes (gmap bytes bytes)
}.

Definition ConfigParser_new : ConfigParser := mk_cp [] false ∅.

Section files.
Context (fs : bytes -> option (list bytes)).

(** A stream on a missing file gives no line. *)
Definition read_lines (file : bytes) : list bytes := default [] (fs file).

Definition load (file : bytes) (c : ConfigParser) : option ConfigParser :=
  match fs file with
  | None => Some (mk_cp (filename c) false (configMap c))
  | Some _ =>
      m ← loadConfig2Map (read_lines file) ∅; Some (mk_cp file (isFileExisted c) m)
  end.

Definition reload (c : ConfigParser) : option ConfigParser :=
  m ← loadConfig2Map (read_lines (filename c)) ∅; Some (mk_cp (filename c) (isFileExisted c) m).
End files.

Definition getValueByKey (c : ConfigParser) (sec key : bytes) : bytes :=
  match configMap c !! sec with
  | Some kvs => default [] (kvs !! key)
  | None => []
  end.

Example config_demo :
  (c ← load (fun _ => Some [str "# c"; str "[a]"; str "x=1"; str "y=2=3"; str ""; str "[b]"; str "x=4"])
         (str "f") ConfigParser_new;
   Some (getValueByKey c (str "a") (str "y"), getValueByKey c (str "b") (str "x"),
         getValueByKey c (str "b") (str "y")))
  = Some (str "2=3", str "4", []).
Proof. by vm_compute. Qed.

(** ** Lines *)
Section lines.
Implicit Types (line : bytes) (c : Z).

Lemma char_at_drop line i x t : drop i line = x :: t -> char_at line i = x.
Proof.
  revert line. induction i as [|i IH]; intros [|y line] E; cbn in E |- *; simplify_eq; try done.
  by apply IH.
Qed.

Lemma drop_step line i : (i < length line)%nat ->
  drop i line = char_at line i :: drop (S i) line.
Proof.
  intros Hi. destruct (drop i line) as [|x t] eqn:E.
  - apply (f_equal length) in E. rewrite length_drop in E. cbn in E. lia.
  - rewrite (char_at_drop _ _ _ _ E). f_equal.
    change (S i) with (1 + i)%nat. rewrite Nat.add_comm, <- drop_drop, E. done.
Qed.

Lemma char_at_end line i : (length line <= i)%nat -> char_at line i = 0.
Proof. intros. unfold char_at. by apply nth_overflow. Qed.

Lemma skip_spaces_spec fuel line i :
  (length line - i <= fuel)%nat ->
  skip_spaces fuel line i = Some (forallb (Z.eqb SPACE) (drop i line)).
Proof.
  revert i. induction fuel as [|fuel IH]; intros i Hf; cbn [skip_spaces].
  - rewrite (bool_decide_eq_true_2 (length line <= i)%nat), orb_true_r by lia.
    by rewrite drop_ge by lia.
  - destruct (decide (length line <= i)%nat) as [Hge|Hlt].
    + rewrite (bool_decide_eq_true_2 (length line <= i)%nat), orb_true_r by lia.
      by rewrite drop_ge by lia.
    + rewrite (bool_decide_eq_false_2 (length line <= i)%nat), orb_false_r by lia.
      rewrite drop_step by lia. cbn [forallb]. case_bool_decide as E.
      * rewrite (proj2 (Z.eqb_neq SPACE (char_at line i))) by done. done.
      * assert (char_at line i = SPACE) as -> by (destruct (decide (char_at line i = SPACE)); done).
        rewrite Z.eqb_refl. rewrite IH by lia. done.
Qed.

Lemma look_for_spec fuel c line i :
  c <> 0 -> (length line - i <= fuel)%nat ->
  look_for fuel c line i = Some (existsb (Z.eqb c) (drop i line)).
Proof.
  intros Hc. revert i. induction fuel as [|fuel IH]; intros i Hf; cbn [look_for].
  - rewrite (bool_decide_eq_true_2 (length line <= i)%nat), orb_true_r by lia.
    rewrite drop_ge, char_at_end by lia. by rewrite bool_decide_eq_true_2.
  - destruct (decide (length line <= i)%nat) as [Hge|Hlt].
    + rewrite (bool_decide_eq_true_2 (length line <= i)%nat), orb_true_r by lia.
      rewrite drop_ge, char_at_end by lia. by rewrite bool_decide_eq_true_2.
    + rewrite (bool_decide_eq_false_2 (length line <= i)%nat), orb_false_r by lia.
      rewrite drop_step by lia. cbn [existsb]. case_bool_decide as E.
      * by rewrite E, Z.eqb_refl.
      * rewrite (proj2 (Z.eqb_neq c (char_at line i))) by done. by rewrite IH by lia.
Qed.

Lemma find_eq_spec fuel pre v :
  Forall (fun x => x <> KEYB) pre -> (length pre <= fuel)%nat ->
  find_eq fuel (pre ++ KEYB :: v) 0 = Some (length pre).
Proof.
  intros Hp Hf.
  assert (forall fuel i, (i <= length pre)%nat -> (length pre - i <= fuel)%nat ->
    find_eq fuel (pre ++ KEYB :: v) i = Some (length pre)) as Hgen; [|apply Hgen; lia].
  clear fuel Hf. intros fuel. induction fuel as [|fuel IH]; intros i Hi Hf; cbn [find_eq].
  all: destruct (decide (i = length pre)) as [->|Hne];
    [rewrite bool_decide_eq_true_2; [done|unfold char_at; by rewrite app_nth2, Nat.sub_diag by lia]|].
  - lia.
  - rewrite bool_decide_eq_false_2; [apply IH; lia|]. unfold char_at. rewrite app_nth1 by lia.
    rewrite Forall_forall in Hp. apply Hp, list_elem_of_In, nth_In. lia.
Qed.

Lemma substr_all line n : substr line n (-1) = if bool_decide (n <= length line)%nat then Some (drop n line) else None.
Proof. done. Qed.

Lemma substr_prefix pre v : substr (pre ++ v) 0 (Z.of_nat (length pre)) = Some pre.
Proof.
  unfold substr. rewrite bool_decide_eq_true_2 by lia. rewrite bool_decide_eq_false_2 by lia.
  by rewrite Nat2Z.id, drop_0, take_app_length.
Qed.

(** A section line, whatever its last character is. *)
Lemma decide_section name x : decideLineType (SECTB :: name ++ [x]) = Some (SECTION, name).
Proof.
  unfold decideLineType. rewrite skip_spaces_spec by lia. cbn [mbind option_bind].
  rewrite bool_decide_eq_true_2 by done. rewrite look_for_spec by (done || lia).
  cbn [mbind option_bind drop existsb]. rewrite Z.eqb_refl. cbn [orb].
  replace (Z.of_nat (length (SECTB :: name ++ [x])) - 2) with (Z.of_nat (length name))
    by (cbn; rewrite length_app; cbn; lia).
  unfold substr. rewrite bool_decide_eq_true_2 by (cbn; lia).
  rewrite bool_decide_eq_false_2 by lia. cbn [mbind option_bind].
  change (drop 1 (SECTB :: name ++ [x])) with (name ++ [x]). by rewrite Nat2Z.id, take_app_length.
Qed.

(** A key starts neither a section nor a comment and has no ['=']. *)
Definition good_key (k : bytes) : Prop :=
  Forall (fun x => x <> KEYB) k /\
  match k with [] => True | x :: _ => x <> SECTB /\ x <> COMTB end.

Lemma existsb_eq c xs : existsb (Z.eqb c) xs = bool_decide (c ∈ xs).
Proof.
  induction xs as [|x xs IH]; [done|]. cbn [existsb]. rewrite IH.
  destruct (Z.eqb_spec c x) as [->|Hne]; cbn [orb].
  - symmetry. apply bool_decide_eq_true_2. left.
  - apply bool_decide_ext. set_solver.
Qed.

Lemma decide_keyval k v :
  good_key k -> decideLineType (k ++ KEYB :: v) = Some (KEYVAL, k ++ KEYB :: v).
Proof.
  intros [Hk Hh]. unfold decideLineType. rewrite skip_spaces_spec by lia. cbn [mbind option_bind].
  assert (char_at (k ++ KEYB :: v) 0 <> SECTB /\ char_at (k ++ KEYB :: v) 0 <> COMTB) as [H1 H2]
    by (destruct k; done).
  rewrite !bool_decide_eq_false_2 by done.
  assert (forallb (Z.eqb SPACE) (drop 0 (k ++ KEYB :: v)) = false) as ->.
  { rewrite drop_0, forallb_app. cbn. by rewrite andb_false_r. }
  rewrite look_for_spec by (done || lia). cbn [mbind option_bind].
  rewrite drop_0, existsb_eq, bool_decide_eq_true_2 by set_solver. done.
Qed.

Lemma load_keyval st k v :
  good_key k ->
  load_line st (k ++ KEYB :: v) =
    Some (mk_load (is1stSec st) (section st) (map_insert k v (kvMap st)) (cMap st)).
Proof.
  intros Hk. unfold load_line. rewrite (decide_keyval k v Hk). cbn [mbind option_bind].
  rewrite find_eq_spec; [|apply Hk|rewrite length_app; lia].
  cbn [mbind option_bind]. rewrite substr_prefix. cbn [mbind option_bind].
  rewrite substr_all, bool_decide_eq_true_2 by (rewrite length_app; cbn; lia).
  cbn [mbind option_bind]. do 3 f_equal.
  rewrite drop_app_ge by lia. by replace (S (length k) - length k)%nat with 1%nat by lia.
Qed.

Lemma load_section st name x :
  load_line st (SECTB :: name ++ [x]) =
    Some (if is1stSec st then mk_load false name (kvMap st) (cMap st)
          else mk_load false name ∅ (map_insert (section st) (kvMap st) (cMap st))).
Proof. unfold load_line. by rewrite decide_section. Qed.

(** Every line is one of the four kinds: no search runs out and no [substr] throws. *)
Lemma load_line_total st line : exists st', load_line st line = Some st'.
Proof.
  unfold load_line, decideLineType.
  rewrite skip_spaces_spec by lia. cbn [mbind option_bind].
  rewrite !look_for_spec by (done || lia). cbn [mbind option_bind]. rewrite !drop_0.
  case_bool_decide as Hs.
  - destruct line as [|x line]; [done|]. cbn in Hs. subst x.
    cbn [existsb]. rewrite Z.eqb_refl. cbn [orb]. unfold substr.
    rewrite bool_decide_eq_true_2 by (cbn; lia). cbn [mbind option_bind]. eauto.
  - case_bool_decide; [eauto|]. destruct (forallb _ _); [eauto|].
    destruct (existsb (Z.eqb KEYB) line) eqn:E; [|eauto]. cbn [mbind option_bind].
    rewrite existsb_eq, bool_decide_eq_true in E.
    apply list_elem_of_split_l in E as (k & v & -> & Hk).
    rewrite find_eq_spec.
    + cbn [mbind option_bind]. rewrite substr_prefix. cbn [mbind option_bind].
      rewrite substr_all, bool_decide_eq_true_2 by (rewrite length_app; cbn; lia).
      cbn [mbind option_bind]. eauto.
    + apply Forall_forall. intros x Hx ->. done.
    + rewrite length_app. lia.
Qed.

Lemma load_lines_total st ls : exists st', load_lines st ls = Some st'.
Proof.
  revert st. induction ls as [|l ls IH]; intros st; cbn [load_lines]; [eauto|].
  destruct (load_line_total st l) as [st1 ->]. apply IH.
Qed.

Lemma load_lines_app st ls ls' :
  load_lines st (ls ++ ls') = (st1 ← load_lines st ls; load_lines st1 ls').
Proof.
  revert st. induction ls as [|l ls IH]; intros st; cbn [app load_lines]; [done|].
  destruct (load_line st l); cbn [mbind option_bind]; [apply IH|done].
Qed.
End lines.

(** ** What a file means *)
(** A configuration: sections in order, each with its entries in order. *)
Abbreviation config := (list (bytes * list (bytes * bytes))).

Fixpoint assoc {V} (l : list (bytes * V)) (k : bytes) : option V :=
  match l with
  | [] => None
  | (k', v) :: l => if bool_decide (k' = k) then Some v else assoc l k
  end.

(** The first section of a name counts, and in it the first entry of a key. *)
Definition config_lookup (cfg : config) (s k : bytes) : bytes :=
  match assoc cfg s with Some kvs => default [] (assoc kvs k) | None => [] end.

Definition SECTE : Z := 93.
Definition render_entry (kv : bytes * bytes) : bytes := fst kv ++ KEYB :: snd kv.
Definition render_section (sec : bytes * list (bytes * bytes)) : list bytes :=
  (SECTB :: fst sec ++ [SECTE]) :: map render_entry (snd sec).
Definition render (cfg : config) : list bytes := concat (map render_section cfg).

Definition good_config (cfg : config) : Prop :=
  Forall (fun sec => Forall (fun kv => good_key (fst kv)) (snd sec)) cfg.

Definition insert_all {V} (l : list (bytes * V)) (m : gmap bytes V) : gmap bytes V :=
  fold_left (fun m kv => map_insert (fst kv) (snd kv) m) l m.

Lemma lookup_map_insert {V} k (v : V) m k' :
  map_insert k v m !! k' = match m !! k' with
                           | Some x => Some x
                           | None => if bool_decide (k = k') then Some v else None
                           end.
Proof.
  unfold map_insert. destruct (m !! k) as [x|] eqn:E.
  - destruct (m !! k') eqn:E'; [done|]. rewrite bool_decide_eq_false_2; [done|congruence].
  - case_bool_decide as Hk; [subst; by rewrite E, lookup_insert_eq|].
    rewrite lookup_insert_ne by done. by destruct (m !! k').
Qed.

Lemma lookup_insert_all {V} (l : list (bytes * V)) m k :
  insert_all l m !! k = match m !! k with Some x => Some x | None => assoc l k end.
Proof.
  revert m. induction l as [|[k' v] l IH]; intros m; cbn [insert_all fold_left assoc fst snd].
  - by destruct (m !! k).
  - unfold insert_all in IH. rewrite IH, lookup_map_insert.
    destruct (m !! k); [done|]. by case_bool_decide.
Qed.

Lemma load_entries st kvs ls :
  Forall (fun kv => good_key (fst kv)) kvs ->
  load_lines st (map render_entry kvs ++ ls) =
    load_lines (mk_load (is1stSec st) (section st) (insert_all kvs (kvMap st)) (cMap st)) ls.
Proof.
  intros Hk. revert st. induction Hk as [|[k v] kvs Hg Hk IH]; intros st; [by destruct st|].
  cbn [map app load_lines]. change (render_entry (k, v)) with (k ++ KEYB :: v).
  rewrite load_keyval by done. cbn [mbind option_bind]. by rewrite IH.
Qed.

(** The maps of the sections, as built from the first entries. *)
Definition sec_maps (cfg : config) : list (bytes * gmap bytes bytes) :=
  map (fun sec => (fst sec, insert_all (snd sec) ∅)) cfg.

Lemma load_sections cfg s kv m :
  good_config cfg ->
  exists st, load_lines (mk_load false s kv m) (render cfg) = Some st /\
    map_insert (section st) (kvMap st) (cMap st) = insert_all ((s, kv) :: sec_maps cfg) m.
Proof.
  intros Hg. revert s kv m. induction Hg as [|[s' kvs] cfg Hk Hg IH]; intros s kv m.
  - eexists. split; [done|]. done.
  - unfold render. cbn [map concat render_section fst snd app load_lines].
    rewrite load_section. cbn [mbind option_bind is1stSec section kvMap cMap].
    rewrite load_entries by done. cbn [is1stSec section kvMap cMap].
    destruct (IH s' (insert_all kvs ∅) (map_insert s kv m)) as (st & E & Hm).
    exists st. split; [exact E|]. rewrite Hm. done.
Qed.

Lemma loadConfig2Map_render cfg :
  good_config cfg -> cfg <> [] -> loadConfig2Map (render cfg) ∅ = Some (insert_all (sec_maps cfg) ∅).
Proof.
  intros Hg Hne. destruct Hg as [|[s kvs] cfg Hk Hg]; [done|]. unfold loadConfig2Map, render.
  cbn [map concat render_section fst snd app load_lines].
  rewrite load_section. cbn [mbind option_bind is1stSec section kvMap cMap].
  rewrite load_entries by done. cbn [is1stSec section kvMap cMap].
  destruct (load_sections cfg s (insert_all kvs ∅) ∅ Hg) as (st & E & Hm).
  unfold render in E. rewrite E. cbn [mbind option_bind]. by rewrite Hm.
Qed.

Lemma assoc_sec_maps cfg s :
  assoc (sec_maps cfg) s = (fun kvs => insert_all kvs ∅) <$> assoc cfg s.
Proof.
  induction cfg as [|[s' kvs] cfg IH]; [done|]. cbn [sec_maps map assoc fst snd].
  case_bool_decide; [done|exact IH].
Qed.

(** ** Properties *)
(** C40. Round trip: loading the rendering of a configuration gives, for every section and
    key, the value of the first such entry of the first such section, and the empty
    string where there is none. *)
Theorem config_round_trip (fs : bytes -> option (list bytes)) (file : bytes) (cfg : config)
    (c : ConfigParser) :
  good_config cfg -> cfg <> [] -> fs file = Some (render cfg) ->
  exists c', load fs file c = Some c' /\
    forall s k, getValueByKey c' s k = config_lookup cfg s k.
Proof.
  intros Hg Hne Hfs. unfold load, read_lines. rewrite Hfs. cbn [from_option id].
  rewrite loadConfig2Map_render by done. cbn [mbind option_bind].
  eexists. split; [done|]. intros s k. unfold getValueByKey, config_lookup; cbn [configMap].
  rewrite lookup_insert_all, lookup_empty, assoc_sec_maps.
  destruct (assoc cfg s) as [kvs|]; [|done]. cbn [fmap option_fmap option_map].
  by rewrite lookup_insert_all, lookup_empty.
Qed.

Definition demo_config : config :=
  [(str "server", [(str "port", str "80"); (str "host", str "a=b"); (str "port", str "81")]);
   (str "log", []); (str "server", [(str "port", str "90")])].

Lemma config_round_trip_witness :
  exists c', load (fun _ => Some (render demo_config)) (str "f") ConfigParser_new = Some c' /\
    forall s k, getValueByKey c' s k = config_lookup demo_config s k.
Proof.
  apply (config_round_trip (fun _ => Some (render demo_config)) (str "f") demo_config ConfigParser_new).
  - repeat constructor; done.
  - done.
  - done.
Defined.

(** Loading never fails: for every file, whatever its lines, no scan runs off the end
    of a line, no [substr] throws, every loop terminates, and a missing file leaves the
    configuration as it was. *)
Theorem config_load_total (fs : bytes -> option (list bytes)) (file : bytes) (c : ConfigParser) :
  (exists c', load fs file c = Some c' /\ (fs file = None -> configMap c' = configMap c)) /\
  (exists c', reload fs c = Some c').
Proof.
  assert (forall ls m, exists m', loadConfig2Map ls m = Some m') as Htot.
  { intros ls m. unfold loadConfig2Map.
    destruct (load_lines_total (mk_load true [] ∅ m) ls) as [st ->]. eauto. }
  unfold load, reload. split.
  - destruct (fs file); [|by eexists].
    destruct (Htot (read_lines fs file) ∅) as [m ->]. cbn [mbind option_bind]. by eexists.
  - destruct (Htot (read_lines fs (filename c)) ∅) as [m ->]. cbn [mbind option_bind]. eauto.
Qed.

(** The closing bracket is not looked at: the search for the end of a section name
    tests for the opening bracket again and succeeds at once, so whatever the last
    character is, it is cut off; "[log" names the section "lo". And entries before the first
    section are filed under it. *)
Theorem config_section_end (fs : bytes -> option (list bytes)) (file name k v : bytes) (x : Z)
    (c : ConfigParser) :
  good_key k -> fs file = Some [k ++ KEYB :: v; SECTB :: name ++ [x]] ->
  exists c', load fs file c = Some c' /\ getValueByKey c' name k = v.
Proof.
  intros Hk Hfs. unfold load, read_lines, loadConfig2Map. rewrite Hfs. cbn [from_option id load_lines].
  rewrite load_keyval by done. cbn [mbind option_bind is1stSec section kvMap cMap].
  rewrite load_section. cbn [mbind option_bind is1stSec section kvMap cMap].
  eexists. split; [done|]. unfold getValueByKey; cbn [configMap].
  rewrite lookup_map_insert, lookup_empty, bool_decide_eq_true_2 by done.
  by rewrite lookup_map_insert, lookup_empty, bool_decide_eq_true_2 by done.
Qed.

Lemma config_section_end_witness :
  exists c', load (fun _ => Some [str "level=1"; str "[log"]) (str "f") ConfigParser_new = Some c' /\
    getValueByKey c' (str "lo") (str "level") = str "1".
Proof.
  apply (config_section_end (fun _ => Some [str "level=1"; str "[log"]) (str "f") (str "lo")
    (str "level") (str "1") 103 ConfigParser_new).
  - split; [repeat constructor; done|done].
  - done.
Defined.
