(* ===== verification/LibChan.v ===== *)
(** * chan.c and co_cond.c: channels between coroutines

    The operations run under the channel's [co_mutex] (see [CoMutex.v]), so an execution is
    a sequence of critical sections, each from taking the lock to a wait or to the return.
    A condition variable is its list of waiting tasks in order; [co_cond_signal] takes
    out the first and resumes it. The messages are in a queue, used through its
    interface ([Interfaces.v]). *)
From S2P Require Import Prelude Interfaces Lists Deque.
From stdpp Require Import fin_map_dom.
Local Open Scope Z_scope.

(** Where a task is: about to take the lock and test ([Send], [Recv], and [NSend],
    [NRecv] on an unbuffered channel), in a wait on [not_full] or [not_empty], or woken
    in [chan_nobuffer_send] after its message was stored. *)
Inductive pc :=
  | Send (x : ptr) | SendWait (x : ptr)
  | Recv | RecvWait
  | NSend (x : ptr) | NSendWait (x : ptr) (sent : bool) | NSendSent
  | NRecv | NRecvWait
  | Done (res : option ptr).

Record chan_t (Q : Type) := mk_chan {
  msgs : Q;
  nelems : Z;
  elem_size : Z;
  not_full : list nat;
  not_empty : list nat;
  pcs : gmap nat pc;
  sent_log : list ptr;
  recv_log : list ptr
}.
Arguments mk_chan {Q}. Arguments msgs {Q}. Arguments nelems {Q}. Arguments elem_size {Q}.
Arguments not_full {Q}. Arguments not_empty {Q}. Arguments pcs {Q}.
Arguments sent_log {Q}. Arguments recv_log {Q}.

Section chan.
Context {Q : Type} `{!Queue Q}.
(** The address that [malloc] returns for the copy of a message. *)
Context (copy : ptr -> ptr).
Implicit Types (c : chan_t Q) (x : ptr).

(** [chan_open] on an initialised queue; sizes are [unsigned int]. *)
Definition chan_open (q : Q) (n size : Z) : chan_t Q := mk_chan q (u32 n) (u32 size) [] [] ∅ [] [].

Definition chan_msgs_empty c : bool := queue_empty (msgs c).
Definition chan_msgs_full c : bool :=
  bool_decide (u32 (queue_size (msgs c)) = nelems c) ||
  (bool_decide (nelems c = 0) && bool_decide (queue_size (msgs c) = 1)).
Definition chan_buffered c : bool := bool_decide (i32 (nelems c) <> 0).
Definition chan_size c : Z := queue_size (msgs c).

Definition chan_push_msg x c : option (chan_t Q) :=
  let nmsg := if bool_decide (elem_size c <> 0 /\ x <> NULL) then copy x else x in
  q ← queue_push nmsg (msgs c);
  Some (mk_chan q (nelems c) (elem_size c) (not_full c) (not_empty c) (pcs c)
          (sent_log c ++ [nmsg]) (recv_log c)).

Definition chan_pop_msg c : option (ptr * chan_t Q) :=
  '(x, q) ← queue_pop (msgs c);
  Some (x, mk_chan q (nelems c) (elem_size c) (not_full c) (not_empty c) (pcs c)
             (sent_log c) (recv_log c ++ [x])).

Definition set_pc (t : nat) (p : pc) c : chan_t Q :=
  mk_chan (msgs c) (nelems c) (elem_size c) (not_full c) (not_empty c) (<[t := p]> (pcs c))
    (sent_log c) (recv_log c).

(** [co_cond_wait]: join the list; the rest of the wait is the task's state. *)
Definition wait_full (t : nat) (p : pc) c : chan_t Q :=
  mk_chan (msgs c) (nelems c) (elem_size c) (not_full c ++ [t]) (not_empty c) (<[t := p]> (pcs c))
    (sent_log c) (recv_log c).
Definition wait_empty (t : nat) (p : pc) c : chan_t Q :=
  mk_chan (msgs c) (nelems c) (elem_size c) (not_full c) (not_empty c ++ [t]) (<[t := p]> (pcs c))
    (sent_log c) (recv_log c).

Definition woken (p : pc) : pc :=
  match p with
  | SendWait x => Send x
  | RecvWait => Recv
  | NSendWait x sent => if sent : bool then NSendSent else NSend x
  | NRecvWait => NRecv
  | p => p
  end.

Definition resume (t : nat) (m : gmap nat pc) : gmap nat pc := alter woken t m.

(** [co_cond_signal] *)
Definition signal_full c : chan_t Q :=
  match not_full c with
  | [] => c
  | t :: ts => mk_chan (msgs c) (nelems c) (elem_size c) ts (not_empty c) (resume t (pcs c))
                 (sent_log c) (recv_log c)
  end.
Definition signal_empty c : chan_t Q :=
  match not_empty c with
  | [] => c
  | t :: ts => mk_chan (msgs c) (nelems c) (elem_size c) (not_full c) ts (resume t (pcs c))
                 (sent_log c) (recv_log c)
  end.

(** The critical section that [t] runs next. *)
Definition run (t : nat) c : option (chan_t Q) :=
  match pcs c !! t with
  | Some (Send x) =>
      if chan_msgs_full c then Some (wait_full t (SendWait x) c)
      else c ← chan_push_msg x c; Some (set_pc t (Done None) (signal_empty c))
  | Some Recv =>
      if chan_msgs_empty c then Some (wait_empty t RecvWait c)
      else '(x, c) ← chan_pop_msg c; Some (set_pc t (Done (Some x)) (signal_full c))
  | Some (NSend x) =>
      if chan_msgs_empty c then
        c ← chan_push_msg x c;
        let c := signal_empty c in
        Some (if chan_msgs_empty c then set_pc t (Done None) c
              else wait_full t (NSendWait x true) c)
      else Some (wait_full t (NSendWait x false) c)
  | Some NSendSent => Some (set_pc t (Done None) c)
  | Some NRecv =>
      if chan_msgs_empty c then Some (wait_empty t NRecvWait c)
      else '(x, c) ← chan_pop_msg c;
           Some (set_pc t (Done (Some x)) (signal_full (signal_full c)))
  | _ => None
  end.

Inductive act := CallSend (t : nat) (x : ptr) | CallRecv (t : nat) | Run (t : nat).

Definition idle (p : option pc) : bool :=
  match p with None | Some (Done _) => true | _ => false end.

(** [chan_send] and [chan_recv] choose by [chan_buffered]. *)
Definition step (a : act) c : option (chan_t Q) :=
  match a with
  | CallSend t x =>
      if idle (pcs c !! t)
      then Some (set_pc t (if chan_buffered c then Send x else NSend x) c) else None
  | CallRecv t =>
      if idle (pcs c !! t) then Some (set_pc t (if chan_buffered c then Recv else NRecv) c)
      else None
  | Run t => run t c
  end.

Fixpoint steps (acts : list act) c : option (chan_t Q) :=
  match acts with
  | [] => Some c
  | a :: acts => c ← step a c; steps acts c
  end.

(** [chan_close]: without the lock, and nobody is woken. *)
Definition chan_close c : option (chan_t Q) :=
  q ← queue_clear (msgs c);
  Some (mk_chan q (nelems c) (elem_size c) (not_full c) (not_empty c) (pcs c) (sent_log c) (recv_log c)).

(** ** Counting ready tasks *)
Definition count (f : pc -> bool) (m : gmap nat pc) : nat :=
  map_fold (fun _ p n => (if f p then 1 else 0) + n)%nat 0%nat m.

Lemma count_insert_new f t p m :
  m !! t = None -> count f (<[t := p]> m) = ((if f p then 1 else 0) + count f m)%nat.
Proof.
  intros Hm. unfold count. rewrite map_fold_insert_L; [done| |done]. intros. lia.
Qed.

Lemma count_insert f t p q m :
  m !! t = Some q ->
  (count f (<[t := p]> m) + (if f q then 1 else 0) = count f m + (if f p then 1 else 0))%nat.
Proof.
  intros Hm. rewrite <- (insert_delete_id m t q Hm) at 2. rewrite <- insert_delete_eq.
  rewrite !count_insert_new by apply lookup_delete_eq. lia.
Qed.

Lemma count_pos f m : (0 < count f m)%nat -> exists t p, m !! t = Some p /\ f p = true.
Proof.
  induction m as [|t p m Hm IH] using map_ind; [by unfold count; rewrite map_fold_empty; lia|].
  rewrite count_insert_new by done. destruct (f p) eqn:E.
  - intros _. exists t, p. by rewrite lookup_insert_eq.
  - intros Hc. destruct IH as (u & q & Hu & Hq); [lia|]. exists u, q. split; [|done].
    rewrite lookup_insert_ne; [done|congruence].
Qed.
End chan.

(** ** Invariant *)
Definition waits_full (p : pc) : bool :=
  match p with SendWait _ | NSendWait _ _ => true | _ => false end.
Definition waits_empty (p : pc) : bool := match p with RecvWait | NRecvWait => true | _ => false end.
Definition to_send (p : pc) : bool := match p with Send _ => true | _ => false end.
Definition to_recv (p : pc) : bool := match p with Recv | NRecv => true | _ => false end.
Definition nat_of (b : bool) : Z := if b then 1 else 0.

(** An operation of the channel's kind. *)
Definition kind (buffered : bool) (p : pc) : bool :=
  match p with
  | Send _ | SendWait _ | Recv | RecvWait => buffered
  | NSend _ | NSendWait _ _ | NSendSent | NRecv | NRecvWait => negb buffered
  | Done _ => true
  end.

Section inv.
Context {Q : Type} `{!Queue Q} (copy : ptr -> ptr).
Implicit Types (c : chan_t Q) (xs : list ptr).

Definition cap_of c : Z := if decide (nelems c = 0) then 1 else nelems c.

(** [dr] and [ds] measure how many ready receivers and senders are still owed in the
    middle of a critical section; both are zero between sections. *)
Record inv (dr ds : Z) c xs : Prop := {
  inv_rep : queue_rep (msgs c) xs;
  inv_nelems : 0 <= nelems c < INT_MAX;
  inv_log : sent_log c = recv_log c ++ xs;
  inv_cap : Z.of_nat (length xs) <= cap_of c;
  inv_nodup_full : NoDup (not_full c);
  inv_nodup_empty : NoDup (not_empty c);
  inv_full : forall t, t ∈ not_full c <-> exists p, pcs c !! t = Some p /\ waits_full p = true;
  inv_empty : forall t, t ∈ not_empty c <-> exists p, pcs c !! t = Some p /\ waits_empty p = true;
  inv_kind : forall t p, pcs c !! t = Some p -> kind (chan_buffered c) p = true;
  inv_recv : not_empty c <> [] ->
    Z.of_nat (length xs) <= Z.of_nat (count to_recv (pcs c)) + dr;
  inv_send : nelems c <> 0 -> not_full c <> [] ->
    nelems c - Z.of_nat (length xs) <= Z.of_nat (count to_send (pcs c)) + ds
}.

Lemma chan_buffered_spec c : 0 <= nelems c < INT_MAX -> chan_buffered c = bool_decide (nelems c <> 0).
Proof. intros. unfold chan_buffered. by rewrite i32_small by (unfold INT_MAX in *; lia). Qed.

Lemma count_insert_Z f t p q (m : gmap nat pc) :
  m !! t = Some q ->
  Z.of_nat (count f (<[t := p]> m)) = Z.of_nat (count f m) + nat_of (f p) - nat_of (f q).
Proof.
  intros Hm. pose proof (count_insert f t p q m Hm). unfold nat_of.
  destruct (f p), (f q); lia.
Qed.

(** A task that waits for nothing moves to a point where it waits for nothing. *)
Lemma lchan_set_pc_inv dr ds c xs t p q :
  inv dr ds c xs -> pcs c !! t = Some q ->
  waits_full q = false -> waits_empty q = false -> waits_full p = false -> waits_empty p = false ->
  kind (chan_buffered c) p = true ->
  inv (dr + nat_of (to_recv q) - nat_of (to_recv p)) (ds + nat_of (to_send q) - nat_of (to_send p))
    (set_pc t p c) xs.
Proof.
  intros [] Hq Hqf Hqe Hpf Hpe Hk. constructor; cbn; try done.
  - intros u. rewrite inv_full0. destruct (decide (u = t)) as [->|Hne].
    + rewrite lookup_insert_eq. naive_solver congruence.
    + by rewrite lookup_insert_ne.
  - intros u. rewrite inv_empty0. destruct (decide (u = t)) as [->|Hne].
    + rewrite lookup_insert_eq. naive_solver congruence.
    + by rewrite lookup_insert_ne.
  - intros u p' Hu. destruct (decide (u = t)) as [->|Hne].
    + rewrite lookup_insert_eq in Hu. by simplify_eq.
    + rewrite lookup_insert_ne in Hu by done. by eapply inv_kind0.
  - intros Hne. rewrite (count_insert_Z _ _ _ _ _ Hq). specialize (inv_recv0 Hne). lia.
  - intros Hn Hne. rewrite (count_insert_Z _ _ _ _ _ Hq). specialize (inv_send0 Hn Hne). lia.
Qed.

(** A new caller. *)
Lemma call_inv c xs t p :
  inv 0 0 c xs -> idle (pcs c !! t) = true ->
  waits_full p = false -> waits_empty p = false -> kind (chan_buffered c) p = true ->
  inv 0 0 (set_pc t p c) xs.
Proof.
  intros Hi Hid Hpf Hpe Hk. destruct (pcs c !! t) as [q|] eqn:Hq.
  - destruct q; try discriminate Hid.
    destruct (lchan_set_pc_inv 0 0 c xs t p (Done res) Hi Hq); try done.
    constructor; try done; cbn in *; intros; unfold nat_of in *; repeat case_match; naive_solver lia.
  - destruct Hi. constructor; cbn; try done.
    + intros u. rewrite inv_full0. destruct (decide (u = t)) as [->|Hne].
      * rewrite lookup_insert_eq. naive_solver congruence.
      * by rewrite lookup_insert_ne.
    + intros u. rewrite inv_empty0. destruct (decide (u = t)) as [->|Hne].
      * rewrite lookup_insert_eq. naive_solver congruence.
      * by rewrite lookup_insert_ne.
    + intros u p' Hu. destruct (decide (u = t)) as [->|Hne].
      * rewrite lookup_insert_eq in Hu. by simplify_eq.
      * rewrite lookup_insert_ne in Hu by done. by eapply inv_kind0.
    + intros Hne. rewrite count_insert_new by done. specialize (inv_recv0 Hne). lia.
    + intros Hn Hne. rewrite count_insert_new by done. specialize (inv_send0 Hn Hne). lia.
Qed.

Lemma chan_msgs_empty_spec dr ds c xs : inv dr ds c xs -> chan_msgs_empty c = bool_decide (xs = []).
Proof. intros Hi. apply queue_empty_spec, (inv_rep _ _ _ _ Hi). Qed.

Lemma chan_msgs_full_spec dr ds c xs :
  inv dr ds c xs -> nelems c <> 0 ->
  chan_msgs_full c = bool_decide (Z.of_nat (length xs) = nelems c).
Proof.
  intros Hi Hn. pose proof (inv_cap _ _ _ _ Hi) as Hc. pose proof (inv_nelems _ _ _ _ Hi).
  unfold chan_msgs_full, cap_of in *. rewrite decide_False in Hc by done.
  rewrite (queue_size_spec _ _ (inv_rep _ _ _ _ Hi)).
  rewrite u32_small by (unfold INT_MAX in *; lia).
  rewrite <- bool_decide_and, <- bool_decide_or. apply bool_decide_ext. lia.
Qed.

(** ** The parts of a critical section *)
Lemma push_inv c xs x :
  inv 0 0 c xs -> Z.of_nat (length xs) < cap_of c ->
  exists y c', chan_push_msg copy x c = Some c' /\ inv 1 (-1) c' (xs ++ [y]) /\
    not_full c' = not_full c /\ nelems c' = nelems c /\ pcs c' = pcs c.
Proof.
  intros [] Hl. unfold chan_push_msg. set (y := if bool_decide _ then _ else _).
  destruct (queue_push_spec (msgs c) xs y inv_rep0) as (q & Hq & Hr).
  { unfold cap_of in Hl. unfold INT_MAX in *. case_decide; lia. }
  rewrite Hq. exists y. eexists. split_and!; [done| |done..].
  constructor; cbn; rewrite ?length_app; cbn; try done.
  - by rewrite inv_log0, app_assoc.
  - unfold cap_of in *. cbn. lia.
  - intros Hne. specialize (inv_recv0 Hne). lia.
  - intros Hn Hne. specialize (inv_send0 Hn Hne). lia.
Qed.

Lemma lchan_pop_inv c x xs :
  inv 0 0 c (x :: xs) ->
  exists c', chan_pop_msg c = Some (x, c') /\ inv (-1) 1 c' xs /\ nelems c' = nelems c /\
    pcs c' = pcs c.
Proof.
  intros []. unfold chan_pop_msg.
  destruct (queue_pop_spec (msgs c) x xs inv_rep0) as (q & Hq & Hr). rewrite Hq.
  eexists. split_and!; [done| |done..]. cbn in *. constructor; cbn; try done.
  - by rewrite inv_log0, <- app_assoc.
  - unfold cap_of in *. cbn. lia.
  - intros Hne. specialize (inv_recv0 Hne). lia.
  - intros Hn Hne. specialize (inv_send0 Hn Hne). lia.
Qed.

Lemma woken_kind b p : kind b p = true -> kind b (woken p) = true.
Proof. by destruct p as [| | | | |? []| | | |]. Qed.
Lemma woken_full p : waits_full (woken p) = false.
Proof. by destruct p as [| | | | |? []| | | |]. Qed.
Lemma woken_empty p : waits_empty (woken p) = false.
Proof. by destruct p as [| | | | |? []| | | |]. Qed.
Lemma full_not_empty p : waits_full p = true -> waits_empty p = false.
Proof. by destruct p. Qed.
Lemma empty_not_full p : waits_empty p = true -> waits_full p = false.
Proof. by destruct p. Qed.
Lemma woken_counts p :
  (waits_full p = true -> to_recv (woken p) = false /\ to_recv p = false /\ to_send p = false) /\
  (waits_empty p = true -> to_recv (woken p) = true /\ to_send (woken p) = false /\
     to_recv p = false /\ to_send p = false).
Proof. by destruct p as [| | | | |? []| | | |]. Qed.

(** A task that leaves its wait list; [f] is the list's predicate. *)
Lemma woken_list (f : pc -> bool) (m : gmap nat pc) t ts p :
  (forall p, f (woken p) = false) -> NoDup (t :: ts) -> m !! t = Some p ->
  (forall u, u ∈ t :: ts <-> exists q, m !! u = Some q /\ f q = true) ->
  forall u, u ∈ ts <-> exists q, <[t := woken p]> m !! u = Some q /\ f q = true.
Proof.
  intros Hf [Hn _]%NoDup_cons Hp Hin u. destruct (decide (u = t)) as [->|Hne].
  - rewrite lookup_insert_eq. split; [done|]. intros (q & [= <-] & Hq). by rewrite Hf in Hq.
  - rewrite lookup_insert_ne by done. rewrite <- Hin, elem_of_cons. naive_solver.
Qed.

(** The other wait list does not change. *)
Lemma woken_other (f : pc -> bool) (m : gmap nat pc) (ts : list nat) t p :
  (forall p, f (woken p) = false) -> m !! t = Some p -> f p = false ->
  (forall u, u ∈ ts <-> exists q, m !! u = Some q /\ f q = true) ->
  forall u, u ∈ ts <-> exists q, <[t := woken p]> m !! u = Some q /\ f q = true.
Proof.
  intros Hf Hp Hfp Hin u. rewrite Hin. destruct (decide (u = t)) as [->|Hne].
  - rewrite lookup_insert_eq, Hp. specialize (Hf p). naive_solver congruence.
  - by rewrite lookup_insert_ne.
Qed.

Lemma resume_insert t p (m : gmap nat pc) : m !! t = Some p -> resume t m = <[t := woken p]> m.
Proof. intros Hp. unfold resume. by rewrite <- (alter_insert_eq m t), insert_id. Qed.

Lemma insert_kind c t p :
  (forall t p, pcs c !! t = Some p -> kind (chan_buffered c) p = true) ->
  kind (chan_buffered c) p = true ->
  forall u q, <[t := p]> (pcs c) !! u = Some q -> kind (chan_buffered c) q = true.
Proof.
  intros Hk Hp u q. destruct (decide (u = t)) as [->|Hne].
  - rewrite lookup_insert_eq. by intros [= <-].
  - rewrite lookup_insert_ne by done. apply Hk.
Qed.

Lemma signal_full_inv dr ds c xs : inv dr ds c xs -> inv dr (ds - 1) (signal_full c) xs.
Proof.
  intros Hi. unfold signal_full. destruct (not_full c) as [|t ts] eqn:E.
  { by destruct Hi; constructor. }
  destruct Hi. rewrite E in *.
  destruct (proj1 (inv_full0 t) ltac:(left)) as (p & Hp & Hw).
  pose proof (full_not_empty p Hw) as Hw'.
  destruct (proj1 (woken_counts p) Hw) as (C1 & C2 & C3).
  constructor; cbn; rewrite ?(resume_insert t p) by done; try done.
  - by apply NoDup_cons in inv_nodup_full0 as [_ ?].
  - by apply woken_list; [apply woken_full|..].
  - apply woken_other; [apply woken_empty|done..].
  - apply (insert_kind c); [done|]. by eapply woken_kind, inv_kind0.
  - intros Hne. rewrite (count_insert_Z _ _ _ _ _ Hp), C1, C2. specialize (inv_recv0 Hne). cbn. lia.
  - intros Hn Hne. rewrite (count_insert_Z _ _ _ _ _ Hp), C3. specialize (inv_send0 Hn ltac:(done)).
    pose proof (inv_kind0 _ _ Hp) as Hk. rewrite chan_buffered_spec, bool_decide_eq_true_2 in Hk by done.
    destruct p; try discriminate Hw; try discriminate Hk. cbn. lia.
Qed.

Lemma signal_empty_inv dr ds c xs : inv dr ds c xs -> inv (dr - 1) ds (signal_empty c) xs.
Proof.
  intros Hi. unfold signal_empty. destruct (not_empty c) as [|t ts] eqn:E.
  { by destruct Hi; constructor. }
  destruct Hi. rewrite E in *.
  destruct (proj1 (inv_empty0 t) ltac:(left)) as (p & Hp & Hw).
  pose proof (empty_not_full p Hw) as Hw'.
  destruct (proj2 (woken_counts p) Hw) as (C1 & C2 & C3 & C4).
  constructor; cbn; rewrite ?(resume_insert t p) by done; try done.
  - by apply NoDup_cons in inv_nodup_empty0 as [_ ?].
  - apply woken_other; [apply woken_full|done..].
  - by apply woken_list; [apply woken_empty|..].
  - apply (insert_kind c); [done|]. by eapply woken_kind, inv_kind0.
  - intros Hne. rewrite (count_insert_Z _ _ _ _ _ Hp), C1, C3. specialize (inv_recv0 ltac:(done)).
    cbn. lia.
  - intros Hn Hne. rewrite (count_insert_Z _ _ _ _ _ Hp), C2, C4. specialize (inv_send0 Hn Hne).
    cbn. lia.
Qed.

Lemma wait_full_inv ds c xs t p q :
  inv 0 ds c xs -> pcs c !! t = Some q -> waits_full q = false -> waits_empty q = false ->
  waits_full p = true -> kind (chan_buffered c) p = true -> to_recv q = false ->
  (nelems c <> 0 -> nelems c <= Z.of_nat (length xs)) ->
  inv 0 0 (wait_full t p c) xs.
Proof.
  intros [] Hq Hqf Hqe Hp Hk Hr Hfull. pose proof (full_not_empty p Hp).
  assert (t ∉ not_full c) as Hn by (rewrite inv_full0; naive_solver congruence).
  constructor; cbn; try done.
  - apply NoDup_app. split_and!; [done| |by apply NoDup_singleton]. set_solver.
  - intros u. rewrite elem_of_app, list_elem_of_singleton, inv_full0.
    destruct (decide (u = t)) as [->|Hne]; [rewrite lookup_insert_eq; naive_solver|].
    rewrite lookup_insert_ne by done. naive_solver.
  - intros u. rewrite inv_empty0.
    destruct (decide (u = t)) as [->|Hne]; [rewrite lookup_insert_eq; naive_solver congruence|].
    by rewrite lookup_insert_ne.
  - by apply (insert_kind c).
  - intros Hne. rewrite (count_insert_Z _ _ _ _ _ Hq), Hr. specialize (inv_recv0 Hne).
    destruct p; try discriminate Hp; cbn; lia.
  - intros Hz _. specialize (Hfull Hz). lia.
Qed.

Lemma wait_empty_inv c t p q :
  inv 0 0 c [] -> pcs c !! t = Some q -> waits_full q = false -> waits_empty q = false ->
  waits_empty p = true -> kind (chan_buffered c) p = true -> to_send q = false ->
  inv 0 0 (wait_empty t p c) [].
Proof.
  intros [] Hq Hqf Hqe Hp Hk Hs. pose proof (empty_not_full p Hp).
  assert (t ∉ not_empty c) as Hn by (rewrite inv_empty0; naive_solver congruence).
  constructor; cbn; try done.
  - apply NoDup_app. split_and!; [done| |by apply NoDup_singleton]. set_solver.
  - intros u. rewrite inv_full0.
    destruct (decide (u = t)) as [->|Hne]; [rewrite lookup_insert_eq; naive_solver congruence|].
    by rewrite lookup_insert_ne.
  - intros u. rewrite elem_of_app, list_elem_of_singleton, inv_empty0.
    destruct (decide (u = t)) as [->|Hne]; [rewrite lookup_insert_eq; naive_solver|].
    rewrite lookup_insert_ne by done. naive_solver.
  - by apply (insert_kind c).
  - lia.
  - intros Hz Hne. rewrite (count_insert_Z _ _ _ _ _ Hq), Hs. specialize (inv_send0 Hz Hne).
    destruct p; try discriminate Hp; cbn in *; lia.
Qed.

(** Resuming the head of a wait list leaves the tasks that do not wait where they are. *)
Lemma signal_full_pcs dr ds c xs t q :
  inv dr ds c xs -> pcs c !! t = Some q -> waits_full q = false ->
  pcs (signal_full c) !! t = Some q /\ nelems (signal_full c) = nelems c.
Proof.
  intros Hi Hq Hw. unfold signal_full. destruct (not_full c) as [|u us] eqn:E; [done|].
  split; [|done]. cbn. unfold resume. rewrite lookup_alter_ne; [done|]. intros ->.
  destruct (proj1 (inv_full _ _ _ _ Hi t)) as (p & ? & ?); [rewrite E; left|]. congruence.
Qed.
Lemma signal_empty_pcs dr ds c xs t q :
  inv dr ds c xs -> pcs c !! t = Some q -> waits_empty q = false ->
  pcs (signal_empty c) !! t = Some q /\ nelems (signal_empty c) = nelems c.
Proof.
  intros Hi Hq Hw. unfold signal_empty. destruct (not_empty c) as [|u us] eqn:E; [done|].
  split; [|done]. cbn. unfold resume. rewrite lookup_alter_ne; [done|]. intros ->.
  destruct (proj1 (inv_empty _ _ _ _ Hi t)) as (p & ? & ?); [rewrite E; left|]. congruence.
Qed.

(** The last step of an operation. *)
Lemma done_inv dr ds c xs t q r :
  inv dr ds c xs -> pcs c !! t = Some q -> waits_full q = false -> waits_empty q = false ->
  dr + nat_of (to_recv q) = 0 -> (nelems c <> 0 -> ds + nat_of (to_send q) <= 0) ->
  inv 0 0 (set_pc t (Done r) c) xs.
Proof.
  intros Hi Hq Hf He Hr Hs.
  destruct (lchan_set_pc_inv dr ds c xs t (Done r) q Hi Hq Hf He) as []; try done.
  constructor; try done; cbn in *.
  - intros Hne. specialize (inv_recv0 Hne). cbn in *. lia.
  - intros Hz Hne. specialize (inv_send0 Hz Hne). specialize (Hs Hz). cbn in *. lia.
Qed.

Lemma lchan_run_inv c xs t c' : inv 0 0 c xs -> run copy t c = Some c' -> exists ys, inv 0 0 c' ys.
Proof.
  intros Hi. unfold run. destruct (pcs c !! t) as [p|] eqn:Hp; [|done].
  pose proof (inv_kind _ _ _ _ Hi t p Hp) as Hk.
  rewrite chan_buffered_spec in Hk by apply Hi.
  destruct p as [x| | | |x| | | | |]; try done.
  - apply bool_decide_eq_true in Hk. rewrite (chan_msgs_full_spec 0 0 c xs) by done. case_bool_decide.
    + injection 1 as <-. exists xs. eapply wait_full_inv; eauto; [|lia].
      cbn. by rewrite chan_buffered_spec, bool_decide_eq_true by apply Hi.
    + pose proof (inv_cap _ _ _ _ Hi) as Hc. unfold cap_of in Hc. rewrite decide_False in Hc by done.
      destruct (push_inv c xs x Hi) as (y & c1 & -> & H1 & _ & Hn & Hpc).
      { unfold cap_of. rewrite decide_False by done. lia. }
      injection 1 as <-. exists (xs ++ [y]). rewrite <- Hpc in Hp.
      destruct (signal_empty_pcs _ _ _ _ _ _ H1 Hp) as [? _]; [done|].
      eapply done_inv; [by apply signal_empty_inv|done..].
  - rewrite (chan_msgs_empty_spec 0 0 c xs) by done. destruct xs as [|x xs].
    + injection 1 as <-. exists []. eapply wait_empty_inv; eauto.
      cbn. by rewrite chan_buffered_spec by apply Hi.
    + destruct (lchan_pop_inv c x xs Hi) as (c1 & -> & H1 & Hn & Hpc). cbn.
      injection 1 as <-. exists xs. rewrite <- Hpc in Hp.
      destruct (signal_full_pcs _ _ _ _ _ _ H1 Hp) as [? _]; [done|].
      eapply done_inv; [by apply signal_full_inv|done..].
  - apply negb_true_iff, bool_decide_eq_false, dec_stable in Hk.
    assert (forall q, kind false q = true -> kind (chan_buffered c) q = true) as Hb
      by (intros q; by rewrite chan_buffered_spec, bool_decide_eq_false_2 by (apply Hi || lia)).
    rewrite (chan_msgs_empty_spec 0 0 c xs) by done. case_bool_decide; subst.
    + destruct (push_inv c [] x Hi) as (y & c1 & -> & H1 & _ & Hn & Hpc).
      { unfold cap_of. by case_decide. }
      cbn. rewrite <- Hpc in Hp. destruct (signal_empty_pcs _ _ _ _ _ _ H1 Hp) as [Hp1 Hn1]; [done|].
      apply signal_empty_inv in H1.
      rewrite (chan_msgs_empty_spec _ _ _ _ H1), bool_decide_eq_false_2 by done.
      injection 1 as <-. exists [y]. eapply wait_full_inv; eauto; [|congruence].
      rewrite chan_buffered_spec, bool_decide_eq_false_2; [done|congruence|apply H1].
    + injection 1 as <-. exists xs. eapply wait_full_inv; eauto. congruence.
  - injection 1 as <-. exists xs. eapply done_inv; eauto; cbn; lia.
  - apply negb_true_iff, bool_decide_eq_false, dec_stable in Hk.
    rewrite (chan_msgs_empty_spec 0 0 c xs) by done. destruct xs as [|x xs].
    + injection 1 as <-. exists []. eapply wait_empty_inv; eauto.
      cbn. by rewrite chan_buffered_spec, bool_decide_eq_false_2 by (apply Hi || lia).
    + destruct (lchan_pop_inv c x xs Hi) as (c1 & -> & H1 & Hn & Hpc). cbn.
      injection 1 as <-. exists xs. rewrite <- Hpc in Hp.
      destruct (signal_full_pcs _ _ _ _ _ _ H1 Hp) as [Hp2 Hn2]; [done|].
      apply signal_full_inv in H1.
      destruct (signal_full_pcs _ _ _ _ _ _ H1 Hp2) as [Hp3 Hn3]; [done|].
      apply signal_full_inv in H1. eapply done_inv; [done..|congruence].
Qed.

Lemma lchan_step_inv c xs a c' : inv 0 0 c xs -> step copy a c = Some c' -> exists ys, inv 0 0 c' ys.
Proof.
  intros Hi Hs. destruct a as [t x|t|t]; cbn in Hs; [| |by eapply lchan_run_inv].
  - destruct (idle (pcs c !! t)) eqn:E; [|done]. injection Hs as <-. exists xs.
    apply call_inv; [done..| | |]; by destruct (chan_buffered c) eqn:Hb; rewrite ?Hb.
  - destruct (idle (pcs c !! t)) eqn:E; [|done]. injection Hs as <-. exists xs.
    apply call_inv; [done..| | |]; by destruct (chan_buffered c) eqn:Hb; rewrite ?Hb.
Qed.

Lemma open_inv q n size :
  queue_rep q [] -> 0 <= n < INT_MAX -> inv 0 0 (chan_open q n size) [].
Proof.
  intros Hq Hn. unfold INT_MAX in *. constructor; cbn; try done.
  - rewrite u32_small; unfold INT_MAX; lia.
  - unfold cap_of. cbn. rewrite u32_small by lia. case_decide; lia.
  - constructor.
  - constructor.
  - intros t. split; [by intros ?%elem_of_nil|]. intros (p & Hp & _). by rewrite lookup_empty in Hp.
  - intros t. split; [by intros ?%elem_of_nil|]. intros (p & Hp & _). by rewrite lookup_empty in Hp.
Qed.

Lemma lchan_steps_inv c xs acts c' : inv 0 0 c xs -> steps copy acts c = Some c' -> exists ys, inv 0 0 c' ys.
Proof.
  revert c xs. induction acts as [|a acts IH]; intros c xs Hi Hs; cbn in Hs; [simplify_eq; eauto|].
  destruct (step copy a c) as [c1|] eqn:E; [|done].
  destruct (lchan_step_inv c xs a c1 Hi E) as [ys Hy]. by eapply IH.
Qed.
Lemma run_nelems t c c' : run copy t c = Some c' -> nelems c' = nelems c.
Proof.
  unfold run, chan_push_msg, chan_pop_msg, signal_full, signal_empty.
  repeat (case_match; intros; inv_some; try done; simplify_eq/=; try done).
Qed.

Lemma steps_nelems acts c c' : steps copy acts c = Some c' -> nelems c' = nelems c.
Proof.
  revert c. induction acts as [|a acts IH]; intros c Hs; cbn in Hs; [by simplify_eq|].
  destruct (step copy a c) as [c1|] eqn:E; [|done]. rewrite (IH c1 Hs).
  destruct a; cbn in E; [| |by eapply run_nelems]; by destruct (idle _); simplify_eq.
Qed.
Lemma signal_full_logs c :
  sent_log (signal_full c) = sent_log c /\ recv_log (signal_full c) = recv_log c.
Proof. unfold signal_full. by destruct (not_full c). Qed.

(** A step that wakes a delivered sender is a receive. *)
Lemma run_wakes dr ds c xs t c' u x :
  inv dr ds c xs -> run copy t c = Some c' -> u <> t ->
  pcs c !! u = Some (NSendWait x true) -> pcs c' !! u = Some NSendSent ->
  exists y q, queue_pop (msgs c) = Some (y, q) /\ chan_msgs_empty c = false /\
    sent_log c' = sent_log c /\ recv_log c' = recv_log c ++ [y].
Proof.
  intros Hi Hrun Hne Hu Hu'. unfold run in Hrun.
  assert (forall c1 p, pcs c1 = pcs c -> not_empty c1 = not_empty c ->
    <[t := p]> (pcs (signal_empty c1)) !! u <> Some NSendSent) as Hse.
  { intros c1 p E1 E2. rewrite lookup_insert_ne by done. unfold signal_empty.
    rewrite E2. destruct (not_empty c) as [|v vs] eqn:E3; rewrite ?E1, ?Hu; [done|].
    cbn. rewrite ?E1. unfold resume. rewrite lookup_alter_ne; [by rewrite Hu|]. intros ->.
    destruct (proj1 (inv_empty _ _ _ _ Hi u)) as (p' & ? & ?); [rewrite E3; left|]. by simplify_eq. }
  destruct (pcs c !! t) as [p|] eqn:Hp; [|done].
  unfold chan_push_msg, chan_pop_msg in Hrun.
  destruct p; repeat (case_match; inv_some; try done); cbn in *;
    try (exfalso; revert Hu'; rewrite lookup_insert_ne by done; rewrite Hu; done);
    try (exfalso; revert Hu'; by eapply Hse); try discriminate Hrun;
    repeat rewrite (proj1 (signal_full_logs _)), (proj2 (signal_full_logs _)); eauto 10.
  injection Hrun as <-. cbn in Hu'. rewrite lookup_insert_ne in Hu' by done. by rewrite Hu in Hu'.
Qed.
End inv.

(** ** Properties *)
(** C20. A channel of coroutines, buffered or not, over any queue that keeps its contract:
    in every interleaving of any number of senders and receivers the messages are
    received in the order in which they were stored, none is lost or made up, and at
    most [nelems] (one, when the channel is unbuffered) are held. *)
Theorem libchan_fifo {Q} `{!Queue Q} copy (q : Q) n size acts c :
  queue_rep q [] -> 0 <= n < INT_MAX -> steps copy acts (chan_open q n size) = Some c ->
  exists rest, sent_log c = recv_log c ++ rest /\ queue_rep (msgs c) rest /\
    chan_size c = Z.of_nat (length rest) /\ chan_size c <= (if decide (n = 0) then 1 else n).
Proof.
  intros Hq Hn Hs. destruct (lchan_steps_inv copy _ _ _ _ (open_inv q n size Hq Hn) Hs) as [ys Hi].
  assert (nelems c = n) as En.
  { rewrite (steps_nelems _ _ _ _ Hs). cbn. apply u32_small. unfold INT_MAX in *. lia. }
  exists ys. pose proof (inv_cap _ _ _ _ Hi) as Hc. unfold cap_of in Hc. rewrite En in Hc.
  unfold chan_size. rewrite (queue_size_spec _ _ (inv_rep _ _ _ _ Hi)).
  split_and!; [apply Hi|apply Hi|done|done].
Qed.

(** A fresh queue of [queue.h]. *)
Definition demo_queue : deque_t * dmem :=
  default (mk_deque 0 1%positive, mk_dmem ∅ ∅) (deque_init 1%positive (mk_dmem demo_store ∅)).
#[local] Instance demo_impl : Queue (deque_t * dmem) := deque_queue (mk_list_t 1%positive 1%positive).

Lemma demo_queue_rep : queue_rep demo_queue [].
Proof.
  destruct (deque_init_rep 1%positive (mk_dmem demo_store ∅)) as (d & m & E & Hr & _);
    [apply elem_of_dom; by eexists|].
  exists []. unfold demo_queue. by rewrite E.
Qed.

(** A full channel of capacity one: the second sender waits until a receiver has run. *)
Definition demo_acts : list act :=
  [CallSend 1 11; Run 1; CallSend 2 12; Run 2; CallRecv 3; Run 3; Run 2].
Definition demo_chan : chan_t (deque_t * dmem) := chan_open demo_queue 1 0.
Definition demo_end : chan_t (deque_t * dmem) :=
  default demo_chan (steps id demo_acts demo_chan).

Lemma libchan_fifo_witness :
  exists rest, sent_log demo_end = recv_log demo_end ++ rest /\ queue_rep (msgs demo_end) rest /\
    chan_size demo_end = Z.of_nat (length rest) /\ chan_size demo_end <= 1.
Proof.
  apply (libchan_fifo id demo_queue 1 0 demo_acts demo_end demo_queue_rep).
  - unfold INT_MAX. lia.
  - apply defined_default. by vm_compute.
Defined.

(** C22. No lost wakeups: whenever a receiver waits while a message is there, some receiver
    is ready to take it; whenever a sender waits on a buffered channel that has room,
    some sender is ready to use it; every task that waits is in the list of its
    condition, once. *)
Theorem libchan_no_lost_wakeup {Q} `{!Queue Q} copy (q : Q) n size acts c :
  queue_rep q [] -> 0 <= n < INT_MAX -> steps copy acts (chan_open q n size) = Some c ->
  (forall t p, pcs c !! t = Some p -> waits_empty p = true ->
     t ∈ not_empty c /\
     (chan_size c <> 0 -> exists u p', pcs c !! u = Some p' /\ to_recv p' = true)) /\
  (forall t p, pcs c !! t = Some p -> waits_full p = true ->
     t ∈ not_full c /\
     (n <> 0 -> chan_size c < n -> exists u p', pcs c !! u = Some p' /\ to_send p' = true)) /\
  NoDup (not_empty c) /\ NoDup (not_full c).
Proof.
  intros Hq Hn Hs. destruct (lchan_steps_inv copy _ _ _ _ (open_inv q n size Hq Hn) Hs) as [ys Hi].
  assert (nelems c = n) as En.
  { rewrite (steps_nelems _ _ _ _ Hs). cbn. apply u32_small. unfold INT_MAX in *. lia. }
  unfold chan_size. rewrite (queue_size_spec _ _ (inv_rep _ _ _ _ Hi)).
  split_and!; [| |apply Hi|apply Hi]; intros t p Hp Hw.
  - assert (t ∈ not_empty c) as Hin by (apply (inv_empty _ _ _ _ Hi); eauto). split; [done|].
    intros Hy. apply count_pos. enough (Z.of_nat (length ys) <= Z.of_nat (count to_recv (pcs c))) by lia.
    pose proof (inv_recv _ _ _ _ Hi) as Hr. rewrite Z.add_0_r in Hr. apply Hr.
    intros E. rewrite E in Hin. inversion Hin.
  - assert (t ∈ not_full c) as Hin by (apply (inv_full _ _ _ _ Hi); eauto). split; [done|].
    intros Hz Hy. apply count_pos. rewrite <- En in *.
    enough (not_full c <> []) as Hf by (pose proof (inv_send _ _ _ _ Hi Hz Hf); lia).
    intros E. rewrite E in Hin. inversion Hin.
Qed.

(** A receiver waits, a message arrives. *)
Definition wake_acts : list act := [CallRecv 1; Run 1; CallRecv 2; Run 2; CallSend 3 11; Run 3].
Definition wake_end : chan_t (deque_t * dmem) := default demo_chan (steps id wake_acts demo_chan).

Lemma libchan_no_lost_wakeup_witness :
  exists u p', pcs wake_end !! u = Some p' /\ to_recv p' = true.
Proof.
  eapply (proj1 (libchan_no_lost_wakeup id demo_queue 1 0 wake_acts wake_end demo_queue_rep
    ltac:(unfold INT_MAX; lia) ltac:(apply defined_default; by vm_compute)) 2%nat RecvWait);
    vm_compute; congruence.
Defined.

(** Rendezvous: on an unbuffered channel a sender whose message has been stored is
    released from its wait only when every message stored so far has been received. *)
Theorem libchan_rendezvous {Q} `{!Queue Q} copy (q : Q) size acts c t c' u x :
  queue_rep q [] -> steps copy acts (chan_open q 0 size) = Some c ->
  run copy t c = Some c' ->
  pcs c !! u = Some (NSendWait x true) -> pcs c' !! u = Some NSendSent ->
  sent_log c' = recv_log c'.
Proof.
  intros Hq Hs Hrun Hu Hu'.
  destruct (lchan_steps_inv copy _ _ _ _ (open_inv q 0 size Hq ltac:(unfold INT_MAX; lia)) Hs)
    as [ys Hi].
  pose proof (steps_nelems _ _ _ _ Hs) as En. cbn in En.
  pose proof (inv_cap _ _ _ _ Hi) as Hc. unfold cap_of in Hc. rewrite decide_True in Hc by done.
  assert (u <> t) as Hne by (intros ->; unfold run in Hrun; by rewrite Hu in Hrun).
  destruct (run_wakes copy _ _ _ _ _ _ _ _ Hi Hrun Hne Hu Hu') as (y & q' & Hpop & He & -> & ->).
  rewrite (chan_msgs_empty_spec _ _ _ _ Hi) in He. rewrite (inv_log _ _ _ _ Hi).
  destruct ys as [|y' ys]; [done|]. destruct ys; [|cbn in Hc; lia].
  destruct (queue_pop_spec (msgs c) y' [] (inv_rep _ _ _ _ Hi)) as (q2 & E & _). by simplify_eq.
Qed.

(** The receiver of the one message wakes its sender. *)
Definition pass_acts : list act := [CallSend 1 11; Run 1; CallRecv 2].
Definition pass_chan : chan_t (deque_t * dmem) := chan_open demo_queue 0 0.
Definition pass_mid : chan_t (deque_t * dmem) := default pass_chan (steps id pass_acts pass_chan).
Definition pass_end : chan_t (deque_t * dmem) := default pass_chan (run id 2 pass_mid).

Lemma libchan_rendezvous_witness : sent_log pass_end = recv_log pass_end.
Proof.
  apply (libchan_rendezvous id demo_queue 0 pass_acts pass_mid 2 pass_end 1 11 demo_queue_rep);
    [apply defined_default; by vm_compute|apply defined_default; by vm_compute|by vm_compute..].
Defined.

(** Four senders queue up behind one another; two receives release the first three, and
    the second, whose message is gone, is put behind two who wait for room. *)
Definition strand_acts : list act :=
  [CallSend 1 11; Run 1; CallSend 2 12; Run 2; CallSend 3 13; Run 3; CallSend 4 14; Run 4;
   CallRecv 5; Run 5; Run 1; Run 2; CallRecv 5; Run 5; Run 3; Run 4].

Definition strand_end : chan_t (deque_t * dmem) :=
  default pass_chan (steps id strand_acts pass_chan).

(** A receive on an unbuffered channel signals [not_full] twice, for the sender and
    its successor; the sender need not be among the first two. In this run the messages
    11 and 12 have been received, and the system is at rest with the sender of 12 still
    asleep, until somebody receives the next message. *)
Theorem libchan_sender_stranded :
  exists c, steps id strand_acts (chan_open demo_queue 0 0) = Some c /\
    recv_log c = [11; 12] /\ pcs c !! 2%nat = Some (NSendWait 12 true) /\
    (forall t, run id t c = None) /\
    exists c2, steps id [CallRecv 5; Run 5] c = Some c2 /\ pcs c2 !! 2%nat = Some NSendSent.
Proof.
  assert (map_Forall (fun t _ => defined (run id t strand_end) = false) (pcs strand_end)) as Hall.
  { apply (bool_decide_eq_true_1
      (map_Forall (fun t _ => defined (run id t strand_end) = false) (pcs strand_end))).
    by vm_compute. }
  exists strand_end. split; [apply defined_default; by vm_compute|].
  split_and!; [by vm_compute|by vm_compute| |].
  - generalize dependent strand_end. intros c Hall t.
    destruct (pcs c !! t) as [p|] eqn:E; [by apply defined_none, (Hall t p)|].
    unfold run. by rewrite E.
  - exists (default pass_chan (steps id [CallRecv 5; Run 5] strand_end)).
    split; [apply defined_default; by vm_compute|by vm_compute].
Qed.

(** [chan_close] drops the messages that are held; tasks that wait go on waiting. *)
Lemma libchan_close_drops {Q} `{!Queue Q} copy (q : Q) n size acts c :
  queue_rep q [] -> 0 <= n < INT_MAX -> steps copy acts (chan_open q n size) = Some c ->
  exists c', chan_close c = Some c' /\ chan_size c' = 0 /\ recv_log c' = recv_log c /\
    pcs c' = pcs c /\ not_full c' = not_full c /\ not_empty c' = not_empty c.
Proof.
  intros Hq Hn Hs. destruct (lchan_steps_inv copy _ _ _ _ (open_inv q n size Hq Hn) Hs) as [ys Hi].
  destruct (queue_clear_spec (msgs c) ys (inv_rep _ _ _ _ Hi)) as (q' & E & Hr).
  unfold chan_close. rewrite E. eexists. split; [done|]. split; [|done].
  unfold chan_size. cbn. by rewrite (queue_size_spec _ _ Hr).
Qed.

(** A sender that waits for room sleeps on in a channel that is now empty. *)
Example libchan_close_strands :
  (fun c => (chan_size c, pcs c !! 2%nat, not_full c)) <$>
    (c ← steps id [CallSend 1 11; Run 1; CallSend 2 12; Run 2] demo_chan; chan_close c) =
    Some (0, Some (SendWait 12), [2%nat]).
Proof. by vm_compute. Qed.
