(* ===== verification/HashMap.v ===== *)
(** * hash_map.c and co_specs.c: a chained hash table with string keys

    The bucket lists are the sequences that the rings of [Lists.v] represent, and the table
    is the finite map from index to bucket that [Array.v] refines. A key is a C string:
    its [char]s (signed, none of them zero) without the terminator. Freed memory is not
    tracked; a value is its bytes. The comparison of [count] with [capcity * 0.75] is done
    in [float] by the code and exact up to a capacity of 2^24. *)
From S2P Require Import Prelude.
Local Open Scope Z_scope.

Abbreviation cstring := (list Z).

Record map_node_t := mk_node { key : Z; keyname : cstring; value : list Z }.
Record map_head_t := mk_head { nodes : list map_node_t; hcount : Z }.
Record hash_map_t := mk_map { capcity : Z; table : gmap Z map_head_t; mcount : Z }.

Definition HASH_MAP_DEFALUT_CAPCITY : Z := 16.
(** The size of the buffer [keyname]. *)
Definition KEYNAME_SIZE : nat := 1024.

Definition alloc_map_head : map_head_t := mk_head [] 0.

(** [int] arithmetic, as compiled (it wraps around). *)
Definition string_hash (name : cstring) : Z := foldl (fun k c => i32 (k * 31 + c)) 0 name.

(** [strncmp(s, t, n) == 0] *)
Fixpoint strncmp (s t : cstring) (n : nat) : bool :=
  match n, s, t with
  | O, _, _ => true
  | S _, [], [] => true
  | S n, a :: s, b :: t => bool_decide (a = b) && strncmp s t n
  | _, _, _ => false
  end.

(** [key & (capcity - 1)]: the [int] key is converted to [size_t], the result to [int]. *)
Definition index (k cap : Z) : Z := i32 (Z.land (u64 k) (u64 (cap - 1))).

Definition matches (k : Z) (name : cstring) (n : map_node_t) : Prop :=
  k = key n /\ strncmp name (keyname n) (length name) = true.
#[export] Instance matches_dec k name n : Decision (matches k name n).
Proof. apply _. Defined.

(** The loops over a bucket end at the first match. *)
Definition search (k : Z) (name : cstring) (ns : list map_node_t) : option (nat * map_node_t) :=
  list_find (matches k name) ns.

(** [for(; i < to; i++) array_insert(&map->table, i, alloc_map_head())] *)
Fixpoint insert_heads (n : nat) (i : Z) (t : gmap Z map_head_t) : gmap Z map_head_t :=
  match n with
  | O => t
  | S n => insert_heads n (i + 1) (<[i := alloc_map_head]> t)
  end.

Definition hash_map_init : hash_map_t :=
  mk_map HASH_MAP_DEFALUT_CAPCITY (insert_heads (Z.to_nat HASH_MAP_DEFALUT_CAPCITY) 0 ∅) 0.

(** [None]: undefined behaviour (no bucket at the index). [Some None]: -1. *)
Definition hash_map_get (name : cstring) (m : hash_map_t) : option (option (list Z)) :=
  h ← table m !! index (string_hash name) (capcity m);
  Some (value ∘ snd <$> search (string_hash name) name (nodes h)).

(** The inner loop of [hash_map_resize] on bucket [i]; [kept] are the nodes passed over. *)
Fixpoint relocate (cap i : Z) (ns kept : list map_node_t) (t : gmap Z map_head_t)
    : option (gmap Z map_head_t) :=
  match ns with
  | [] => h ← t !! i; Some (<[i := mk_head kept (hcount h)]> t)
  | n :: ns =>
      let idx := index (key n) cap in
      if bool_decide (idx = i) then relocate cap i ns (kept ++ [n]) t
      else
        h ← t !! i;
        let t := <[i := mk_head (nodes h) (u64 (hcount h - 1))]> t in
        h' ← t !! idx;
        relocate cap i ns kept (<[idx := mk_head (nodes h' ++ [n]) (u64 (hcount h' + 1))]> t)
  end.

Fixpoint relocate_all (cap : Z) (n : nat) (i : Z) (t : gmap Z map_head_t)
    : option (gmap Z map_head_t) :=
  match n with
  | O => Some t
  | S n => h ← t !! i; t ← relocate cap i (nodes h) [] t; relocate_all cap n (i + 1) t
  end.

Definition hash_map_resize (m : hash_map_t) : option hash_map_t :=
  let old_cap := i32 (capcity m) in
  cap ← cint (Z.shiftl old_cap 1);
  let t := insert_heads (Z.to_nat (cap - old_cap)) old_cap (table m) in
  t ← relocate_all cap (Z.to_nat old_cap) 0 t;
  Some (mk_map cap t (mcount m)).

(** [map->count >= map->capcity * map->load_factor] with [load_factor] 0.75 *)
Definition overloaded (m : hash_map_t) : bool := bool_decide (3 * capcity m <= 4 * mcount m).

Definition hash_map_put (name : cstring) (v : list Z) (m : hash_map_t) : option hash_map_t :=
  let k := string_hash name in
  let idx := index k (capcity m) in
  h ← table m !! idx;
  match search k name (nodes h) with
  | Some (i, n) =>
      let h := mk_head (<[i := mk_node (key n) (keyname n) v]> (nodes h)) (hcount h) in
      Some (mk_map (capcity m) (<[idx := h]> (table m)) (mcount m))
  | None =>
      m ← (if overloaded m then hash_map_resize m else Some m);
      let idx := index k (capcity m) in
      h ← table m !! idx;
      if bool_decide (length name < KEYNAME_SIZE)%nat then
        let h := mk_head (nodes h ++ [mk_node k name v]) (u64 (hcount h + 1)) in
        Some (mk_map (capcity m) (<[idx := h]> (table m)) (u64 (mcount m + 1)))
      else None
  end.

(** The result and the map: 0 or -1. *)
Definition hash_map_del (name : cstring) (m : hash_map_t) : option (Z * hash_map_t) :=
  let k := string_hash name in
  let idx := index k (capcity m) in
  h ← table m !! idx;
  match search k name (nodes h) with
  | Some (i, _) =>
      let h := mk_head (delete i (nodes h)) (u64 (hcount h - 1)) in
      Some (0, mk_map (capcity m) (<[idx := h]> (table m)) (u64 (mcount m - 1)))
  | None => Some (-1, m)
  end.

Definition hash_map_size (m : hash_map_t) : Z := mcount m.
Definition hash_map_empty (m : hash_map_t) : bool := bool_decide (hash_map_size m = 0).

(** The inner loop of [hash_map_clearall] frees nodes until the ring is empty. *)
Definition clear_head (h : map_head_t) (c : Z) : map_head_t * Z :=
  foldl (fun '(h, c) _ => (mk_head (tail (nodes h)) (u64 (hcount h - 1)), u64 (c - 1)))
    (h, c) (nodes h).

(** [for(i = map->capcity - 1; i >= 0; i--)], from [n - 1] down. *)
Fixpoint clear_loop (all : bool) (n : nat) (t : gmap Z map_head_t) (c : Z)
    : option (gmap Z map_head_t * Z) :=
  match n with
  | O => Some (t, c)
  | S n =>
      let i := Z.of_nat n in
      h ← t !! i;
      let '(h, c) := clear_head h c in
      clear_loop all n (if all then delete i t else <[i := h]> t) c
  end.

Definition hash_map_clearall (all : bool) (m : hash_map_t) : option hash_map_t :=
  '(t, c) ← clear_loop all (Z.to_nat (capcity m)) (table m) (mcount m);
  Some (mk_map (if all then 0 else capcity m) t c).

Definition hash_map_clear (m : hash_map_t) : option hash_map_t := hash_map_clearall false m.
Definition hash_map_destory (m : hash_map_t) : option hash_map_t := hash_map_clearall true m.

(** ** co_specs.c: the task-local store *)
Definition alloc_co_specs : hash_map_t := hash_map_init.
Definition co_specs_set (name : cstring) (v : list Z) (specs : hash_map_t) : option hash_map_t :=
  hash_map_put name v specs.
Definition co_specs_get (name : cstring) (specs : hash_map_t) : option (option (list Z)) :=
  hash_map_get name specs.
Definition co_specs_del (name : cstring) (specs : hash_map_t) : option (Z * hash_map_t) :=
  hash_map_del name specs.
(** The map is destroyed and the store freed; [None]: a null pointer or freed store. *)
Definition free_co_specs (specs : option hash_map_t) : option (option hash_map_t) :=
  match specs with
  | None => Some None
  | Some specs => _ ← hash_map_destory specs; Some None
  end.

(** ** The table as a function *)
Definition bucket (ns : list map_node_t) : map_head_t := mk_head ns (u64 (Z.of_nat (length ns))).
Definition tbl (t : gmap Z map_head_t) (cap : Z) (f : Z -> list map_node_t) : Prop :=
  forall i, t !! i = if decide (0 <= i < cap) then Some (bucket (f i)) else None.

Lemma u64_add x y : u64 (u64 x + y) = u64 (x + y).
Proof. apply Z.add_mod_idemp_l. lia. Qed.

Lemma u64_sub x y : u64 (u64 x - y) = u64 (x - y).
Proof. apply Zminus_mod_idemp_l. Qed.

Lemma tbl_lookup t cap f i : tbl t cap f -> 0 <= i < cap -> t !! i = Some (bucket (f i)).
Proof. intros Ht Hi. by rewrite (Ht i), decide_True. Qed.

Lemma tbl_insert t cap f i ns :
  tbl t cap f -> 0 <= i < cap ->
  tbl (<[i := bucket ns]> t) cap (fun j => if decide (j = i) then ns else f j).
Proof.
  intros Ht Hi j. destruct (decide (j = i)) as [->|Hne].
  - by rewrite lookup_insert_eq, decide_True.
  - by rewrite lookup_insert_ne.
Qed.

Lemma tbl_ext t cap f g : tbl t cap f -> (forall i, 0 <= i < cap -> f i = g i) -> tbl t cap g.
Proof. intros Ht Hfg i. rewrite (Ht i). case_decide; [|done]. by rewrite Hfg. Qed.

Lemma insert_heads_tbl n cap f t :
  tbl t cap f -> 0 <= cap ->
  tbl (insert_heads n cap t) (cap + Z.of_nat n)
    (fun j => if decide (cap <= j) then [] else f j).
Proof.
  revert cap f t. induction n as [|n IH]; intros cap f t Ht Hc; cbn [insert_heads].
  { rewrite Z.add_0_r. eapply tbl_ext; [done|]. intros. by rewrite decide_False by lia. }
  replace (cap + Z.of_nat (S n)) with (cap + 1 + Z.of_nat n) by lia.
  eapply tbl_ext.
  - apply (IH (cap + 1) (fun j => if decide (j = cap) then [] else f j)); [|lia].
    intros j. destruct (decide (j = cap)) as [->|Hne].
    + by rewrite lookup_insert_eq, decide_True by lia.
    + rewrite lookup_insert_ne by done. rewrite (Ht j). repeat case_decide; done || lia.
  - intros j Hj. cbn. repeat case_decide; done || lia.
Qed.

(** ** Indices *)
Lemma index_mod k e : 0 <= e <= 30 -> index k (2 ^ e) = k mod 2 ^ e.
Proof.
  intros He. assert (0 < 2 ^ e <= 2 ^ 30) as Hp.
  { split; [by apply Z.pow_pos_nonneg; lia|apply Z.pow_le_mono_r; lia]. }
  unfold index. rewrite (u64_small (2 ^ e - 1)) by lia.
  replace (2 ^ e - 1) with (Z.ones e) by (rewrite Z.ones_equiv; lia).
  rewrite Z.land_ones by lia. unfold uwrap.
  assert (2 ^ 64 = 2 ^ (64 - e) * 2 ^ e) as -> by (rewrite <- Z.pow_add_r by lia; f_equal; lia).
  rewrite Z.mul_comm, Z.rem_mul_r, Z.mul_comm, Z_mod_plus_full, Zmod_mod by (try apply Z.pow_pos_nonneg; lia).
  apply i32_small. pose proof (Z.mod_pos_bound k (2 ^ e)). lia.
Qed.

Lemma index_double k e :
  0 <= e <= 29 -> index k (2 ^ (e + 1)) = index k (2 ^ e) \/
    index k (2 ^ (e + 1)) = index k (2 ^ e) + 2 ^ e.
Proof.
  intros He. rewrite !index_mod by lia. pose proof (Z.pow_pos_nonneg 2 e).
  rewrite Z.pow_add_r, Z.pow_1_r, Z.rem_mul_r by lia.
  pose proof (Z.mod_pos_bound (k / 2 ^ e) 2). assert ((k / 2 ^ e) mod 2 = 0 \/ (k / 2 ^ e) mod 2 = 1) as [->| ->] by lia; lia.
Qed.

(** ** Moving the nodes *)
Definition at_index (cap j : Z) (ns : list map_node_t) : list map_node_t :=
  filter (fun n => index (key n) cap = j) ns.

Lemma at_index_cons cap j n ns :
  at_index cap j (n :: ns) =
    if decide (index (key n) cap = j) then n :: at_index cap j ns else at_index cap j ns.
Proof. unfold at_index. rewrite filter_cons. by repeat case_decide. Qed.

(** While bucket [i] is walked its list holds [kept] and the nodes ahead. *)
Lemma relocate_spec cap i ns : forall kept t f any,
  t !! i = Some (mk_head any (u64 (Z.of_nat (length kept + length ns)))) ->
  (forall j, j <> i -> t !! j = if decide (0 <= j < cap) then Some (bucket (f j)) else None) ->
  0 <= i < cap -> (forall n, n ∈ ns -> 0 <= index (key n) cap < cap) ->
  exists t', relocate cap i ns kept t = Some t' /\
    tbl t' cap (fun j => (if decide (j = i) then kept else f j) ++ at_index cap j ns).
Proof.
  induction ns as [|n ns IH]; intros kept t f any Hi Ht Hr Hns; cbn [relocate].
  - rewrite Hi. cbn [mbind option_bind nodes hcount]. eexists. split; [done|]. intros j.
    rewrite app_nil_r. destruct (decide (j = i)) as [->|Hne].
    + rewrite lookup_insert_eq, decide_True by done. unfold bucket. by rewrite Nat.add_0_r.
    + by rewrite lookup_insert_ne, Ht.
  - assert (forall m, m ∈ ns -> 0 <= index (key m) cap < cap) as Hns' by (intros; apply Hns; by right).
    specialize (Hns n ltac:(left)). case_bool_decide as Hidx.
    + destruct (IH (kept ++ [n]) t f any) as (t' & -> & Ht'); [|done..|].
      { rewrite Hi. do 3 f_equal. rewrite length_app. cbn. lia. }
      exists t'. split; [done|]. eapply tbl_ext; [done|]. intros j Hj. cbn beta. rewrite at_index_cons.
      repeat case_decide; try congruence. by rewrite <- app_assoc.
    + rewrite Hi. cbn [mbind option_bind nodes hcount].
      rewrite lookup_insert_ne, Ht, decide_True by done. cbn [mbind option_bind nodes hcount bucket].
      rewrite !u64_add.
      destruct (IH kept
        (<[index (key n) cap := bucket (f (index (key n) cap) ++ [n])]>
           (<[i := mk_head any (u64 (Z.of_nat (length kept + length ns)))]> t))
        (fun j => if decide (j = index (key n) cap) then f j ++ [n] else f j) any)
        as (t' & E & Ht'); [| |done..|].
      * by rewrite lookup_insert_ne, lookup_insert_eq.
      * intros j Hj. destruct (decide (j = index (key n) cap)) as [->|Hne].
        -- by rewrite lookup_insert_eq, decide_True.
        -- by rewrite !lookup_insert_ne, Ht.
      * exists t'. split; [|eapply tbl_ext; [exact Ht'|]].
        -- rewrite <- E. unfold bucket. rewrite length_app, u64_sub. cbn [length].
           replace (Z.of_nat (length kept + S (length ns)) - 1)
             with (Z.of_nat (length kept + length ns)) by lia.
           by rewrite (Nat2Z.inj_add (length (f _)) 1).
        -- intros j Hj. cbn beta. rewrite at_index_cons. repeat case_decide; subst; try congruence.
           all: by rewrite <- ?app_assoc.
Qed.

(** The lists after the buckets below [i] of [old] have been gone through. *)
Definition split_upto (old i : Z) (f : Z -> list map_node_t) (j : Z) : list map_node_t :=
  if decide (j < i) then at_index (2 * old) j (f j)
  else if decide (j < old) then f j
  else if decide (j - old < i) then at_index (2 * old) j (f (j - old)) else [].

Lemma at_index_nil cap j ns :
  (forall n, n ∈ ns -> index (key n) cap <> j) -> at_index cap j ns = [].
Proof.
  induction ns as [|n ns IH]; intros Hn; [done|]. rewrite at_index_cons.
  rewrite decide_False by (apply Hn; left). apply IH. intros. apply Hn. by right.
Qed.

Lemma relocate_all_spec old f n : forall i t,
  tbl t (2 * old) (split_upto old i f) -> 0 <= i -> i + Z.of_nat n = old ->
  (forall j n, 0 <= j < old -> n ∈ f j ->
     index (key n) (2 * old) = j \/ index (key n) (2 * old) = j + old) ->
  exists t', relocate_all (2 * old) n i t = Some t' /\ tbl t' (2 * old) (split_upto old old f).
Proof.
  induction n as [|n IH]; intros i t Ht Hi Hn Hf; cbn [relocate_all].
  { assert (i = old) as -> by lia. eauto. }
  pose proof (tbl_lookup _ _ _ i Ht ltac:(lia)) as Hl.
  assert (split_upto old i f i = f i) as Ei
    by (unfold split_upto; by rewrite decide_False, decide_True by lia).
  rewrite Ei in Hl. rewrite Hl. cbn [mbind option_bind nodes bucket].
  destruct (relocate_spec (2 * old) i (f i) [] t (split_upto old i f) (f i))
    as (t' & -> & Ht'); [done|by intros; apply Ht|lia| |].
  { intros m Hm. destruct (Hf i m ltac:(lia) Hm); lia. }
  cbn [mbind option_bind]. apply (IH (i + 1)); [|lia..|done].
  eapply tbl_ext; [done|]. intros j Hj. cbn.
  assert (forall j, j <> i -> j <> i + old -> at_index (2 * old) j (f i) = []) as Hnil.
  { intros k H1 H2. apply at_index_nil. intros m Hm. destruct (Hf i m ltac:(lia) Hm); lia. }
  unfold split_upto. destruct (decide (j = i)) as [->|Hji].
  { by rewrite (decide_True (P := i < i + 1)) by lia. }
  destruct (decide (j = i + old)) as [->|Hjo].
  { replace (i + old - old) with i by lia. by repeat (case_decide; try lia). }
  rewrite (Hnil j), app_nil_r by done. by repeat (case_decide; try lia).
Qed.

Lemma at_index_elem cap j ns n : n ∈ at_index cap j ns <-> index (key n) cap = j /\ n ∈ ns.
Proof. unfold at_index. by rewrite list_elem_of_filter. Qed.

Lemma at_index_nodup cap j ns : NoDup (keyname <$> ns) -> NoDup (keyname <$> at_index cap j ns).
Proof.
  induction ns as [|n ns IH]; [done|]. rewrite fmap_cons. intros [Hn Hnd]%NoDup_cons.
  rewrite at_index_cons. case_decide; [|auto]. rewrite fmap_cons. apply NoDup_cons. split; [|auto].
  intros (m & E & [_ Hm]%at_index_elem)%list_elem_of_fmap. apply Hn. rewrite E.
  by apply list_elem_of_fmap_2.
Qed.

(** A bucket of the doubled table holds the nodes of its index, from any old bucket. *)
Lemma split_elem old f n i :
  (forall n i, 0 <= i < old -> n ∈ f i ->
     index (key n) (2 * old) = i \/ index (key n) (2 * old) = i + old) ->
  0 <= i < 2 * old ->
  n ∈ split_upto old old f i <->
    index (key n) (2 * old) = i /\ exists j, 0 <= j < old /\ n ∈ f j.
Proof.
  intros Hidx Hi. unfold split_upto. destruct (decide (i < old)) as [Hlt|Hge].
  - rewrite at_index_elem. split; [intros [? ?]; split; [done|]; exists i; split; [lia|done]|].
    intros [? (j & Hj & Hn)]. split; [done|]. destruct (Hidx n j Hj Hn); [|lia]. by replace i with j by lia.
  - rewrite decide_True, at_index_elem by lia.
    split; [intros [? ?]; split; [done|]; exists (i - old); split; [lia|done]|].
    intros [? (j & Hj & Hn)]. split; [done|]. destruct (Hidx n j Hj Hn); [lia|].
    by replace (i - old) with j by lia.
Qed.

(** ** Searching *)
Lemma strncmp_spec s t : strncmp s t (length s) = true <-> s `prefix_of` t.
Proof.
  revert t. induction s as [|a s IH]; intros t; cbn.
  { split; [intros _; apply prefix_nil|done]. }
  destruct t as [|b t]; [split; [done|by intros ?%prefix_nil_not]|].
  rewrite andb_true_iff, bool_decide_eq_true, IH. split.
  - intros [-> ?]. by apply prefix_cons.
  - intros Hp. split; [by eapply prefix_cons_inv_1|by eapply prefix_cons_inv_2].
Qed.

(** No key that is used is a proper prefix of another one with the same hash. *)
Definition separate (K : cstring -> Prop) : Prop :=
  forall k1 k2, K k1 -> K k2 -> string_hash k1 = string_hash k2 -> k1 `prefix_of` k2 -> k1 = k2.

Definition good (K : cstring -> Prop) (n : map_node_t) : Prop :=
  K (keyname n) /\ key n = string_hash (keyname n).

Section search.
Context (K : cstring -> Prop) (HK : separate K).

Lemma matches_good name n :
  K name -> good K n -> matches (string_hash name) name n <-> keyname n = name.
Proof.
  intros Hn [Hk He]. unfold matches. rewrite strncmp_spec, He. split.
  - intros [? ?]. symmetry. by apply HK.
  - by intros ->.
Qed.

Lemma search_Some name ns i n :
  K name -> Forall (good K) ns -> search (string_hash name) name ns = Some (i, n) ->
  ns !! i = Some n /\ keyname n = name.
Proof.
  intros Hn Hns (Hi & Hm & _)%list_find_Some. split; [done|].
  apply matches_good in Hm; [done..|]. by eapply Forall_lookup_1.
Qed.

Lemma search_None name ns :
  K name -> Forall (good K) ns -> search (string_hash name) name ns = None ->
  forall n, n ∈ ns -> keyname n <> name.
Proof.
  intros Hn Hns Hf%list_find_None n Hin Hk. rewrite Forall_forall in Hf, Hns.
  apply (Hf n Hin), matches_good; auto.
Qed.
End search.

(** ** Representation *)
Section inv.
Context (K : cstring -> Prop) (HK : separate K) (HL : forall k, K k -> (length k < KEYNAME_SIZE)%nat).
Implicit Types (g : gmap cstring (list Z)) (f : Z -> list map_node_t).

(** [g] is the map that the table holds, [f] its lists, [N] bounds the puts so far. *)
Record rep (N : Z) (m : hash_map_t) f g : Prop := {
  rep_cap : exists e, 4 <= e <= 28 /\ capcity m = 2 ^ e;
  rep_bound : 3 * capcity m <= 8 * N + 48 /\ N <= 2 ^ 20;
  rep_count : mcount m = Z.of_nat (size g) /\ mcount m <= N;
  rep_tbl : tbl (table m) (capcity m) f;
  rep_good : forall i, 0 <= i < capcity m ->
    Forall (fun n => good K n /\ index (key n) (capcity m) = i) (f i);
  rep_nodup : forall i, 0 <= i < capcity m -> NoDup (keyname <$> f i);
  rep_lookup : forall k v, g !! k = Some v <->
    exists n, n ∈ f (index (string_hash k) (capcity m)) /\ keyname n = k /\ value n = v
}.

Lemma index_range N m f g k : rep N m f g -> 0 <= index k (capcity m) < capcity m.
Proof.
  intros [(e & He & ->) _ _ _ _ _ _]. rewrite index_mod by lia. apply Z.mod_pos_bound.
  apply Z.pow_pos_nonneg; lia.
Qed.

Lemma rep_bucket N m f g k :
  rep N m f g -> table m !! index k (capcity m) = Some (bucket (f (index k (capcity m)))).
Proof. intros Hr. apply (tbl_lookup _ _ _ _ (rep_tbl _ _ _ _ Hr)). by eapply index_range. Qed.

Lemma rep_goods N m f g k : rep N m f g -> Forall (good K) (f (index k (capcity m))).
Proof.
  intros Hr. eapply Forall_impl; [apply (rep_good _ _ _ _ Hr); by eapply index_range|].
  by intros n [? _].
Qed.

(** What a search finds, by the abstract map. *)
Lemma search_rep N m f g k :
  rep N m f g -> K k ->
  match search (string_hash k) k (f (index (string_hash k) (capcity m))) with
  | Some (i, n) => f (index (string_hash k) (capcity m)) !! i = Some n /\ keyname n = k /\
      g !! k = Some (value n)
  | None => g !! k = None /\ forall n, n ∈ f (index (string_hash k) (capcity m)) -> keyname n <> k
  end.
Proof.
  intros Hr Hk. pose proof (rep_goods N m f g (string_hash k) Hr) as Hg.
  destruct (search _ _ _) as [[i n]|] eqn:E.
  - destruct (search_Some K HK k _ i n Hk Hg E) as [Hi He]. split_and!; [done..|].
    apply (rep_lookup _ _ _ _ Hr). exists n. split_and!; [|done..]. by eapply list_elem_of_lookup_2.
  - pose proof (search_None K HK k _ Hk Hg E) as Hn. split; [|done].
    destruct (g !! k) as [v|] eqn:Ev; [|done].
    apply (rep_lookup _ _ _ _ Hr) in Ev as (n & Hin & Hkn & _). by destruct (Hn n Hin).
Qed.

Lemma get_rep N m f g k : rep N m f g -> K k -> hash_map_get k m = Some (g !! k).
Proof.
  intros Hr Hk. unfold hash_map_get. rewrite (rep_bucket _ _ _ _ _ Hr). cbn [mbind option_bind nodes bucket].
  pose proof (search_rep N m f g k Hr Hk) as Hs. destruct (search _ _ _) as [[i n]|].
  - destruct Hs as (_ & _ & ->). done.
  - by destruct Hs as [-> _].
Qed.

(** A change to the list of the bucket of one key. *)
Lemma rep_change N N' m f g k ns g' :
  rep N m f g -> K k -> N <= N' <= 2 ^ 20 ->
  Z.of_nat (size g') <= N' -> NoDup (keyname <$> ns) ->
  Forall (fun n => good K n /\ index (key n) (capcity m) = index (string_hash k) (capcity m)) ns ->
  (forall v, g' !! k = Some v <-> exists n, n ∈ ns /\ keyname n = k /\ value n = v) ->
  (forall k', k' <> k -> g' !! k' = g !! k') ->
  (forall n, keyname n <> k -> n ∈ ns <-> n ∈ f (index (string_hash k) (capcity m))) ->
  rep N' (mk_map (capcity m) (<[index (string_hash k) (capcity m) := bucket ns]> (table m))
     (Z.of_nat (size g'))) (fun j => if decide (j = index (string_hash k) (capcity m)) then ns else f j) g'.
Proof.
  intros Hr Hk HN Hc Hnd Hgood Hkey Hother Hns. pose proof (index_range _ _ _ _ (string_hash k) Hr) as Hir.
  destruct Hr. constructor; cbn; try done; try lia.
  - by apply tbl_insert.
  - intros i Hi. case_decide; [by subst|by apply rep_good0].
  - intros i Hi. case_decide; [by subst|by apply rep_nodup0].
  - intros k' v. destruct (decide (k' = k)) as [->|Hne]; [by rewrite decide_True|].
    rewrite Hother, rep_lookup0 by done. case_decide as Hi; [|done]. rewrite Hi.
    split; intros (n & Hin & <- & <-); exists n; (split; [|done]); by apply Hns.
Qed.

Lemma insert_as_perm {A} (l : list A) i x y : l !! i = Some x -> <[i := y]> l ≡ₚ y :: delete i l.
Proof.
  intros Hi. rewrite insert_take_drop by (by eapply lookup_lt_Some).
  rewrite delete_take_drop. by rewrite Permutation_middle.
Qed.

Lemma resize_rep N m f g :
  rep N m f g -> overloaded m = true ->
  exists m' f', hash_map_resize m = Some m' /\ rep N m' f' g.
Proof.
  intros Hr Ho. destruct Hr as [(e & He & Hcap) Hb Hc Ht Hgood Hnd Hl].
  unfold overloaded in Ho. apply bool_decide_eq_true in Ho.
  assert (2 ^ 4 <= 2 ^ e) as Hp4 by (apply Z.pow_le_mono_r; lia).
  assert (2 ^ (e + 1) = 2 * capcity m) as Ep by (rewrite Z.pow_add_r by lia; lia).
  assert (e < 27) as He2.
  { destruct (Z.lt_ge_cases e 27); [done|]. assert (2 ^ 27 <= 2 ^ e) by (apply Z.pow_le_mono_r; lia). lia. }
  unfold hash_map_resize. rewrite i32_small, Z.shiftl_mul_pow2, cint_ok by (unfold INT_MAX; lia).
  cbn [mbind option_bind]. replace (capcity m * 2 ^ 1) with (2 * capcity m) by lia.
  replace (2 * capcity m - capcity m) with (capcity m) by lia.
  pose proof (insert_heads_tbl (Z.to_nat (capcity m)) _ _ _ Ht ltac:(lia)) as Ht1.
  rewrite Z2Nat.id in Ht1 by lia. replace (capcity m + capcity m) with (2 * capcity m) in Ht1 by lia.
  assert (forall n i, 0 <= i < capcity m -> n ∈ f i ->
    index (key n) (capcity m) = i /\ good K n) as Hin.
  { intros n i Hi Hn. specialize (Hgood i Hi). rewrite Forall_forall in Hgood.
    by destruct (Hgood n Hn). }
  assert (forall n i, 0 <= i < capcity m -> n ∈ f i ->
    index (key n) (2 * capcity m) = i \/ index (key n) (2 * capcity m) = i + capcity m) as Hidx.
  { intros n i Hi Hn. destruct (Hin n i Hi Hn) as [<- _]. rewrite <- Ep, Hcap.
    apply index_double. lia. }
  destruct (relocate_all_spec (capcity m) f (Z.to_nat (capcity m)) 0
    (insert_heads (Z.to_nat (capcity m)) (capcity m) (table m))) as (t' & -> & Ht'); [|lia..| |].
  { eapply tbl_ext; [done|]. intros i Hi. unfold split_upto. repeat case_decide; lia || done. }
  { intros; by apply Hidx. }
  cbn [mbind option_bind]. do 2 eexists. split; [done|].
  assert (forall n i, 0 <= i < 2 * capcity m -> n ∈ split_upto (capcity m) (capcity m) f i <->
    index (key n) (2 * capcity m) = i /\ exists j, 0 <= j < capcity m /\ n ∈ f j) as Helem.
  { intros n i Hi. by apply split_elem. }
  constructor; cbn; try done; try lia.
  - exists (e + 1). rewrite Ep. split; lia.
  - intros i Hi. apply Forall_forall. intros n (Hn & j & Hj & Hnj)%Helem; [|done].
    split; [by apply (Hin n j)|done].
  - intros i Hi. unfold split_upto.
    destruct (decide (i < capcity m)); [|rewrite decide_True by lia];
      apply at_index_nodup, Hnd; lia.
  - intros k v. rewrite Hl.
    assert (0 <= index (string_hash k) (capcity m) < capcity m) as Hr1.
    { rewrite Hcap, index_mod by lia. apply Z.mod_pos_bound. lia. }
    assert (0 <= index (string_hash k) (2 * capcity m) < 2 * capcity m) as Hr2.
    { rewrite <- Ep, index_mod by lia. apply Z.mod_pos_bound. lia. }
    split; intros (n & Hn & <- & <-); exists n; (split; [|done]).
    + apply Helem; [done|]. destruct (Hin n _ Hr1 Hn) as [? [_ Hk]]. rewrite Hk. split; [done|]. eauto.
    + apply Helem in Hn as (_ & j & Hj & Hn); [|done]. destruct (Hin n j Hj Hn) as [E [_ Hk]].
      by rewrite <- Hk, E.
Qed.

(** A key that is there: its node gets the value. *)
Lemma put_hit N m f g k v i n :
  rep N m f g -> K k -> N < 2 ^ 20 -> search (string_hash k) k (f (index (string_hash k) (capcity m))) = Some (i, n) ->
  exists m' f', hash_map_put k v m = Some m' /\ rep (N + 1) m' f' (<[k := v]> g).
Proof.
  intros Hr Hk HN Es. unfold hash_map_put. rewrite (rep_bucket _ _ _ _ _ Hr).
  cbn [mbind option_bind nodes bucket hcount]. pose proof (rep_count _ _ _ _ Hr) as [Hc1 Hc2].
  pose proof (search_rep N m f g k Hr Hk) as Hs. rewrite Es in Hs |- *.
  destruct Hs as (Hi & Hkn & Hg). pose proof (index_range _ _ _ _ (string_hash k) Hr) as Hir.
  set (ns := f (index (string_hash k) (capcity m))) in *.
  set (n' := mk_node (key n) (keyname n) v).
  assert (keyname <$> <[i := n']> ns = keyname <$> ns) as Ek.
  { rewrite list_fmap_insert. apply list_insert_id. by rewrite list_lookup_fmap, Hi. }
  pose proof (delete_Permutation _ _ _ Hi) as P1. pose proof (insert_as_perm _ _ _ n' Hi) as P2.
  pose proof (rep_nodup _ _ _ _ Hr _ Hir) as Hnd. pose proof (rep_good _ _ _ _ Hr _ Hir) as Hgd.
  fold ns in Hnd, Hgd. rewrite P1 in Hgd. apply Forall_cons in Hgd as [Hgn Hgd].
  assert (size (<[k := v]> g) = size g) as Esz by (by rewrite map_size_insert, Hg).
  do 2 eexists. split; [|eapply (rep_change N (N + 1) m f g k (<[i := n']> ns)); try done].
  + rewrite Esz, <- Hc1. unfold bucket. by rewrite length_insert.
  + lia.
  + rewrite Esz. lia.
  + by rewrite Ek.
  + rewrite P2. apply Forall_cons. split; [done|done].
  + intros w. rewrite lookup_insert_eq. split.
    * intros [= <-]. exists n'. split; [|done]. rewrite P2. left.
    * intros (n2 & Hn2 & Hk2 & <-). rewrite P2 in Hn2. apply elem_of_cons in Hn2 as [->|Hn2]; [done|].
      exfalso. rewrite P1 in Hnd. apply NoDup_cons in Hnd as [Hnd _]. apply Hnd.
      rewrite Hkn, <- Hk2. by apply list_elem_of_fmap_2.
  + intros k' Hne. by rewrite lookup_insert_ne.
  + intros n2 Hn2. fold ns. rewrite P2, (elem_of_Permutation_proper n2 _ _ P1), !elem_of_cons.
    naive_solver.
Qed.

(** A new key: its node goes to the end of its bucket. *)
Lemma put_miss N m f g k v :
  rep N m f g -> K k -> N < 2 ^ 20 -> g !! k = None ->
  exists m' f', (h ← table m !! index (string_hash k) (capcity m);
      if bool_decide (length k < KEYNAME_SIZE)%nat then
        Some (mk_map (capcity m) (<[index (string_hash k) (capcity m) :=
          mk_head (nodes h ++ [mk_node (string_hash k) k v]) (u64 (hcount h + 1))]> (table m)) (u64 (mcount m + 1)))
      else None) = Some m' /\ rep (N + 1) m' f' (<[k := v]> g).
Proof.
  intros Hr Hk HN Hg.
  pose proof (rep_count _ _ _ _ Hr) as [Hc1 Hc2].
  rewrite (rep_bucket _ _ _ _ _ Hr). cbn [mbind option_bind nodes bucket hcount].
  rewrite bool_decide_eq_true_2 by (by apply HL). rewrite u64_add.
  pose proof (index_range _ _ _ _ (string_hash k) Hr) as Hir.
  pose proof (rep_nodup _ _ _ _ Hr _ Hir) as Hnd. pose proof (rep_good _ _ _ _ Hr _ Hir) as Hgd.
  assert (forall n, n ∈ f (index (string_hash k) (capcity m)) -> keyname n <> k) as Hfresh.
  { intros n Hn Hkn. enough (g !! k = Some (value n)) by congruence.
    apply (rep_lookup _ _ _ _ Hr). eauto. }
  assert (size (<[k := v]> g) = S (size g)) as Esz by (by rewrite map_size_insert, Hg).
  do 2 eexists. split; [|eapply (rep_change N (N + 1) m f g k (_ ++ [mk_node (string_hash k) k v])); try done].
  + rewrite Esz, Hc1, (u64_small (Z.of_nat (size g) + 1)) by lia. unfold bucket. rewrite length_app. cbn [length].
    do 2 f_equal; [|lia]. do 3 f_equal. lia.
  + lia.
  + rewrite Esz. lia.
  + rewrite fmap_app. apply NoDup_app. split_and!; [done| |apply NoDup_singleton].
    intros k' (n & -> & Hn)%list_elem_of_fmap Hk'. apply list_elem_of_singleton in Hk'. by apply (Hfresh n).
  + apply Forall_app. split; [done|]. by apply Forall_singleton.
  + intros w. rewrite lookup_insert_eq. split.
    * intros [= <-]. eexists. split; [apply elem_of_app; right; by left|done].
    * intros (n & [Hn|Hn]%elem_of_app & Hkn & <-); [by destruct (Hfresh n)|].
      apply list_elem_of_singleton in Hn. by subst.
  + intros k' Hne. by rewrite lookup_insert_ne.
  + intros n Hn. rewrite elem_of_app, list_elem_of_singleton. naive_solver.
Qed.

Lemma put_rep N m f g k v :
  rep N m f g -> K k -> N < 2 ^ 20 ->
  exists m' f', hash_map_put k v m = Some m' /\ rep (N + 1) m' f' (<[k := v]> g).
Proof.
  intros Hr Hk HN. pose proof (search_rep N m f g k Hr Hk) as Hs.
  destruct (search _ _ _) as [[i n]|] eqn:Es; [by eapply put_hit|]. destruct Hs as [Hg _].
  unfold hash_map_put. rewrite (rep_bucket _ _ _ _ _ Hr). cbn [mbind option_bind nodes bucket]. rewrite Es.
  assert (exists m1 f1, (if overloaded m then hash_map_resize m else Some m) = Some m1 /\
    rep N m1 f1 g) as (m1 & f1 & -> & Hr1).
  { destruct (overloaded m) eqn:E; [by apply (resize_rep N m f)|eauto]. }
  by apply (put_miss N m1 f1).
Qed.

Lemma del_rep N m f g k :
  rep N m f g -> K k ->
  exists m' f', hash_map_del k m = Some (if g !! k is Some _ then 0 else -1, m') /\ rep N m' f' (delete k g).
Proof.
  intros Hr Hk. unfold hash_map_del. rewrite (rep_bucket _ _ _ _ _ Hr).
  cbn [mbind option_bind nodes bucket hcount]. pose proof (rep_count _ _ _ _ Hr) as [Hc1 Hc2].
  pose proof (rep_bound _ _ _ _ Hr) as [_ HN].
  pose proof (search_rep N m f g k Hr Hk) as Hs. destruct (search _ _ _) as [[i n]|].
  2:{ destruct Hs as [Hg _]. rewrite Hg. rewrite delete_id by done. eauto. }
  destruct Hs as (Hi & Hkn & Hg). rewrite Hg. pose proof (index_range _ _ _ _ (string_hash k) Hr) as Hir.
  set (ns := f (index (string_hash k) (capcity m))) in *.
  pose proof (delete_Permutation _ _ _ Hi) as P1.
  pose proof (rep_nodup _ _ _ _ Hr _ Hir) as Hnd. pose proof (rep_good _ _ _ _ Hr _ Hir) as Hgd.
  fold ns in Hnd, Hgd. rewrite P1 in Hgd, Hnd. apply Forall_cons in Hgd as [Hgn Hgd].
  rewrite fmap_cons, Hkn in Hnd. apply NoDup_cons in Hnd as [Hnin Hnd].
  assert (0 < size g)%nat as Hpos.
  { apply Nat.neq_0_lt_0. rewrite map_size_non_empty_iff. intros ->. by rewrite lookup_empty in Hg. }
  assert (size (delete k g) = Nat.pred (size g)) as Esz by (by rewrite map_size_delete, Hg).
  do 2 eexists. split; [|eapply (rep_change N N m f g k (delete i ns)); try done].
  - rewrite Esz, Hc1, u64_sub, (u64_small (Z.of_nat (size g) - 1)) by lia. unfold bucket.
    pose proof (lookup_lt_Some _ _ _ Hi) as Hlt. rewrite length_delete by done.
    do 3 f_equal; [do 2 f_equal|]; lia || (f_equal; lia).
  - rewrite Esz. lia.
  - intros v. rewrite lookup_delete_eq. split; [done|]. intros (n2 & Hn2 & Hk2 & _).
    destruct Hnin. rewrite <- Hk2. by apply list_elem_of_fmap_2.
  - intros k' Hne. by rewrite lookup_delete_ne.
  - intros n2 Hn2. fold ns. rewrite (elem_of_Permutation_proper n2 _ _ P1), !elem_of_cons. naive_solver.
Qed.

Lemma init_rep : rep 0 hash_map_init (fun _ => []) ∅.
Proof.
  constructor; cbn [capcity mcount table hash_map_init]; try done.
  - exists 4. split; [lia|done].
  - pose proof (insert_heads_tbl 16 0 (fun _ => []) ∅) as Ht. eapply tbl_ext; [apply Ht|].
    + intros i. rewrite lookup_empty, decide_False; [done|lia].
    + lia.
    + intros i Hi. cbn beta. by case_decide.
  - intros. apply NoDup_nil_2.
  - intros k v. rewrite lookup_empty. split; [done|]. by intros (n & ?%elem_of_nil & _).
Qed.

(** ** Clearing *)
Lemma fmap_bind_list {A B C} (h : B -> C) (f : A -> list B) (l : list A) :
  h <$> (l ≫= f) = l ≫= (fun x => h <$> f x).
Proof. induction l as [|x l IH]; [done|]. cbn. by rewrite fmap_app, <- IH. Qed.

Lemma rep_size N m f g : rep N m f g -> size g = length (seqZ 0 (capcity m) ≫= f).
Proof.
  intros Hr. set (L := seqZ 0 (capcity m) ≫= f).
  assert (forall i n, i ∈ seqZ 0 (capcity m) -> n ∈ f i ->
    index (string_hash (keyname n)) (capcity m) = i) as Hidx.
  { intros i n Hi%elem_of_seqZ Hn. pose proof (rep_good _ _ _ _ Hr i ltac:(lia)) as Hg.
    rewrite Forall_forall in Hg. destruct (Hg n Hn) as [[_ <-] ?]. done. }
  assert (NoDup (keyname <$> L)) as Hnd.
  { unfold L. rewrite fmap_bind_list. apply NoDup_bind; [|intros i Hi; apply (rep_nodup _ _ _ _ Hr)|].
    - intros i j k Hi Hj (n & -> & Hn)%list_elem_of_fmap (n' & E & Hn')%list_elem_of_fmap.
      rewrite <- (Hidx i n Hi Hn), <- (Hidx j n' Hj Hn'). by rewrite E.
    - apply elem_of_seqZ in Hi. lia.
    - apply NoDup_seqZ. }
  assert (g = list_to_map ((fun n => (keyname n, value n)) <$> L)) as ->.
  { apply map_eq. intros k. apply option_eq. intros v.
    rewrite <- elem_of_list_to_map by (by rewrite <- list_fmap_compose).
    rewrite (rep_lookup _ _ _ _ Hr), list_elem_of_fmap. unfold L. split.
    - intros (n & Hn & <- & <-). exists n. split; [done|]. apply list_elem_of_bind.
      eexists. split; [exact Hn|]. apply elem_of_seqZ. pose proof (index_range _ _ _ _ (string_hash (keyname n)) Hr). lia.
    - intros (n & [= -> ->] & (i & Hn & Hi)%list_elem_of_bind). exists n.
      by rewrite (Hidx i n). }
  rewrite <- (length_fmap (fun n => (keyname n, value n)) L).
  rewrite <- length_map_to_list. apply Permutation_length, map_to_list_to_map. by rewrite <- list_fmap_compose.
Qed.

Lemma clear_head_spec ns c : clear_head (bucket ns) (u64 c) = (bucket [], u64 (c - Z.of_nat (length ns))).
Proof.
  unfold clear_head. cbn [nodes bucket].
  assert (forall ms ns c, length ms = length ns ->
    foldl (fun '(h, c) (_ : map_node_t) => (mk_head (tail (nodes h)) (u64 (hcount h - 1)), u64 (c - 1)))
      (bucket ns, u64 c) ms = (bucket [], u64 (c - Z.of_nat (length ns)))) as H; [|by apply H].
  clear. induction ms as [|m ms IH]; intros ns c Hl; destruct ns as [|n ns]; try done; cbn [foldl].
  { by rewrite Z.sub_0_r. }
  cbn [bucket nodes hcount tail]. rewrite !u64_sub.
  replace (Z.of_nat (length (n :: ns)) - 1) with (Z.of_nat (length ns)) by (cbn; lia).
  fold (bucket ns). rewrite IH by (cbn in Hl; lia). do 2 f_equal. cbn. lia.
Qed.

Lemma clear_loop_spec all n f : forall t c,
  (forall i, 0 <= i < Z.of_nat n -> t !! i = Some (bucket (f i))) ->
  exists t', clear_loop all n t (u64 c) =
      Some (t', u64 (c - Z.of_nat (length (seqZ 0 (Z.of_nat n) ≫= f)))) /\
    forall i, t' !! i = if decide (0 <= i < Z.of_nat n) then (if all : bool then None else Some (bucket []))
                        else t !! i.
Proof.
  induction n as [|n IH]; intros t c Ht; cbn [clear_loop].
  { exists t. split; [by rewrite Z.sub_0_r|]. intros i. by rewrite decide_False by lia. }
  rewrite Ht by lia. cbn [mbind option_bind]. rewrite clear_head_spec. set (t1 := if all then _ else _).
  assert (forall i, i <> Z.of_nat n -> t1 !! i = t !! i) as Ht1.
  { intros i Hi. unfold t1. destruct all; [by rewrite lookup_delete_ne|by rewrite lookup_insert_ne]. }
  destruct (IH t1 (c - Z.of_nat (length (f (Z.of_nat n))))) as (t' & -> & Ht').
  { intros i Hi. rewrite Ht1, Ht by lia. done. }
  exists t'. split.
  - do 3 f_equal. rewrite Nat2Z.inj_succ, <- Z.add_1_r, seqZ_app, bind_app, length_app by lia.
    assert (seqZ (0 + Z.of_nat n) 1 = [Z.of_nat n]) as -> by (unfold seqZ; cbn; f_equal; lia).
    cbn [mbind list_bind]. rewrite app_nil_r. lia.
  - intros i. rewrite Ht'. destruct (decide (i = Z.of_nat n)) as [->|Hne].
    + rewrite decide_False, decide_True by lia. unfold t1.
      destruct all; [by rewrite lookup_delete_eq|by rewrite lookup_insert_eq].
    + rewrite Ht1 by done. repeat case_decide; lia || done.
Qed.

Lemma clear_rep N m f g :
  rep N m f g -> exists m', hash_map_clear m = Some m' /\ rep N m' (fun _ => []) ∅.
Proof.
  intros Hr. unfold hash_map_clear, hash_map_clearall.
  pose proof (rep_count _ _ _ _ Hr) as [Hc Hn]. pose proof (rep_bound _ _ _ _ Hr) as [_ HN].
  pose proof (rep_size _ _ _ _ Hr) as Hsz. pose proof (index_range _ _ _ _ 0 Hr) as Hcap.
  assert (mcount m = u64 (mcount m)) as -> by (rewrite u64_small by lia; done).
  destruct (clear_loop_spec false (Z.to_nat (capcity m)) f (table m) (mcount m)) as (t' & -> & Ht').
  { intros i Hi. apply (tbl_lookup _ _ _ _ (rep_tbl _ _ _ _ Hr)). lia. }
  rewrite Z2Nat.id, <- Hsz, Hc, Z.sub_diag in * by lia. cbn [mbind option_bind].
  eexists. split; [done|]. destruct Hr. constructor; cbn; try done; try lia.
  - change (u64 0) with 0. rewrite map_size_empty. lia.
  - intros i. rewrite Ht'. case_decide as Hi; [done|]. rewrite (rep_tbl0 i). by rewrite decide_False.
  - intros. apply NoDup_nil_2.
  - intros k v. rewrite lookup_empty. split; [done|]. by intros (n & ?%elem_of_nil & _).
Qed.

Lemma destory_rep N m f g : rep N m f g -> hash_map_destory m = Some (mk_map 0 ∅ 0).
Proof.
  intros Hr. unfold hash_map_destory, hash_map_clearall.
  pose proof (rep_count _ _ _ _ Hr) as [Hc Hn]. pose proof (rep_bound _ _ _ _ Hr) as [_ HN].
  pose proof (rep_size _ _ _ _ Hr) as Hsz. pose proof (index_range _ _ _ _ 0 Hr) as Hcap.
  assert (mcount m = u64 (mcount m)) as -> by (rewrite u64_small by lia; done).
  destruct (clear_loop_spec true (Z.to_nat (capcity m)) f (table m) (mcount m)) as (t' & -> & Ht').
  { intros i Hi. apply (tbl_lookup _ _ _ _ (rep_tbl _ _ _ _ Hr)). lia. }
  rewrite Z2Nat.id, <- Hsz, Hc, Z.sub_diag in * by lia. cbn [mbind option_bind].
  do 2 f_equal. apply map_eq. intros i. rewrite Ht', lookup_empty. case_decide as Hi; [done|].
  rewrite (rep_tbl _ _ _ _ Hr i). by rewrite decide_False.
Qed.
End inv.

(** ** Properties *)
Inductive map_op :=
| Put (k : cstring) (v : list Z) | Get (k : cstring) | Del (k : cstring) | Size | Empty | Clear.
Inductive map_res := Code (z : Z) | Got (v : option (list Z)) | Num (z : Z) | Flag (b : bool).

Definition run_op (op : map_op) (m : hash_map_t) : option (map_res * hash_map_t) :=
  match op with
  | Put k v => m ← hash_map_put k v m; Some (Code 0, m)
  | Get k => r ← hash_map_get k m; Some (Got r, m)
  | Del k => '(r, m) ← hash_map_del k m; Some (Code r, m)
  | Size => Some (Num (hash_map_size m), m)
  | Empty => Some (Flag (hash_map_empty m), m)
  | Clear => m ← hash_map_clear m; Some (Code 0, m)
  end.

Definition spec_op (op : map_op) (g : gmap cstring (list Z)) : map_res * gmap cstring (list Z) :=
  match op with
  | Put k v => (Code 0, <[k := v]> g)
  | Get k => (Got (g !! k), g)
  | Del k => (Code (if g !! k is Some _ then 0 else -1), delete k g)
  | Size => (Num (Z.of_nat (size g)), g)
  | Empty => (Flag (bool_decide (size g = 0%nat)), g)
  | Clear => (Code 0, ∅)
  end.

Fixpoint run_ops (ops : list map_op) (m : hash_map_t) : option (list map_res * hash_map_t) :=
  match ops with
  | [] => Some ([], m)
  | op :: ops => '(r, m) ← run_op op m; '(rs, m) ← run_ops ops m; Some (r :: rs, m)
  end.

Fixpoint spec_ops (ops : list map_op) (g : gmap cstring (list Z))
    : list map_res * gmap cstring (list Z) :=
  match ops with
  | [] => ([], g)
  | op :: ops =>
      let '(r, g) := spec_op op g in
      let '(rs, g) := spec_ops ops g in
      (r :: rs, g)
  end.

Definition op_keys (op : map_op) : list cstring :=
  match op with Put k _ | Get k | Del k => [k] | _ => [] end.

Section ops.
Context (K : cstring -> Prop) (HK : separate K) (HL : forall k, K k -> (length k < KEYNAME_SIZE)%nat).

Lemma run_op_rep N m f g op :
  rep K N m f g -> N < 2 ^ 20 -> Forall K (op_keys op) ->
  exists m' f', run_op op m = Some (fst (spec_op op g), m') /\
    rep K (N + 1) m' f' (snd (spec_op op g)).
Proof.
  intros Hr HN Hks.
  assert (forall m f g, rep K N m f g -> rep K (N + 1) m f g) as Hmono.
  { intros m1 f1 g1 []. constructor; try done; lia. }
  destruct op as [k v|k|k| | |]; cbn [run_op spec_op fst snd op_keys] in *.
  - rewrite Forall_singleton in Hks.
    destruct (put_rep K HK HL N m f g k v Hr Hks HN) as (m' & f' & -> & Hr'). eauto.
  - rewrite Forall_singleton in Hks. rewrite (get_rep K HK N m f g k Hr Hks). cbn. eauto 6.
  - rewrite Forall_singleton in Hks.
    destruct (del_rep K HK N m f g k Hr Hks) as (m' & f' & -> & Hr'). cbn. eauto 6.
  - exists m, f. unfold hash_map_size. rewrite (proj1 (rep_count _ _ _ _ _ Hr)). eauto.
  - exists m, f. unfold hash_map_empty, hash_map_size. rewrite (proj1 (rep_count _ _ _ _ _ Hr)).
    split; [|eauto]. do 3 f_equal. apply bool_decide_ext. lia.
  - destruct (clear_rep K N m f g Hr) as (m' & -> & Hr'). cbn. eauto 6.
Qed.

Lemma run_ops_rep ops : forall N m f g,
  rep K N m f g -> N + Z.of_nat (length ops) <= 2 ^ 20 -> Forall K (ops ≫= op_keys) ->
  exists m' f', run_ops ops m = Some (fst (spec_ops ops g), m') /\
    rep K (N + Z.of_nat (length ops)) m' f' (snd (spec_ops ops g)).
Proof.
  induction ops as [|op ops IH]; intros N m f g Hr HN Hks; cbn in *.
  { rewrite Z.add_0_r. eauto. }
  apply Forall_app in Hks as [Hk Hks].
  destruct (run_op_rep N m f g op Hr ltac:(lia) Hk) as (m1 & f1 & -> & Hr1).
  destruct (spec_op op g) as [r g1]. cbn [fst snd mbind option_bind] in *.
  destruct (IH (N + 1) m1 f1 g1 Hr1 ltac:(lia) Hks) as (m2 & f2 & -> & Hr2).
  destruct (spec_ops ops g1) as [rs g2]. cbn [fst snd mbind option_bind] in *.
  exists m2, f2. split; [done|].
  by replace (N + Z.of_nat (S (length ops))) with (N + 1 + Z.of_nat (length ops)) by lia.
Qed.
End ops.

(** C9. The hash table is a finite map. Every sequence of at most 2^20 operations on a
    fresh table runs without undefined behaviour through all the resizes and returns
    what the same operations return on a finite map from keys to values, provided that
    the keys fit in the buffer of a node and none of them is a proper prefix of another
    with the same hash; and [hash_map_destory] releases every node and bucket. *)
Theorem hash_map_refines (ops : list map_op) :
  Z.of_nat (length ops) <= 2 ^ 20 ->
  (forall k, k ∈ ops ≫= op_keys -> (length k < KEYNAME_SIZE)%nat) ->
  separate (fun k => k ∈ ops ≫= op_keys) ->
  exists m, run_ops ops hash_map_init = Some (fst (spec_ops ops ∅), m) /\
    hash_map_destory m = Some (mk_map 0 ∅ 0).
Proof.
  intros Hn HL HK.
  destruct (run_ops_rep (fun k => k ∈ ops ≫= op_keys) HK HL ops 0 hash_map_init (fun _ => []) ∅)
    as (m & f & E & Hr); [apply init_rep|lia|by apply Forall_forall|].
  exists m. split; [done|]. by eapply destory_rep.
Qed.

(** Twenty keys of one character (the table is resized twice), looked up and deleted. *)
Definition demo_ops : list map_op :=
  ((fun i => Put [i] [i; i + 1]) <$> seqZ 65 20) ++
  [Get [70]; Put [70] [9]; Get [70]; Del [70]; Del [70]; Get [70]; Size; Clear; Empty].

Lemma hash_map_refines_witness :
  exists m, run_ops demo_ops hash_map_init =
      Some (repeat (Code 0) 20 ++
            [Got (Some [70; 71]); Code 0; Got (Some [9]); Code 0; Code (-1); Got None; Num 19;
             Code 0; Flag true], m) /\
    hash_map_destory m = Some (mk_map 0 ∅ 0).
Proof.
  assert (forall k, k ∈ demo_ops ≫= op_keys -> length k = 1%nat) as Hlen.
  { apply Forall_forall. repeat (apply Forall_cons; split; [done|]). by apply Forall_nil. }
  apply (hash_map_refines demo_ops).
  - vm_compute. discriminate.
  - intros k Hk. rewrite (Hlen k Hk). unfold KEYNAME_SIZE. lia.
  - intros k1 k2 H1 H2 _ Hp. apply prefix_length_eq in Hp; [done|]. by rewrite (Hlen k1), (Hlen k2).
Defined.

(** user and userdtarjcp *)
Definition key1 : cstring := [117; 115; 101; 114].
Definition key2 : cstring := [117; 115; 101; 114; 100; 116; 97; 114; 106; 99; 112].

(** Two keys with the same hash, one a prefix of the other, are not told apart: the
    comparison looks only at the first [strlen(keyname)] characters. With the entry of
    the longer key in the table, the shorter one reads it, replaces its value, and
    deletes it, while in the other order both are kept. *)
Theorem hash_map_prefix_confused (v w : list Z) :
  string_hash key1 = string_hash key2 /\
  (exists m, run_ops [Put key2 v; Get key1; Put key1 w; Size; Get key2; Del key1; Get key2]
     hash_map_init =
     Some ([Code 0; Got (Some v); Code 0; Num 1; Got (Some w); Code 0; Got None], m)) /\
  (exists m, run_ops [Put key1 w; Put key2 v; Size; Get key1; Get key2] hash_map_init =
     Some ([Code 0; Code 0; Num 2; Got (Some w); Got (Some v)], m)).
Proof.
  split_and!; [by vm_compute| |]; eexists; vm_compute; reflexivity.
Qed.
