(* ===== verification/SpinLock.v ===== *)
(** * atomic.h, co_spin_lock.c and SpinLock.h: atomic counters and spin locks

    The atomic operations, and the two spin locks built on them: the flag lock that is
    compiled by default and the ticket lock behind [CO_TICKET_SPINLOCK]. Threads take
    atomic steps in any order; a failed round of a spin loop leaves the state as it is. *)
From S2P Require Import Prelude.
Local Open Scope Z_scope.

(** ** atomic.h *)
(** An [atomic_t] is its [int]; the instructions wrap around and set the zero and sign
    flags by the 32-bit result. *)
Definition atomic_add_and_fetch (v n : Z) : Z := i32 (v + n).
Definition atomic_sub_and_fetch (v n : Z) : Z := i32 (v - n).
Definition atomic_fetch_and_add (v n : Z) : Z * Z := (v, i32 (v + n)).
Definition atomic_compare_and_swap (v o n : Z) : bool * Z :=
  if bool_decide (v = o) then (true, n) else (false, v).
Definition atomic_sub_and_test (v i : Z) : bool * Z := (bool_decide (i32 (v - i) = 0), i32 (v - i)).
Definition atomic_add_and_test (v i : Z) : bool * Z := (bool_decide (i32 (v + i) = 0), i32 (v + i)).
Definition atomic_inc (v : Z) : Z := i32 (v + 1).
Definition atomic_dec (v : Z) : Z := i32 (v - 1).
Definition atomic_inc_and_test (v : Z) : bool * Z := atomic_add_and_test v 1.
Definition atomic_dec_and_test (v : Z) : bool * Z := atomic_sub_and_test v 1.
Definition atomic_inc_and_negative (v : Z) : bool * Z := (bool_decide (i32 (v + 1) < 0), i32 (v + 1)).
Definition atomic_dec_and_negative (v : Z) : bool * Z := (bool_decide (i32 (v - 1) < 0), i32 (v - 1)).

(** ** The flag lock *)
Definition SPIN_RELESAED : Z := 1.
Definition SPIN_ACQUIRED : Z := 0.

(** Outside, in the loop of [spin_lock], inside, after the test of [spin_unlock], after the
    test of [spin_trylock]. *)
Inductive rpc := Out | Spinning | Inside | Unlocking | Trying.
Record raw := mk_raw { rlock : Z; rpcs : nat -> rpc }.

Definition spin_lock_init : raw := mk_raw SPIN_RELESAED (fun _ => Out).
Definition spin_locked (s : raw) : bool := bool_decide (rlock s = SPIN_ACQUIRED).

Inductive ract := RLock (t : nat) | RUnlock (t : nat) | RTry (t : nat) | RGo (t : nat).

Definition rgoto (t : nat) (p : rpc) (l : Z) (s : raw) : raw := mk_raw l (upd (rpcs s) t p).

(** [None]: not at that point, or [PANIC]. *)
Definition rstep (a : ract) (s : raw) : option raw :=
  match a with
  | RLock t => match rpcs s t with Out => Some (rgoto t Spinning (rlock s) s) | _ => None end
  | RUnlock t =>
      match rpcs s t with
      | Inside => if spin_locked s then Some (rgoto t Unlocking (rlock s) s) else None
      | _ => None
      end
  | RTry t =>
      match rpcs s t with
      | Out => Some (rgoto t (if spin_locked s then Inside else Trying) (rlock s) s)
      | _ => None
      end
  | RGo t =>
      match rpcs s t with
      | Spinning =>
          let '(won, l) := atomic_compare_and_swap (rlock s) SPIN_RELESAED SPIN_ACQUIRED in
          Some (rgoto t (if won : bool then Inside else Spinning) l s)
      | Trying =>
          let '(won, l) := atomic_compare_and_swap (rlock s) SPIN_RELESAED SPIN_ACQUIRED in
          Some (rgoto t (if won : bool then Inside else Out) l s)
      | Unlocking =>
          Some (rgoto t Out (snd (atomic_compare_and_swap (rlock s) SPIN_ACQUIRED SPIN_RELESAED)) s)
      | _ => None
      end
  end.

Fixpoint rsteps (acts : list ract) (s : raw) : option raw :=
  match acts with [] => Some s | a :: acts => s ← rstep a s; rsteps acts s end.

Definition holds (p : rpc) : bool := match p with Inside | Unlocking => true | _ => false end.
Definition tries (a : ract) : bool := match a with RTry _ => true | _ => false end.

Record rinv (s : raw) : Prop := {
  rinv_flag : rlock s = SPIN_RELESAED \/ rlock s = SPIN_ACQUIRED;
  rinv_one : forall t u, holds (rpcs s t) = true -> holds (rpcs s u) = true -> t = u;
  rinv_holds : rlock s = SPIN_ACQUIRED <-> exists t, holds (rpcs s t) = true;
  rinv_try : forall t, rpcs s t <> Trying
}.

Lemma rinit_inv : rinv spin_lock_init.
Proof. constructor; cbn; try done; [by left|]. split; [done|]. by intros [? ?]. Qed.

(** A step that does not touch the flag or who holds it. *)
Lemma rgoto_inv t p s :
  rinv s -> holds p = holds (rpcs s t) -> p <> Trying -> rinv (rgoto t p (rlock s) s).
Proof.
  intros [] Hp Ht. assert (forall u, holds (upd (rpcs s) t p u) = holds (rpcs s u)) as E.
  { intros u. by upd_cases. }
  constructor; cbn; [done|intros u v; rewrite !E; auto| |intros u; by upd_cases].
  rewrite rinv_holds0. by split; intros [u Hu]; exists u; rewrite ?E in *.
Qed.

Lemma rstep_inv a s s' : rinv s -> tries a = false -> rstep a s = Some s' -> rinv s'.
Proof.
  intros Hi Ha Hs. pose proof Hi as []. destruct a as [t|t|t|t]; cbn in Hs; try done.
  - destruct (rpcs s t) eqn:Hp; try done. injection Hs as <-. apply rgoto_inv; by rewrite ?Hp.
  - destruct (rpcs s t) eqn:Hp; try done. destruct (spin_locked s); [|done].
    injection Hs as <-. apply rgoto_inv; by rewrite ?Hp.
  - destruct (rpcs s t) eqn:Hp; try done.
    + unfold atomic_compare_and_swap in Hs. case_bool_decide as Hl; injection Hs as <-;
        [|apply rgoto_inv; by rewrite ?Hp].
      assert (forall u, holds (rpcs s u) = false) as Hn.
      { intros u. destruct (holds _) eqn:E; [|done].
        assert (rlock s = SPIN_ACQUIRED) as Hl' by (apply rinv_holds0; eauto).
        by rewrite Hl in Hl'. }
      constructor; cbn; [by right| | |intros u; by upd_cases].
      * intros u v. upd_cases; [done|by rewrite Hn|by rewrite Hn|by rewrite Hn].
      * split; [|done]. intros _. exists t. by rewrite upd_eq.
    + injection Hs as <-. assert (rlock s = SPIN_ACQUIRED) as Hl by (apply rinv_holds0; exists t; by rewrite Hp).
      unfold atomic_compare_and_swap. rewrite bool_decide_eq_true_2 by done. cbn [snd].
      assert (forall u, holds (upd (rpcs s) t Out u) = false) as Hn.
      { intros u. upd_cases; [done|]. destruct (holds (rpcs s u)) eqn:E; [|done].
        destruct n. apply rinv_one0; [done|by rewrite Hp]. }
      constructor; cbn; [by left| | |intros u; by upd_cases].
      * intros u v. by rewrite Hn.
      * split; [done|]. intros [u Hu]. by rewrite Hn in Hu.
    + by destruct (rinv_try0 t).
Qed.

Lemma rsteps_inv acts : forall s s',
  rinv s -> Forall (fun a => tries a = false) acts -> rsteps acts s = Some s' -> rinv s'.
Proof.
  induction acts as [|a acts IH]; intros s s' Hi Hf Hs; cbn in Hs; [by simplify_eq|].
  apply Forall_cons in Hf as [Ha Hf]. destruct (rstep a s) as [s1|] eqn:E; [|done].
  eapply IH; [by eapply rstep_inv|done..].
Qed.

(** ** The ticket lock *)
Inductive tpc := TOut | TWait (id : Z) | TIn.
(** [arrived] and [served] log the calls of [spin_lock] and their returns. *)
Record ticket := mk_ticket {
  tnext : Z; towner : Z; tpcs : nat -> tpc; arrived : list nat; served : list nat }.

Definition ticket_lock_init : ticket := mk_ticket 0 0 (fun _ => TOut) [] [].
Definition ticket_locked (s : ticket) : bool := bool_decide (towner s <> tnext s).

Inductive tact := TLock (t : nat) | TUnlock (t : nat) | TGo (t : nat).

Definition tstep (a : tact) (s : ticket) : option ticket :=
  match a with
  | TLock t =>
      match tpcs s t with
      | TOut =>
          let '(id, next) := atomic_fetch_and_add (tnext s) 1 in
          Some (mk_ticket next (towner s) (upd (tpcs s) t (TWait id)) (arrived s ++ [t]) (served s))
      | _ => None
      end
  | TGo t =>
      match tpcs s t with
      | TWait id =>
          if bool_decide (id = towner s)
          then Some (mk_ticket (tnext s) (towner s) (upd (tpcs s) t TIn) (arrived s) (served s ++ [t]))
          else Some s
      | _ => None
      end
  | TUnlock t =>
      match tpcs s t with
      | TIn => Some (mk_ticket (tnext s) (atomic_inc (towner s)) (upd (tpcs s) t TOut) (arrived s) (served s))
      | _ => None
      end
  end.

Fixpoint tsteps (acts : list tact) (s : ticket) : option ticket :=
  match acts with [] => Some s | a :: acts => s ← tstep a s; tsteps acts s end.

Definition tact_of (a : tact) : nat := match a with TLock t | TUnlock t | TGo t => t end.

(** [q] are the threads with a ticket, in order, and [d] the tickets handed back. *)
Record tinv (n d : nat) (q : list nat) (s : ticket) : Prop := {
  tinv_owner : towner s = i32 (Z.of_nat d);
  tinv_next : tnext s = i32 (Z.of_nat (d + length q));
  tinv_nodup : NoDup q;
  tinv_bound : Forall (fun t => t < n)%nat q;
  tinv_arrived : length (arrived s) = (d + length q)%nat /\ drop d (arrived s) = q;
  tinv_wait : forall i t, q !! i = Some t ->
    tpcs s t = TWait (i32 (Z.of_nat (d + i))) \/ (i = 0%nat /\ tpcs s t = TIn);
  tinv_out : forall t, t ∉ q -> tpcs s t = TOut;
  tinv_served : served s = take d (arrived s) ++
    match q with t :: _ => match tpcs s t with TIn => [t] | _ => [] end | [] => [] end
}.

Lemma i32_ticket b i j :
  i32 (b + i) = i32 (b + j) -> 0 <= i < 4294967296 -> 0 <= j < 4294967296 -> i = j.
Proof. unfold swrap. intros. Z.to_euclidean_division_equations. lia. Qed.

Lemma i32_succ b : i32 (i32 b + 1) = i32 (b + 1).
Proof. unfold swrap. Z.to_euclidean_division_equations. lia. Qed.

Lemma queue_bound n (q : list nat) : NoDup q -> Forall (fun t => t < n)%nat q -> (length q <= n)%nat.
Proof.
  intros Hnd Hf. rewrite <- (length_seq n 0). apply submseteq_length, NoDup_submseteq; [done|].
  intros t Ht. apply elem_of_seq. rewrite Forall_forall in Hf. specialize (Hf t Ht). lia.
Qed.

(** The thread that holds the lock is the first in the queue. *)
Lemma in_is_head n d q s t : tinv n d q s -> tpcs s t = TIn -> exists q', q = t :: q'.
Proof.
  intros [] Ht. destruct (decide (t ∈ q)) as [[i Hi]%list_elem_of_lookup|Hn].
  - destruct (tinv_wait0 i t Hi) as [E|[-> _]]; [congruence|]. destruct q; [done|]. cbn in Hi.
    simplify_eq. eauto.
  - rewrite tinv_out0 in Ht by done. done.
Qed.

Lemma arrive_inv n d q s t :
  tinv n d q s -> (t < n)%nat -> tpcs s t = TOut ->
  tinv n d (q ++ [t]) (mk_ticket (i32 (tnext s + 1)) (towner s) (upd (tpcs s) t (TWait (tnext s)))
    (arrived s ++ [t]) (served s)).
Proof.
  intros Hi Ht Hp. pose proof Hi as []. assert (t ∉ q) as Hn.
  { intros [i Hl]%list_elem_of_lookup. destruct (tinv_wait0 i t Hl) as [|[_ ?]]; congruence. }
  destruct tinv_arrived0 as [Hlen Hdrop].
  constructor; cbn; rewrite ?length_app; cbn [length]; try done.
  - rewrite tinv_next0, i32_succ. f_equal. lia.
  - apply NoDup_app. split_and!; [done|set_solver|apply NoDup_singleton].
  - apply Forall_app. split; [done|by apply Forall_singleton].
  - rewrite drop_app_le, Hdrop by lia. split; [lia|done].
  - intros i u Hu. destruct (decide (u = t)) as [->|Hne].
    + left. rewrite upd_eq, tinv_next0. apply lookup_snoc_Some in Hu as [[_ Hu]|[-> _]]; [|done].
      destruct Hn. by eapply list_elem_of_lookup_2.
    + rewrite upd_ne by done. apply tinv_wait0. apply lookup_snoc_Some in Hu as [[_ Hu]|[_ ?]]; congruence.
  - intros u. rewrite elem_of_app, list_elem_of_singleton. intros Hu. rewrite upd_ne by naive_solver. auto.
  - rewrite take_app_le, tinv_served0 by lia. f_equal. destruct q as [|h q]; cbn.
    + by rewrite upd_eq.
    + rewrite upd_ne; [done|]. intros ->. apply Hn. left.
Qed.

Lemma enter_inv n d q s t :
  tinv n d q s -> Z.of_nat n < 4294967296 -> tpcs s t = TWait (towner s) ->
  tinv n d q (mk_ticket (tnext s) (towner s) (upd (tpcs s) t TIn) (arrived s) (served s ++ [t])).
Proof.
  intros Hi Hn Hp. pose proof Hi as []. pose proof (queue_bound n q tinv_nodup0 tinv_bound0).
  assert (exists q', q = t :: q') as [q' ->].
  { destruct (decide (t ∈ q)) as [[i Hl]%list_elem_of_lookup|Hnq]; [|by rewrite tinv_out0 in Hp].
    pose proof (lookup_lt_Some _ _ _ Hl). destruct (tinv_wait0 i t Hl) as [E|[_ E]]; [|congruence].
    assert (i = 0%nat) as ->.
    { rewrite Hp, tinv_owner0 in E. injection E as E. rewrite Nat2Z.inj_add in E.
      replace (Z.of_nat d) with (Z.of_nat d + 0) in E at 1 by lia.
      apply i32_ticket in E; lia. }
    destruct q; [done|]. cbn in Hl. simplify_eq. eauto. }
  constructor; cbn; try done.
  - intros [|i] u Hu; cbn in Hu; [simplify_eq; right; by rewrite upd_eq|].
    rewrite upd_ne; [by apply (tinv_wait0 (S i))|]. intros ->.
    apply NoDup_cons in tinv_nodup0 as [Hnin _]. apply Hnin. by eapply list_elem_of_lookup_2.
  - intros u Hu. rewrite upd_ne by set_solver. auto.
  - by rewrite upd_eq, tinv_served0, Hp, app_nil_r.
Qed.

Lemma leave_inv n d q s t :
  tinv n d (t :: q) s -> tpcs s t = TIn ->
  tinv n (S d) q (mk_ticket (tnext s) (i32 (towner s + 1)) (upd (tpcs s) t TOut) (arrived s) (served s)).
Proof.
  intros Hi Hp. pose proof Hi as []. apply NoDup_cons in tinv_nodup0 as [Hnin Hnd].
  apply Forall_cons in tinv_bound0 as [_ Hb]. destruct tinv_arrived0 as [Hlen Hdrop].
  assert (arrived s !! d = Some t) as Ht.
  { rewrite <- (Nat.add_0_r d), <- lookup_drop, Hdrop. done. }
  constructor; cbn; try done.
  - rewrite tinv_owner0, i32_succ. f_equal. lia.
  - rewrite tinv_next0. do 2 f_equal. cbn. lia.
  - cbn in Hlen. split; [lia|]. rewrite <- Nat.add_1_r, <- drop_drop, Hdrop. done.
  - intros i u Hu. rewrite upd_ne.
    + destruct (tinv_wait0 (S i) u Hu) as [->|[? _]]; [|lia]. left. do 3 f_equal. lia.
    + intros ->. apply Hnin. by eapply list_elem_of_lookup_2.
  - intros u Hu. destruct (decide (u = t)) as [->|Hne]; [by rewrite upd_eq|].
    rewrite upd_ne by done. apply tinv_out0. set_solver.
  - rewrite tinv_served0, Hp, (take_S_r _ _ t) by done. rewrite <- (app_nil_r (_ ++ [t])) at 1. f_equal.
    destruct q as [|h q]; [done|]. rewrite upd_ne by set_solver.
    destruct (tinv_wait0 1%nat h) as [->|[? _]]; [done|done|lia].
Qed.

Lemma tstep_inv n d q s a s' :
  tinv n d q s -> Z.of_nat n < 4294967296 -> (tact_of a < n)%nat -> tstep a s = Some s' ->
  exists d' q', tinv n d' q' s'.
Proof.
  intros Hi Hn Ha Hs. destruct a as [t|t|t]; cbn in Hs, Ha; destruct (tpcs s t) eqn:Hp; try done.
  - injection Hs as <-. exists d, (q ++ [t]). by apply arrive_inv.
  - injection Hs as <-. destruct (in_is_head _ _ _ _ _ Hi Hp) as [q' ->].
    exists (S d), q'. by apply leave_inv.
  - case_bool_decide as He; injection Hs as <-; [|eauto]. exists d, q. apply enter_inv; congruence.
Qed.

Lemma tsteps_inv n acts : forall d q s s',
  tinv n d q s -> Z.of_nat n < 4294967296 -> Forall (fun a => tact_of a < n)%nat acts ->
  tsteps acts s = Some s' -> exists d' q', tinv n d' q' s'.
Proof.
  induction acts as [|a acts IH]; intros d q s s' Hi Hn Hf Hs; cbn in Hs; [simplify_eq; eauto|].
  apply Forall_cons in Hf as [Ha Hf]. destruct (tstep a s) as [s1|] eqn:E; [|done].
  destruct (tstep_inv n d q s a s1 Hi Hn Ha E) as (d1 & q1 & Hi1). by eapply IH.
Qed.

Lemma tinit_inv n : tinv n 0 [] ticket_lock_init.
Proof. constructor; try done; constructor. Qed.

(** ** Properties *)
(** The flag lock excludes: when threads only lock and unlock, at most one is between
    the return of [spin_lock] and the store of [spin_unlock], in every interleaving;
    [spin_locked] says whether there is one, its [spin_unlock] does not panic, and when
    there is none the next round of any spinning thread takes the lock. *)
Theorem spin_lock_excludes (acts : list ract) (s : raw) :
  Forall (fun a => tries a = false) acts -> rsteps acts spin_lock_init = Some s ->
  (forall t u, holds (rpcs s t) = true -> holds (rpcs s u) = true -> t = u) /\
  (spin_locked s = true <-> exists t, holds (rpcs s t) = true) /\
  (forall t, rpcs s t = Inside -> exists s', rstep (RUnlock t) s = Some s') /\
  (forall t, rpcs s t = Spinning -> spin_locked s = false ->
     exists s', rstep (RGo t) s = Some s' /\ rpcs s' t = Inside).
Proof.
  intros Hf Hs. destruct (rsteps_inv acts _ _ rinit_inv Hf Hs) as [Hfl Hone Hh _].
  assert (spin_locked s = true <-> rlock s = SPIN_ACQUIRED) as E by apply bool_decide_eq_true.
  split_and!; [done|by rewrite E| |].
  - intros t Ht. cbn. rewrite Ht. rewrite (proj2 E); [eauto|]. apply Hh. exists t. by rewrite Ht.
  - intros t Ht Hl. cbn. rewrite Ht. unfold spin_locked in Hl. apply bool_decide_eq_false in Hl.
    destruct Hfl as [->|?]; [|done]. cbn. eexists. split; [done|]. cbn. by rewrite upd_eq.
Qed.

(** Thread 1 spins while thread 0 is inside. *)
Definition raw_demo : list ract := [RLock 0; RGo 0; RLock 1; RGo 1; RUnlock 0; RGo 0].
Definition raw_end : raw := default spin_lock_init (rsteps raw_demo spin_lock_init).

Lemma spin_lock_excludes_witness :
  exists s', rstep (RGo 1) raw_end = Some s' /\ rpcs s' 1%nat = Inside.
Proof.
  eapply (proj2 (proj2 (proj2 (spin_lock_excludes raw_demo raw_end ltac:(by repeat constructor)
    ltac:(apply defined_default; by vm_compute))))); by vm_compute.
Defined.

(** [spin_trylock] answers yes when the lock is taken: as soon as one thread holds the
    lock, every other thread that tries gets in as well. *)
Theorem spin_trylock_lets_in (s : raw) (t u : nat) :
  spin_locked s = true -> rpcs s t = Inside -> rpcs s u = Out -> t <> u ->
  exists s', rstep (RTry u) s = Some s' /\ rpcs s' t = Inside /\ rpcs s' u = Inside.
Proof.
  intros Hl Ht Hu Hne. cbn. rewrite Hu, Hl. eexists. split; [done|]. cbn.
  by rewrite upd_eq, upd_ne by done.
Qed.

Definition one_in : raw := default spin_lock_init (rsteps [RLock 0; RGo 0] spin_lock_init).

Lemma spin_trylock_lets_in_witness :
  exists s', rstep (RTry 1) one_in = Some s' /\ rpcs s' 0%nat = Inside /\ rpcs s' 1%nat = Inside.
Proof. apply spin_trylock_lets_in; by vm_compute. Defined.

(** C37. The ticket lock excludes and is fair: with fewer than 2^32 threads, through any
    number of wrap-arounds of the two counters, the threads enter in the order in which
    they drew their tickets, at most one is inside, [spin_locked] says whether anybody
    is inside or waits, and when nobody is inside the first waiter can enter. *)
Theorem ticket_lock_fair (n : nat) (acts : list tact) (s : ticket) :
  Z.of_nat n < 4294967296 -> Forall (fun a => tact_of a < n)%nat acts ->
  tsteps acts ticket_lock_init = Some s ->
  served s `prefix_of` arrived s /\
  (forall t u, tpcs s t = TIn -> tpcs s u = TIn -> t = u) /\
  (ticket_locked s = true <-> exists t, tpcs s t <> TOut) /\
  ((exists t, tpcs s t <> TOut) -> (forall t, tpcs s t <> TIn) ->
   exists t s', tstep (TGo t) s = Some s' /\ tpcs s' t = TIn /\ served s' = served s ++ [t]).
Proof.
  intros Hn Hf Hs. destruct (tsteps_inv n acts 0 [] _ _ (tinit_inv n) Hn Hf Hs) as (d & q & Hi).
  pose proof Hi as []. pose proof (queue_bound n q tinv_nodup0 tinv_bound0) as Hq.
  destruct tinv_arrived0 as [Hlen Hdrop].
  assert ((exists t, tpcs s t <> TOut) <-> q <> []) as Hout.
  { split; [intros [t Ht] ->; apply Ht, tinv_out0; set_solver|]. destruct q as [|t q]; [done|].
    intros _. exists t. destruct (tinv_wait0 0%nat t eq_refl) as [->|[_ ->]]; done. }
  split_and!.
  - rewrite <- (take_drop d (arrived s)), tinv_served0, Hdrop. apply prefix_app.
    destruct q as [|t q]; [done|]. destruct (tpcs s t); try apply prefix_nil. by exists q.
  - intros t u Ht Hu. destruct (in_is_head _ _ _ _ _ Hi Ht) as [q1 ->].
    destruct (in_is_head _ _ _ _ _ Hi Hu) as [q2 E]. by simplify_eq.
  - rewrite Hout. unfold ticket_locked. rewrite bool_decide_eq_true, tinv_owner0, tinv_next0.
    rewrite Nat2Z.inj_add. split; [by intros Hne ->; rewrite Z.add_0_r in Hne|].
    intros Hne E. destruct q; [done|]. replace (Z.of_nat d) with (Z.of_nat d + 0) in E at 1 by lia.
    apply i32_ticket in E; cbn in *; lia.
  - rewrite Hout. intros Hne Hin. destruct q as [|t q]; [done|].
    destruct (tinv_wait0 0%nat t eq_refl) as [E|[_ E]]; [|by destruct (Hin t)].
    exists t. cbn. rewrite E, tinv_owner0, Nat.add_0_r, bool_decide_eq_true_2 by done.
    eexists. split; [done|]. cbn. by rewrite upd_eq.
Qed.

Definition ticket_demo : list tact := [TLock 1; TLock 0; TGo 0; TGo 1; TLock 2; TUnlock 1].
Definition ticket_end : ticket := default ticket_lock_init (tsteps ticket_demo ticket_lock_init).

Lemma ticket_lock_fair_witness :
  served ticket_end `prefix_of` arrived ticket_end /\
  exists t s', tstep (TGo t) ticket_end = Some s' /\ tpcs s' t = TIn /\
    served s' = served ticket_end ++ [t].
Proof.
  destruct (ticket_lock_fair 3 ticket_demo ticket_end) as (H1 & _ & _ & H4);
    [lia|repeat constructor|apply defined_default; by vm_compute|].
  split; [exact H1|]. apply H4; [by exists 0%nat; vm_compute|].
  intros t. vm_compute. by repeat (destruct t as [|t]; try done).
Defined.
