(* ===== verification/Singleton.v ===== *)
(** * base/Singleton.h: one object, created when it is first asked for

    [getInstance] is called by any threads, in any interleaving of its accesses to
    [pInstance] with the steps of the flag lock of SpinLock.v. An access to [pInstance] is
    one step, which C++ does not promise of a shared pointer. Objects are numbered in
    the order of their creation. *)
From S2P Require Import Prelude SpinLock.
Local Open Scope Z_scope.

(** A caller: outside; in [lock]; before the second test, [new T()], the assignment, the
    [unlock] of the guard, in it; before [pInstance.get()]. *)
Inductive spc := SOut | SLock | STest | SNew | SPut (obj : nat) | SUnlock | SUnlocking | SRet.

Record single := mk_single {
  spinLock : raw;
  pInstance : option nat;
  created : nat;
  spcs : nat -> spc;
  returned : list (nat * option nat)
}.

Definition single_init : single := mk_single spin_lock_init None 0 (fun _ => SOut) [].

Definition sgoto (t : nat) (p : spc) (s : single) : single :=
  mk_single (spinLock s) (pInstance s) (created s) (upd (spcs s) t p) (returned s).
(** A step of the lock. *)
Definition with_lock (a : ract) (s : single) : option single :=
  l ← rstep a (spinLock s); Some (mk_single l (pInstance s) (created s) (spcs s) (returned s)).

(** [LockGuard]. *)
Definition guard (t : nat) : single -> option single := with_lock (RLock t).
Definition unguard (t : nat) : single -> option single := with_lock (RUnlock t).

(** One step of the call of [t]; from [SOut], a new call. *)
Definition getInstance (t : nat) (s : single) : option single :=
  match spcs s t with
  | SOut => match pInstance s with Some _ => Some (sgoto t SRet s) | None => s ← guard t s; Some (sgoto t SLock s) end
  | SLock =>
      s ← with_lock (RGo t) s;
      Some (sgoto t (match rpcs (spinLock s) t with Inside => STest | _ => SLock end) s)
  | STest => Some (sgoto t (match pInstance s with None => SNew | Some _ => SUnlock end) s)
  | SNew => Some (sgoto t (SPut (created s)) (mk_single (spinLock s) (pInstance s) (S (created s)) (spcs s) (returned s)))
  | SPut obj => Some (sgoto t SUnlock (mk_single (spinLock s) (Some obj) (created s) (spcs s) (returned s)))
  | SUnlock => s ← unguard t s; Some (sgoto t SUnlocking s)
  | SUnlocking => s ← with_lock (RGo t) s; Some (sgoto t SRet s)
  | SRet => Some (sgoto t SOut (mk_single (spinLock s) (pInstance s) (created s) (spcs s) (returned s ++ [(t, pInstance s)])))
  end.

Fixpoint calls (ts : list nat) (s : single) : option single :=
  match ts with [] => Some s | t :: ts => s ← getInstance t s; calls ts s end.

(** ** Invariant *)
Definition rpc_of (p : spc) : rpc :=
  match p with
  | SOut | SRet => Out
  | SLock => Spinning
  | STest | SNew | SPut _ | SUnlock => Inside
  | SUnlocking => Unlocking
  end.
Definition has_it (p : spc) : bool := match p with SUnlock | SUnlocking | SRet => true | _ => false end.

Record sinv (s : single) : Prop := {
  si_lock : rinv (spinLock s);
  si_pc t : rpcs (spinLock s) t = rpc_of (spcs s t);
  si_new t : spcs s t = SNew -> created s = 0%nat /\ pInstance s = None;
  si_put t obj : spcs s t = SPut obj -> obj = 0%nat /\ created s = 1%nat /\ pInstance s = None;
  si_have t : has_it (spcs s t) = true -> pInstance s = Some 0%nat;
  si_none : pInstance s = None -> created s = 0%nat \/ exists t obj, spcs s t = SPut obj;
  si_some obj : pInstance s = Some obj -> obj = 0%nat /\ created s = 1%nat;
  si_ret : Forall (fun r => r.2 = Some 0%nat) (returned s)
}.

Lemma sinv_init : sinv single_init.
Proof. constructor; try done; [apply rinit_inv|by left]. Qed.

(** Two callers are not both in the section. *)
Lemma si_one s t u :
  sinv s -> holds (rpc_of (spcs s t)) = true -> holds (rpc_of (spcs s u)) = true -> t = u.
Proof. intros Hi Ht Hu. apply (rinv_one _ (si_lock s Hi)); by rewrite si_pc. Qed.

(** The lock moves and its caller with it; the object stays as it is. *)
Lemma sinv_move t a p l s :
  sinv s -> tries a = false -> rstep a (spinLock s) = Some l -> rpcs l = upd (rpcs (spinLock s)) t (rpc_of p) ->
  (forall obj, p <> SPut obj) -> p <> SNew -> (forall obj, spcs s t <> SPut obj) ->
  (has_it p = true -> pInstance s = Some 0%nat) ->
  sinv (sgoto t p (mk_single l (pInstance s) (created s) (spcs s) (returned s))).
Proof.
  intros [] Ha Hl Hr Hp Hn Ht Hh. constructor; cbn; try done.
  - by eapply rstep_inv.
  - intros u. rewrite Hr. by upd_cases.
  - intros u. upd_cases; [done|apply si_new0].
  - intros u obj. upd_cases; [by intros ->; destruct (Hp obj)|apply si_put0].
  - intros u. upd_cases; [done|apply si_have0].
  - intros Hnone. destruct (si_none0 Hnone) as [?|(u & obj & Hu)]; [by left|right]. exists u, obj. upd_cases; [by destruct (Ht obj)|done].
Qed.

(** The lock stays as it is. *)
Lemma sinv_stay t p s :
  sinv s -> rpc_of p = rpc_of (spcs s t) -> (forall obj, p <> SPut obj) -> (p = SNew -> pInstance s = None) ->
  (forall obj, spcs s t <> SPut obj) -> (has_it p = true -> pInstance s = Some 0%nat) -> sinv (sgoto t p s).
Proof.
  intros Hi Hr Hp Hn Ht Hh. pose proof Hi as []. constructor; cbn; try done.
  - intros u. rewrite si_pc0. by upd_cases.
  - intros u. upd_cases; [|apply si_new0]. intros ->. split; [|by apply Hn].
    destruct (si_none0 (Hn eq_refl)) as [?|(u & obj & Hu)]; [done|].
    assert (u = t) as -> by (apply (si_one s u t Hi); rewrite ?Hu, <- ?Hr; done). by destruct (Ht obj).
  - intros u obj. upd_cases; [by intros ->; destruct (Hp obj)|apply si_put0].
  - intros u. upd_cases; [done|apply si_have0].
  - intros Hnone. destruct (si_none0 Hnone) as [?|(u & obj & Hu)]; [by left|right]. exists u, obj. upd_cases; [by destruct (Ht obj)|done].
Qed.

Lemma sinv_new t s :
  sinv s -> spcs s t = SNew ->
  sinv (sgoto t (SPut (created s)) (mk_single (spinLock s) (pInstance s) (S (created s)) (spcs s) (returned s))).
Proof.
  intros Hi Ht. pose proof Hi as []. destruct (si_new0 t Ht) as [Hc Hp].
  assert (forall u, holds (rpc_of (spcs s u)) = true -> u = t) as Hone by (intros u Hu; apply (si_one s u t Hi Hu); by rewrite Ht).
  constructor; cbn; rewrite ?Hp, ?Hc; try done.
  - intros u. rewrite si_pc0. upd_cases; [by rewrite Ht|done].
  - intros u. upd_cases; [done|]. intros Hu. destruct n. apply Hone. by rewrite Hu.
  - intros u obj. upd_cases; [by intros [= <-]|]. intros Hu. destruct n. apply Hone. by rewrite Hu.
  - intros u. rewrite <- Hp. upd_cases; [done|apply si_have0].
  - intros _. right. exists t, 0%nat. by rewrite upd_eq.
Qed.

Lemma sinv_publish t obj s :
  sinv s -> spcs s t = SPut obj ->
  sinv (sgoto t SUnlock (mk_single (spinLock s) (Some obj) (created s) (spcs s) (returned s))).
Proof.
  intros Hi Ht. pose proof Hi as []. destruct (si_put0 t obj Ht) as (-> & Hc & Hp).
  assert (forall u, holds (rpc_of (spcs s u)) = true -> u = t) as Hone by (intros u Hu; apply (si_one s u t Hi Hu); by rewrite Ht).
  constructor; cbn; try done.
  - intros u. rewrite si_pc0. upd_cases; [by rewrite Ht|done].
  - intros u. upd_cases; [done|]. intros Hu. destruct n. apply Hone. by rewrite Hu.
  - intros u obj. upd_cases; [done|]. intros Hu. destruct n. apply Hone. by rewrite Hu.
  - intros o [= <-]. done.
Qed.

(** The steps of the lock in a call, all defined. *)
Lemma lock_steps t s :
  sinv s ->
  (spcs s t = SOut -> rstep (RLock t) (spinLock s) = Some (rgoto t Spinning (rlock (spinLock s)) (spinLock s))) /\
  (spcs s t = SLock -> exists p l, (p = SLock \/ p = STest) /\ rstep (RGo t) (spinLock s) = Some (rgoto t (rpc_of p) l (spinLock s))) /\
  (spcs s t = SUnlock -> rstep (RUnlock t) (spinLock s) = Some (rgoto t Unlocking (rlock (spinLock s)) (spinLock s))) /\
  (spcs s t = SUnlocking -> exists l, rstep (RGo t) (spinLock s) = Some (rgoto t Out l (spinLock s))).
Proof.
  intros Hi. pose proof (si_pc s Hi t) as Hr. split_and!; intros Ht; rewrite Ht in Hr; cbn in Hr |- *; rewrite Hr.
  - done.
  - unfold atomic_compare_and_swap. case_bool_decide; [exists STest|exists SLock]; eauto.
  - unfold spin_locked. rewrite bool_decide_eq_true_2; [done|]. apply (rinv_holds _ (si_lock s Hi)). exists t. by rewrite Hr.
  - eauto.
Qed.

Lemma getInstance_inv t s : sinv s -> exists s', getInstance t s = Some s' /\ sinv s'.
Proof.
  intros Hi. destruct (lock_steps t s Hi) as (H1 & H2 & H3 & H4).
  assert (forall a p l p', rstep a (spinLock s) = Some (rgoto t p l (spinLock s)) -> p = rpc_of p' -> tries a = false ->
    (forall obj, p' <> SPut obj) -> p' <> SNew -> (forall obj, spcs s t <> SPut obj) ->
    (has_it p' = true -> pInstance s = Some 0%nat) ->
    sinv (sgoto t p' (mk_single (rgoto t p l (spinLock s)) (pInstance s) (created s) (spcs s) (returned s)))) as Hmove
    by (intros a p l p' E ->; intros; by eapply sinv_move).
  assert (forall p, spcs s t = p -> has_it p = true -> pInstance s = Some 0%nat) as Hhave
    by (intros p Hp Hh; apply (si_have s Hi t); congruence).
  unfold getInstance, guard, unguard, with_lock. destruct (spcs s t) as [| | | |obj| | |] eqn:Ht.
  - pose proof (si_some s Hi) as Hsome. destruct (pInstance s) as [obj|] eqn:Hp.
    + eexists. split; [done|]. apply sinv_stay; try done; rewrite ?Ht; try done. intros _. by destruct (Hsome obj eq_refl) as [-> _].
    + rewrite (H1 eq_refl). cbn -[rstep]. eexists. split; [done|]. apply (Hmove (RLock t) _ _ SLock); try done. by apply H1.
  - destruct (H2 eq_refl) as (p & l & Hpc & E). rewrite E. cbn -[rstep]. rewrite upd_eq. eexists. split; [done|].
    destruct Hpc as [-> | ->]; cbn -[rstep]; (apply (Hmove (RGo t)); [exact E|done..]).
  - eexists. split; [done|]. pose proof (si_some s Hi) as Hsome.
    destruct (pInstance s) as [obj|] eqn:Hp; apply sinv_stay; try done; rewrite ?Ht; try done.
    intros _. by destruct (Hsome obj eq_refl) as [-> _].
  - eexists. split; [done|]. by apply sinv_new.
  - eexists. split; [done|]. by apply sinv_publish.
  - rewrite (H3 eq_refl). cbn -[rstep]. eexists. split; [done|].
    apply (Hmove (RUnlock t) _ _ SUnlocking); try done; [by apply H3|]. intros _. by apply (Hhave SUnlock).
  - destruct (H4 eq_refl) as (l & E). rewrite E. cbn -[rstep]. eexists. split; [done|].
    apply (Hmove (RGo t) _ _ SRet); try done. intros _. by apply (Hhave SUnlocking).
  - eexists. split; [done|]. pose proof (Hhave SRet eq_refl eq_refl) as Hp.
    assert (sinv (sgoto t SOut s)) as [] by (apply sinv_stay; try done; by rewrite Ht).
    constructor; try done. cbn. apply Forall_app. split; [apply (si_ret s Hi)|]. by repeat constructor.
Qed.

Lemma calls_inv ts : forall s, sinv s -> exists s', calls ts s = Some s' /\ sinv s'.
Proof.
  induction ts as [|t ts IH]; intros s Hi; cbn [calls]; [eauto|].
  destruct (getInstance_inv t s Hi) as (s1 & -> & Hi1). cbn. by apply IH.
Qed.

(** ** Properties *)
(** Whatever the calls and their interleaving, the lock is never released unheld, at most one object is created and
    every call returns it. *)
Theorem singleton_once ts :
  exists s, calls ts single_init = Some s /\ (created s <= 1)%nat /\ Forall (fun r => r.2 = Some 0%nat) (returned s).
Proof.
  destruct (calls_inv ts _ sinv_init) as (s & E & Hi). exists s. split; [done|]. split; [|apply (si_ret s Hi)].
  destruct (pInstance s) as [obj|] eqn:Hp; [destruct (si_some s Hi obj Hp) as [_ ->]; lia|].
  destruct (si_none s Hi Hp) as [->|(t & obj & Ht)]; [lia|]. destruct (si_put s Hi t obj Ht) as (_ & -> & _). lia.
Qed.

(** Three callers: two see no object, one of them creates it, the third does not take the lock. *)
Example singleton_race :
  (fun s => (created s, returned s)) <$>
    calls [1; 2; 1; 2; 1; 1; 1; 2; 1; 1; 2; 3; 3; 2; 2; 1; 2; 2; 2]%nat single_init =
    Some (1%nat, [(3%nat, Some 0%nat); (1%nat, Some 0%nat); (2%nat, Some 0%nat)]).
Proof. by vm_compute. Qed.
