(* ===== verification/Barrier.v ===== *)
(** * co_bar.h, and the broadcast of co_cond.c: a barrier of coroutines

    [co_bar_wait] tests the counter once without the mutex; the rest runs under it, so an
    execution is a sequence of critical sections, each up to a wait or to the return. The
    condition variable is its list of waiting tasks in order. *)
From S2P Require Import Prelude SpinLock.
Local Open Scope Z_scope.

(** The loop of [_co_cond_signal_all]: the tasks that are resumed and those that stay. *)
Fixpoint co_cond_signal_all (wait_list : list nat) (all : bool) : list nat * list nat :=
  match wait_list with
  | [] => ([], [])
  | t :: wait_list =>
      if all then let '(woken, rest) := co_cond_signal_all wait_list all in (t :: woken, rest)
      else ([t], wait_list)
  end.
Definition co_cond_signal (wait_list : list nat) := co_cond_signal_all wait_list false.
Definition co_cond_broadcast (wait_list : list nat) := co_cond_signal_all wait_list true.

Lemma broadcast_all ts : co_cond_broadcast ts = (ts, []).
Proof. unfold co_cond_broadcast. induction ts as [|t ts IH]; [done|]. cbn. by rewrite IH. Qed.
Lemma signal_first ts : co_cond_signal ts = (take 1 ts, drop 1 ts).
Proof. by destruct ts. Qed.

(** A caller: at the first test, at the lock, in the wait, back from it, returned. *)
Inductive bpc := BTest | BLock | BWait | BWoken | BDone.

#[export] Instance bpc_eq_dec : EqDecision bpc.
Proof. solve_decision. Defined.

(** [arrived] lists who has counted, [destroyed] tells that [co_bar_destory] ran. *)
Record co_bar_t := mk_bar {
  bcount : Z; cond : list nat; bpcs : gmap nat bpc; arrived : list nat; destroyed : bool }.

Definition co_bar_init (cnt : Z) : co_bar_t := mk_bar (i32 cnt) [] ∅ [] false.

Definition bgoto (t : nat) (p : bpc) (b : co_bar_t) : co_bar_t :=
  mk_bar (bcount b) (cond b) (<[t := p]> (bpcs b)) (arrived b) (destroyed b).

(** [co_cond_broadcast]: who was in the list goes on behind its wait. *)
Definition wake_all (b : co_bar_t) : co_bar_t :=
  let '(woken, rest) := co_cond_broadcast (cond b) in
  mk_bar (bcount b) rest (foldr (fun t => alter (fun _ => BWoken) t) (bpcs b) woken) (arrived b) (destroyed b).

(** The loop around the wait. *)
Definition bar_loop (t : nat) (b : co_bar_t) : co_bar_t :=
  if bool_decide (0 < bcount b)
  then mk_bar (bcount b) (cond b ++ [t]) (<[t := BWait]> (bpcs b)) (arrived b) (destroyed b)
  else bgoto t BDone b.

Definition co_bar_wait (t : nat) (b : co_bar_t) : option co_bar_t :=
  match bpcs b !! t with
  | Some BTest => Some (bgoto t (if bool_decide (bcount b = 0) then BDone else BLock) b)
  | Some BLock =>
      if bool_decide (bcount b = 0) then Some (bgoto t BDone b)
      else
        let n := atomic_sub_and_fetch (bcount b) 1 in
        let b := mk_bar n (cond b) (bpcs b) (arrived b ++ [t]) (destroyed b) in
        if bool_decide (n = 0) then Some (bgoto t BDone (wake_all b)) else Some (bar_loop t b)
  | Some BWoken => Some (bar_loop t b)
  | _ => None
  end.

Definition co_bar_destory (b : co_bar_t) : co_bar_t :=
  wake_all (mk_bar 0 (cond b) (bpcs b) (arrived b) true).

Inductive bact := BCall (t : nat) | BRun (t : nat) | BDestroy.

Definition bidle (p : option bpc) : bool := match p with None | Some BDone => true | _ => false end.

Definition bstep (a : bact) (b : co_bar_t) : option co_bar_t :=
  match a with
  | BCall t => if bidle (bpcs b !! t) then Some (bgoto t BTest b) else None
  | BRun t => co_bar_wait t b
  | BDestroy => Some (co_bar_destory b)
  end.

Fixpoint bsteps (acts : list bact) (b : co_bar_t) : option co_bar_t :=
  match acts with [] => Some b | a :: acts => b ← bstep a b; bsteps acts b end.

(** ** Invariant *)
Lemma lookup_wake ts (m : gmap nat bpc) t :
  foldr (fun t => alter (fun _ => BWoken) t) m ts !! t =
    if decide (t ∈ ts) then (fun _ => BWoken) <$> m !! t else m !! t.
Proof.
  induction ts as [|u ts IH]; cbn; [by rewrite decide_False by set_solver|].
  destruct (decide (t = u)) as [->|Hne].
  - rewrite lookup_alter_eq, IH, (decide_True (P := u ∈ u :: ts)) by set_solver. case_decide; by destruct (m !! u).
  - rewrite lookup_alter_ne, IH by done. repeat case_decide; set_solver.
Qed.

(** The tasks in the list are those that wait; nobody waits at a counter of 0; until the
    barrier is destroyed the counter is what is missing, and who has returned found it 0. *)
Record bar_inv (cnt : Z) (b : co_bar_t) : Prop := {
  bi_nodup : NoDup (cond b);
  bi_list t : t ∈ cond b <-> bpcs b !! t = Some BWait;
  bi_range : 0 <= bcount b <= cnt;
  bi_zero : bcount b = 0 -> cond b = [];
  bi_count : destroyed b = false -> bcount b = cnt - Z.of_nat (length (arrived b));
  bi_done t : bpcs b !! t = Some BDone -> bcount b = 0
}.

Lemma bar_inv_init cnt : 0 <= cnt < 2147483648 -> bar_inv cnt (co_bar_init cnt).
Proof.
  intros Hc. unfold co_bar_init. rewrite i32_small by lia.
  constructor; cbn; try done; try lia; [constructor|set_solver].
Qed.

Lemma bgoto_inv cnt t p b :
  bar_inv cnt b -> bpcs b !! t <> Some BWait -> p <> BWait -> (p = BDone -> bcount b = 0) -> bar_inv cnt (bgoto t p b).
Proof.
  intros [] Ht Hp Hd. constructor; cbn; try done.
  - intros u. rewrite bi_list0. destruct (decide (u = t)) as [->|]; [rewrite lookup_insert_eq; naive_solver|].
    by rewrite lookup_insert_ne.
  - intros u. destruct (decide (u = t)) as [->|]; [rewrite lookup_insert_eq; intros [= ->]; auto|].
    rewrite lookup_insert_ne by done. apply bi_done0.
Qed.

(** Waking everybody makes a counter of 0 sound. *)
Lemma bar_wake_inv cnt n ts m arr d :
  0 <= cnt -> (forall t, t ∈ ts <-> m !! t = Some BWait) -> n = 0 ->
  (d = false -> n = cnt - Z.of_nat (length arr)) -> bar_inv cnt (wake_all (mk_bar n ts m arr d)).
Proof.
  intros Hc Hts -> Hn. unfold wake_all. cbn [cond]. rewrite broadcast_all. constructor; cbn; try done; try lia; [constructor|].
  intros t. rewrite elem_of_nil, lookup_wake. split; [done|]. case_decide as Ht; [by destruct (m !! t)|].
  intros E. by apply Ht, Hts.
Qed.

Lemma loop_inv cnt t b :
  bar_inv cnt b -> bpcs b !! t <> Some BWait -> bar_inv cnt (bar_loop t b).
Proof.
  intros Hi Ht. unfold bar_loop. pose proof Hi as []. case_bool_decide as Hn; [|by apply bgoto_inv; auto; lia].
  constructor; cbn; try done; try lia.
  - apply NoDup_app. split_and!; [done| |apply NoDup_singleton]. intros u Hu. rewrite list_elem_of_singleton.
    intros ->. by apply Ht, bi_list0.
  - intros u. rewrite elem_of_app, list_elem_of_singleton, bi_list0. destruct (decide (u = t)) as [->|].
    + rewrite lookup_insert_eq. naive_solver.
    + rewrite lookup_insert_ne by done. naive_solver.
  - intros u. destruct (decide (u = t)) as [->|]; [by rewrite lookup_insert_eq|].
    rewrite lookup_insert_ne by done. apply bi_done0.
Qed.

Lemma bstep_inv cnt a b b' : cnt < 2147483648 -> bar_inv cnt b -> bstep a b = Some b' -> bar_inv cnt b'.
Proof.
  intros Hc Hi Hs. destruct a as [t|t|]; cbn in Hs.
  - destruct (bidle (bpcs b !! t)) eqn:Hb; [|done]. injection Hs as <-. apply bgoto_inv; try done.
    intros E. by rewrite E in Hb.
  - unfold co_bar_wait in Hs. destruct (bpcs b !! t) as [p|] eqn:Hp; [|done].
    pose proof Hi as []. destruct p; try done.
    + injection Hs as <-. apply bgoto_inv; [done|congruence|by case_bool_decide|by case_bool_decide].
    + case_bool_decide as Hz; [injection Hs as <-; apply bgoto_inv; auto; congruence|].
      unfold atomic_sub_and_fetch in Hs. rewrite i32_small in Hs by lia.
      assert (destroyed b = false -> bcount b - 1 = cnt - Z.of_nat (length (arrived b ++ [t]))) as Hcnt.
      { intros Hd. rewrite length_app. cbn. specialize (bi_count0 Hd). lia. }
      case_bool_decide as Hz1; injection Hs as <-.
      * apply bgoto_inv; [by apply bar_wake_inv; auto; lia| |done|].
        -- unfold wake_all. cbn [cond]. rewrite broadcast_all. cbn. rewrite lookup_wake, Hp. by case_decide.
        -- unfold wake_all. cbn [cond]. by rewrite broadcast_all.
      * apply loop_inv; [|cbn; congruence]. constructor; cbn; try done; try lia.
        intros u Hu. specialize (bi_done0 u Hu). lia.
    + injection Hs as <-. apply loop_inv; [done|congruence].
  - injection Hs as <-. destruct Hi. apply bar_wake_inv; try done; lia.
Qed.

Lemma bsteps_inv cnt acts : forall b b',
  cnt < 2147483648 -> bar_inv cnt b -> bsteps acts b = Some b' -> bar_inv cnt b'.
Proof.
  induction acts as [|a acts IH]; intros b b' Hc Hi Hs; cbn in Hs; [by simplify_eq|].
  destruct (bstep a b) as [b1|] eqn:E; [|done]. apply (IH b1); [done| |done]. by eapply bstep_inv.
Qed.

(** ** Properties *)
(** Nobody gets past the barrier before [cnt] tasks have come to it or it is destroyed, and
    no more than [cnt] tasks are counted, whoever calls when and how often. *)
Theorem bar_holds cnt acts b t :
  0 <= cnt < 2147483648 -> bsteps acts (co_bar_init cnt) = Some b ->
  bpcs b !! t = Some BDone -> destroyed b = false -> Z.of_nat (length (arrived b)) = cnt.
Proof.
  intros Hc Hs Ht Hd. destruct (bsteps_inv cnt acts _ b ltac:(lia) (bar_inv_init cnt Hc) Hs) as [].
  specialize (bi_done0 t Ht). specialize (bi_count0 Hd). lia.
Qed.

(** A task in the barrier waits only while others are missing; else it can take its next
    step, and once the last has come, or the barrier is destroyed, that step returns. *)
Theorem bar_releases cnt acts b t p :
  0 <= cnt < 2147483648 -> bsteps acts (co_bar_init cnt) = Some b -> bpcs b !! t = Some p -> p <> BDone ->
  if bool_decide (p = BWait) then 0 < bcount b
  else exists b', bstep (BRun t) b = Some b' /\ (bcount b = 0 -> bpcs b' !! t = Some BDone).
Proof.
  intros Hc Hs Ht Hp. destruct (bsteps_inv cnt acts _ b ltac:(lia) (bar_inv_init cnt Hc) Hs) as [].
  cbn. unfold co_bar_wait. rewrite Ht. destruct (decide (p = BWait)) as [->|Hw].
  { destruct (decide (bcount b = 0)) as [E|]; [|rewrite bool_decide_eq_true_2; [lia|done]].
    apply bi_list0 in Ht. rewrite (bi_zero0 E) in Ht. set_solver. }
  rewrite (bool_decide_eq_false_2 (p = BWait)) by done. destruct p; try done; cbn.
  - eexists. split; [done|]. intros ->. apply lookup_insert_eq.
  - case_bool_decide as Hz; [eexists; split; [done|]; intros _; apply lookup_insert_eq|].
    case_bool_decide; eexists; (split; [done|lia]).
  - eexists. split; [done|]. intros E. unfold bar_loop. rewrite E. apply lookup_insert_eq.
Qed.

(** Three tasks at a barrier of two: the first waits, the second lets it go, the third goes
    through. *)
Definition demo_acts : list bact :=
  [BCall 1; BRun 1; BRun 1; BCall 2; BRun 2; BRun 2; BCall 3; BRun 3; BRun 1].
Definition demo_bar : co_bar_t := default (co_bar_init 2) (bsteps demo_acts (co_bar_init 2)).

Lemma bar_holds_witness : Z.of_nat (length (arrived demo_bar)) = 2.
Proof.
  apply (bar_holds 2 demo_acts demo_bar 3);
    [lia|apply defined_default; by vm_compute|by vm_compute|by vm_compute].
Defined.

Definition demo_first : list bact := [BCall 1; BRun 1; BRun 1; BCall 2; BRun 2; BRun 2].
Definition demo_woken : co_bar_t := default (co_bar_init 2) (bsteps demo_first (co_bar_init 2)).

Lemma bar_releases_witness :
  exists b', bstep (BRun 1) demo_woken = Some b' /\ (bcount demo_woken = 0 -> bpcs b' !! 1%nat = Some BDone).
Proof.
  apply (bar_releases 2 demo_first demo_woken 1 BWoken);
    [lia|apply defined_default; by vm_compute|by vm_compute|done].
Defined.

(** A count that is no [int] is taken for one below 0, and holds nobody back. *)
Example bar_count_wraps :
  (fun b => bpcs b !! 1%nat) <$> bsteps [BCall 1; BRun 1; BRun 1] (co_bar_init 2147483650) = Some (Some BDone).
Proof. by vm_compute. Qed.
