(* ===== verification/Cond.v ===== *)
(** * co_cond.c and sync/TaskCond.h: the condition variable of coroutines, with timed waits

    A condition variable is the list of the tasks that wait, in order. A timed wait is woken by a signal or by its
    timer, whose event comes on the task's own thread whether or not it has been signalled; [co_resume] takes the link of
    the task out of the list. The mutex is CoMutex.v's; here it has a holder. A timer that cannot be opened
    makes the wait an untimed one. *)
From S2P Require Import Prelude.
Local Open Scope Z_scope.

(** Outside; holding the lock; waiting, with a timer or not; resumed but not run yet, with the timer still open; back and about
    to take the lock, to return whether the timer had fired. [by_signal] is not in the code. *)
Inductive cpc :=
  | COut | CIn
  | CWait (timed : bool)
  | CWoken (timed fired by_signal : bool)
  | CLock (fired by_signal : bool).

Record co_cond_t := mk_cond {
  holder : option nat;
  wait_list : list nat;
  cpcs : nat -> cpc;
  returned : list (nat * bool * bool)    (* task, timeout, by a signal *)
}.

Definition co_cond_init : co_cond_t := mk_cond None [] (fun _ => COut) [].

Definition cgoto (t : nat) (p : cpc) (s : co_cond_t) : co_cond_t :=
  mk_cond (holder s) (wait_list s) (upd (cpcs s) t p) (returned s).

Definition by_signal (p : cpc) : cpc := match p with CWait timed => CWoken timed false true | p => p end.

(** [_co_cond_signal_all]: the loop from the head of the list. *)
Fixpoint wake_loop (all : bool) (ls : list nat) (s : co_cond_t) : co_cond_t :=
  match ls with
  | [] => s
  | t :: ls =>
      let s := mk_cond (holder s) (filter (fun u => u <> t) (wait_list s)) (upd (cpcs s) t (by_signal (cpcs s t))) (returned s) in
      if all then wake_loop all ls s else s
  end.
Definition _co_cond_signal_all (all : bool) (s : co_cond_t) : co_cond_t := wake_loop all (wait_list s) s.

Inductive act :=
  | Acquire (t : nat) | Release (t : nat)
  | Wait (t : nat) | WaitTill (t : nat)
  | Signal (t : nat) | SignalAll (t : nat)
  | Fire (t : nat)                      (* the event of the timer of [t] *)
  | Run (t : nat) | Relock (t : nat).

(** [co_cond_wait] and [co_cond_wait_till] up to the switch; [None] also for the [PANIC]. *)
Definition start_wait (timed : bool) (t : nat) (s : co_cond_t) : option co_cond_t :=
  match cpcs s t with
  | CIn => Some (mk_cond None (wait_list s ++ [t]) (upd (cpcs s) t (CWait timed)) (returned s))
  | _ => None
  end.

Definition step (a : act) (s : co_cond_t) : option co_cond_t :=
  match a with
  | Acquire t =>
      match cpcs s t, holder s with
      | COut, None => Some (mk_cond (Some t) (wait_list s) (upd (cpcs s) t CIn) (returned s))
      | _, _ => None
      end
  | Release t =>
      match cpcs s t with CIn => Some (mk_cond None (wait_list s) (upd (cpcs s) t COut) (returned s)) | _ => None end
  | Wait t => start_wait false t s
  | WaitTill t => start_wait true t s
  | Signal t => match cpcs s t with CIn => Some (_co_cond_signal_all false s) | _ => None end
  | SignalAll t => match cpcs s t with CIn => Some (_co_cond_signal_all true s) | _ => None end
  | Fire t =>
      match cpcs s t with
      | CWait true =>
          Some (mk_cond (holder s) (filter (fun u => u <> t) (wait_list s)) (upd (cpcs s) t (CWoken true true false)) (returned s))
      | CWoken true false sig => Some (cgoto t (CWoken true true sig) s)
      | _ => None
      end
  | Run t => match cpcs s t with CWoken _ fired sig => Some (cgoto t (CLock fired sig) s) | _ => None end
  | Relock t =>
      match cpcs s t, holder s with
      | CLock fired sig, None => Some (mk_cond (Some t) (wait_list s) (upd (cpcs s) t CIn) (returned s ++ [(t, fired, sig)]))
      | _, _ => None
      end
  end.

Fixpoint steps (acts : list act) (s : co_cond_t) : option co_cond_t :=
  match acts with [] => Some s | a :: acts => s ← step a s; steps acts s end.

(** ** Invariant *)
Definition waiting (p : cpc) : bool := match p with CWait _ => true | _ => false end.
(** The timer fired, or there was a signal. *)
Definition cause (p : cpc) : bool := match p with CWoken _ fired sig | CLock fired sig => fired || sig | _ => true end.
Definition cause_known (r : nat * bool * bool) : Prop := r.1.2 = true \/ r.2 = true.

Record cinv (s : co_cond_t) : Prop := {
  ci_nodup : NoDup (wait_list s);
  ci_list t : t ∈ wait_list s <-> waiting (cpcs s t) = true;
  ci_holder t : cpcs s t = CIn <-> holder s = Some t;
  ci_cause t : cause (cpcs s t) = true;
  ci_ret : Forall cause_known (returned s)
}.

Lemma cinv_init : cinv co_cond_init.
Proof.
  constructor; try done; [constructor|]. intros t. cbn. split; [by intros ?%elem_of_nil|done].
Qed.

(** A task that leaves the list, or was not in it. *)
Lemma cinv_leave t p s :
  cinv s -> waiting p = false -> p <> CIn -> cpcs s t <> CIn -> cause p = true ->
  cinv (mk_cond (holder s) (filter (fun u => u <> t) (wait_list s)) (upd (cpcs s) t p) (returned s)).
Proof.
  intros [] Hw Hp Hin Hc. constructor; cbn; try done.
  - by apply NoDup_filter.
  - intros u. rewrite list_elem_of_filter, ci_list0. upd_cases; [rewrite Hw; naive_solver|naive_solver].
  - intros u. upd_cases; [|apply ci_holder0]. rewrite <- ci_holder0. naive_solver.
  - intros u. upd_cases; [done|apply ci_cause0].
Qed.

Lemma filter_none t (l : list nat) : (t ∉ l) -> filter (fun u => u <> t) l = l.
Proof.
  induction l as [|u l IH]; intros Ht; [done|]. rewrite not_elem_of_cons in Ht. rewrite filter_cons_True by naive_solver. by rewrite IH by naive_solver.
Qed.

Lemma cinv_goto t p s :
  cinv s -> waiting p = false -> p <> CIn -> waiting (cpcs s t) = false -> cpcs s t <> CIn -> cause p = true -> cinv (cgoto t p s).
Proof.
  intros Hi Hw Hp Hw' Hin Hc. pose proof (cinv_leave t p s Hi Hw Hp Hin Hc) as H. unfold cgoto.
  rewrite filter_none in H; [done|]. rewrite (ci_list s Hi). congruence.
Qed.

Lemma cinv_wake all ls : forall s, cinv s -> (forall t, t ∈ ls -> t ∈ wait_list s) -> NoDup ls ->
  cinv (wake_loop all ls s) /\ holder (wake_loop all ls s) = holder s /\
  (all = true -> wait_list s ⊆ ls -> wait_list (wake_loop all ls s) = []).
Proof.
  induction ls as [|t ls IH]; intros s Hi Hs Hnd; cbn.
  { split_and!; [done..|]. intros _ Hsub. destruct (wait_list s) as [|u l]; [done|]. assert (u ∈ ([] : list nat)) as Hu by (apply Hsub; by left). by apply elem_of_nil in Hu. }
  assert (waiting (cpcs s t) = true) as Hw by (apply (ci_list s Hi), Hs; by left). apply NoDup_cons in Hnd as [Ht Hnd].
  set (s1 := mk_cond _ _ _ _). assert (cinv s1) as Hi1.
  { apply cinv_leave; [done|..]; destruct (cpcs s t); done. }
  destruct all; [|done]. destruct (IH s1 Hi1) as (H1 & H2 & H3); [|done|].
  - intros u Hu. apply list_elem_of_filter. split; [congruence|]. apply Hs. by right.
  - split_and!; [done|done|]. intros _ Hsub. apply H3; [done|]. intros u [Hne Hu]%list_elem_of_filter. apply Hsub, elem_of_cons in Hu. naive_solver.
Qed.

(** The holder changes with the point of its task. *)
Lemma cinv_lock t p q h s rs :
  cinv s -> cpcs s t = q -> waiting p = false -> waiting q = false -> cause p = true ->
  (p = CIn /\ holder s = None /\ h = Some t \/ p <> CIn /\ q = CIn /\ h = None) -> Forall cause_known rs ->
  cinv (mk_cond h (wait_list s) (upd (cpcs s) t p) (returned s ++ rs)).
Proof.
  intros [] Hq Hw Hw' Hc Hh Hrs. constructor; cbn; try done.
  - intros u. rewrite ci_list0. upd_cases; [by rewrite Hw, Hw'|done].
  - intros u. destruct Hh as [(-> & Hn & ->)|(Hp & Hqi & ->)].
    + upd_cases; [naive_solver|]. rewrite ci_holder0, Hn. naive_solver.
    + upd_cases; [naive_solver|]. rewrite ci_holder0. assert (holder s = Some t) as -> by (apply ci_holder0; congruence). naive_solver.
  - intros u. upd_cases; [done|apply ci_cause0].
  - by apply Forall_app.
Qed.

Lemma cinv_wait timed t s s' : cinv s -> start_wait timed t s = Some s' -> cinv s'.
Proof.
  intros [] E. unfold start_wait in E. destruct (cpcs s t) eqn:Ht; try done. injection E as <-. pose proof Ht as Hh. apply ci_holder0 in Hh.
  constructor; cbn; try done.
  - apply NoDup_app. split_and!; [done| |apply NoDup_singleton]. intros u Hu ->%list_elem_of_singleton. apply ci_list0 in Hu. by rewrite Ht in Hu.
  - intros u. rewrite elem_of_app, list_elem_of_singleton, ci_list0. upd_cases; naive_solver.
  - intros u. upd_cases; [done|]. rewrite ci_holder0, Hh. naive_solver.
  - intros u. upd_cases; [done|apply ci_cause0].
Qed.

Lemma cinv_step a s s' : cinv s -> step a s = Some s' -> cinv s'.
Proof.
  intros Hi E. pose proof (fun rs t p q h => cinv_lock t p q h s rs Hi) as Hlock.
  assert (forall all, cinv (_co_cond_signal_all all s)) as Hsig
    by (intros all; apply cinv_wake; [done|done|apply (ci_nodup s Hi)]).
  destruct a as [t|t|t|t|t|t|t|t|t]; cbn in E; try (by eapply cinv_wait); destruct (cpcs s t) as [| |timed|timed fired sig|fired sig] eqn:Ht; try done;
    pose proof (ci_cause s Hi t) as Hc; rewrite Ht in Hc; cbn in Hc.
  - destruct (holder s) eqn:Hh; [done|]. injection E as <-. rewrite <- (app_nil_r (returned s)). eapply Hlock; try done. by left.
  - injection E as <-. rewrite <- (app_nil_r (returned s)). eapply Hlock; try done. by right.
  - by injection E as <-.
  - by injection E as <-.
  - destruct timed; [|done]. injection E as <-. apply cinv_leave; try done. by rewrite Ht.
  - destruct timed, fired; try done. injection E as <-. apply cinv_goto; try done; by rewrite Ht.
  - injection E as <-. apply cinv_goto; try done; by rewrite Ht.
  - destruct (holder s) eqn:Hh; [done|]. injection E as <-. eapply Hlock; try done; [by left|]. apply Forall_singleton.
    apply orb_true_iff in Hc. by destruct Hc; [left|right].
Qed.

Lemma cinv_steps acts : forall s s', cinv s -> steps acts s = Some s' -> cinv s'.
Proof.
  induction acts as [|a acts IH]; intros s s' Hi Hs; cbn in Hs; [by simplify_eq|].
  destruct (step a s) as [s1|] eqn:E; [|done]. by eapply IH, Hs; eapply cinv_step.
Qed.

(** ** Properties *)
(** In every interleaving: the list holds exactly the tasks that wait, once; a signal takes out the one that has waited
    longest and resumes it, never one whose time was already up; a broadcast resumes all; a task that was resumed
    can always go on, and takes the lock once it is free; and a wait that returns without a time-out was
    signalled. *)
Theorem cond_sound acts s :
  steps acts co_cond_init = Some s ->
  NoDup (wait_list s) /\ (forall t, t ∈ wait_list s <-> waiting (cpcs s t) = true) /\
  (forall t u us, wait_list s = u :: us -> cpcs s t = CIn -> exists s' timed,
     step (Signal t) s = Some s' /\ wait_list s' = us /\ cpcs s u = CWait timed /\ cpcs s' u = CWoken timed false true) /\
  (forall t, cpcs s t = CIn -> exists s', step (SignalAll t) s = Some s' /\ wait_list s' = []) /\
  (forall t timed fired sig, cpcs s t = CWoken timed fired sig -> is_Some (step (Run t) s)) /\
  (forall t fired sig, cpcs s t = CLock fired sig -> holder s = None -> is_Some (step (Relock t) s)) /\
  (forall t sig, (t, false, sig) ∈ returned s -> sig = true).
Proof.
  intros Hs. pose proof (cinv_steps acts _ s cinv_init Hs) as Hi. pose proof Hi as []. split_and!; try done.
  - intros t u us Hl Ht. cbn. rewrite Ht. unfold _co_cond_signal_all. rewrite Hl. cbn.
    assert (waiting (cpcs s u) = true) as Hu by (apply ci_list0; rewrite Hl; by left). rewrite Hl in ci_nodup0.
    apply NoDup_cons in ci_nodup0 as [Hn _]. destruct (cpcs s u) as [| |timed| |] eqn:Eu; try done. eexists _, timed. split_and!; try done; cbn.
    + rewrite Hl, filter_cons_False by naive_solver. by apply filter_none.
    + by rewrite upd_eq.
  - intros t Ht. cbn. rewrite Ht. eexists. split; [done|]. by apply (cinv_wake true (wait_list s) s).
  - intros t timed fired sig Ht. cbn. rewrite Ht. eauto.
  - intros t fired sig Ht Hh. cbn. rewrite Ht, Hh. eauto.
  - intros t sig Hr. rewrite Forall_forall in ci_ret0. destruct (ci_ret0 _ Hr) as [E|E]; [done|exact E].
Qed.

(** Two wait, the second with a timer that fires; the first is signalled. *)
Definition cond_acts : list act :=
  [Acquire 1; Wait 1; Acquire 2; WaitTill 2; Acquire 3; Fire 2; Signal 3; Release 3; Run 2; Relock 2; Release 2; Run 1; Relock 1;
   Release 1; Acquire 4; WaitTill 4; Acquire 3].
Definition cond_state : co_cond_t := default co_cond_init (steps cond_acts co_cond_init).
Lemma cond_sound_witness :
  returned cond_state = [(2%nat, true, false); (1%nat, false, true)] /\ wait_list cond_state = [4%nat] /\
  exists s' timed, step (Signal 3) cond_state = Some s' /\ wait_list s' = [] /\ cpcs cond_state 4 = CWait timed /\
    cpcs s' 4%nat = CWoken timed false true.
Proof.
  split; [by vm_compute|]. split; [by vm_compute|]. destruct (cond_sound cond_acts cond_state) as (_ & _ & H & _).
  - apply defined_default. by vm_compute.
  - apply (H 3%nat 4%nat []); by vm_compute.
Defined.

(** A task that is signalled, and whose timer fires before it has run, returns a time-out: the signal is spent, while
    another task still waits. A caller that gives up on a time-out without looking again loses it; [Chan] looks again. *)
Example timeout_eats_signal :
  (fun s => (returned s, wait_list s)) <$>
    steps [Acquire 1; WaitTill 1; Acquire 2; Wait 2; Acquire 3; Signal 3; Release 3; Fire 1; Run 1; Relock 1] co_cond_init =
    Some ([(1%nat, true, true)], [2%nat]).
Proof. by vm_compute. Qed.
