(* ===== verification/BitMap.v ===== *)
(** * bit_map.c: a set of small numbers as an array of [char] *)
From S2P Require Import Prelude.
Local Open Scope Z_scope.

Definition BIT_MAP_BASE : Z := 8.
Definition BIT_MAP_DEFAULT_MAX_NUM : Z := Z.shiftl BIT_MAP_BASE 3 - 1.

(** [map] points to [size] signed [char]s. *)
Record bit_map_t := mk_bit_map { map : list Z; size : Z }.

(** [while((base <<= 1) < max_num) count++] *)
Fixpoint size_loop (fuel : nat) (base count max_num : Z) : option Z :=
  match fuel with
  | O => None
  | S fuel =>
      let base := u64 (Z.shiftl base 1) in
      if bool_decide (base < max_num) then size_loop fuel base (u64 (count + 1)) max_num
      else Some count
  end.

(** [mn], the larger of [max_num] and the default, is computed and not used. *)
Definition get_bit_map_size (max_num : Z) : option Z :=
  let mn := if bool_decide (max_num < BIT_MAP_DEFAULT_MAX_NUM) then BIT_MAP_DEFAULT_MAX_NUM
            else max_num in
  size_loop 64 BIT_MAP_BASE 0 max_num.

Definition get_bit_map_index (num : Z) : Z := num / BIT_MAP_BASE.
Definition get_bit_map_loc (num : Z) : Z := i8 (Z.land num (BIT_MAP_BASE - 1)).
Definition set_bit (c n : Z) : Z := i8 (Z.lor c (Z.shiftl 1 n)).
Definition unset_bit (c n : Z) : Z := i8 (Z.land c (Z.lnot (Z.shiftl 1 n))).
Definition get_bit (c n : Z) : Z := Z.land c (Z.shiftl 1 n).

Definition bit_map_init (max_num : Z) : option bit_map_t :=
  size ← get_bit_map_size max_num;
  Some (mk_bit_map (repeat 0 (Z.to_nat size)) size).

Definition out_of_map (m : bit_map_t) (num : Z) : bool :=
  bool_decide (u64 (BIT_MAP_BASE * size m) <= num).

(** [f] applied to the byte and the bit of [num]; [None]: outside the array. *)
Definition change (f : Z -> Z -> Z) (m : bit_map_t) (num : Z) : option (Z * bit_map_t) :=
  if out_of_map m num then Some (-1, m)
  else
    let idx := Z.to_nat (get_bit_map_index num) in
    c ← map m !! idx;
    Some (0, mk_bit_map (<[idx := f c (get_bit_map_loc num)]> (map m)) (size m)).

Definition bit_map_set : bit_map_t -> Z -> option (Z * bit_map_t) := change set_bit.
Definition bit_map_unset : bit_map_t -> Z -> option (Z * bit_map_t) := change unset_bit.
Definition bit_map_get (m : bit_map_t) (num : Z) : option Z :=
  if out_of_map m num then Some (-1)
  else c ← map m !! Z.to_nat (get_bit_map_index num); Some (get_bit c (get_bit_map_loc num)).

Definition bit_map_get_max_num (m : bit_map_t) : Z := u32 (u64 (u64 (size m * BIT_MAP_BASE) - 1)).
Definition bit_map_clear (m : bit_map_t) : bit_map_t :=
  mk_bit_map (repeat 0 (Z.to_nat (size m))) (size m).
Definition bit_map_destory (m : bit_map_t) : bit_map_t := mk_bit_map [] 0.

(** ** Bits of a char *)
Lemma loc_mod num : get_bit_map_loc num = num mod 8.
Proof.
  unfold get_bit_map_loc, BIT_MAP_BASE. change (8 - 1) with (Z.ones 3).
  rewrite Z.land_ones by lia. apply i8_small. pose proof (Z.mod_pos_bound num 8). lia.
Qed.

(** The effect of [f] on one bit, checked for every char and every pair of bits. *)
Definition bit_effect (f : Z -> Z -> Z) (b : bool) : bool :=
  all_below 256 (fun c => all_below 64 (fun nm =>
    let n := nm / 8 in let m := nm mod 8 in
    bool_decide (-128 <= f (c - 128) n < 128) &&
    bool_decide (get_bit (f (c - 128) n) m =
      if bool_decide (m = n) then (if b then 2 ^ n else 0) else get_bit (c - 128) m))).

Lemma bit_effect_spec f b c n m :
  bit_effect f b = true -> -128 <= c < 128 -> 0 <= n < 8 -> 0 <= m < 8 ->
  -128 <= f c n < 128 /\
  get_bit (f c n) m = if decide (m = n) then (if b then 2 ^ n else 0) else get_bit c m.
Proof.
  intros Hf Hc Hn Hm. unfold bit_effect in Hf.
  pose proof (all_below_spec _ _ (c + 128) Hf ltac:(lia)) as Hf'. cbv beta in Hf'.
  pose proof (all_below_spec _ _ (n * 8 + m) Hf' ltac:(lia)) as H. cbv beta zeta in H.
  replace (c + 128 - 128) with c in H by lia.
  replace ((n * 8 + m) / 8) with n in H by (Z.to_euclidean_division_equations; lia).
  replace ((n * 8 + m) mod 8) with m in H by (Z.to_euclidean_division_equations; lia).
  apply andb_true_iff in H as [H1%bool_decide_eq_true H2%bool_decide_eq_true]. split; [done|].
  rewrite H2. by case_decide; [rewrite bool_decide_eq_true_2|rewrite bool_decide_eq_false_2].
Qed.

Lemma set_bit_effect : bit_effect set_bit true = true.
Proof. by vm_compute. Qed.
Lemma unset_bit_effect : bit_effect unset_bit false = true.
Proof. by vm_compute. Qed.

(** ** Representation *)
Implicit Types (m : bit_map_t) (X : gset Z).

Record rep m X : Prop := {
  rep_size : 0 <= size m < 2 ^ 32 /\ Z.of_nat (length (map m)) = size m;
  rep_chars : Forall (fun c => -128 <= c < 128) (map m);
  rep_bits : forall num c, 0 <= num -> map m !! Z.to_nat (num / 8) = Some c ->
    get_bit c (num mod 8) = if decide (num ∈ X) then 2 ^ (num mod 8) else 0;
  rep_range : forall num, num ∈ X -> 0 <= num < 8 * size m
}.

Lemma out_spec m X num : rep m X -> out_of_map m num = bool_decide (8 * size m <= num).
Proof.
  intros [[Hs _] _ _ _]. unfold out_of_map, BIT_MAP_BASE. by rewrite u64_small by lia.
Qed.

Lemma byte_of m X num :
  rep m X -> 0 <= num < 8 * size m -> exists c, map m !! Z.to_nat (num / 8) = Some c /\ -128 <= c < 128.
Proof.
  intros [[_ Hl] Hc _ _] Hn. destruct (lookup_lt_is_Some_2 (map m) (Z.to_nat (num / 8))) as [c Hc'].
  { Z.to_euclidean_division_equations. lia. }
  exists c. split; [done|]. rewrite Forall_lookup in Hc. by eapply Hc.
Qed.

Lemma change_rep f b m X num :
  bit_effect f b = true -> rep m X -> 0 <= num < 8 * size m ->
  exists m', change f m num = Some (0, m') /\ size m' = size m /\
    rep m' (if b then {[num]} ∪ X else X ∖ {[num]}).
Proof.
  intros Hf Hr Hn. destruct (byte_of m X num Hr Hn) as (c & Hc & Hrange).
  unfold change. rewrite (out_spec m X) by done. rewrite bool_decide_eq_false_2 by lia.
  unfold get_bit_map_index, BIT_MAP_BASE. rewrite Hc, loc_mod. cbn [mbind option_bind].
  eexists. split; [done|]. split; [done|]. destruct Hr as [[Hs Hl] Hch Hb Hrg].
  assert (0 <= num mod 8 < 8) as Hm by (apply Z.mod_pos_bound; lia).
  constructor; cbn.
  - by rewrite length_insert.
  - apply Forall_insert; [done|]. by eapply bit_effect_spec.
  - intros k d Hk Hd. assert (0 <= k mod 8 < 8) as Hm' by (apply Z.mod_pos_bound; lia).
    destruct (decide (k / 8 = num / 8)) as [E|Hne].
    + rewrite E, list_lookup_insert_eq in Hd by (by eapply lookup_lt_Some). injection Hd as <-.
      rewrite (proj2 (bit_effect_spec f b c (num mod 8) (k mod 8) Hf Hrange Hm Hm')).
      destruct (decide (k mod 8 = num mod 8)) as [E2|Hne2].
      * assert (k = num) as -> by (Z.to_euclidean_division_equations; lia).
        destruct b; [by rewrite decide_True by set_solver|by rewrite decide_False by set_solver].
      * assert (k <> num) by congruence. rewrite (Hb k c Hk) by (by rewrite E).
        destruct b; by_decide.
    + rewrite list_lookup_insert_ne in Hd.
      * assert (k <> num) by congruence. rewrite (Hb k d Hk Hd). destruct b; by_decide.
      * intros E. apply Hne. apply Z2Nat.inj in E; Z.to_euclidean_division_equations; lia.
  - intros k Hk. destruct b; [|apply Hrg; set_solver].
    apply elem_of_union in Hk as [->%elem_of_singleton|Hk]; [done|by apply Hrg].
Qed.

Lemma bm_get_rep m X num :
  rep m X -> 0 <= num ->
  bit_map_get m num = Some (if decide (8 * size m <= num) then -1
    else if decide (num ∈ X) then 2 ^ (num mod 8) else 0).
Proof.
  intros Hr Hn. unfold bit_map_get. rewrite (out_spec m X) by done.
  case_decide; [by rewrite bool_decide_eq_true_2|]. rewrite bool_decide_eq_false_2 by done.
  destruct (byte_of m X num Hr ltac:(lia)) as (c & Hc & _).
  unfold get_bit_map_index, BIT_MAP_BASE. rewrite Hc, loc_mod. cbn [mbind option_bind].
  f_equal. by apply (rep_bits m X Hr).
Qed.

Lemma zeros_rep s : 0 <= s < 2 ^ 32 -> rep (mk_bit_map (repeat 0 (Z.to_nat s)) s) ∅.
Proof.
  intros Hs. constructor; cbn.
  - rewrite repeat_length. lia.
  - apply Forall_forall. intros c Hc%list_elem_of_In%repeat_spec. lia.
  - intros num c _ Hc%list_elem_of_lookup_2%list_elem_of_In%repeat_spec. subst.
    rewrite decide_False by set_solver. apply Z.land_0_l.
  - set_solver.
Qed.

(** ** The size *)
Lemma size_loop_spec fuel : forall k max_num,
  0 <= k <= 29 -> 30 - k <= Z.of_nat fuel -> 0 <= max_num < 2 ^ 32 -> k = 0 \/ 8 * 2 ^ k < max_num ->
  exists c, size_loop fuel (8 * 2 ^ k) k max_num = Some c /\ k <= c <= 29 /\
    (c = 0 \/ 8 * 2 ^ c < max_num) /\ max_num <= 16 * 2 ^ c.
Proof.
  induction fuel as [|fuel IH]; intros k max_num Hk Hf Hm Hinv; [lia|]. cbn [size_loop].
  assert (0 < 2 ^ k <= 2 ^ 29) as Hp by (split; [apply Z.pow_pos_nonneg|apply Z.pow_le_mono_r]; lia).
  rewrite Z.shiftl_mul_pow2, Z.pow_1_r, u64_small by lia.
  assert (8 * 2 ^ k * 2 = 8 * 2 ^ (k + 1)) as -> by (rewrite Z.pow_add_r; lia).
  case_bool_decide as Hlt.
  - rewrite u64_small by lia.
    assert (k <> 29) by (intros ->; vm_compute in Hlt; destruct Hm as [_ Hm]; cbn in Hm; lia).
    destruct (IH (k + 1) max_num) as (c & -> & ? & ? & ?); [lia..|by right|].
    exists c. split_and!; done || lia.
  - exists k. rewrite Z.pow_add_r in Hlt by lia. split_and!; [done|lia..|done|lia].
Qed.

Lemma get_bit_map_size_spec max_num :
  0 <= max_num < 2 ^ 32 ->
  exists c, get_bit_map_size max_num = Some c /\ 0 <= c <= 29 /\ (0 < max_num -> 8 * c < max_num) /\
    max_num <= 16 * 2 ^ c.
Proof.
  intros Hm. destruct (size_loop_spec 64 0 max_num) as (c & E & Hc & Hlow & Hup); [lia..|by left|].
  exists c. split_and!; [exact E|lia|lia| |done]. intros Hpos. destruct Hlow as [->|Hlow]; [lia|].
  assert (c < 2 ^ c) by (apply Z.pow_gt_lin_r; lia). lia.
Qed.

(** ** Properties *)
Inductive bm_op := Set_ (num : Z) | Unset (num : Z) | Get (num : Z) | Clear.

Definition run_op (op : bm_op) m : option (Z * bit_map_t) :=
  match op with
  | Set_ num => bit_map_set m num
  | Unset num => bit_map_unset m num
  | Get num => r ← bit_map_get m num; Some (r, m)
  | Clear => Some (0, bit_map_clear m)
  end.

Definition spec_op (cap : Z) (op : bm_op) X : Z * gset Z :=
  match op with
  | Set_ num => if decide (cap <= num) then (-1, X) else (0, {[num]} ∪ X)
  | Unset num => if decide (cap <= num) then (-1, X) else (0, X ∖ {[num]})
  | Get num =>
      (if decide (cap <= num) then -1 else if decide (num ∈ X) then 2 ^ (num mod 8) else 0, X)
  | Clear => (0, ∅)
  end.

Fixpoint run_ops (ops : list bm_op) m : option (list Z * bit_map_t) :=
  match ops with
  | [] => Some ([], m)
  | op :: ops => '(r, m) ← run_op op m; '(rs, m) ← run_ops ops m; Some (r :: rs, m)
  end.

Fixpoint spec_ops (cap : Z) (ops : list bm_op) X : list Z :=
  match ops with
  | [] => []
  | op :: ops => let '(r, X) := spec_op cap op X in r :: spec_ops cap ops X
  end.

Definition op_num (op : bm_op) : Z := match op with Set_ n | Unset n | Get n => n | Clear => 0 end.

Lemma bm_run_op_rep op m X :
  rep m X -> 0 <= op_num op ->
  exists m', run_op op m = Some (fst (spec_op (8 * size m) op X), m') /\ size m' = size m /\
    rep m' (snd (spec_op (8 * size m) op X)).
Proof.
  intros Hr Hn. destruct op as [num|num|num|]; cbn [run_op spec_op op_num] in *.
  1,2: destruct (decide (8 * size m <= num));
    [exists m; unfold bit_map_set, bit_map_unset, change; rewrite (out_spec m X) by done;
     by rewrite bool_decide_eq_true_2|].
  - by apply (change_rep set_bit true); [apply set_bit_effect| |lia].
  - by apply (change_rep unset_bit false); [apply unset_bit_effect| |lia].
  - rewrite (bm_get_rep m X num Hr Hn). exists m. done.
  - exists (bit_map_clear m). split_and!; [done..|]. apply zeros_rep, Hr.
Qed.

Lemma bm_run_ops_rep ops : forall m X,
  rep m X -> Forall (fun op => 0 <= op_num op) ops ->
  exists m', run_ops ops m = Some (spec_ops (8 * size m) ops X, m').
Proof.
  induction ops as [|op ops IH]; intros m X Hr Hf; cbn; [eauto|].
  apply Forall_cons in Hf as [Hn Hf]. destruct (bm_run_op_rep op m X Hr Hn) as (m1 & -> & Hs & Hr1).
  destruct (spec_op (8 * size m) op X) as [r X1]. cbn [fst snd mbind option_bind] in *.
  destruct (IH m1 X1 Hr1 Hf) as (m2 & ->). rewrite Hs. cbn. eauto.
Qed.

(** The bit map is a set: whatever [max_num], the size loop ends, and every sequence of
    operations runs inside the array and answers as on a set of the numbers below eight
    times the size, with -1 for the others; [bit_map_get] answers with the mask of the
    bit. *)
Theorem bit_map_refines (max_num : Z) (ops : list bm_op) :
  0 <= max_num < 2 ^ 32 -> Forall (fun op => 0 <= op_num op) ops ->
  exists m, bit_map_init max_num = Some m /\
    exists m', run_ops ops m = Some (spec_ops (8 * size m) ops ∅, m').
Proof.
  intros Hm Hops. destruct (get_bit_map_size_spec max_num Hm) as (c & E & Hc & _).
  unfold bit_map_init. rewrite E. eexists. split; [done|].
  apply bm_run_ops_rep; [apply zeros_rep; lia|done].
Qed.

Lemma bit_map_refines_witness :
  exists m, bit_map_init 1000 = Some m /\
    exists m', run_ops [Set_ 7; Set_ 9; Get 7; Unset 9; Get 9; Get 100; Clear; Get 7] m =
      Some (spec_ops (8 * size m) [Set_ 7; Set_ 9; Get 7; Unset 9; Get 9; Get 100; Clear; Get 7] ∅, m').
Proof. apply bit_map_refines; [lia|repeat constructor; by vm_compute]. Defined.

(** The size counts the doublings from 16 up to [max_num], not bytes: for every
    [max_num] the map is too small for [max_num - 1], which [bit_map_set] refuses; up to
    16 it holds nothing at all. *)
Theorem bit_map_too_small (max_num : Z) :
  0 < max_num < 2 ^ 32 ->
  exists m, bit_map_init max_num = Some m /\ bit_map_set m (max_num - 1) = Some (-1, m) /\
    (max_num <= 16 -> size m = 0).
Proof.
  intros Hm. destruct (get_bit_map_size_spec max_num ltac:(lia)) as (c & E & Hc & Hlow & _).
  unfold bit_map_init. rewrite E. eexists. split; [done|]. split.
  - unfold bit_map_set, change. rewrite (out_spec _ ∅) by (apply zeros_rep; lia). cbn [size].
    rewrite bool_decide_eq_true_2; [done|]. specialize (Hlow ltac:(lia)). lia.
  - intros Hle. cbn. unfold get_bit_map_size in E. cbn [size_loop] in E.
    rewrite bool_decide_eq_false_2 in E by (vm_compute (u64 _); lia). by injection E as <-.
Qed.

Lemma bit_map_too_small_witness :
  exists m, bit_map_init 64 = Some m /\ bit_map_set m 63 = Some (-1, m) /\ (64 <= 16 -> size m = 0).
Proof. apply (bit_map_too_small 64). lia. Defined.
