(* ===== verification/TimeWheel.v ===== *)
(** * time_wheel.c and the timeout task of event.c

    A wheel of lists of timed descriptors. A descriptor's link is in at most one list, so
    taking it out is taking it out of every list. The kernel timer that paces the task is
    outside: a [tick] is one round of the loop of [_timeout_task] after its read. *)
From S2P Require Import Prelude.
Local Open Scope Z_scope.

Definition MIN_TIME_WHEEL_SIZE : Z := 60.
Definition MIN_TIME_WHEEL_INTERVAL : Z := 1.
Definition IETIMEOUT : Z := 1.

(** [wheel], an array of list heads, holds the descriptors in list order. *)
Record time_wheel_t := mk_wheel { wheel : list (list nat); wsize : Z; interval : Z; loc : Z }.

Definition new_time_wheel (size interval : Z) : time_wheel_t :=
  let size := if bool_decide (MIN_TIME_WHEEL_SIZE < size) then size else MIN_TIME_WHEEL_SIZE in
  mk_wheel (repeat [] (Z.to_nat size)) size
    (if bool_decide (interval < MIN_TIME_WHEEL_INTERVAL) then MIN_TIME_WHEEL_INTERVAL else interval) 0.

(** [tw->loc = (++(tw->loc)) % tw->size], with the increment first. *)
Definition wheel_rotate (w : time_wheel_t) : time_wheel_t :=
  mk_wheel (wheel w) (wsize w) (interval w) (u64 (loc w + 1) mod wsize w).

Definition wheel_delete_element (e : nat) (w : time_wheel_t) : time_wheel_t :=
  mk_wheel (filter (fun x => x <> e) <$> wheel w) (wsize w) (interval w) (loc w).

(** [None]: outside the array. *)
Definition wheel_update_element (e : nat) (timeout : Z) (w : time_wheel_t) : option time_wheel_t :=
  if bool_decide (timeout < 0) then Some w
  else
    let tv := i32 (u64 (u64 (loc w + timeout) + 1) mod wsize w) in
    let w := wheel_delete_element e w in
    ls ← (if bool_decide (0 <= tv) then wheel w !! Z.to_nat tv else None);
    Some (mk_wheel (<[Z.to_nat tv := e :: ls]> (wheel w)) (wsize w) (interval w) (loc w)).

Definition wheel_timeout_list (w : time_wheel_t) : option (list nat) := wheel w !! Z.to_nat (loc w).

(** The wheel, the [error] words of the descriptors, and the descriptors whose tasks were
    resumed, in order. *)
Record timer := mk_timer { tw : time_wheel_t; errors : gmap nat Z; resumed : list nat }.

(** The inner loop of [_timeout_task]: mark, resume, unlink. *)
Definition expire (e : nat) (t : timer) : timer :=
  mk_timer (wheel_delete_element e (tw t))
    (<[e := Z.lor (default 0 (errors t !! e)) IETIMEOUT]> (errors t)) (resumed t ++ [e]).

Definition tick (t : timer) : option timer :=
  let w := wheel_rotate (tw t) in
  ls ← wheel_timeout_list w;
  Some (foldl (fun t e => expire e t) (mk_timer w (errors t) (resumed t)) ls).

Inductive tm_op := Update (e : nat) (timeout : Z) | Delete (e : nat) | Tick.
#[export] Instance tm_op_eq_dec : EqDecision tm_op.
Proof. solve_decision. Defined.

Definition run_op (op : tm_op) (t : timer) : option timer :=
  match op with
  | Update e timeout =>
      w ← wheel_update_element e timeout (tw t); Some (mk_timer w (errors t) (resumed t))
  | Delete e => Some (mk_timer (wheel_delete_element e (tw t)) (errors t) (resumed t))
  | Tick => tick t
  end.

Fixpoint run_ops (ops : list tm_op) (t : timer) : option timer :=
  match ops with [] => Some t | op :: ops => t ← run_op op t; run_ops ops t end.

Definition new_timer (size : Z) : timer := mk_timer (new_time_wheel size 1) ∅ [].

(** ** Invariants *)
Record wf (w : time_wheel_t) : Prop := {
  wf_size : 60 <= wsize w < 2147483648;
  wf_len : Z.of_nat (length (wheel w)) = wsize w;
  wf_loc : 0 <= loc w < wsize w
}.

(** [e] is [d] rotations ahead, once, and nowhere else. *)
Record ahead (e : nat) (d : Z) (w : time_wheel_t) : Prop := {
  ahead_d : 1 <= d <= wsize w;
  ahead_at : forall ls, wheel w !! Z.to_nat ((loc w + d) mod wsize w) = Some ls ->
    length (filter (fun x => x = e) ls) = 1%nat;
  ahead_not : forall i ls, 0 <= i < wsize w -> i <> (loc w + d) mod wsize w ->
    wheel w !! Z.to_nat i = Some ls -> e ∉ ls
}.

Definition gone (e : nat) (w : time_wheel_t) : Prop := forall i ls, wheel w !! i = Some ls -> e ∉ ls.

Definition hits (e : nat) (t : timer) : nat := length (filter (fun x => x = e) (resumed t)).

Lemma delete_wf e w : wf w -> wf (wheel_delete_element e w).
Proof. intros []. constructor; cbn; rewrite ?length_fmap; done. Qed.

Lemma rotate_loc w : wf w -> u64 (loc w + 1) mod wsize w = (loc w + 1) mod wsize w.
Proof. intros []. by rewrite u64_small by lia. Qed.

Lemma update_slot w timeout :
  wf w -> 0 <= timeout < 2147483648 ->
  i32 (u64 (u64 (loc w + timeout) + 1) mod wsize w) = (loc w + timeout + 1) mod wsize w /\
  0 <= (loc w + timeout + 1) mod wsize w < wsize w.
Proof.
  intros [] Ht. rewrite !u64_small by (rewrite ?u64_small; lia).
  pose proof (Z.mod_pos_bound (loc w + timeout + 1) (wsize w)). rewrite i32_small by lia. lia.
Qed.

Lemma slot_exists w i : wf w -> 0 <= i < wsize w -> exists ls, wheel w !! Z.to_nat i = Some ls.
Proof. intros [] Hi. apply lookup_lt_is_Some_2. lia. Qed.

Lemma update_spec e timeout w :
  wf w -> 0 <= timeout < 2147483648 ->
  exists w', wheel_update_element e timeout w = Some w' /\ wf w' /\ wsize w' = wsize w /\
    loc w' = loc w /\
    forall i, 0 <= i < wsize w -> wheel w' !! Z.to_nat i =
      (fun ls => if decide (i = (loc w + timeout + 1) mod wsize w)
                 then e :: filter (fun x => x <> e) ls else filter (fun x => x <> e) ls)
        <$> wheel w !! Z.to_nat i.
Proof.
  intros Hw Ht. unfold wheel_update_element. rewrite bool_decide_eq_false_2 by lia.
  destruct (update_slot w timeout Hw Ht) as [-> Hr]. rewrite bool_decide_eq_true_2 by lia.
  destruct (slot_exists w _ Hw Hr) as [ls Hls]. cbn. rewrite list_lookup_fmap, Hls. cbn.
  eexists. split; [done|]. split.
  { destruct Hw. constructor; cbn; rewrite ?length_insert, ?length_fmap; done. }
  split_and!; [done..|]. intros i Hi. cbn. case_decide as Hd.
  - subst i. rewrite list_lookup_insert_eq, Hls; [done|]. rewrite length_fmap. by eapply lookup_lt_Some.
  - rewrite list_lookup_insert_ne, list_lookup_fmap; [done|]. intros E. apply Z2Nat.inj in E; lia.
Qed.

Lemma count_filter e f (ls : list nat) :
  e <> f -> filter (fun x => x = e) (filter (fun x => x <> f) ls) = filter (fun x => x = e) ls.
Proof.
  intros Hne. rewrite list_filter_filter. apply list_filter_iff. naive_solver.
Qed.

Lemma filter_self_nil (e : nat) ls : filter (fun x => x = e) ls = [] <-> e ∉ ls.
Proof.
  split.
  - intros E Hin. assert (e ∈ filter (fun x => x = e) ls) as H by (by apply list_elem_of_filter).
    rewrite E in H. inversion H.
  - intros Hn. apply elem_of_nil_inv. intros x [-> Hx]%list_elem_of_filter. done.
Qed.

(** ** Operations on other descriptors *)
(** [w'] has the lists of [w] up to other descriptors than [e]. *)
Definition same_for (e : nat) (w w' : time_wheel_t) : Prop :=
  wsize w' = wsize w /\ loc w' = loc w /\
  forall i, 0 <= i < wsize w ->
    (fun ls => filter (fun x => x = e) ls) <$> wheel w' !! Z.to_nat i =
    (fun ls => filter (fun x => x = e) ls) <$> wheel w !! Z.to_nat i.

Lemma same_ahead e d w w' : same_for e w w' -> wf w -> ahead e d w -> ahead e d w'.
Proof.
  intros (Hs & Hl & Hw) Hwf [Hd Hat Hnot].
  assert (0 <= (loc w + d) mod wsize w < wsize w) as Hr by (apply Z.mod_pos_bound; lia).
  constructor; rewrite ?Hs, ?Hl; [done| |].
  - intros ls Hls. specialize (Hw _ Hr). rewrite Hls in Hw. cbn in Hw.
    destruct (wheel w !! Z.to_nat _) as [ls0|] eqn:E; [|done]. injection Hw as ->. by apply Hat.
  - intros i ls Hi Hne Hls. specialize (Hw _ Hi). rewrite Hls in Hw. cbn in Hw.
    destruct (wheel w !! Z.to_nat i) as [ls0|] eqn:E; [|done]. injection Hw as Hw.
    apply filter_self_nil. rewrite Hw. apply filter_self_nil. by eapply Hnot.
Qed.

Lemma gone_slots e w :
  wf w -> gone e w <-> forall i, 0 <= i < wsize w ->
    (fun ls => filter (fun x => x = e) ls) <$> wheel w !! Z.to_nat i = Some [].
Proof.
  intros Hwf. split.
  - intros Hg i Hi. destruct (slot_exists w i Hwf Hi) as [ls Hls]. rewrite Hls. cbn. f_equal.
    apply filter_self_nil. by eapply Hg.
  - intros Hg i ls Hls. pose proof (lookup_lt_Some _ _ _ Hls). destruct Hwf.
    specialize (Hg (Z.of_nat i) ltac:(lia)). rewrite Nat2Z.id, Hls in Hg. cbn in Hg.
    apply filter_self_nil. congruence.
Qed.

Lemma same_gone e w w' : same_for e w w' -> wf w -> wf w' -> gone e w -> gone e w'.
Proof.
  intros (Hs & Hl & Hw) Hwf Hwf' Hg. apply gone_slots; [done|]. intros i Hi.
  rewrite Hw by congruence. apply (proj1 (gone_slots e w Hwf)); [done|congruence].
Qed.

Lemma delete_same e f w : e <> f -> same_for e w (wheel_delete_element f w).
Proof.
  intros Hne. split_and!; [done..|]. intros i Hi. cbn. rewrite list_lookup_fmap.
  destruct (wheel w !! Z.to_nat i); [|done]. cbn. by rewrite count_filter.
Qed.

Lemma update_same e f timeout w w' :
  wf w -> e <> f -> timeout < 2147483648 -> wheel_update_element f timeout w = Some w' ->
  wf w' /\ same_for e w w'.
Proof.
  intros Hwf Hne Ht Hu. destruct (decide (timeout < 0)) as [Hneg|Hpos].
  { unfold wheel_update_element in Hu. rewrite bool_decide_eq_true_2 in Hu by done. by simplify_eq. }
  destruct (update_spec f timeout w Hwf ltac:(lia)) as (w1 & E & Hwf1 & Hs & Hl & Hw).
  simplify_eq. split; [done|]. split_and!; [done..|]. intros i Hi. rewrite Hw by done.
  destruct (wheel w !! Z.to_nat i); [|done]. cbn. f_equal. case_decide.
  - rewrite filter_cons_False by congruence. by apply count_filter.
  - by apply count_filter.
Qed.

(** ** A round of the timeout task *)
Lemma expire_all ls : forall t,
  tw (foldl (fun t e => expire e t) t ls) =
    mk_wheel (filter (fun x => x ∉ ls) <$> wheel (tw t)) (wsize (tw t)) (interval (tw t)) (loc (tw t)) /\
  resumed (foldl (fun t e => expire e t) t ls) = resumed t ++ ls /\
  forall e, (e ∈ ls \/ Z.testbit (default 0 (errors t !! e)) 0 = true) ->
    Z.testbit (default 0 (errors (foldl (fun t e => expire e t) t ls) !! e)) 0 = true.
Proof.
  induction ls as [|f ls IH]; intros t; cbn [foldl].
  - split_and!; [|by rewrite app_nil_r|by intros e [?%elem_of_nil|?]].
    destruct (tw t) as [wh s iv l]. cbn. f_equal. symmetry. rewrite <- (list_fmap_id wh) at 2.
    apply list_fmap_ext. intros _ ls _. apply filter_all. intros x _. apply not_elem_of_nil.
  - destruct (IH (expire f t)) as (H1 & H2 & H3). rewrite H1, H2. cbn. split_and!.
    + f_equal. rewrite <- list_fmap_compose. apply list_fmap_ext. intros _ ks _. cbn.
      rewrite list_filter_filter. apply list_filter_iff. set_solver.
    + by rewrite <- app_assoc.
    + intros e He. apply H3. cbn [expire errors]. change (Z.odd (default 0 (errors t !! e))) with (Z.testbit (default 0 (errors t !! e)) 0) in He. destruct (decide (e = f)) as [->|Hne].
      * right. rewrite lookup_insert_eq. cbn [from_option id]. rewrite Z.lor_spec. by rewrite orb_true_r.
      * rewrite lookup_insert_ne by done. destruct He as [[?|?]%elem_of_cons|?]; [done|by left|by right].
Qed.

Lemma tick_spec t :
  wf (tw t) -> exists ls t', tick t = Some t' /\ wf (tw t') /\
    wheel (tw t) !! Z.to_nat ((loc (tw t) + 1) mod wsize (tw t)) = Some ls /\
    wsize (tw t') = wsize (tw t) /\ loc (tw t') = (loc (tw t) + 1) mod wsize (tw t) /\
    wheel (tw t') = filter (fun x => x ∉ ls) <$> wheel (tw t) /\
    resumed t' = resumed t ++ ls /\
    forall e, (e ∈ ls \/ Z.testbit (default 0 (errors t !! e)) 0 = true) ->
      Z.testbit (default 0 (errors t' !! e)) 0 = true.
Proof.
  intros Hwf. unfold tick, wheel_timeout_list, wheel_rotate. cbn. rewrite rotate_loc by done.
  assert (0 <= (loc (tw t) + 1) mod wsize (tw t) < wsize (tw t)) as Hr
    by (apply Z.mod_pos_bound; destruct Hwf; lia).
  destruct (slot_exists (tw t) _ Hwf Hr) as [ls Hls]. rewrite Hls. cbn.
  set (t0 := mk_timer _ _ _). destruct (expire_all ls t0) as (H1 & H2 & H3).
  exists ls. eexists. split; [done|]. rewrite H1, H2. cbn. split_and!; try done.
  destruct Hwf. constructor; cbn; rewrite ?length_fmap; done.
Qed.

Lemma filter_keeps (e : nat) (ls ks : list nat) :
  e ∉ ls -> filter (fun x => x = e) (filter (fun x => x ∉ ls) ks) = filter (fun x => x = e) ks.
Proof. intros Hn. rewrite list_filter_filter. apply list_filter_iff. naive_solver. Qed.

(** ** Firing *)
Definition touches (e : nat) (op : tm_op) : bool :=
  match op with Update f _ | Delete f => bool_decide (f = e) | Tick => false end.
Definition ticks (ops : list tm_op) : Z :=
  Z.of_nat (length (filter (fun op => op = Tick) ops)).

Definition timed_out (e : nat) (t : timer) : bool := Z.testbit (default 0 (errors t !! e)) 0.

(** An operation other than a tick that does not touch [e]. *)
Lemma other_op e op t :
  wf (tw t) -> op <> Tick -> touches e op = false ->
  (forall f timeout, op = Update f timeout -> timeout < 2147483648) ->
  exists t', run_op op t = Some t' /\ wf (tw t') /\ same_for e (tw t) (tw t') /\
    errors t' = errors t /\ resumed t' = resumed t.
Proof.
  intros Hwf Hop Htouch Hb. destruct op as [f timeout|f|]; cbn in Htouch; [| |done];
    apply bool_decide_eq_false in Htouch; cbn.
  - assert (exists w', wheel_update_element f timeout (tw t) = Some w') as [w' E].
    { destruct (decide (timeout < 0)).
      - unfold wheel_update_element. rewrite bool_decide_eq_true_2 by done. eauto.
      - destruct (update_spec f timeout (tw t) Hwf) as (w' & ? & _); [|eauto].
        specialize (Hb f timeout eq_refl). lia. }
    destruct (update_same e f timeout _ _ Hwf ltac:(congruence) (Hb f timeout eq_refl) E) as [Hwf' Hs].
    rewrite E. cbn. eexists. split; [done|]. done.
  - eexists. split; [done|]. split_and!; [by apply delete_wf|by apply delete_same|done|done].
Qed.

Lemma update_ahead e timeout w :
  wf w -> 0 <= timeout < 2147483648 ->
  exists w', wheel_update_element e timeout w = Some w' /\ wf w' /\ wsize w' = wsize w /\
    ahead e (timeout mod wsize w + 1) w'.
Proof.
  intros Hwf Ht. destruct (update_spec e timeout w Hwf Ht) as (w' & -> & Hwf' & Hs & Hl & Hw).
  exists w'. split_and!; [done..|].
  assert ((loc w + (timeout mod wsize w + 1)) mod wsize w = (loc w + timeout + 1) mod wsize w) as Ep.
  { rewrite Z.add_assoc, <- Z.add_mod_idemp_l, Z.add_mod_idemp_r, Z.add_mod_idemp_l by (destruct Hwf; lia).
    done. }
  pose proof (Z.mod_pos_bound timeout (wsize w)) as Hd.
  destruct (update_slot w timeout Hwf Ht) as [_ Hr].
  constructor; rewrite ?Hs, ?Hl, ?Ep.
  - destruct Hwf. lia.
  - intros ls Hls. rewrite Hw in Hls by done.
    destruct (wheel w !! _) as [ls0|]; [|done]. cbn in Hls. rewrite decide_True in Hls by done.
    injection Hls as <-. rewrite filter_cons_True by done.
    cbn. f_equal. apply length_zero_iff_nil, filter_self_nil. intros [? _]%list_elem_of_filter. done.
  - intros i ls Hi Hne Hls. rewrite Hw in Hls by done.
    destruct (wheel w !! _) as [ls0|]; [|done]. cbn in Hls. rewrite decide_False in Hls by done.
    injection Hls as <-.
    by intros [? _]%list_elem_of_filter.
Qed.

Lemma tick_ahead e d t :
  wf (tw t) -> ahead e d (tw t) ->
  exists t', tick t = Some t' /\ wf (tw t') /\ wsize (tw t') = wsize (tw t) /\
    if decide (d = 1) then gone e (tw t') /\ hits e t' = S (hits e t) /\ timed_out e t' = true
    else ahead e (d - 1) (tw t') /\ hits e t' = hits e t.
Proof.
  intros Hwf [Hd Hat Hnot]. destruct (tick_spec t Hwf) as (ls & t' & -> & Hwf' & Hls & Hs & Hl & Hw & Hr & He).
  exists t'. split_and!; [done..|]. unfold hits. rewrite Hr, filter_app, length_app.
  assert (0 <= (loc (tw t) + 1) mod wsize (tw t) < wsize (tw t)) as Hr1
    by (apply Z.mod_pos_bound; destruct Hwf; lia).
  case_decide as Hd1.
  - subst d. pose proof (Hat ls Hls) as Hcnt. rewrite Hcnt.
    assert (e ∈ ls) as Hin.
    { destruct (decide (e ∈ ls)) as [|Hn]; [done|]. apply filter_self_nil in Hn. by rewrite Hn in Hcnt. }
    split_and!; [|lia|apply He; by left].
    intros i ks Hks. rewrite Hw, list_lookup_fmap in Hks.
    destruct (wheel (tw t) !! i) as [ks0|]; [|done]. injection Hks as <-.
    by intros [? _]%list_elem_of_filter.
  - assert ((loc (tw t) + 1) mod wsize (tw t) <> (loc (tw t) + d) mod wsize (tw t)) as Hne.
    { intros E. assert ((d - 1) mod wsize (tw t) = 0) as E1.
      { replace (d - 1) with (loc (tw t) + d - (loc (tw t) + 1)) by lia.
        by rewrite Zminus_mod, E, Z.sub_diag, Zmod_0_l. }
      rewrite Z.mod_small in E1; lia. }
    pose proof (Hnot _ ls Hr1 Hne Hls) as Hnin. rewrite (proj2 (filter_self_nil e ls) Hnin).
    cbn. split; [|lia].
    assert ((loc (tw t') + (d - 1)) mod wsize (tw t) = (loc (tw t) + d) mod wsize (tw t)) as Ep.
    { rewrite Hl, Z.add_mod_idemp_l by (destruct Hwf; lia). f_equal. lia. }
    constructor; rewrite ?Hs, ?Ep; [lia| |].
    + intros ks Hks. rewrite Hw, list_lookup_fmap in Hks.
      destruct (wheel (tw t) !! _) as [ks0|] eqn:E0; [|done]. injection Hks as <-.
      rewrite filter_keeps by done. by apply Hat.
    + intros i ks Hi Hi' Hks. rewrite Hw, list_lookup_fmap in Hks.
      destruct (wheel (tw t) !! Z.to_nat i) as [ks0|] eqn:E0; [|done]. injection Hks as <-.
      intros [_ ?]%list_elem_of_filter. by eapply Hnot.
Qed.

Lemma tick_gone e t :
  wf (tw t) -> gone e (tw t) -> timed_out e t = true ->
  exists t', tick t = Some t' /\ wf (tw t') /\ wsize (tw t') = wsize (tw t) /\ gone e (tw t') /\
    hits e t' = hits e t /\ timed_out e t' = true.
Proof.
  intros Hwf Hg Hto. destruct (tick_spec t Hwf) as (ls & t' & -> & Hwf' & Hls & Hs & Hl & Hw & Hr & He).
  exists t'. split_and!; [done..| | |apply He; by right].
  - intros i ks Hks. rewrite Hw, list_lookup_fmap in Hks.
    destruct (wheel (tw t) !! i) as [ks0|] eqn:E0; [|done]. injection Hks as <-.
    intros [_ ?]%list_elem_of_filter. by eapply Hg.
  - unfold hits. rewrite Hr, filter_app, length_app.
    rewrite (proj2 (filter_self_nil e ls)) by (by eapply Hg). cbn. lia.
Qed.

Definition in_int (op : tm_op) : Prop := match op with Update _ timeout => timeout < 2147483648 | _ => True end.

Lemma ticks_cons op ops : ticks (op :: ops) = ticks ops + (if decide (op = Tick) then 1 else 0).
Proof. unfold ticks. rewrite filter_cons. case_decide; cbn [length]; lia. Qed.

Lemma run_gone e ops : forall t,
  wf (tw t) -> gone e (tw t) -> timed_out e t = true ->
  Forall (fun op => touches e op = false /\ in_int op) ops ->
  exists t', run_ops ops t = Some t' /\ hits e t' = hits e t /\ timed_out e t' = true.
Proof.
  induction ops as [|op ops IH]; intros t Hwf Hg Hto Hf; cbn [run_ops]; [by eauto|].
  apply Forall_cons in Hf as [[Ht Hb] Hf]. destruct (decide (op = Tick)) as [->|Hop].
  - destruct (tick_gone e t Hwf Hg Hto) as (t1 & E & Hwf1 & _ & Hg1 & Hh & Hto1). cbn. rewrite E. cbn.
    destruct (IH t1 Hwf1 Hg1 Hto1 Hf) as (t' & ? & ? & ?). exists t'. split_and!; [done|congruence|done].
  - destruct (other_op e op t Hwf Hop Ht) as (t1 & E & Hwf1 & Hs & He & Hr); [by intros ? ? ->|].
    rewrite E. cbn. destruct (IH t1) as (t' & ? & Hh & ?); [done|by eapply same_gone| |done|].
    { unfold timed_out. by rewrite He. }
    exists t'. split_and!; [done| |done]. rewrite Hh. unfold hits. by rewrite Hr.
Qed.

Lemma run_ahead e ops : forall d t,
  wf (tw t) -> ahead e d (tw t) -> Forall (fun op => touches e op = false /\ in_int op) ops ->
  exists t', run_ops ops t = Some t' /\
    hits e t' = (if decide (d <= ticks ops) then S (hits e t) else hits e t) /\
    (d <= ticks ops -> timed_out e t' = true).
Proof.
  induction ops as [|op ops IH]; intros d t Hwf Ha Hf; cbn [run_ops].
  { exists t. pose proof (ahead_d _ _ _ Ha). unfold ticks. cbn. rewrite decide_False by lia. split_and!; [done..|lia]. }
  apply Forall_cons in Hf as [[Ht Hb] Hf]. rewrite ticks_cons.
  destruct (decide (op = Tick)) as [->|Hop].
  - destruct (tick_ahead e d t Hwf Ha) as (t1 & E & Hwf1 & _ & H1). cbn. rewrite E. cbn.
    destruct (decide (d = 1)) as [Hd|Hd].
    + destruct H1 as (Hg & Hh & Hto). destruct (run_gone e ops t1 Hwf1 Hg Hto Hf) as (t' & ? & Hh' & ?).
      exists t'. rewrite decide_True by (unfold ticks; lia). split_and!; [done|congruence|done].
    + destruct H1 as [Ha1 Hh]. destruct (IH (d - 1) t1 Hwf1 Ha1 Hf) as (t' & ? & Hh' & Hto).
      exists t'. rewrite Hh', Hh. split_and!; [done| |intros; apply Hto; lia].
      repeat case_decide; lia || done.
  - destruct (other_op e op t Hwf Hop Ht) as (t1 & E & Hwf1 & Hs & He & Hr); [by intros ? ? ->|].
    rewrite E, Z.add_0_r. cbn. destruct (IH d t1) as (t' & ? & Hh & ?); [done|by eapply same_ahead|done|].
    exists t'. split_and!; [done| |done]. rewrite Hh. unfold hits. by rewrite Hr.
Qed.

Lemma new_timer_wf size : size < 2147483648 -> wf (tw (new_timer size)).
Proof.
  intros Hs. unfold new_timer, new_time_wheel, MIN_TIME_WHEEL_SIZE.
  case_bool_decide; constructor; cbn; rewrite ?repeat_length; lia.
Qed.

(** From the new wheel every sequence of operations runs; it keeps the size. *)
Lemma run_op_wf op t :
  wf (tw t) -> in_int op -> exists t', run_op op t = Some t' /\ wf (tw t') /\ wsize (tw t') = wsize (tw t).
Proof.
  intros Hwf Hb. destruct op as [f timeout|f|]; cbn.
  - destruct (decide (timeout < 0)) as [|].
    + unfold wheel_update_element. rewrite bool_decide_eq_true_2 by done. cbn. eauto.
    + destruct (update_spec f timeout (tw t) Hwf) as (w' & -> & ? & ? & _); [cbn in Hb; lia|]. cbn. eauto.
  - eexists. split; [done|]. split; [by apply delete_wf|done].
  - destruct (tick_spec t Hwf) as (ls & t' & -> & ? & _ & ? & _). eauto.
Qed.

Lemma run_ops_wf ops : forall t,
  wf (tw t) -> Forall in_int ops ->
  exists t', run_ops ops t = Some t' /\ wf (tw t') /\ wsize (tw t') = wsize (tw t).
Proof.
  induction ops as [|op ops IH]; intros t Hwf Hf; cbn; [eauto|].
  apply Forall_cons in Hf as [Hb Hf]. destruct (run_op_wf op t Hwf Hb) as (t1 & -> & Hwf1 & Hs1).
  destruct (IH t1 Hwf1 Hf) as (t' & ? & ? & Hs). exists t'. rewrite <- Hs1. eauto.
Qed.

(** C19. Timeouts are exact: after any history of a wheel, a descriptor that is given the
    timeout [timeout >= 0] and then left alone, whatever happens to the others, is
    resumed with [IETIMEOUT] set exactly once, in round [timeout mod size + 1] of the
    timeout task and not before; that is round [timeout + 1] when the timeout is below
    the size of the wheel (600 in [init_epoll_timer]'s caller), and too early by a
    multiple of the size otherwise. No slot is ever outside the array. *)
Theorem timeout_exact (size : Z) (before after : list tm_op) (e : nat) (timeout : Z) :
  size < 2147483648 -> Forall in_int before -> 0 <= timeout < 2147483648 ->
  Forall (fun op => touches e op = false /\ in_int op) after ->
  exists t t',
    run_ops before (new_timer size) = Some t /\
    run_ops (Update e timeout :: after) t = Some t' /\
    wsize (tw t) = wsize (new_time_wheel size 1) /\
    let due := timeout mod wsize (tw t) + 1 in
    hits e t' = (if decide (due <= ticks after) then S (hits e t) else hits e t) /\
    (due <= ticks after -> timed_out e t' = true).
Proof.
  intros Hs Hb Ht Ha. destruct (run_ops_wf before _ (new_timer_wf size Hs) Hb) as (t & Ht' & Hwf & Hsz).
  destruct (update_ahead e timeout (tw t) Hwf Ht) as (w & Hu & Hwf' & _ & Had).
  destruct (run_ahead e after _ (mk_timer w (errors t) (resumed t)) Hwf' Had Ha) as (t' & Hr & Hh & Hto).
  exists t, t'. cbv zeta. split_and!; [done| |done|done|done]. cbn. by rewrite Hu.
Qed.

Definition demo_before : list tm_op := [Tick; Update 7 3; Tick].
Definition demo_after : list tm_op := [Tick; Update 8 1; Tick; Delete 8; Tick; Tick].

Lemma timeout_exact_witness :
  exists t t', run_ops demo_before (new_timer 600) = Some t /\
    run_ops (Update 5 2 :: demo_after) t = Some t' /\
    wsize (tw t) = wsize (new_time_wheel 600 1) /\
    hits 5 t' = (if decide (2 mod wsize (tw t) + 1 <= 4) then S (hits 5 t) else hits 5 t) /\
    (2 mod wsize (tw t) + 1 <= 4 -> timed_out 5 t' = true).
Proof.
  refine (timeout_exact 600 demo_before demo_after 5 2 _ _ _ _);
    [lia|repeat constructor|lia|repeat constructor].
Defined.
