(* ===== verification/Sched.v ===== *)
(** * task.c, sched_RR.c and task_sched.c: coroutine tasks and their schedulers

    One scheduler per thread; any thread may resume any task. The steps are those of the
    scheduler's loop ([Settle], the switch on the status of the task that came back, and
    [Pick], taking the head of the run queue and switching to it) and those a running
    task makes through the macros of co_define.h and co_inner_define.h. The wait for
    events inside [RR_picknext] shows as the [Resume] steps it causes; a scheduler with an
    empty run queue stays in it. The run list is the sequence that the ring of [Lists.v]
    represents, and ids come from the allocator of [Cid.v], one for each thread. *)
From S2P Require Import Prelude Interfaces Array Heap Cid.
Local Open Scope Z_scope.

Inductive task_status_t := READY | RUNNABLE | IO_BLOCK | SYS_BLOCK | SLEEP | KILLED | DEAD.
#[export] Instance task_status_eq_dec : EqDecision task_status_t.
Proof. solve_decision. Defined.

(** Tasks and threads are numbered. [tsched] is the thread whose [g_sched] the field
    [sched] points to; [owner], the thread that allocated the id, is not in the code. *)
Record task_t := mk_task { tcid : Z; status : task_status_t; tsched : option nat; owner : nat }.

(** The run queue of a scheduler, [g_current] and the local [prev_task] of [schedule]. *)
Record sched_t := mk_sched {
  run_list : list nat; task_num : Z; current : option nat; prev_task : option nat }.

Record system (H : Type) := mk_system {
  tasks : gmap nat task_t;
  scheds : nat -> sched_t;
  allocs : nat -> option (id_dispatch_t H);
  g_task_alive : nat -> Z
}.
Arguments mk_system {H}. Arguments tasks {H}. Arguments scheds {H}.
Arguments allocs {H}. Arguments g_task_alive {H}.

(** [RR_init] *)
Definition RR_init : sched_t := mk_sched [] 0 None None.

(** [list_delete(&t->run_link)]: a link is in one list at most. *)
Definition unlink (t : nat) (f : nat -> sched_t) : nat -> sched_t := fun k =>
  let s := f k in
  mk_sched (filter (fun u => u <> t) (run_list s)) (task_num s) (current s) (prev_task s).

Definition RR_enqueue (k t : nat) (f : nat -> sched_t) : nat -> sched_t :=
  let f := unlink t f in
  upd f k (mk_sched (run_list (f k) ++ [t]) (u64 (task_num (f k) + 1)) (current (f k)) (prev_task (f k))).

Definition RR_dequeue (k t : nat) (f : nat -> sched_t) : nat -> sched_t :=
  let f := unlink t f in
  upd f k (mk_sched (run_list (f k)) (u64 (task_num (f k) - 1)) (current (f k)) (prev_task (f k))).

(** The head, once there is one. *)
Definition RR_picknext (k : nat) (f : nat -> sched_t) : option nat := head (run_list (f k)).

Section sched.
Context {H : Type} `{PQ : !PriorityQueue H _id_cmp} (junk : H) (tid_of : nat -> Z).
Implicit Types (s : system H).

Definition with_scheds (f : nat -> sched_t) s : system H :=
  mk_system (tasks s) f (allocs s) (g_task_alive s).
Definition set_sched (k : nat) (x : sched_t) s : system H := with_scheds (upd (scheds s) k x) s.
Definition set_task (t : nat) (T : task_t) s : system H :=
  mk_system (<[t := T]> (tasks s)) (scheds s) (allocs s) (g_task_alive s).

(** [sched_rq_enqueue] on thread [k]; [None]: the task does not exist. *)
Definition sched_rq_enqueue (k t : nat) s : option (system H) :=
  T ← tasks s !! t;
  let home := default k (tsched T) in
  let s := set_task t (mk_task (tcid T) RUNNABLE (Some home) (owner T)) s in
  Some (with_scheds (RR_enqueue home t (scheds s)) s).

(** [task_create] and [task_init]; [malloc] gives an address not in use. *)
Definition task_create (k t : nat) s : option (system H) :=
  match tasks s !! t with
  | Some _ => None
  | None =>
      '(c, al) ← alloc_cid junk (tid_of k) (allocs s k);
      Some (mk_system (<[t := mk_task c READY None k]> (tasks s)) (scheds s) (upd (allocs s) k al)
              (upd (g_task_alive s) k (u32 (g_task_alive s k + 1))))
  end.

(** [co_create] *)
Definition co_create (k t : nat) s : option (system H) :=
  s ← task_create k t s; sched_rq_enqueue k t s.

Definition task_destory (k t : nat) s : option (system H) :=
  T ← tasks s !! t;
  al ← free_cid (tcid T) (allocs s k);
  Some (mk_system (delete t (tasks s)) (unlink t (scheds s)) (upd (allocs s) k al)
          (upd (g_task_alive s) k (u32 (g_task_alive s k - 1)))).

Definition task_count (k : nat) s : Z := i32 (g_task_alive s k).

(** What co_await.c and Task.h do to wake a task: straight into the queue of its scheduler,
    with its status as it is. *)
Definition wake (t : nat) s : option (system H) :=
  T ← tasks s !! t;
  match tsched T with
  | Some home => Some (with_scheds (RR_enqueue home t (scheds s)) s)
  | None => Some s
  end.

Inductive act :=
  | Create (k t : nat)                          (* [co_create] on thread [k] *)
  | Resume (k t : nat)                          (* [co_resume] on thread [k] *)
  | Mark (k : nat) (st : task_status_t)         (* the running task sets its status *)
  | Switch (k : nat)                            (* and switches to the scheduler *)
  | Settle (k : nat)
  | Pick (k : nat)
  | Wake (t : nat).                             (* [wake] on any thread *)

Definition blocks (st : task_status_t) : bool :=
  match st with IO_BLOCK | SYS_BLOCK | KILLED => true | _ => false end.

(** [None]: not possible in this state. A killed task is not resumed. *)
Definition step (a : act) s : option (system H) :=
  match a with
  | Create k t => co_create k t s
  | Resume k t =>
      T ← tasks s !! t;
      if bool_decide (status T = KILLED) then None else sched_rq_enqueue k t s
  | Mark k st =>
      t ← current (scheds s k);
      T ← tasks s !! t;
      if blocks st then Some (set_task t (mk_task (tcid T) st (tsched T) (owner T)) s) else None
  | Switch k =>
      t ← current (scheds s k);
      Some (set_sched k (mk_sched (run_list (scheds s k)) (task_num (scheds s k)) None (Some t)) s)
  | Settle k =>
      match current (scheds s k) with
      | Some _ => None
      | None =>
          t ← prev_task (scheds s k);
          T ← tasks s !! t;
          s ← match status T with
              | RUNNABLE => sched_rq_enqueue k t s
              | KILLED => task_destory k t s
              | _ => Some s
              end;
          Some (set_sched k (mk_sched (run_list (scheds s k)) (task_num (scheds s k)) None None) s)
      end
  | Pick k =>
      match current (scheds s k), prev_task (scheds s k) with
      | None, None =>
          t ← RR_picknext k (scheds s);
          T ← tasks s !! t;
          let s := with_scheds (RR_dequeue k t (scheds s)) s in
          let s := set_sched k (mk_sched (run_list (scheds s k)) (task_num (scheds s k)) (Some t) None) s in
          Some (set_task t (mk_task (tcid T) RUNNABLE (tsched T) (owner T)) s)
      | _, _ => None
      end
  | Wake t =>
      T ← tasks s !! t;
      if bool_decide (status T = KILLED) then None else wake t s
  end.

Fixpoint steps (acts : list act) s : option (system H) :=
  match acts with [] => Some s | a :: acts => s ← step a s; steps acts s end.

Definition init : system H := mk_system ∅ (fun _ => RR_init) (fun _ => None) (fun _ => 0).
End sched.

(** ** Ids in use *)
Definition ids (k : nat) (m : gmap nat task_t) : list Z :=
  tcid <$> filter (fun T => owner T = k) (snd <$> map_to_list m).

Lemma ids_insert k t T m :
  m !! t = None -> ids k (<[t := T]> m) ≡ₚ (if decide (owner T = k) then [tcid T] else []) ++ ids k m.
Proof.
  intros Hm. unfold ids. rewrite map_to_list_insert by done.
  rewrite fmap_cons, filter_cons. cbn [snd]. by case_decide.
Qed.

Lemma ids_delete k t T m :
  m !! t = Some T ->
  ids k m ≡ₚ (if decide (owner T = k) then [tcid T] else []) ++ ids k (delete t m).
Proof.
  intros Hm. rewrite <- ids_insert by apply lookup_delete_eq. by rewrite insert_delete_eq, insert_id.
Qed.

(** A new status or scheduler does not change the ids. *)
Lemma ids_update k t T T' m :
  m !! t = Some T -> tcid T' = tcid T -> owner T' = owner T -> ids k (<[t := T']> m) ≡ₚ ids k m.
Proof.
  intros Hm Hc Ho. rewrite <- insert_delete_eq, ids_insert by apply lookup_delete_eq.
  by rewrite Hc, Ho, <- (ids_delete k t T).
Qed.

Lemma ids_length k m : (length (ids k m) <= size m)%nat.
Proof.
  unfold ids. rewrite length_fmap, <- length_map_to_list, <- (length_fmap snd). apply length_filter.
Qed.

(** ** Invariant *)
Section inv.
Context {H : Type} `{PQ : !PriorityQueue H _id_cmp}.
Implicit Types (s : system H) (f : nat -> sched_t).

Definition on_cpu (k t : nat) f : Prop := current (f k) = Some t \/ prev_task (f k) = Some t.

(** [n] bounds the tasks there can be. *)
Record sched_inv (n : nat) s : Prop := {
  si_nodup : forall k, NoDup (run_list (scheds s k));
  si_queue : forall k t, t ∈ run_list (scheds s k) -> exists T, tasks s !! t = Some T /\ owner T = k;
  si_home : forall t T, tasks s !! t = Some T -> tsched T = Some (owner T);
  si_cpu : forall k t, on_cpu k t (scheds s) -> exists T, tasks s !! t = Some T /\ owner T = k;
  si_one : forall k, current (scheds s k) = None \/ prev_task (scheds s k) = None;
  si_runnable : forall t T, tasks s !! t = Some T -> status T = RUNNABLE ->
    t ∈ run_list (scheds s (owner T)) \/ on_cpu (owner T) t (scheds s);
  si_ids : forall k, cid_inv THREAD_MAX_TASK_SIZE (allocs s k) (ids k (tasks s));
  si_size : (size (tasks s) <= n)%nat
}.

Lemma init_sched_inv : sched_inv 0 (init (H := H)).
Proof.
  constructor; cbn; try done.
  - intros. constructor.
  - intros k t ?%elem_of_nil. done.
  - intros k t [?|?]; done.
  - by left.
  - intros k. by constructor.
Qed.

Lemma enqueue_list home t f k :
  run_list (RR_enqueue home t f k) =
    filter (fun u => u <> t) (run_list (f k)) ++ (if decide (k = home) then [t] else []).
Proof. unfold RR_enqueue. upd_cases; cbn; by rewrite ?app_nil_r. Qed.

Lemma enqueue_cpu home t f k u : on_cpu k u (RR_enqueue home t f) <-> on_cpu k u f.
Proof. unfold on_cpu, RR_enqueue. by upd_cases. Qed.

Lemma enqueue_current home t f k : current (RR_enqueue home t f k) = current (f k) /\
  prev_task (RR_enqueue home t f k) = prev_task (f k).
Proof. unfold RR_enqueue. by upd_cases. Qed.

Lemma enqueue_elem home t f k u :
  u ∈ run_list (RR_enqueue home t f k) <->
    (u = t /\ k = home) \/ (u <> t /\ u ∈ run_list (f k)).
Proof.
  rewrite enqueue_list, elem_of_app, list_elem_of_filter. case_decide.
  - rewrite list_elem_of_singleton. naive_solver.
  - rewrite elem_of_nil. naive_solver.
Qed.

Lemma enqueue_nodup home t f k :
  NoDup (run_list (f k)) -> NoDup (run_list (RR_enqueue home t f k)).
Proof.
  intros Hnd. rewrite enqueue_list. apply NoDup_app. split_and!.
  - by apply NoDup_filter.
  - intros u [Hu _]%list_elem_of_filter. case_decide; [|by intros ?%elem_of_nil].
    by intros ?%list_elem_of_singleton.
  - case_decide; [apply NoDup_singleton|constructor].
Qed.

(** [sched_rq_enqueue] keeps the invariant and puts the task at the end of its queue. *)
Lemma sched_enqueue_inv n k t s T :
  sched_inv n s -> tasks s !! t = Some T ->
  exists s', sched_rq_enqueue k t s = Some s' /\ sched_inv n s' /\
    scheds s' = RR_enqueue (owner T) t (scheds s) /\
    tasks s' = <[t := mk_task (tcid T) RUNNABLE (Some (owner T)) (owner T)]> (tasks s).
Proof.
  intros [] Ht. unfold sched_rq_enqueue. rewrite Ht. cbn. rewrite (si_home0 t T Ht). cbn.
  eexists. split; [done|]. split; [|done].
  set (T' := mk_task _ _ _ _).
  assert (forall u U, <[t := T']> (tasks s) !! u = Some U -> exists U0, tasks s !! u = Some U0 /\
    owner U = owner U0 /\ ((u = t /\ U = T') \/ (u <> t /\ U = U0))) as Hl.
  { intros u U. destruct (decide (u = t)) as [->|Hne].
    - rewrite lookup_insert_eq. intros [= <-]. exists T. auto.
    - rewrite lookup_insert_ne by done. eauto 8. }
  assert (forall u U0, tasks s !! u = Some U0 -> exists U, <[t := T']> (tasks s) !! u = Some U /\
    owner U = owner U0) as Hl'.
  { intros u U0 HU. destruct (decide (u = t)) as [->|Hne].
    - rewrite lookup_insert_eq. exists T'. split; [done|]. by simplify_eq.
    - rewrite lookup_insert_ne by done. eauto. }
  constructor; cbn.
  - intros. by apply enqueue_nodup.
  - intros j u [[-> ->]|[_ Hu]]%enqueue_elem; [by apply Hl'|].
    destruct (si_queue0 j u Hu) as (U & HU & <-). by apply Hl'.
  - intros u U HU. destruct (Hl u U HU) as (U0 & HU0 & Ho & [[-> ->]|[_ ->]]); [done|by eapply si_home0].
  - intros j u Hu%enqueue_cpu. destruct (si_cpu0 j u Hu) as (U & HU & <-). by apply Hl'.
  - intros j. destruct (enqueue_current (owner T) t (scheds s) j) as [-> ->]. apply si_one0.
  - intros u U HU Hst. rewrite enqueue_elem, enqueue_cpu.
    destruct (Hl u U HU) as (U0 & HU0 & Ho & [[-> ->]|[Hne ->]]); [left; left; done|].
    destruct (si_runnable0 u U0 HU0 Hst); [left; right; done|by right].
  - intros j. eapply cid_inv_perm; [|apply si_ids0]. symmetry. by apply (ids_update j t T).
  - rewrite map_size_insert, Ht. done.
Qed.

(** So does [wake], which leaves the task as it is. *)
Lemma wake_inv n t s T :
  sched_inv n s -> tasks s !! t = Some T ->
  wake t s = Some (with_scheds (RR_enqueue (owner T) t (scheds s)) s) /\
  sched_inv n (with_scheds (RR_enqueue (owner T) t (scheds s)) s).
Proof.
  intros [] Ht. unfold wake. rewrite Ht. cbn. rewrite (si_home0 t T Ht). split; [done|]. constructor; cbn; try done.
  - intros. by apply enqueue_nodup.
  - intros j u [[-> ->]|[_ Hu]]%enqueue_elem; eauto.
  - intros j u Hu%enqueue_cpu. eauto.
  - intros j. destruct (enqueue_current (owner T) t (scheds s) j) as [-> ->]. apply si_one0.
  - intros u U HU Hst. rewrite enqueue_elem, enqueue_cpu. destruct (decide (u = t)) as [->|Hne].
    + left; left. split; [done|congruence].
    + destruct (si_runnable0 u U HU Hst); [left; right; done|by right].
Qed.

(** New scheduler fields on thread [k] with the same run list. *)
Lemma set_cpu_inv n k c p s :
  sched_inv n s -> (c = None \/ p = None) ->
  (forall t, c = Some t \/ p = Some t -> on_cpu k t (scheds s)) ->
  (forall t T, on_cpu k t (scheds s) -> tasks s !! t = Some T -> status T = RUNNABLE ->
     t ∈ run_list (scheds s k) \/ c = Some t \/ p = Some t) ->
  sched_inv n (set_sched k (mk_sched (run_list (scheds s k)) (task_num (scheds s k)) c p) s).
Proof.
  intros [] Hone Hon Hrun.
  assert (forall j, run_list (upd (scheds s) k
    (mk_sched (run_list (scheds s k)) (task_num (scheds s k)) c p) j) = run_list (scheds s j)) as El
    by (intros j; by upd_cases).
  constructor; cbn; try done.
  - intros j. by rewrite El.
  - intros j t. rewrite El. apply si_queue0.
  - intros j t. unfold on_cpu. upd_cases; cbn; [intros ?; by apply si_cpu0, Hon|apply si_cpu0].
  - intros j. by upd_cases.
  - intros t T HT Hst. rewrite El. destruct (si_runnable0 t T HT Hst) as [?|Hc]; [by left|].
    unfold on_cpu in *. upd_cases; cbn; [|by right]. destruct (Hrun t T Hc HT Hst); auto.
Qed.

(** A running task sets its status. *)
Lemma mark_inv n t T st s :
  sched_inv n s -> tasks s !! t = Some T -> st <> RUNNABLE ->
  sched_inv n (set_task t (mk_task (tcid T) st (tsched T) (owner T)) s).
Proof.
  intros [] Ht Hst. constructor; cbn; try done.
  - intros j u Hu. destruct (si_queue0 j u Hu) as (U & HU & <-). destruct (decide (u = t)) as [->|Hne].
    + rewrite lookup_insert_eq. eexists. split; [done|]. cbn. congruence.
    + rewrite lookup_insert_ne by done. eauto.
  - intros u U. destruct (decide (u = t)) as [->|Hne].
    + rewrite lookup_insert_eq. intros [= <-]. cbn. by eapply si_home0.
    + rewrite lookup_insert_ne by done. apply si_home0.
  - intros j u Hu. destruct (si_cpu0 j u Hu) as (U & HU & <-). destruct (decide (u = t)) as [->|Hne].
    + rewrite lookup_insert_eq. eexists. split; [done|]. cbn. congruence.
    + rewrite lookup_insert_ne by done. eauto.
  - intros u U. destruct (decide (u = t)) as [->|Hne].
    + rewrite lookup_insert_eq. by intros [= <-] ?.
    + rewrite lookup_insert_ne by done. apply si_runnable0.
  - intros j. eapply cid_inv_perm; [|apply si_ids0]. symmetry. by apply (ids_update j t T).
  - by rewrite map_size_insert, Ht.
Qed.

Context (junk : H) (tid_of : nat -> Z).

Lemma create_inv n k t s :
  sched_inv n s -> tasks s !! t = None -> Z.of_nat n < THREAD_MAX_TASK_SIZE ->
  exists c s', co_create junk tid_of k t s = Some s' /\ sched_inv (S n) s' /\
    tasks s' = <[t := mk_task c RUNNABLE (Some k) k]> (tasks s) /\ (c ∉ ids k (tasks s)) /\
    scheds s' = RR_enqueue k t (scheds s).
Proof.
  intros [] Ht Hn. unfold co_create, task_create. rewrite Ht.
  destruct (alloc_cid_inv junk (tid_of k) _ _ _ (si_ids0 k)) as (c & al & -> & Hc).
  cbn [mbind option_bind]. unfold sched_rq_enqueue, set_task, with_scheds. cbn.
  rewrite lookup_insert_eq. cbn.
  destruct Hc as [(Hnin & Hc & Hal)|(_ & Hl & _)].
  2:{ pose proof (ids_length k (tasks s)). lia. }
  exists c. eexists. split; [done|]. rewrite insert_insert_eq. split; [|done].
  set (T := mk_task c RUNNABLE (Some k) k).
  assert (forall j, on_cpu j t (scheds s) -> False) as Hncpu.
  { intros j Hj. destruct (si_cpu0 j t Hj) as (? & ? & _). congruence. }
  constructor; cbn.
  - intros. by apply enqueue_nodup.
  - intros j u [[-> ->]|[Hne Hu]]%enqueue_elem.
    + exists T. by rewrite lookup_insert_eq.
    + rewrite lookup_insert_ne by done. eauto.
  - intros u U. destruct (decide (u = t)) as [->|Hne].
    + rewrite lookup_insert_eq. by intros [= <-].
    + rewrite lookup_insert_ne by done. apply si_home0.
  - intros j u Hu%enqueue_cpu. rewrite lookup_insert_ne; [by apply si_cpu0|]. intros ->. by eapply Hncpu.
  - intros j. destruct (enqueue_current k t (scheds s) j) as [-> ->]. apply si_one0.
  - intros u U. rewrite enqueue_elem, enqueue_cpu. destruct (decide (u = t)) as [->|Hne].
    + rewrite lookup_insert_eq. intros [= <-]. left; left. done.
    + rewrite lookup_insert_ne by done. intros HU Hst. destruct (si_runnable0 u U HU Hst); auto.
  - intros j. eapply cid_inv_perm; [symmetry; by apply ids_insert|]. cbn.
    unfold upd. destruct (decide (j = k)) as [->|Hne].
    + by rewrite decide_True.
    + rewrite decide_False by done. apply si_ids0.
  - rewrite map_size_insert, Ht. lia.
Qed.

Lemma destory_inv n k t T s :
  sched_inv n s -> tasks s !! t = Some T -> owner T = k ->
  current (scheds s k) = None -> prev_task (scheds s k) = Some t ->
  exists s', task_destory k t s = Some s' /\ tasks s' = delete t (tasks s) /\
    scheds s' = unlink t (scheds s) /\
    sched_inv n (set_sched k (mk_sched (run_list (scheds s' k)) (task_num (scheds s' k)) None None) s').
Proof.
  intros Hi Ht Ho Hcur Hprev. pose proof Hi as []. unfold task_destory. rewrite Ht. cbn.
  assert (cid_inv THREAD_MAX_TASK_SIZE (allocs s k) (tcid T :: ids k (delete t (tasks s)))) as Hids.
  { eapply cid_inv_perm; [|apply si_ids0]. rewrite (ids_delete k t T) by done.
    by rewrite decide_True. }
  destruct (free_cid_inv _ _ _ _ Hids) as (al & -> & Hal). cbn [mbind option_bind].
  eexists. split_and!; [done..|].
  assert (forall j u, on_cpu j u (scheds s) -> u <> t -> exists U, delete t (tasks s) !! u = Some U /\ owner U = j) as Hcpu.
  { intros j u Hu Hne. rewrite lookup_delete_ne by done. eauto. }
  assert (forall j, on_cpu j t (scheds s) -> j = k) as Hj.
  { intros j Hj. destruct (si_cpu0 j t Hj) as (U & HU & <-). congruence. }
  unfold set_sched, with_scheds. cbn [tasks scheds allocs g_task_alive].
  set (f := upd (unlink t (scheds s)) k _). assert (forall j, run_list (f j) = filter (fun u => u <> t) (run_list (scheds s j))) as El
    by (intros j; unfold f; by upd_cases).
  assert (forall j u, on_cpu j u f <-> j <> k /\ on_cpu j u (scheds s)) as Ef.
  { intros j u. unfold f, on_cpu. upd_cases; cbn; naive_solver. }
  constructor; cbn; fold f.
  - intros j. rewrite El. by apply NoDup_filter.
  - intros j u. rewrite El. intros [Hne Hu]%list_elem_of_filter. rewrite lookup_delete_ne by done. eauto.
  - intros u U [_ HU]%lookup_delete_Some. by eapply si_home0.
  - intros j u [Hjk Hu]%Ef. apply Hcpu; [done|]. intros ->. by apply Hjk, Hj.
  - intros j. unfold f. upd_cases; cbn; auto.
  - intros u U [Hne HU]%lookup_delete_Some Hst. rewrite El, list_elem_of_filter, Ef.
    destruct (si_runnable0 u U HU Hst) as [?|Hu]; [by left|right]. split; [|done].
    intros E. rewrite E in Hu. destruct Hu; congruence.
  - intros j. unfold upd. destruct (decide (j = k)) as [->|Hne]; [done|].
    eapply cid_inv_perm; [|apply si_ids0]. rewrite (ids_delete j t T) by done.
    rewrite decide_False; [done|congruence].
  - rewrite map_size_delete, Ht. lia.
Qed.

Lemma pick_inv n k t T rest s :
  sched_inv n s -> current (scheds s k) = None -> prev_task (scheds s k) = None ->
  run_list (scheds s k) = t :: rest -> tasks s !! t = Some T ->
  sched_inv n (set_task t (mk_task (tcid T) RUNNABLE (tsched T) (owner T))
    (set_sched k (mk_sched (run_list (RR_dequeue k t (scheds s) k)) (task_num (RR_dequeue k t (scheds s) k))
      (Some t) None) (with_scheds (RR_dequeue k t (scheds s)) s))).
Proof.
  intros Hi Hcur Hprev Hq Ht. pose proof Hi as [].
  assert (owner T = k) as Ho.
  { destruct (si_queue0 k t) as (U & HU & <-); [rewrite Hq; left|congruence]. }
  unfold set_task, set_sched, with_scheds. cbn [tasks scheds allocs g_task_alive].
  set (f := upd (RR_dequeue k t (scheds s)) k _).
  assert (forall j, run_list (f j) = filter (fun u => u <> t) (run_list (scheds s j))) as El
    by (intros j; unfold f, RR_dequeue; by upd_cases).
  assert (forall j u, on_cpu j u f <-> (j = k /\ u = t) \/ on_cpu j u (scheds s)) as Ef.
  { intros j u. unfold f, on_cpu, RR_dequeue. upd_cases; cbn; naive_solver congruence. }
  assert (forall u, is_Some (tasks s !! u) -> exists U U0, tasks s !! u = Some U0 /\ owner U = owner U0 /\
    <[t := mk_task (tcid T) RUNNABLE (tsched T) (owner T)]> (tasks s) !! u = Some U) as Hl.
  { intros u [U0 HU]. destruct (decide (u = t)) as [->|Hne].
    - rewrite lookup_insert_eq. eexists _, T. split_and!; [done| |done]. done.
    - rewrite lookup_insert_ne by done. eauto 6. }
  constructor; cbn; fold f.
  - intros j. rewrite El. by apply NoDup_filter.
  - intros j u. rewrite El. intros [_ Hu]%list_elem_of_filter. destruct (si_queue0 j u Hu) as (U & HU & Hj).
    destruct (Hl u ltac:(eauto)) as (V & V0 & ? & ? & ?). exists V. split; [done|congruence].
  - intros u U. destruct (decide (u = t)) as [->|Hne].
    + rewrite lookup_insert_eq. intros [= <-]. cbn. by eapply si_home0.
    + rewrite lookup_insert_ne by done. apply si_home0.
  - intros j u [[-> ->]|Hu]%Ef.
    + rewrite lookup_insert_eq. eauto.
    + destruct (si_cpu0 j u Hu) as (U & HU & Hj).
      destruct (Hl u ltac:(eauto)) as (V & V0 & ? & ? & ?). exists V. split; [done|congruence].
  - intros j. unfold f, RR_dequeue. upd_cases; cbn; try done; try (by right); apply si_one0.
  - intros u U. rewrite El, list_elem_of_filter, Ef. destruct (decide (u = t)) as [->|Hne].
    + rewrite lookup_insert_eq. intros [= <-]. auto.
    + rewrite lookup_insert_ne by done. intros HU Hst. destruct (si_runnable0 u U HU Hst); auto.
  - intros j. eapply cid_inv_perm; [|apply si_ids0]. symmetry. by apply (ids_update j t T).
  - by rewrite map_size_insert, Ht.
Qed.

Definition is_create (a : act) : bool := match a with Create _ _ => true | _ => false end.
Definition creates (acts : list act) : nat := length (filter (fun a => is_create a = true) acts).

Lemma creates_one a : creates [a] = if is_create a then 1%nat else 0%nat.
Proof. unfold creates. rewrite filter_cons. by destruct (is_create a). Qed.

Lemma creates_app acts acts' : creates (acts ++ acts') = (creates acts + creates acts')%nat.
Proof. unfold creates. rewrite filter_app. apply length_app. Qed.
Lemma creates_cons a acts : creates (a :: acts) = (creates [a] + creates acts)%nat.
Proof. apply (creates_app [a]). Qed.

Lemma settle_inv n k s t T :
  sched_inv n s -> current (scheds s k) = None -> prev_task (scheds s k) = Some t ->
  tasks s !! t = Some T -> owner T = k ->
  exists s', step junk tid_of (Settle k) s = Some s' /\ sched_inv n s'.
Proof.
  intros Hi Hcur Hprev Ht Ho. cbn. rewrite Hcur, Hprev. cbn. rewrite Ht. cbn.
  assert (status T <> RUNNABLE -> sched_inv n (set_sched k (mk_sched (run_list (scheds s k))
    (task_num (scheds s k)) None None) s)) as Hstay.
  { intros Hst. apply set_cpu_inv; [done|by left|by intros u [?|?]|].
    intros u U [Hu|Hu] HU ?; congruence. }
  destruct (status T) eqn:Hst; cbn; try by (eexists; split; [done|apply Hstay]).
  - destruct (sched_enqueue_inv n k t s T Hi Ht) as (s1 & -> & Hi1 & Hs1 & Ht1). cbn. eexists. split; [done|].
    assert (forall u, on_cpu k u (scheds s1) -> u = t) as Hcpu.
    { intros u. rewrite Hs1, enqueue_cpu. intros [?|?]; congruence. }
    apply set_cpu_inv; [done|by left|by intros u [?|?]|].
    intros u U Hu%Hcpu HU _. left. rewrite Hu, Hs1. apply enqueue_elem. auto.
  - destruct (destory_inv n k t T s Hi Ht Ho Hcur Hprev) as (s1 & -> & _ & _ & Hi1). cbn. eauto.
Qed.

Lemma sched_step_inv n a s s' :
  sched_inv n s -> Z.of_nat n < THREAD_MAX_TASK_SIZE -> step junk tid_of a s = Some s' ->
  sched_inv (n + creates [a]) s'.
Proof.
  intros Hi Hn Hs. assert (sched_inv n s' -> sched_inv (n + 0) s') as H0 by (by rewrite Nat.add_0_r).
  rewrite creates_one.
  destruct a as [k t|k t|k st|k|k|k|t]; cbn [is_create step] in *; try apply H0.
  - destruct (tasks s !! t) eqn:Ht; [by unfold co_create, task_create in Hs; rewrite Ht in Hs|].
    destruct (create_inv n k t s Hi Ht Hn) as (c & s1 & E & Hi1 & _). simplify_eq.
    by replace (n + 1)%nat with (S n) by lia.
  - destruct (tasks s !! t) as [T|] eqn:Ht; [|done]. cbn in Hs. case_bool_decide; [done|].
    destruct (sched_enqueue_inv n k t s T Hi Ht) as (s1 & E & Hi1 & _). by simplify_eq.
  - destruct (current (scheds s k)) as [t|]; [|done]. cbn in Hs.
    destruct (tasks s !! t) as [T|] eqn:Ht; [|done]. cbn in Hs. destruct (blocks st) eqn:Hb; [|done].
    injection Hs as <-. apply mark_inv; [done..|]. by intros ->.
  - destruct (current (scheds s k)) as [t|] eqn:Hc; [|done]. injection Hs as <-.
    apply set_cpu_inv; [done|by left|intros u [?|[= <-]]; [done|by left]|].
    intros u U [Hu|Hu] HU Hst; [right; right; congruence|].
    destruct (si_one n s Hi k); congruence.
  - destruct (current (scheds s k)) as [|] eqn:Hc; [done|].
    destruct (prev_task (scheds s k)) as [t|] eqn:Hp; [|done].
    destruct (si_cpu n s Hi k t) as (T & Ht & Ho); [by right|].
    destruct (settle_inv n k s t T Hi Hc Hp Ht Ho) as (s1 & E & Hi1). cbn [step] in E.
    rewrite Hc, Hp in E. congruence.
  - destruct (current (scheds s k)) as [|] eqn:Hc; [done|].
    destruct (prev_task (scheds s k)) as [|] eqn:Hp; [done|].
    unfold RR_picknext in Hs. destruct (run_list (scheds s k)) as [|t rest] eqn:Hq; [done|]. cbn in Hs.
    destruct (tasks s !! t) as [T|] eqn:Ht; [|done]. cbn in Hs. injection Hs as <-.
    by apply (pick_inv n k t T rest).
  - destruct (tasks s !! t) as [T|] eqn:Ht; [|done]. cbn in Hs. case_bool_decide; [done|].
    destruct (wake_inv n t s T Hi Ht) as [E Hi1]. by simplify_eq.
Qed.

Lemma sched_steps_inv acts : forall n s s',
  sched_inv n s -> Z.of_nat (n + creates acts) < THREAD_MAX_TASK_SIZE ->
  steps junk tid_of acts s = Some s' -> sched_inv (n + creates acts) s'.
Proof.
  induction acts as [|a acts IH]; intros n s s' Hi Hn Hs; cbn [steps] in Hs.
  { simplify_eq. unfold creates. cbn. by rewrite Nat.add_0_r. }
  destruct (step junk tid_of a s) as [s1|] eqn:E; [|done].
  rewrite creates_cons in *. rewrite Nat.add_assoc in *. apply (IH _ s1); [|done|done].
  apply (sched_step_inv n a s); [done|lia|done].
Qed.

Lemma sched_ids_nodup n s k t u T U :
  sched_inv n s -> tasks s !! t = Some T -> tasks s !! u = Some U -> owner T = k -> owner U = k ->
  tcid T = tcid U -> t = u.
Proof.
  intros Hi Ht Hu Ho Ho' Hc. destruct (decide (t = u)) as [|Hne]; [done|exfalso].
  destruct (cid_inv_live _ _ _ (si_ids n s Hi k)) as (Hnd & _).
  rewrite (ids_delete k t T), decide_True in Hnd by done.
  rewrite (ids_delete k u U), decide_True in Hnd by (done || by rewrite lookup_delete_ne).
  cbn in Hnd. apply NoDup_cons in Hnd as [Hn _]. apply Hn. rewrite Hc. left.
Qed.

(** ** Positions in a run queue *)
(** [t] is in the queue of [k] behind at most [m] tasks. *)
Definition behind (m : nat) (k t : nat) f : Prop :=
  exists xs ys, run_list (f k) = xs ++ t :: ys /\ (length xs <= m)%nat.

Lemma behind_filter m k t u f g :
  t <> u -> behind m k t f ->
  (exists zs, run_list (g k) = filter (fun v => v <> u) (run_list (f k)) ++ zs) -> behind m k t g.
Proof.
  intros Hne (xs & ys & E & Hm) (zs & Eg). rewrite E, filter_app, filter_cons_True in Eg by done.
  exists (filter (fun v => v <> u) xs), (filter (fun v => v <> u) ys ++ zs).
  rewrite Eg, <- app_assoc. split; [done|]. pose proof (length_filter (fun v => v <> u) xs). lia.
Qed.

Lemma enqueue_behind m k t j u f : t <> u -> behind m k t f -> behind m k t (RR_enqueue j u f).
Proof. intros Hne Hb. eapply behind_filter; [done..|]. eexists. apply enqueue_list. Qed.

Definition picks (k : nat) (a : act) : bool := match a with Pick j => bool_decide (j = k) | _ => false end.
Definition resumes (t : nat) (a : act) : bool :=
  match a with Resume _ u | Wake u => bool_decide (u = t) | _ => false end.

(** The step takes [t] off its queue to run it. *)
Definition takes (t : nat) (a : act) s : bool :=
  match a with Pick j => bool_decide (RR_picknext j (scheds s) = Some t) | _ => false end.

Fixpoint taken (t : nat) (acts : list act) s : bool :=
  match acts with
  | [] => false
  | a :: acts => takes t a s || match step junk tid_of a s with Some s => taken t acts s | None => false end
  end.

Lemma behind_le m m' k t f : (m <= m')%nat -> behind m k t f -> behind m' k t f.
Proof. intros Hm (xs & ys & E & Hl). exists xs, ys. split; [done|lia]. Qed.

(** Fields other than the run lists. *)
Lemma behind_set m k t j x s :
  run_list x = run_list (scheds s j) -> behind m k t (scheds s) -> behind m k t (scheds (set_sched j x s)).
Proof. intros Hx (xs & ys & E & Hm). exists xs, ys. split; [|done]. cbn. by upd_cases; rewrite ?Hx. Qed.

(** A task in the queue of [k] stays where it is when another one settles, and moves up by one
    when another one is picked from that queue. *)
Lemma behind_settle n m k t j s s' :
  sched_inv n s -> step junk tid_of (Settle j) s = Some s' -> is_Some (tasks s !! t) ->
  behind m k t (scheds s) -> (forall j, ~ on_cpu j t (scheds s)) ->
  is_Some (tasks s' !! t) /\ (forall j, ~ on_cpu j t (scheds s')) /\ behind m k t (scheds s').
Proof.
  intros Hi Hs Ht Hb Hcpu. cbn [step] in Hs.
  destruct (current (scheds s j)) as [|] eqn:Hc; [done|].
  destruct (prev_task (scheds s j)) as [u|] eqn:Hp; [|done]. cbn in Hs.
  destruct (si_cpu n s Hi j u) as (U & Hu & Ho); [by right|]. rewrite Hu in Hs. cbn in Hs.
  assert (t <> u) as Hne by (intros ->; apply (Hcpu j); by right).
  assert (exists s1, s' = set_sched j (mk_sched (run_list (scheds s1 j)) (task_num (scheds s1 j)) None None) s1 /\
    is_Some (tasks s1 !! t) /\ (forall i, on_cpu i t (scheds s1) <-> on_cpu i t (scheds s)) /\
    behind m k t (scheds s1)) as (s1 & -> & Ht1 & Hcpu1 & Hb1).
  { destruct (status U); cbn in Hs; try (injection Hs as <-; by exists s).
    - destruct (sched_enqueue_inv n j u s U Hi Hu) as (s1 & E & _ & Es & Em). rewrite E in Hs. cbn in Hs.
      injection Hs as <-. exists s1. rewrite Es, Em, lookup_insert_ne by done.
      split_and!; [done|done|intros; apply enqueue_cpu|by apply enqueue_behind].
    - destruct (destory_inv n j u U s Hi Hu Ho Hc Hp) as (s1 & E & Em & Es & _). rewrite E in Hs. cbn in Hs.
      injection Hs as <-. exists s1. rewrite Es, Em, lookup_delete_ne by done.
      split_and!; [done|done|done|]. eapply behind_filter; [done..|]. exists []. by rewrite app_nil_r. }
  split_and!; [done| |by apply behind_set].
  intros i Hon. apply (Hcpu i), Hcpu1. unfold on_cpu in *. cbn in Hon. upd_cases; cbn in *; [|done]. naive_solver.
Qed.

Lemma behind_pick n m k t j s s' :
  sched_inv n s -> step junk tid_of (Pick j) s = Some s' -> is_Some (tasks s !! t) ->
  behind m k t (scheds s) -> (forall j, ~ on_cpu j t (scheds s)) -> takes t (Pick j) s = false ->
  is_Some (tasks s' !! t) /\ (forall j, ~ on_cpu j t (scheds s')) /\
  (if bool_decide (j = k) then (0 < m)%nat /\ behind (pred m) k t (scheds s') else behind m k t (scheds s')).
Proof.
  intros Hi Hs Ht Hb Hcpu Htk. cbn [step takes] in *.
  destruct (current (scheds s j)) as [|] eqn:Hc; [done|].
  destruct (prev_task (scheds s j)) as [|] eqn:Hp; [done|].
  apply bool_decide_eq_false in Htk. unfold RR_picknext in *.
  destruct (run_list (scheds s j)) as [|u rest] eqn:Hq; [done|]. cbn in Hs, Htk.
  destruct (tasks s !! u) as [U|] eqn:Hu; [|done]. cbn in Hs. injection Hs as <-.
  assert (u <> t) as Hne by congruence. cbn. rewrite lookup_insert_ne by done. split_and!; [done| |].
  + intros i Hon. apply (Hcpu i). unfold on_cpu, RR_dequeue in *. upd_cases; cbn in *; naive_solver.
  + destruct Hb as (xs & ys & E & Hm). case_bool_decide as Hjk.
    * subst j. rewrite E in Hq. destruct xs as [|x xs]; cbn in Hq; simplify_eq. cbn in Hm.
      split; [lia|]. exists (filter (fun v => v <> u) xs), (filter (fun v => v <> u) ys). split.
      -- rewrite upd_eq. cbn. unfold RR_dequeue. rewrite upd_eq. cbn. rewrite E. cbn [app].
         rewrite filter_cons_False by (by intros []). by rewrite filter_app, filter_cons_True by done.
      -- pose proof (length_filter (fun v => v <> u) xs). lia.
    * exists (filter (fun v => v <> u) xs), (filter (fun v => v <> u) ys). split.
      -- unfold RR_dequeue. rewrite !upd_ne by done. cbn. by rewrite E, filter_app, filter_cons_True.
      -- pose proof (length_filter (fun v => v <> u) xs). lia.
Qed.

Lemma behind_step n m k t a s s' :
  sched_inv n s -> step junk tid_of a s = Some s' -> is_Some (tasks s !! t) ->
  behind m k t (scheds s) -> (forall j, ~ on_cpu j t (scheds s)) ->
  takes t a s = false -> resumes t a = false ->
  is_Some (tasks s' !! t) /\ (forall j, ~ on_cpu j t (scheds s')) /\
  (if picks k a then (0 < m)%nat /\ behind (pred m) k t (scheds s') else behind m k t (scheds s')).
Proof.
  intros Hi Hs Ht Hb Hcpu Htk Hrs. destruct a as [j u|j u|j st|j|j|j|u]; cbn [picks resumes] in *;
    [cbn [step] in Hs..|by eapply behind_settle|by eapply behind_pick|cbn [step] in Hs].
  - unfold co_create, task_create in Hs. destruct (tasks s !! u) eqn:Hu; [done|].
    assert (t <> u) as Hne by (intros ->; rewrite Hu in Ht; by destruct Ht).
    destruct (alloc_cid junk (tid_of j) (allocs s j)) as [[c al]|]; [|done]. cbn [mbind option_bind] in Hs.
    unfold sched_rq_enqueue, set_task in Hs. cbn in Hs. rewrite lookup_insert_eq in Hs. cbn in Hs.
    injection Hs as <-. cbn. rewrite insert_insert_eq, lookup_insert_ne by done. split_and!; [done| |].
    + intros i. rewrite enqueue_cpu. apply Hcpu.
    + by apply enqueue_behind.
  - destruct (tasks s !! u) as [U|] eqn:Hu; [|done]. cbn in Hs. destruct (bool_decide (status U = KILLED)); [done|].
    apply bool_decide_eq_false in Hrs.
    destruct (sched_enqueue_inv n j u s U Hi Hu) as (s1 & E & _ & Es & Em). simplify_eq. rewrite Es, Em.
    rewrite lookup_insert_ne by done. split_and!; [done| |].
    + intros i. rewrite enqueue_cpu. apply Hcpu.
    + by apply enqueue_behind.
  - destruct (current (scheds s j)) as [u|] eqn:Hc; [|done]. cbn in Hs.
    destruct (tasks s !! u) as [U|]; [|done]. cbn in Hs. destruct (blocks st); [|done]. injection Hs as <-.
    assert (u <> t) by (intros ->; apply (Hcpu j); by left).
    cbn. by rewrite lookup_insert_ne.
  - destruct (current (scheds s j)) as [u|] eqn:Hc; [|done]. injection Hs as <-. split_and!; [done| |].
    + intros i Hon. apply (Hcpu i). unfold on_cpu in *. cbn in Hon. upd_cases; cbn in *; [|done].
      destruct Hon as [?|[= ->]]; [done|by left].
    + by apply behind_set.
  - destruct (tasks s !! u) as [U|] eqn:Hu; [|done]. cbn in Hs. destruct (bool_decide (status U = KILLED)); [done|].
    apply bool_decide_eq_false in Hrs. destruct (wake_inv n u s U Hi Hu) as [E _]. simplify_eq. cbn.
    split_and!; [done| |by apply enqueue_behind]. intros i. rewrite enqueue_cpu. apply Hcpu.
Qed.

Definition count_picks (k : nat) (acts : list act) : nat := length (filter (fun a => picks k a = true) acts).

Lemma behind_steps acts : forall n m k t s s',
  sched_inv n s -> Z.of_nat (n + creates acts) < THREAD_MAX_TASK_SIZE ->
  steps junk tid_of acts s = Some s' -> is_Some (tasks s !! t) ->
  behind m k t (scheds s) -> (forall j, ~ on_cpu j t (scheds s)) ->
  taken t acts s = false -> Forall (fun a => resumes t a = false) acts ->
  (count_picks k acts <= m)%nat /\ behind (m - count_picks k acts) k t (scheds s').
Proof.
  induction acts as [|a acts IH]; intros n m k t s s' Hi Hn Hs Ht Hb Hcpu Htk Hf; cbn [steps taken] in *.
  { simplify_eq. unfold count_picks. cbn. rewrite Nat.sub_0_r. split; [lia|done]. }
  destruct (step junk tid_of a s) as [s1|] eqn:E; [|done]. apply orb_false_iff in Htk as [Htk1 Htk].
  apply Forall_cons in Hf as [Hf1 Hf].
  rewrite creates_cons in Hn. pose proof (sched_step_inv n a s s1 Hi ltac:(lia) E) as Hi1.
  destruct (behind_step n m k t a s s1 Hi E Ht Hb Hcpu Htk1 Hf1) as (Ht1 & Hcpu1 & Hb1).
  unfold count_picks. rewrite filter_cons. destruct (picks k a) eqn:Hp.
  - rewrite decide_True by done. destruct Hb1 as [Hm Hb1].
    destruct (IH _ (pred m) k t s1 s' Hi1 ltac:(lia) Hs Ht1 Hb1 Hcpu1 Htk Hf) as [Hc Hb2].
    unfold count_picks in *. cbn [length]. split; [lia|]. eapply behind_le; [|done]. lia.
  - rewrite decide_False by done. by apply (IH _ m k t s1 s' Hi1 ltac:(lia) Hs).
Qed.

(** ** Resumed tasks *)
Definition queued (t : nat) s : Prop :=
  forall T, tasks s !! t = Some T -> t ∈ run_list (scheds s (owner T)).

Lemma queued_enqueue n j u t s s' U :
  sched_inv n s -> tasks s !! u = Some U -> sched_rq_enqueue j u s = Some s' -> queued t s -> queued t s'.
Proof.
  intros Hi Hu E Hq T. destruct (sched_enqueue_inv n j u s U Hi Hu) as (s1 & E1 & _ & Es & Em).
  assert (s' = s1) as -> by congruence. rewrite Es, Em, enqueue_elem. destruct (decide (t = u)) as [->|Hne].
  - rewrite lookup_insert_eq. intros [= <-]. by left.
  - rewrite lookup_insert_ne by done. intros HT. right. split; [done|by apply Hq].
Qed.

Lemma queued_set t j x s :
  run_list x = run_list (scheds s j) -> queued t s -> queued t (set_sched j x s).
Proof. intros Hx Hq T HT. specialize (Hq T HT). cbn. unfold upd. case_decide; [|done]. subst. by rewrite Hx. Qed.

Lemma queued_step n t a s s' :
  sched_inv n s -> step junk tid_of a s = Some s' -> queued t s -> takes t a s = false -> queued t s'.
Proof.
  intros Hi Hs Hq Htk. destruct a as [j u|j u|j st|j|j|j|u]; cbn [step takes] in *.
  - unfold co_create, task_create in Hs. destruct (tasks s !! u) eqn:Hu; [done|].
    destruct (alloc_cid junk (tid_of j) (allocs s j)) as [[c al]|]; [|done]. cbn [mbind option_bind] in Hs.
    unfold sched_rq_enqueue, set_task in Hs. cbn in Hs. rewrite lookup_insert_eq in Hs. cbn in Hs.
    injection Hs as <-. intros T. cbn. rewrite insert_insert_eq, enqueue_elem.
    destruct (decide (t = u)) as [->|Hne]; [rewrite lookup_insert_eq; intros [= <-]; by left|].
    rewrite lookup_insert_ne by done. intros HT. right. split; [done|by apply Hq].
  - destruct (tasks s !! u) as [U|] eqn:Hu; [|done]. cbn in Hs.
    destruct (bool_decide (status U = KILLED)); [done|]. by eapply queued_enqueue.
  - destruct (current (scheds s j)) as [u|]; [|done]. cbn in Hs.
    destruct (tasks s !! u) as [U|] eqn:Hu; [|done]. cbn in Hs. destruct (blocks st); [|done]. injection Hs as <-.
    intros T. cbn. destruct (decide (t = u)) as [->|Hne].
    + rewrite lookup_insert_eq. intros [= <-]. exact (Hq U Hu).
    + rewrite lookup_insert_ne by done. apply Hq.
  - destruct (current (scheds s j)) as [u|]; [|done]. injection Hs as <-. by apply queued_set.
  - destruct (current (scheds s j)) as [|] eqn:Hc; [done|].
    destruct (prev_task (scheds s j)) as [u|] eqn:Hp; [|done]. cbn in Hs.
    destruct (tasks s !! u) as [U|] eqn:Hu; [|done]. cbn in Hs.
    destruct (si_cpu n s Hi j u) as (U' & Hu' & Ho); [by right|]. simplify_eq.
    destruct (status U); cbn in Hs; try (injection Hs as <-; by apply queued_set).
    + destruct (sched_rq_enqueue (owner U) u s) as [s1|] eqn:E; [|done]. injection Hs as <-.
      apply queued_set; [done|]. by eapply queued_enqueue.
    + destruct (destory_inv n (owner U) u U s Hi Hu eq_refl Hc Hp) as (s1 & E & Em & Es & _).
      rewrite E in Hs. injection Hs as <-. apply queued_set; [done|]. intros T. rewrite Em, Es.
      intros [Hne HT]%lookup_delete_Some. apply list_elem_of_filter. split; [done|by apply Hq].
  - destruct (current (scheds s j)) as [|] eqn:Hc; [done|].
    destruct (prev_task (scheds s j)) as [|] eqn:Hp; [done|].
    apply bool_decide_eq_false in Htk. unfold RR_picknext in *.
    destruct (run_list (scheds s j)) as [|u rest] eqn:Hr; [done|]. cbn in Hs, Htk.
    destruct (tasks s !! u) as [U|] eqn:Hu; [|done]. cbn in Hs. injection Hs as <-.
    assert (t <> u) as Hne by congruence. intros T. cbn. rewrite lookup_insert_ne by done. intros HT.
    specialize (Hq T HT). set (f := upd _ j _).
    assert (forall i, run_list (f i) = filter (fun v => v <> u) (run_list (scheds s i))) as ->
      by (intros i; unfold f, RR_dequeue; by upd_cases).
    by apply list_elem_of_filter.
  - destruct (tasks s !! u) as [U|] eqn:Hu; [|done]. cbn in Hs. destruct (bool_decide (status U = KILLED)); [done|].
    destruct (wake_inv n u s U Hi Hu) as [E _]. simplify_eq. intros T. cbn. intros HT. rewrite enqueue_elem.
    specialize (Hq T HT). destruct (decide (t = u)) as [->|]; [left; split; congruence|by right].
Qed.

Lemma queued_steps acts : forall n t s s',
  sched_inv n s -> Z.of_nat (n + creates acts) < THREAD_MAX_TASK_SIZE ->
  steps junk tid_of acts s = Some s' -> queued t s -> taken t acts s = false -> queued t s'.
Proof.
  induction acts as [|a acts IH]; intros n t s s' Hi Hn Hs Hq Htk; cbn [steps taken] in *; [by simplify_eq|].
  destruct (step junk tid_of a s) as [s1|] eqn:E; [|done]. apply orb_false_iff in Htk as [Htk1 Htk].
  rewrite creates_cons in Hn. pose proof (sched_step_inv n a s s1 Hi ltac:(lia) E) as Hi1.
  apply (IH _ t s1 s' Hi1); [lia|done| |done]. by apply (queued_step n t a s s1).
Qed.
End inv.




(** *** A run over heap.c's priority queue *)
#[local] Instance sched_heap : PriorityQueue heap_t _id_cmp := heap_pq _id_cmp RhsFirst.

(** Thread 0 creates tasks 1 and 2; task 1 runs, and thread 5 resumes it after it has set
    its status and before it switches away. *)
Definition demo_acts : list act :=
  [Create 0 1; Create 0 2; Pick 0; Mark 0 IO_BLOCK; Resume 5 1; Switch 0; Settle 0].
Definition demo_state : system heap_t := default init (steps raw_heap Z.of_nat demo_acts init).
Definition demo_more : list act := [Pick 0; Mark 0 KILLED; Switch 0; Settle 0; Pick 0].
Definition demo_last : system heap_t := default init (steps raw_heap Z.of_nat demo_more demo_state).



(** The task resumed while it was on its way to sleep. *)
Definition before_resume : list act := [Create 0 1; Create 0 2; Pick 0; Mark 0 IO_BLOCK].
Definition racing : system heap_t := default init (steps raw_heap Z.of_nat before_resume init).
Definition raced : system heap_t := default init (step raw_heap Z.of_nat (Resume 5 1) racing).
Definition raced_later : system heap_t :=
  default init (steps raw_heap Z.of_nat [Switch 0; Settle 0; Pick 0; Switch 0] raced).

