(* ===== verification/LifeCycle.v ===== *)
(** * task_sched.c and event.c: how the scheduler of a thread begins and ends

    [current_sched] makes the scheduler with its epoll instance, the task of the time wheel
    and the task of the pipe by which other threads wake it; with [CO_SCHED_STOP] the loop
    of [schedule] tears all that down when only these tasks are left. A step is what runs between
    two switches. Of the running of tasks (Sched.v) only their number counts here;
    other threads of the process open descriptors in between, of any free number. The scheduler is not a task,
    so its [close] is the raw one, a task's is hooked and drops the entry of inner_fd.c. *)
From S2P Require Import Prelude.
Local Open Scope Z_scope.

(** What is allocated. *)
Inductive obj := OSched | OSchedTask | OEpoll | OWheel | OTimerTask | OActiveTask | OUser (n : nat).
#[export] Instance obj_eq_dec : EqDecision obj.
Proof. solve_decision. Defined.
#[export] Instance obj_countable : Countable obj.
Proof.
  apply (inj_countable'
    (fun o => match o with OSched => inl 0%nat | OSchedTask => inl 1%nat | OEpoll => inl 2%nat | OWheel => inl 3%nat
              | OTimerTask => inl 4%nat | OActiveTask => inl 5%nat | OUser n => inr n end)
    (fun x => match x with inl 0%nat => OSched | inl 1%nat => OSchedTask | inl 2%nat => OEpoll | inl 3%nat => OWheel
              | inl 4%nat => OTimerTask | inl _ => OActiveTask | inr n => OUser n end)).
  by intros [].
Defined.

(** The task of the pipe: not begun, in [read], over. *)
Inductive apc := ABegin | ARead | AOver.
#[export] Instance apc_eq_dec : EqDecision apc.
Proof. solve_decision. Defined.

(** [opened]: the open descriptors of the process, and whether this scheduler opened them. [entries]: those with
    an entry in [g_inner_fd_list]. [pipe_writable]: the write end has not been closed. *)
Record life := mk_life {
  g_sched : bool;
  objs : gset obj;
  g_task_alive : Z;
  epfd : Z;
  timerfd : Z;
  active : Z * Z;
  at_ : apc;
  pipe_writable : bool;
  opened : gmap Z bool;
  entries : gset Z
}.

Definition no_sched : life := mk_life false ∅ 0 (-1) (-1) (-1, -1) AOver false ∅ ∅.

Definition with_objs (o : gset obj) (n : Z) (s : life) : life :=
  mk_life (g_sched s) o n (epfd s) (timerfd s) (active s) (at_ s) (pipe_writable s) (opened s) (entries s).
Definition with_active (a : Z * Z) (p : apc) (w : bool) (s : life) : life :=
  mk_life (g_sched s) (objs s) (g_task_alive s) (epfd s) (timerfd s) a p w (opened s) (entries s).
Definition with_fds (f : gmap Z bool) (e : gset Z) (s : life) : life :=
  mk_life (g_sched s) (objs s) (g_task_alive s) (epfd s) (timerfd s) (active s) (at_ s) (pipe_writable s) f e.

(** [malloc]; [free] of what is not allocated is undefined. *)
Definition alloc (o : obj) (s : life) : option life :=
  if bool_decide (o ∈ objs s) then None else Some (with_objs ({[o]} ∪ objs s) (g_task_alive s) s).
Definition free (o : obj) (s : life) : option life :=
  if bool_decide (o ∈ objs s) then Some (with_objs (objs s ∖ {[o]}) (g_task_alive s) s) else None.

(** [task_create] and [task_destory], of what counts here. *)
Definition task_new (o : obj) (s : life) : option life :=
  s ← alloc o s; Some (with_objs (objs s) (u32 (g_task_alive s + 1)) s).
Definition task_free (o : obj) (s : life) : option life :=
  s ← free o s; Some (with_objs (objs s) (u32 (g_task_alive s - 1)) s).
Definition task_count (s : life) : Z := i32 (g_task_alive s).

(** The kernel hands out a descriptor that is free. *)
Definition open_fd (fd : Z) (mine : bool) (s : life) : option life :=
  if bool_decide (0 <= fd) && bool_decide (opened s !! fd = None) then Some (with_fds (<[fd := mine]> (opened s)) (entries s) s)
  else None.
(** A descriptor is closed by its number, whoever opened it. *)
Definition raw_close (fd : Z) (s : life) : life :=
  let w := if bool_decide (fd = (active s).2) && bool_decide (opened s !! fd = Some true) then false else pipe_writable s in
  with_active (active s) (at_ s) w (with_fds (delete fd (opened s)) (entries s) s).
Definition task_close (fd : Z) (s : life) : life := raw_close fd (with_fds (opened s) (entries s ∖ {[fd]}) s).

(** ** Beginning *)
(** [sched_create]; [ep] is what [epoll_create] gives, after which the [epoll] field is used
    without a test. *)
Definition sched_create (ep : Z) (s : life) : option life :=
  s ← alloc OSched s;
  s ← task_new OSchedTask s;
  s ← open_fd ep true s;
  s ← alloc OEpoll s;
  Some (mk_life true (objs s) (g_task_alive s) ep (-1) (-1, -1) AOver false (opened s) (entries s)).

(** [init_epoll_timer], with [new_time_wheel] and [new_inner_fd]. *)
Definition init_timer (tfd : Z) (s : life) : option life :=
  s ← alloc OWheel s;
  s ← open_fd tfd true s;
  s ← task_new OTimerTask s;
  Some (mk_life (g_sched s) (objs s) (g_task_alive s) (epfd s) tfd (active s) (at_ s) (pipe_writable s) (opened s)
          ({[tfd]} ∪ entries s)).

Definition init_active_task (s : life) : option life :=
  s ← task_new OActiveTask s; Some (with_active (active s) ABegin false s).

(** [current_sched] when there is none yet. *)
Definition current_sched (ep tfd : Z) (s : life) : option life :=
  if g_sched s then Some s
  else s ← sched_create ep s; s ← init_timer tfd s; init_active_task s.

(** ** The task of the pipe *)
(** Up to the first [read]; [fcntl] makes the entries. *)
Definition active_begin (a b : Z) (s : life) : option life :=
  match at_ s with
  | ABegin =>
      s ← open_fd a true s; s ← open_fd b true s;
      Some (with_active (a, b) ARead true (with_fds (opened s) ({[a; b]} ∪ entries s) s))
  | _ => None
  end.

(** [read] ends the loop when the write end is closed: both ends are closed, and the task is over. *)
Definition active_end (s : life) : option life :=
  match at_ s with
  | ARead =>
      if pipe_writable s then None
      else
        let '(a, b) := active s in
        let s := task_close b (task_close a s) in
        task_free OActiveTask (with_active (-1, -1) AOver false s)
  | _ => None
  end.

(** ** The end *)
(** [delete_epoll]; [None] also for the entry of the timer that is [NULL]. *)
Definition delete_epoll (s : life) : option life :=
  let s := raw_close (epfd s) s in
  if bool_decide (timerfd s ∈ entries s) then
    s ← task_free OTimerTask s;
    s ← free OWheel (raw_close (timerfd s) s);
    free OEpoll s
  else None.

Definition sched_destory (s : life) : option life :=
  if negb (g_sched s) then Some s
  else
    s ← task_free OSchedTask s;
    s ← delete_epoll s;
    s ← free OSched s;
    Some (mk_life false (objs s) (g_task_alive s) (epfd s) (timerfd s) (active s) (at_ s) (pipe_writable s) (opened s) (entries s)).

(** The end of the body of the loop, under [CO_SCHED_STOP]. *)
Definition sched_stop (s : life) : option life :=
  if negb (g_sched s) then None
  else if bool_decide (task_count s <= 3) then
    if bool_decide (0 <= (active s).1) then Some (raw_close (active s).2 s)
    else if bool_decide (task_count s <= 2) then sched_destory s
    else Some s
  else Some s.

(** The timer cannot be read: its task closes it and is over. *)
Definition timer_fails (s : life) : option life :=
  if bool_decide (OTimerTask ∈ objs s) then task_free OTimerTask (task_close (timerfd s) s) else None.

Inductive act :=
  | Begin (ep tfd : Z) | Spawn (n : nat) | Exit (n : nat)
  | ActiveBegin (a b : Z) | ActiveEnd | LoopEnd | TimerFails
  | Foreign (fd : Z) | ForeignClose (fd : Z).

Definition step (a : act) (s : life) : option life :=
  match a with
  | Begin ep tfd => current_sched ep tfd s
  | Spawn n => if g_sched s then task_new (OUser n) s else None
  | Exit n => task_free (OUser n) s
  | ActiveBegin a b => active_begin a b s
  | ActiveEnd => active_end s
  | LoopEnd => sched_stop s
  | TimerFails => timer_fails s
  | Foreign fd => open_fd fd false s
  | ForeignClose fd =>
      if bool_decide (opened s !! fd = Some false) then Some (with_fds (delete fd (opened s)) (entries s) s) else None
  end.

Fixpoint steps (acts : list act) (s : life) : option life :=
  match acts with [] => Some s | a :: acts => s ← step a s; steps acts s end.

(** The scheduler's loop closes the write end, and the task of the pipe closes that number again: in between another
    thread may have been given it, and loses it. *)
Definition closes_foreign_acts : list act :=
  [Begin 3 4; ActiveBegin 5 6; LoopEnd; Foreign 6; ActiveEnd].
Example closes_foreign :
  opened <$> steps (take 4 closes_foreign_acts) no_sched = Some {[3 := true; 4 := true; 5 := true; 6 := false]} /\
  opened <$> steps closes_foreign_acts no_sched = Some {[3 := true; 4 := true]}.
Proof. split; by vm_compute. Qed.

(** The loop closes it once in each round until that task has run. *)
Example closes_again :
  opened <$> steps [Begin 3 4; ActiveBegin 5 6; LoopEnd; Foreign 6; LoopEnd] no_sched =
    Some {[3 := true; 4 := true; 5 := true]}.
Proof. by vm_compute. Qed.

(** After an error of the timer its entry is [NULL] when the instance is deleted. *)
Example timer_error_crashes :
  defined (steps [Begin 3 4; ActiveBegin 5 6; TimerFails; LoopEnd; ActiveEnd] no_sched) = true /\
  steps [Begin 3 4; ActiveBegin 5 6; TimerFails; LoopEnd; ActiveEnd; LoopEnd] no_sched = None.
Proof. split; by vm_compute. Qed.

(** And the number of tasks is then one less: the scheduler stops with a task of the user left. *)
Example timer_error_stops_early :
  (fun s => (bool_decide (OUser 1 ∈ objs s), pipe_writable s)) <$>
    steps [Begin 3 4; Spawn 1; ActiveBegin 5 6; TimerFails; LoopEnd] no_sched = Some (true, false).
Proof. by vm_compute. Qed.

(** The entry of the timer outlives it. *)
Example timer_entry_stays :
  (fun s => (g_sched s, opened s, entries s, objs s, g_task_alive s)) <$>
    steps [Begin 3 4; Spawn 1; ActiveBegin 5 6; Exit 1; LoopEnd; ActiveEnd; LoopEnd] no_sched =
    Some (false, ∅, {[4]}, ∅, 0).
Proof. by vm_compute. Qed.

(** ** Invariant *)
Definition there (U : gset nat) (p : apc) (o : obj) : bool :=
  match o with
  | OUser n => bool_decide (n ∈ U)
  | OActiveTask => match p with AOver => false | _ => true end
  | _ => true
  end.
Definition ours (s : life) : list Z :=
  [epfd s; timerfd s] ++ match at_ s with ARead => [(active s).1; (active s).2] | _ => [] end.

Definition pipe_task (p : apc) : Z := match p with AOver => 0 | _ => 1 end.

(** A scheduler with the tasks [U] of the user. *)
Record up (U : gset nat) (s : life) : Prop := {
  up_objs o : o ∈ objs s <-> there U (at_ s) o = true;
  up_alive : g_task_alive s = 2 + pipe_task (at_ s) + Z.of_nat (size U);
  up_entry : timerfd s ∈ entries s;
  up_mine fd : opened s !! fd = Some true -> fd ∈ ours s;
  up_open : opened s !! epfd s = Some true /\ opened s !! timerfd s = Some true /\ epfd s <> timerfd s;
  up_read : at_ s = ARead -> 0 <= (active s).1 /\
    ((active s).1 ∉ [epfd s; timerfd s; (active s).2]) /\ ((active s).2 ∉ [epfd s; timerfd s]);
  up_pipe : at_ s <> ARead -> active s = (-1, -1);
  up_write : at_ s = ARead -> pipe_writable s = true -> opened s !! (active s).2 = Some true
}.
(** None, or none any more. *)
Record down (s : life) : Prop := {
  down_objs : objs s = ∅;
  down_alive : g_task_alive s = 0;
  down_mine fd : (opened s !! fd <> Some true);
  down_at : at_ s = AOver
}.
Definition linv (U : gset nat) (s : life) : Prop := if g_sched s then up U s else down s /\ U = ∅.

Lemma linv_no_sched : linv ∅ no_sched.
Proof. by repeat constructor. Qed.

Lemma alloc_some o s s' : alloc o s = Some s' -> (o ∉ objs s) /\ s' = with_objs ({[o]} ∪ objs s) (g_task_alive s) s.
Proof. unfold alloc. case_bool_decide; [done|]. by intros [= <-]. Qed.
Lemma task_new_some o s s' :
  task_new o s = Some s' -> (o ∉ objs s) /\ s' = with_objs ({[o]} ∪ objs s) (u32 (g_task_alive s + 1)) s.
Proof. unfold task_new. destruct (alloc o s) as [s1|] eqn:E; [|done]. apply alloc_some in E as [? ->]. by intros [= <-]. Qed.
Lemma task_free_some o s s' :
  task_free o s = Some s' -> o ∈ objs s /\ s' = with_objs (objs s ∖ {[o]}) (u32 (g_task_alive s - 1)) s.
Proof. unfold task_free, free. case_bool_decide; [|done]. by intros [= <-]. Qed.
Lemma open_fd_some fd b s s' :
  open_fd fd b s = Some s' -> 0 <= fd /\ opened s !! fd = None /\ s' = with_fds (<[fd := b]> (opened s)) (entries s) s.
Proof.
  unfold open_fd. destruct (bool_decide (0 <= fd)) eqn:E; [|done]. apply bool_decide_eq_true in E.
  case_bool_decide; [|done]. by intros [= <-].
Qed.

(** Steps that leave this scheduler alone. *)
Lemma linv_foreign U s f :
  linv U s -> (forall fd, f !! fd = Some true <-> opened s !! fd = Some true) -> linv U (with_fds f (entries s) s).
Proof.
  unfold linv. cbn. intros Hi Hf. destruct (g_sched s).
  - destruct Hi. constructor; cbn; try done; [intros fd; rewrite Hf; apply up_mine0|by rewrite !Hf|].
    intros ? ?. rewrite Hf. auto.
  - destruct Hi as [[] ?]. split; [|done]. constructor; cbn; try done. intros fd. by rewrite Hf.
Qed.

(** *** Beginning *)
Lemma alloc_new o s : o ∉ objs s -> alloc o s = Some (with_objs ({[o]} ∪ objs s) (g_task_alive s) s).
Proof. intros. unfold alloc. by rewrite bool_decide_eq_false_2. Qed.
Lemma task_new_new o s : o ∉ objs s -> task_new o s = Some (with_objs ({[o]} ∪ objs s) (u32 (g_task_alive s + 1)) s).
Proof. intros. unfold task_new. by rewrite alloc_new. Qed.

Lemma current_sched_down ep tfd s s' :
  g_sched s = false -> objs s = ∅ -> g_task_alive s = 0 -> current_sched ep tfd s = Some s' ->
  ep <> tfd /\ opened s !! ep = None /\ opened s !! tfd = None /\
  s' = mk_life true {[OActiveTask; OTimerTask; OWheel; OEpoll; OSchedTask; OSched]} 3 ep tfd (-1, -1) ABegin false
         (<[tfd := true]> (<[ep := true]> (opened s))) ({[tfd]} ∪ entries s).
Proof.
  destruct s as [g o n e1 t1 a p w f en]. cbn. intros -> -> ->. unfold current_sched, sched_create, init_timer, init_active_task.
  cbn [g_sched]. rewrite alloc_new by (cbn; set_solver). cbn. rewrite task_new_new by (cbn; set_solver). cbn.
  destruct (open_fd ep true _) as [s1|] eqn:E1; [|done]. apply open_fd_some in E1 as (_ & He & ->). cbn in *.
  rewrite alloc_new by (cbn; set_solver). cbn. rewrite alloc_new by (cbn; set_solver). cbn.
  destruct (open_fd tfd true _) as [s1|] eqn:E1; [|done]. apply open_fd_some in E1 as (_ & Ht & ->). cbn in *.
  apply lookup_insert_None in Ht as [Ht Hne]. rewrite task_new_new by (cbn; set_solver). cbn.
  rewrite task_new_new by (cbn; set_solver). cbn. intros [= <-]. split_and!; done.
Qed.

Lemma begin_up ep tfd s s' : g_sched s = false -> down s -> current_sched ep tfd s = Some s' -> g_sched s' = true /\ up ∅ s'.
Proof.
  intros Hg [Ho Ha Hm Hp] E. apply current_sched_down in E as (Hne & He & Ht & ->); try done. split; [done|]. constructor; cbn; try done.
  - intros []; cbn; set_solver.
  - set_solver.
  - intros fd. unfold ours. cbn. rewrite !lookup_insert_Some. intros [[<- _]|[_ [[<- _]|[_ Hf]]]]; [set_solver..|by destruct (Hm fd)].
  - rewrite lookup_insert_ne by done. by rewrite !lookup_insert_eq.
Qed.

(** *** Tasks of the user *)
Lemma spawn_up U n s s' :
  up U s -> Z.of_nat (size U) < INT_MAX - 4 -> task_new (OUser n) s = Some s' -> (n ∉ U) /\ up ({[n]} ∪ U) s'.
Proof.
  intros [] HU E. apply task_new_some in E as [Hn ->]. rewrite up_objs0 in Hn. cbn in Hn.
  assert (n ∉ U) as Hn' by (by intros ?%(bool_decide_eq_true_2 _)). split; [done|]. constructor; cbn; try done.
  - intros o. rewrite elem_of_union, up_objs0, elem_of_singleton.
    destruct o; cbn; rewrite ?bool_decide_eq_true; set_solver.
  - rewrite up_alive0, u32_small.
    + rewrite size_union, size_singleton by set_solver. lia.
    + unfold INT_MAX in *. destruct (at_ s); cbn; lia.
Qed.

Lemma exit_up U n s s' :
  up U s -> Z.of_nat (size U) < INT_MAX - 3 -> task_free (OUser n) s = Some s' -> up (U ∖ {[n]}) s'.
Proof.
  intros [] HU E. apply task_free_some in E as [Hn ->]. rewrite up_objs0 in Hn. cbn in Hn. apply bool_decide_eq_true in Hn.
  constructor; cbn; try done.
  - intros o. rewrite elem_of_difference, up_objs0, elem_of_singleton.
    destruct o; cbn; rewrite ?bool_decide_eq_true; set_solver.
  - assert (size U <> 0)%nat by (intros ?%size_empty_inv; set_solver). rewrite up_alive0, u32_small.
    + rewrite size_difference, size_singleton by set_solver. lia.
    + unfold INT_MAX in *. destruct (at_ s); cbn; lia.
Qed.

(** *** The pipe *)
Lemma active_begin_up U a b s s' : up U s -> active_begin a b s = Some s' -> up U s' /\ g_sched s' = g_sched s.
Proof.
  intros [] E. unfold active_begin in E. destruct (at_ s) eqn:Ep; try done.
  destruct (open_fd a true s) as [s1|] eqn:E1; [|done]. cbn in E. apply open_fd_some in E1 as (Ha & Hfa & ->).
  destruct (open_fd b true _) as [s1|] eqn:E1; [|done]. cbn in E. apply open_fd_some in E1 as (_ & Hfb & ->). cbn in *.
  injection E as <-. apply lookup_insert_None in Hfb as [Hfb Hne]. destruct up_open0 as (He & Ht & Het).
  split; [|done]. constructor; cbn; try done; rewrite ?Ep in *.
  - set_solver.
  - intros fd. unfold ours. cbn. rewrite !lookup_insert_Some.
    intros [[<- _]|[_ [[<- _]|[_ Hf]]]]; [set_solver..|]. apply up_mine0 in Hf. unfold ours in Hf. rewrite ?Ep in Hf. set_solver.
  - rewrite !lookup_insert_ne by congruence. done.
  - intros _. split; [done|]. split; rewrite !not_elem_of_cons; split_and!; try congruence; apply not_elem_of_nil.
  - intros _ _. by rewrite lookup_insert_eq.
Qed.

(** Closing the write end, or what has its number. *)
Lemma close_write_up U s : up U s -> at_ s = ARead -> up U (raw_close (active s).2 s).
Proof.
  intros [] Ep. destruct (up_read0 Ep) as (H0 & H1 & H2). rewrite !not_elem_of_cons in H1, H2. destruct up_open0 as (He & Ht & Het).
  constructor; cbn; try done.
  - intros fd [_ Hf]%lookup_delete_Some. by apply up_mine0.
  - rewrite !lookup_delete_ne by naive_solver. done.
  - intros _. rewrite (bool_decide_eq_true_2 (_ = _)) by done. destruct (pipe_writable s) eqn:Ew; [|by case_match].
    by rewrite bool_decide_eq_true_2 by auto.
Qed.

Lemma active_end_up U s s' :
  up U s -> Z.of_nat (size U) < INT_MAX - 3 -> active_end s = Some s' -> up U s' /\ g_sched s' = g_sched s.
Proof.
  intros [] HU E. unfold active_end in E. destruct (at_ s) eqn:Ep; try done. destruct (pipe_writable s); [done|].
  destruct (active s) as [a b] eqn:Ea. apply task_free_some in E as [_ ->]. cbn in *.
  destruct (up_read0 eq_refl) as (H0 & H1 & H2). rewrite !not_elem_of_cons in H1, H2. destruct up_open0 as (He & Ht & Het).
  split; [|done]. constructor; cbn; try done.
  - intros o. rewrite elem_of_difference, up_objs0, elem_of_singleton. destruct o; cbn; rewrite ?bool_decide_eq_true; naive_solver.
  - rewrite up_alive0, u32_small; [|unfold INT_MAX in *]; cbn; lia.
  - rewrite !elem_of_difference, !elem_of_singleton. naive_solver.
  - intros fd. rewrite !lookup_delete_Some. intros (Hb & Ha & Hf). apply up_mine0 in Hf. unfold ours in Hf. rewrite ?Ep, ?Ea in Hf.
    cbn in *. rewrite !elem_of_cons in Hf. set_solver.
  - rewrite !lookup_delete_ne by naive_solver. done.
Qed.

(** *** The end *)
Lemma task_free_there o s : o ∈ objs s -> task_free o s = Some (with_objs (objs s ∖ {[o]}) (u32 (g_task_alive s - 1)) s).
Proof. intros. unfold task_free, free. by rewrite bool_decide_eq_true_2. Qed.
Lemma free_there o s : o ∈ objs s -> free o s = Some (with_objs (objs s ∖ {[o]}) (g_task_alive s) s).
Proof. intros. unfold free. by rewrite bool_decide_eq_true_2. Qed.

Lemma sched_destory_down s :
  g_sched s = true -> up ∅ s -> at_ s = AOver -> exists s', sched_destory s = Some s' /\ g_sched s' = false /\ down s'.
Proof.
  intros Hg [] Ep. unfold sched_destory, delete_epoll. rewrite Hg. cbn [negb]. rewrite Ep in *.
  assert (forall o, there ∅ AOver o = true -> o ∈ objs s) as Hin by (intros o; apply up_objs0).
  rewrite task_free_there by by apply Hin. cbn. rewrite bool_decide_eq_true_2 by done.
  rewrite task_free_there by (cbn; apply elem_of_difference; split; [by apply Hin|set_solver]). cbn.
  rewrite free_there by (cbn; rewrite !elem_of_difference; split_and!; [by apply Hin|set_solver..]). cbn.
  rewrite free_there by (cbn; rewrite !elem_of_difference; split_and!; [by apply Hin|set_solver..]). cbn.
  rewrite free_there by (cbn; rewrite !elem_of_difference; split_and!; [by apply Hin|set_solver..]). cbn.
  eexists. split_and!; [done..|]. constructor; cbn; try done.
  - apply set_eq. intros o. rewrite !elem_of_difference, up_objs0, !elem_of_singleton.
    destruct o; cbn; rewrite ?bool_decide_eq_true; set_solver.
  - rewrite up_alive0. vm_compute. done.
  - intros fd. rewrite !lookup_delete_Some. intros (H1 & H2 & Hf). apply up_mine0 in Hf. unfold ours in Hf. rewrite ?Ep in Hf. set_solver.
Qed.

Lemma sched_stop_up U s :
  g_sched s = true -> up U s -> Z.of_nat (size U) < INT_MAX - 3 ->
  exists s', sched_stop s = Some s' /\ ((g_sched s' = true /\ up U s') \/ (g_sched s' = false /\ down s' /\ U = ∅)).
Proof.
  intros Hg Hi HU. pose proof Hi as []. unfold sched_stop, task_count. rewrite Hg. cbn [negb].
  assert (0 <= pipe_task (at_ s) <= 1) as Hp by (destruct (at_ s); cbn; lia).
  rewrite i32_small by (unfold INT_MAX in *; lia).
  case_bool_decide as H3; [|by eauto 6].
  destruct (decide (at_ s = ARead)) as [Er|Er].
  - destruct (up_read0 Er) as [Ha _]. rewrite bool_decide_eq_true_2 by done. eexists. split; [done|]. left. split; [done|].
    by apply close_write_up.
  - rewrite (up_pipe0 Er). cbn [fst snd]. rewrite bool_decide_eq_false_2 by lia. case_bool_decide as H2; [|by eauto 6].
    assert (at_ s = AOver) as Eo by (destruct (at_ s) eqn:Ea; [cbn in up_alive0; lia|done|done]).
    assert (U = ∅) as -> by (apply leibniz_equiv, size_empty_inv; lia).
    destruct (sched_destory_down s Hg Hi Eo) as (s' & E & ? & ?). eauto 10.
Qed.

Definition spawns (acts : list act) : nat := length (omap (fun a => match a with Spawn n => Some n | _ => None end) acts).
Definition timely (a : act) : bool := match a with TimerFails => false | _ => true end.

Lemma linv_step U a s s' :
  linv U s -> Z.of_nat (size U + spawns [a]) < INT_MAX - 3 -> timely a = true -> step a s = Some s' ->
  exists U', linv U' s' /\ (size U' <= size U + spawns [a])%nat.
Proof.
  unfold linv. intros Hi HU Ht Hs.
  assert (forall o, g_sched s = false -> task_free o s = Some s' -> False) as Hdown.
  { intros o Hg E. rewrite Hg in Hi. destruct Hi as [[Ho _ _ _] _]. apply task_free_some in E as [E _]. set_solver. }
  assert (forall p, g_sched s = false -> at_ s = p -> p = AOver) as Hover
    by (intros p Hg <-; rewrite Hg in Hi; by destruct Hi as [[] _]).
  destruct a as [ep tfd|n|n|a b| | | |fd|fd]; cbn [step spawns timely] in *; try done.
  - destruct (g_sched s) eqn:Hg; [unfold current_sched in Hs; rewrite Hg in Hs; injection Hs as <-; exists U; rewrite Hg; split; [done|lia]|].
    destruct Hi as [Hd ->]. destruct (begin_up ep tfd s s' Hg Hd Hs) as [-> Hu]. exists ∅. split; [done|]. rewrite size_empty. lia.
  - destruct (g_sched s) eqn:Hg; [|done]. destruct (spawn_up U n s s' Hi) as [Hn Hu]; [cbn in HU; lia|done|].
    apply task_new_some in Hs as [_ ->]. cbn in *. rewrite Hg. exists ({[n]} ∪ U). split; [done|].
    rewrite size_union, size_singleton by set_solver. lia.
  - destruct (g_sched s) eqn:Hg; [|by destruct (Hdown (OUser n))]. pose proof (exit_up U n s s' Hi ltac:(cbn in HU; lia) Hs) as Hu.
    apply task_free_some in Hs as [_ ->]. cbn in *. rewrite Hg. exists (U ∖ {[n]}). split; [done|].
    transitivity (size U); [apply subseteq_size; set_solver|lia].
  - destruct (g_sched s) eqn:Hg.
    + destruct (active_begin_up U a b s s' Hi Hs) as [Hu ->]. exists U. rewrite Hg. split; [done|lia].
    + unfold active_begin in Hs. by rewrite (Hover _ eq_refl eq_refl) in Hs.
  - destruct (g_sched s) eqn:Hg.
    + destruct (active_end_up U s s' Hi ltac:(cbn in HU; lia) Hs) as [Hu ->]. exists U. rewrite Hg. split; [done|lia].
    + unfold active_end in Hs. by rewrite (Hover _ eq_refl eq_refl) in Hs.
  - destruct (g_sched s) eqn:Hg; [|unfold sched_stop in Hs; by rewrite Hg in Hs].
    destruct (sched_stop_up U s Hg Hi) as (s2 & E & [[Hg' Hu]|(Hg' & Hd & ->)]); [cbn in HU; lia| |]; rewrite E in Hs; injection Hs as <-.
    + exists U. rewrite Hg'. split; [done|lia].
    + exists ∅. rewrite Hg'. split; [done|lia].
  - apply open_fd_some in Hs as (_ & Hf & ->). exists U. split; [|lia]. apply (linv_foreign U s); [done|].
    intros x. rewrite lookup_insert_Some. naive_solver congruence.
  - case_bool_decide as Hf; [|done]. injection Hs as <-. exists U. split; [|lia]. apply (linv_foreign U s); [done|].
    intros x. rewrite lookup_delete_Some. naive_solver congruence.
Qed.

Lemma linv_steps acts : forall U s s',
  linv U s -> Z.of_nat (size U + spawns acts) < INT_MAX - 3 -> forallb timely acts = true -> steps acts s = Some s' ->
  exists U', linv U' s' /\ (size U' <= size U + spawns acts)%nat.
Proof.
  induction acts as [|a acts IH]; intros U s s' Hi HU Ht Hs; cbn [steps forallb] in *.
  { simplify_eq. exists U. split; [done|lia]. }
  apply andb_true_iff in Ht as [Ha Ht]. destruct (step a s) as [s1|] eqn:E; [|done].
  assert (spawns (a :: acts) = spawns [a] + spawns acts)%nat as Esp.
  { unfold spawns. destruct a; cbn; lia. }
  rewrite Esp in *. destruct (linv_step U a s s1 Hi ltac:(lia) Ha E) as (U1 & Hi1 & Hle).
  destruct (IH U1 s1 s' Hi1 ltac:(lia) Ht Hs) as (U2 & Hi2 & Hle2). exists U2. split; [done|lia].
Qed.


(** A descriptor that nobody has. *)
Definition unused (f : gmap Z bool) : nat := fresh (set_map (C := gset Z) (D := gset nat) Z.to_nat (dom f)).
Lemma unused_free f : f !! Z.of_nat (unused f) = None.
Proof.
  apply not_elem_of_dom. intros Hin. apply (is_fresh (set_map (C := gset Z) (D := gset nat) Z.to_nat (dom f))).
  apply elem_of_map. exists (Z.of_nat (unused f)). split; [by rewrite Nat2Z.id|done].
Qed.

Lemma over_stops s : g_sched s = true -> up ∅ s -> at_ s = AOver -> exists s', steps [LoopEnd] s = Some s' /\ g_sched s' = false.
Proof.
  intros Hg Hi Ho. destruct (sched_destory_down s Hg Hi Ho) as (s' & E & Hg' & _). exists s'. split; [|done].
  pose proof (up_alive _ s Hi) as Ha. rewrite Ho, size_empty in Ha. cbn in Ha.
  cbn. unfold sched_stop, task_count. rewrite Hg, Ha, (up_pipe _ s Hi) by congruence. cbn [negb]. by rewrite E.
Qed.

Lemma read_stops s : g_sched s = true -> up ∅ s -> at_ s = ARead -> pipe_writable s = false ->
  exists s', steps [ActiveEnd; LoopEnd] s = Some s' /\ g_sched s' = false.
Proof.
  intros Hg Hi Ho Hw. destruct (active_end s) as [s1|] eqn:E.
  - destruct (active_end_up ∅ s s1 Hi) as [H1 H2]; [rewrite size_empty; unfold INT_MAX; lia|done|].
    destruct (over_stops s1) as (s' & E' & ?); [congruence|done| |].
    + unfold active_end in E. rewrite Ho, Hw in E. destruct (active s). apply task_free_some in E as [_ ->]. done.
    + exists s'. split; [|done]. cbn [steps step]. rewrite E. exact E'.
  - exfalso. unfold active_end in E. rewrite Ho, Hw in E. destruct (active s). rewrite task_free_there in E; [done|].
    cbn. apply (up_objs _ s Hi). by rewrite Ho.
Qed.

Lemma write_end_stops s : g_sched s = true -> up ∅ s -> at_ s = ARead ->
  exists acts s', steps acts s = Some s' /\ g_sched s' = false /\ forallb timely acts = true /\ spawns acts = 0%nat.
Proof.
  intros Hg Hi Ho. destruct (pipe_writable s) eqn:Hw.
  - pose proof (close_write_up ∅ s Hi Ho) as Hi1. set (s1 := raw_close (active s).2 s) in *.
    destruct (read_stops s1) as (s' & E & Hg'); [done|done|done| |].
    + unfold s1. cbn. by rewrite !bool_decide_eq_true_2 by (done || by apply (up_write _ s Hi)).
    + exists [LoopEnd; ActiveEnd; LoopEnd], s'. split_and!; [|done..].
      change (steps [LoopEnd; ActiveEnd; LoopEnd] s) with (s ← sched_stop s; steps [ActiveEnd; LoopEnd] s).
      pose proof (up_alive _ s Hi) as Ha. rewrite Ho, size_empty in Ha. cbn in Ha.
      unfold sched_stop, task_count. rewrite Hg, Ha. cbn [negb]. rewrite (bool_decide_eq_true_2 (_ <= 3)) by done.
      rewrite bool_decide_eq_true_2 by (by apply (up_read _ s Hi)). exact E.
  - destruct (read_stops s Hg Hi Ho Hw) as (s' & E & Hg'). by exists [ActiveEnd; LoopEnd], s'.
Qed.

(** With no task of the user left the scheduler can end, by the steps of its own tasks and its loop. *)
Theorem teardown_reached acts s :
  Z.of_nat (spawns acts) < INT_MAX - 3 -> forallb timely acts = true -> steps acts no_sched = Some s ->
  g_sched s = true -> (forall n, (OUser n ∉ objs s)) ->
  exists more s', steps more s = Some s' /\ g_sched s' = false /\ forallb timely more = true /\ spawns more = 0%nat.
Proof.
  intros Hn Ht Hs Hg Hu. destruct (linv_steps acts ∅ _ s linv_no_sched ltac:(by rewrite size_empty) Ht Hs) as (U & Hi & _).
  unfold linv in Hi. rewrite Hg in Hi.
  assert (U = ∅) as ->.
  { apply set_eq. intros n. split; [|set_solver]. intros Hin. destruct (Hu n). apply (up_objs _ s Hi). cbn. by apply bool_decide_eq_true. }
  destruct (at_ s) eqn:Ep; [|by apply write_end_stops|].
  - set (a := Z.of_nat (unused (opened s))). pose proof (unused_free (opened s)) as Ha. fold a in Ha.
    set (b := Z.of_nat (unused (<[a := true]> (opened s)))). pose proof (unused_free (<[a := true]> (opened s))) as Hb. fold b in Hb.
    destruct (active_begin a b s) as [s1|] eqn:E.
    + destruct (active_begin_up ∅ a b s s1 Hi E) as [Hi1 Hg1]. destruct (write_end_stops s1) as (more & s' & E' & ? & ? & ?).
      * congruence.
      * done.
      * unfold active_begin in E. rewrite Ep in E. destruct (open_fd a true s); [|done]. cbn in E. destruct (open_fd b true _); [|done].
        by injection E as <-.
      * exists (ActiveBegin a b :: more), s'. cbn [steps step]. rewrite E. by split_and!.
    + exfalso. unfold active_begin in E. rewrite Ep in E. unfold open_fd in E.
      assert (0 <= a /\ 0 <= b) as [? ?] by (unfold a, b; lia).
      rewrite Ha, !bool_decide_eq_true_2 in E by done. cbn in E. rewrite Hb, !bool_decide_eq_true_2 in E by done. done.
  - destruct (over_stops s Hg Hi Ep) as (s' & E & ?). by exists [LoopEnd], s'.
Qed.

(** *** A life *)
Definition life_acts : list act :=
  [Begin 3 4; Spawn 1; Spawn 2; ActiveBegin 5 6; LoopEnd; Exit 2; Foreign 7; Exit 1; LoopEnd; ActiveEnd].
Definition life_state : life := default no_sched (steps life_acts no_sched).
Definition life_over : life := default no_sched (steps (life_acts ++ [LoopEnd]) no_sched).


Lemma teardown_reached_witness :
  exists more s', steps more life_state = Some s' /\ g_sched s' = false /\ forallb timely more = true /\ spawns more = 0%nat.
Proof.
  apply (teardown_reached life_acts life_state).
  - by vm_compute.
  - by vm_compute.
  - apply defined_default. by vm_compute.
  - by vm_compute.
  - intros n Hn. assert (objs life_state = {[OTimerTask; OWheel; OEpoll; OSchedTask; OSched]}) as E by (by vm_compute).
    rewrite E in Hn. rewrite !elem_of_union, !elem_of_singleton in Hn. intuition discriminate.
Defined.
