(* ===== verification/Parked.v ===== *)
(** * Tasks between their call of a blocking function and its return

    [co_sync_yield] and [co_sys_yield] set the status of the task and switch to the
    scheduler. Until somebody wakes a task that does this, it is in no queue and, once it
    has switched, runs nowhere; a wake-up in between leaves it queued. That is [parked],
    which every step of the schedulers of Sched.v keeps; Await.v and MutexSched.v say who
    wakes the tasks. *)
From S2P Require Import Prelude Interfaces Heap Cid Sched.
Local Open Scope Z_scope.

(** Before it sets its status, before it switches, switched. *)
Inductive place := AtMark | AtSwitch | Away.

#[export] Instance place_eq_dec : EqDecision place.
Proof. solve_decision. Defined.

(** ** What a step of the schedulers leaves alone *)
Section touch.
Context {H : Type} `{PQ : !PriorityQueue H _id_cmp} (junk : H) (tid_of : nat -> Z).
Implicit Types (y : system H).

Definition touches (a : act) (t : nat) y : Prop :=
  match a with
  | Create _ u | Resume _ u | Wake u => u = t
  | Mark k _ | Switch k => current (scheds y k) = Some t
  | Settle k => prev_task (scheds y k) = Some t
  | Pick k => RR_picknext k (scheds y) = Some t
  end.

(** [t] is the same for both: its task, where it is queued, where it runs. *)
Definition same (t : nat) (f g : nat -> sched_t) : Prop := forall k,
  (t ∈ run_list (g k) <-> t ∈ run_list (f k)) /\
  (current (g k) = Some t <-> current (f k) = Some t) /\
  (prev_task (g k) = Some t <-> prev_task (f k) = Some t).

Lemma same_refl t f : same t f f.
Proof. by intros k. Qed.
Lemma same_trans t f g h : same t f g -> same t g h -> same t f h.
Proof. intros H1 H2 k. specialize (H1 k). specialize (H2 k). tauto. Qed.

Lemma same_enqueue t j u f : u <> t -> same t f (RR_enqueue j u f).
Proof.
  intros Hne k. destruct (enqueue_current j u f k) as [-> ->]. split; [|done]. rewrite enqueue_elem. naive_solver.
Qed.

Lemma same_unlink t u f : u <> t -> same t f (unlink u f).
Proof. intros Hne k. cbn. split; [|done]. rewrite list_elem_of_filter. naive_solver. Qed.

(** New processor fields of one thread, on which [t] is not. *)
Lemma same_cpu t j x f :
  run_list x = run_list (f j) -> (current x = Some t <-> current (f j) = Some t) ->
  (prev_task x = Some t <-> prev_task (f j) = Some t) -> same t f (upd f j x).
Proof. intros Hr Hc Hp k. unfold upd. case_decide; [|done]. subst. by rewrite Hr. Qed.

Lemma untouched n a t y y' :
  sched_inv n y -> step junk tid_of a y = Some y' -> ~ touches a t y ->
  tasks y' !! t = tasks y !! t /\ same t (scheds y) (scheds y').
Proof.
  intros Hi Hs Hn. destruct a as [k u|k u|k st|k|k|k|u]; cbn [step touches] in *.
  - unfold co_create, task_create in Hs. destruct (tasks y !! u) eqn:Hu; [done|].
    destruct (alloc_cid junk (tid_of k) (allocs y k)) as [[c al]|]; [|done]. cbn [mbind option_bind] in Hs.
    unfold sched_rq_enqueue, set_task in Hs. cbn in Hs. rewrite lookup_insert_eq in Hs. cbn in Hs.
    injection Hs as <-. cbn. rewrite !lookup_insert_ne by done. split; [done|by apply same_enqueue].
  - destruct (tasks y !! u) as [U|] eqn:Hu; [|done]. cbn in Hs. destruct (bool_decide _); [done|].
    destruct (sched_enqueue_inv n k u y U Hi Hu) as (y1 & E & _ & Es & Em). simplify_eq.
    rewrite Es, Em, lookup_insert_ne by done. split; [done|by apply same_enqueue].
  - destruct (current (scheds y k)) as [u|] eqn:Hc; [|done]. cbn in Hs.
    destruct (tasks y !! u) as [U|]; [|done]. cbn in Hs. destruct (blocks st); [|done]. injection Hs as <-.
    cbn. rewrite lookup_insert_ne by congruence. split; [done|apply same_refl].
  - destruct (current (scheds y k)) as [u|] eqn:Hc; [|done]. injection Hs as <-. split; [done|].
    cbn. apply same_cpu; cbn; [done|rewrite Hc|]; split; try congruence. intros Hp.
    destruct (si_one n y Hi k); congruence.
  - destruct (current (scheds y k)) as [|] eqn:Hc; [done|].
    destruct (prev_task (scheds y k)) as [u|] eqn:Hp; [|done]. cbn in Hs.
    destruct (si_cpu n y Hi k u) as (U & Hu & Ho); [by right|]. rewrite Hu in Hs. cbn in Hs.
    assert (u <> t) as Hne by congruence.
    assert (forall y1, tasks y1 !! t = tasks y !! t -> same t (scheds y) (scheds y1) ->
      let y2 := set_sched k (mk_sched (run_list (scheds y1 k)) (task_num (scheds y1 k)) None None) y1 in
      tasks y2 !! t = tasks y !! t /\ same t (scheds y) (scheds y2)) as Hend.
    { intros y1 Ht Hsm. split; [done|]. eapply same_trans; [done|]. destruct (Hsm k) as (_ & Hc1 & Hp1).
      apply same_cpu; cbn; [done|rewrite Hc1, Hc|rewrite Hp1, Hp]; split; congruence. }
    destruct (status U); cbn in Hs; try (injection Hs as <-; apply Hend; [done|apply same_refl]).
    + destruct (sched_enqueue_inv n k u y U Hi Hu) as (y1 & E & _ & Es & Em). rewrite E in Hs. cbn in Hs.
      injection Hs as <-. apply Hend; [by rewrite Em, lookup_insert_ne|rewrite Es; by apply same_enqueue].
    + destruct (destory_inv tid_of n k u U y Hi Hu Ho Hc Hp) as (y1 & E & Em & Es & _). rewrite E in Hs. cbn in Hs.
      injection Hs as <-. apply Hend; [by rewrite Em, lookup_delete_ne|rewrite Es; by apply same_unlink].
  - destruct (current (scheds y k)) as [|] eqn:Hc; [done|].
    destruct (prev_task (scheds y k)) as [|] eqn:Hp; [done|].
    unfold RR_picknext in *. destruct (run_list (scheds y k)) as [|u rest] eqn:Hq; [done|]. cbn in Hs, Hn.
    destruct (tasks y !! u) as [U|] eqn:Hu; [|done]. cbn in Hs. injection Hs as <-.
    assert (u <> t) as Hne by congruence. cbn. rewrite lookup_insert_ne by done. split; [done|].
    unfold RR_dequeue. intros j. unfold upd. case_decide; subst; cbn.
    + rewrite decide_True by done. cbn. rewrite list_elem_of_filter, Hc, Hp. naive_solver.
    + by apply (same_unlink t u).
  - destruct (tasks y !! u) as [U|] eqn:Hu; [|done]. cbn in Hs. destruct (bool_decide _); [done|].
    destruct (wake_inv n u y U Hi Hu) as [E _]. simplify_eq. cbn. split; [done|by apply same_enqueue].
Qed.
End touch.

(** ** A task in a wait *)
Section parked.
Context {H : Type} `{PQ : !PriorityQueue H _id_cmp} (junk : H) (tid_of : nat -> Z).
Implicit Types (y : system H).

(** Task [t] at [p]; [b] tells whether it is yet to be woken. *)
Definition parked y (b : bool) (t : nat) (p : place) : Prop := exists T,
  tasks y !! t = Some T /\ status T <> KILLED /\
  (p <> Away -> current (scheds y (owner T)) = Some t) /\
  (if b then
     (forall k, t ∉ run_list (scheds y k)) /\ (p <> AtMark -> status T = SYS_BLOCK) /\
     (p = Away -> forall k, current (scheds y k) <> Some t)
   else
     (t ∈ run_list (scheds y (owner T)) /\ (p = Away -> forall k, current (scheds y k) <> Some t)) \/
     (p = Away /\ current (scheds y (owner T)) = Some t /\ forall k, t ∉ run_list (scheds y k))).

(** What the clients make of it. *)
Lemma parked_idle y t p : parked y true t p -> forall k, t ∉ run_list (scheds y k).
Proof. by intros (T & _ & _ & _ & ? & _). Qed.

Lemma parked_asleep y t : parked y true t Away ->
  exists T, tasks y !! t = Some T /\ status T = SYS_BLOCK /\
    forall k, (t ∉ run_list (scheds y k)) /\ current (scheds y k) <> Some t.
Proof. intros (T & HT & _ & _ & Hq & Hs & Hc). exists T. split_and!; [done|by apply Hs|intros k; split; [done|by apply Hc]]. Qed.

Lemma parked_woken y t p : parked y false t p ->
  exists T, tasks y !! t = Some T /\
    (t ∈ run_list (scheds y (owner T)) \/ current (scheds y (owner T)) = Some t).
Proof. intros (T & HT & _ & _ & Hb). exists T. split; [done|]. destruct Hb as [[? _]|(_ & ? & _)]; auto. Qed.

(** A task that runs again was woken, and is in no queue. *)
Lemma parked_returns n y k b t : sched_inv n y -> parked y b t Away -> current (scheds y k) = Some t ->
  b = false /\ exists T, tasks y !! t = Some T /\ status T <> KILLED /\ current (scheds y (owner T)) = Some t /\
    forall j, t ∉ run_list (scheds y j).
Proof.
  intros Hi (T & HT & Hk & _ & Hb) Hc. destruct b; [by destruct Hb as (_ & _ & Hn); destruct (Hn eq_refl k)|].
  split; [done|]. exists T. destruct Hb as [[_ Hn]|(_ & ? & ?)]; [by destruct (Hn eq_refl k)|done].
Qed.

Lemma parked_same y y' b t p :
  tasks y' !! t = tasks y !! t -> same t (scheds y) (scheds y') -> parked y b t p -> parked y' b t p.
Proof.
  intros Ht Hsm (T & HT & Hk & Hc & Hb). exists T. rewrite Ht. split_and!; [done..| |].
  - intros Hp. by apply Hsm, Hc.
  - assert ((p = Away -> forall k, current (scheds y k) <> Some t) ->
      p = Away -> forall k, current (scheds y' k) <> Some t) as Hcu by (intros Hn Hp k Hk'; by apply (Hn Hp k), Hsm).
    assert ((forall k, t ∉ run_list (scheds y k)) -> forall k, t ∉ run_list (scheds y' k)) as Hq
      by (intros Hn k; by rewrite (proj1 (Hsm k))).
    destruct b; [naive_solver|]. destruct Hb as [[? ?]|(? & ? & ?)]; [left|right]; split_and!; auto; by apply Hsm.
Qed.

Lemma cpu_owner n y k t T : sched_inv n y -> on_cpu k t (scheds y) -> tasks y !! t = Some T -> k = owner T.
Proof. intros Hi Hc HT. destruct (si_cpu n y Hi k t Hc) as (U & HU & <-). congruence. Qed.

(** A task that was woken and does not run is put into its queue again, or stays there. *)
Lemma parked_queued y t T p : tasks y !! t = Some T -> status T <> KILLED ->
  (p <> Away -> current (scheds y (owner T)) = Some t) -> t ∈ run_list (scheds y (owner T)) ->
  (p = Away -> forall k, current (scheds y k) <> Some t) -> parked y false t p.
Proof. intros. exists T. split_and!; [done..|left; split; auto]. Qed.

(** The scheduler gets the task back. *)
Lemma parked_settle n k y y' b t :
  sched_inv n y -> step junk tid_of (Settle k) y = Some y' -> prev_task (scheds y k) = Some t ->
  parked y b t Away -> parked y' b t Away.
Proof.
  intros Hi Hs Hp (T & HT & Hk & _ & Hb). cbn in Hs.
  destruct (current (scheds y k)) as [|] eqn:Hc; [done|]. rewrite Hp in Hs. cbn in Hs. rewrite HT in Hs. cbn in Hs.
  assert (k = owner T) as -> by (by eapply cpu_owner; [|right|]).
  assert (forall y1 j, current (scheds (set_sched (owner T) (mk_sched (run_list (scheds y1 (owner T)))
    (task_num (scheds y1 (owner T))) None None) y1) j) = Some t -> current (scheds y1 j) = Some t) as Hcu
    by (intros y1 j; cbn; by upd_cases).
  destruct b.
  - destruct Hb as (Hq & Hsys & Hn). rewrite Hsys in Hs by done. cbn in Hs. injection Hs as <-.
    exists T. split_and!; [done..| |by auto|].
    + intros j. cbn. upd_cases; apply Hq.
    + intros _ j Hj%Hcu. by apply (Hn eq_refl j).
  - destruct Hb as [[Hin Hn]|(_ & ? & _)]; [|congruence].
    destruct (status T) eqn:Hst;
      try (injection Hs as <-; apply (parked_queued _ t T); [done|congruence|done|by cbn; rewrite upd_eq|];
           intros _ j Hj%Hcu; by apply (Hn eq_refl j)); [|done].
    destruct (sched_enqueue_inv n (owner T) t y T Hi HT) as (y1 & E & _ & Es & Em). rewrite E in Hs. cbn in Hs.
    injection Hs as <-. eapply parked_queued; [by cbn; rewrite Em, lookup_insert_eq|done|done| |]; cbn.
    + rewrite upd_eq. cbn. rewrite Es. apply enqueue_elem. by left.
    + intros _ j Hj%Hcu. rewrite Es in Hj. destruct (enqueue_current (owner T) t (scheds y) j) as [Ec _].
      rewrite Ec in Hj. by apply (Hn eq_refl j).
Qed.

Lemma parked_pick n k y y' b t p :
  sched_inv n y -> step junk tid_of (Pick k) y = Some y' -> RR_picknext k (scheds y) = Some t ->
  parked y b t p -> parked y' b t p.
Proof.
  intros Hi Hs Hp (T & HT & Hk & Hc & Hb). cbn in Hs.
  destruct (current (scheds y k)) as [|] eqn:Hck; [done|]. destruct (prev_task (scheds y k)) as [|] eqn:Hpk; [done|].
  rewrite Hp in Hs. cbn in Hs. rewrite HT in Hs. cbn in Hs. injection Hs as <-.
  unfold RR_picknext in Hp. destruct (run_list (scheds y k)) as [|u rest] eqn:Hq; [done|]. injection Hp as ->.
  assert (owner T = k) as Ho by (destruct (si_queue n y Hi k t) as (U & HU & <-); [rewrite Hq; left|congruence]).
  assert (p = Away) as -> by (destruct (decide (p = Away)); [done|specialize (Hc n0); congruence]).
  destruct b; [destruct Hb as [Hnq _]; destruct (Hnq k); rewrite Hq; left|].
  eexists. cbn. rewrite lookup_insert_eq. split_and!; [done..|]. right. split_and!; [done|by cbn; rewrite Ho, upd_eq|].
  intros j. unfold RR_dequeue. upd_cases; cbn; intros [? _]%list_elem_of_filter; done.
Qed.

(** Any step that is neither a resume of the task nor one of its own. *)
Definition leaves_be (a : act) (t : nat) y : Prop :=
  match a with
  | Resume _ u | Wake u => u <> t
  | Mark k _ | Switch k => current (scheds y k) <> Some t
  | _ => True
  end.

Lemma parked_env n a y y' b t p :
  sched_inv n y -> step junk tid_of a y = Some y' -> leaves_be a t y -> parked y b t p -> parked y' b t p.
Proof.
  intros Hi Hs Ha Hw.
  assert (~ touches a t y -> parked y' b t p) as Hfar.
  { intros Hn. destruct (untouched junk tid_of n a t y y' Hi Hs Hn) as [Ht Hsm]. by eapply parked_same. }
  destruct a as [k u|k u|k st|k|k|k|u]; try by apply Hfar.
  - apply Hfar. cbn. intros ->. destruct Hw as (T & HT & _). unfold step, co_create, task_create in Hs.
    by rewrite HT in Hs.
  - destruct (decide (prev_task (scheds y k) = Some t)) as [Hp|]; [|by apply Hfar].
    destruct (decide (p = Away)) as [->|Hne]; [by eapply parked_settle|]. destruct Hw as (T & HT & _ & Hc & _).
    specialize (Hc Hne). assert (k = owner T) as -> by (eapply (cpu_owner n y k t T Hi); [by right|done]).
    destruct (si_one n y Hi (owner T)); congruence.
  - destruct (decide (RR_picknext k (scheds y) = Some t)) as [Hp|]; [|by apply Hfar].
    by eapply parked_pick.
Qed.

(** The wake-up, with or without a new status. *)
Lemma parked_enqueued y y' t T T' p :
  tasks y !! t = Some T -> tasks y' !! t = Some T' -> owner T' = owner T -> status T' <> KILLED ->
  scheds y' = RR_enqueue (owner T) t (scheds y) -> parked y true t p -> parked y' false t p.
Proof.
  intros HT HT' Ho Hk Es (U & HU & _ & Hc & _ & _ & Hn). assert (U = T) as -> by congruence.
  apply (parked_queued y' t T'); [done..| | |]; rewrite Es, ?Ho.
  - destruct (enqueue_current (owner T) t (scheds y) (owner T)) as [-> _]. done.
  - apply enqueue_elem. by left.
  - intros Hp k. destruct (enqueue_current (owner T) t (scheds y) k) as [-> _]. by apply Hn.
Qed.

Lemma parked_wake n y y' t p :
  sched_inv n y -> step junk tid_of (Wake t) y = Some y' -> parked y true t p -> parked y' false t p.
Proof.
  intros Hi Hs Hpk. pose proof Hpk as (T & HT & Hk & _). cbn in Hs. rewrite HT in Hs. cbn in Hs.
  case_bool_decide; [done|]. destruct (wake_inv n t y T Hi HT) as [E _]. simplify_eq.
  by eapply (parked_enqueued y _ t T T).
Qed.

Lemma parked_resume n k y y' t p :
  sched_inv n y -> step junk tid_of (Resume k t) y = Some y' -> parked y true t p -> parked y' false t p.
Proof.
  intros Hi Hs Hpk. pose proof Hpk as (T & HT & Hk & _). cbn in Hs. rewrite HT in Hs. cbn in Hs.
  case_bool_decide; [done|]. destruct (sched_enqueue_inv n k t y T Hi HT) as (y1 & E & _ & Es & Em). simplify_eq.
  eapply (parked_enqueued y _ t T); [done|by rewrite Em, lookup_insert_eq|done..].
Qed.

Lemma wake_defined n y b t p : sched_inv n y -> parked y b t p -> is_Some (step junk tid_of (Wake t) y).
Proof.
  intros Hi (T & HT & Hk & _). cbn. rewrite HT. cbn. rewrite bool_decide_eq_false_2 by done.
  destruct (wake_inv n t y T Hi HT) as [-> _]. eauto.
Qed.

Lemma resume_defined n k y b t p : sched_inv n y -> parked y b t p -> is_Some (step junk tid_of (Resume k t) y).
Proof.
  intros Hi (T & HT & Hk & _). cbn. rewrite HT. cbn. rewrite bool_decide_eq_false_2 by done.
  destruct (sched_enqueue_inv n k t y T Hi HT) as (y1 & -> & _). eauto.
Qed.

(** The two steps of the yield. *)
Lemma parked_block n k y y' b t :
  sched_inv n y -> step junk tid_of (Mark k SYS_BLOCK) y = Some y' -> current (scheds y k) = Some t ->
  parked y b t AtMark -> parked y' b t AtSwitch.
Proof.
  intros Hi Hs Hc (T & HT & Hk & Hcu & Hb). cbn in Hs. rewrite Hc in Hs. cbn in Hs. rewrite HT in Hs.
  cbn in Hs. injection Hs as <-. eexists. cbn. rewrite lookup_insert_eq. split_and!; [done|done|intros _; by apply Hcu|].
  destruct b; [by destruct Hb as [? _]|]. destruct Hb as [[? _]|[? _]]; [by left|done].
Qed.

Lemma parked_leave n k y y' b t :
  sched_inv n y -> step junk tid_of (Switch k) y = Some y' -> current (scheds y k) = Some t ->
  parked y b t AtSwitch -> parked y' b t Away.
Proof.
  intros Hi Hs Hc (T & HT & Hk & _ & Hb). cbn in Hs. rewrite Hc in Hs. cbn in Hs. injection Hs as <-.
  assert (forall j, current (scheds y j) = Some t -> j = k) as Hone.
  { intros j Hj. rewrite (cpu_owner n y j t T Hi), (cpu_owner n y k t T Hi); [done|by left|done|by left|done]. }
  set (x := mk_sched _ _ _ _). exists T.
  assert (forall j, run_list (upd (scheds y) k x j) = run_list (scheds y j)) as El by (intros j; by upd_cases).
  assert (forall j, current (upd (scheds y) k x j) <> Some t) as Hn
    by (intros j; upd_cases; cbn; [done|]; intros Hj; by apply Hone in Hj).
  split_and!; [done..|]. cbn. destruct b.
  - destruct Hb as (Hq & Hsys & _). split_and!; [intros j; rewrite El; apply Hq|by auto|done].
  - destruct Hb as [[? _]|[? _]]; [left; by rewrite El|done].
Qed.
End parked.
