(* ===== verification/Await.v ===== *)
(** * co_await.c, Task.cpp: waiting for a function that runs on another thread

    [async_wait] starts a thread that calls the function and then wakes the task;
    [Task::await] has a worker of a thread pool do the same for a [Runnable]. Both are
    composed here with the schedulers of Sched.v: a helper is a thread with its program
    counter, a task inside the wait is somewhere between its call and its return, and all
    the rest of the program may take any step of the schedulers. [pthread_create] succeeds;
    when a worker takes a runnable is free ([Pool.pool_runs_once] tells that it does). *)
From S2P Require Import Prelude Interfaces Heap Cid Sched Parked.
Local Open Scope Z_scope.

(** [CoAwait]: the record is on the stack of the caller, gone when [async_wait] returns.
    [PoolAwait]: the [AwaitRunner] is shared with the worker. *)
Inductive kind := CoAwait | PoolAwait.

#[export] Instance kind_eq_dec : EqDecision kind.
Proof. solve_decision. Defined.

(** The helper: not begun, at the call of the function, at the test for a task, at the
    waking, at [sched_active_event], ended. A waiter that is no task is told at [HNotify]. *)
Inductive helper := HStart | HFunc | HTest | HWake | HNotify | HActive | HEnd.

#[export] Instance helper_eq_dec : EqDecision helper.
Proof. solve_decision. Defined.

(** [co_await_t] and [AwaitRunner]. *)
Record await := mk_await { akind : kind; atask : option nat; aret : Z; bFinished : bool }.

(** What the two callers put into a new record, [t] being the task that runs, if any. *)
Definition co_await_init (t : option nat) : await := mk_await CoAwait t (-1) false.
Definition AwaitRunner_new (t : option nat) : await := mk_await PoolAwait t (-1) false.
Definition new_record (kd : kind) (t : option nat) : await :=
  match kd with CoAwait => co_await_init t | PoolAwait => AwaitRunner_new t end.

(** Where the helper goes when the function has returned. *)
Definition await_task_next (t : option nat) : helper := match t with Some _ => HWake | None => HEnd end.
Definition AwaitRunner_next (t : option nat) : helper := match t with Some _ => HWake | None => HNotify end.

Definition AwaitRunner_notify (a : await) : await := mk_await (akind a) (atask a) (aret a) true.

(** What the waiter that is no task waits for: the end of the thread, or the flag. *)
Definition joined (p : option helper) : bool := bool_decide (p = Some HEnd).
Definition AwaitRunner_wait (a : await) : bool := bFinished a.

Record astate (H : Type) := mk_astate {
  sys : system H;
  awaits : gmap nat await;            (* the records whose memory is valid *)
  helpers : gmap nat helper;          (* by the number of their record *)
  waits : gmap nat (nat * place);     (* the tasks in a wait, and their record *)
  joins : gset nat;                   (* records of waiters that are no tasks *)
  calls : list (nat * Z);             (* the calls of functions, with their values *)
  returns : list (nat * Z)            (* what the waits returned *)
}.
Arguments mk_astate {H}. Arguments sys {H}. Arguments awaits {H}. Arguments helpers {H}.
Arguments waits {H}. Arguments joins {H}. Arguments calls {H}. Arguments returns {H}.

Section await.
Context {H : Type} `{PQ : !PriorityQueue H _id_cmp} (junk : H) (tid_of : nat -> Z).
Implicit Types (s : astate H).

Definition set_sys (y : system H) s : astate H :=
  mk_astate y (awaits s) (helpers s) (waits s) (joins s) (calls s) (returns s).
Definition set_await (h : nat) (a : await) s : astate H :=
  mk_astate (sys s) (<[h := a]> (awaits s)) (helpers s) (waits s) (joins s) (calls s) (returns s).
Definition set_helper (h : nat) (p : helper) s : astate H :=
  mk_astate (sys s) (awaits s) (<[h := p]> (helpers s)) (waits s) (joins s) (calls s) (returns s).
Definition set_waits (w : gmap nat (nat * place)) s : astate H :=
  mk_astate (sys s) (awaits s) (helpers s) w (joins s) (calls s) (returns s).
Definition set_joins (j : gset nat) s : astate H :=
  mk_astate (sys s) (awaits s) (helpers s) (waits s) j (calls s) (returns s).
Definition log_call (h : nat) (v : Z) s : astate H :=
  mk_astate (sys s) (awaits s) (helpers s) (waits s) (joins s) (calls s ++ [(h, v)]) (returns s).

(** The value goes back to the caller; the record of [async_wait] goes with its frame. *)
Definition give_back (h : nat) (a : await) s : astate H :=
  mk_astate (sys s) (match akind a with CoAwait => delete h (awaits s) | PoolAwait => awaits s end)
    (helpers s) (waits s) (joins s) (calls s) (returns s ++ [(h, aret a)]).

(** [_await_task] and [AwaitRunner::run]; [v] is what the function returns. The value of a
    [Runnable] is that it was run. *)
Definition helper_step (h : nat) (v : Z) s : option (astate H) :=
  p ← helpers s !! h;
  match p with
  | HStart => a ← awaits s !! h; Some (set_helper h HFunc s)
  | HFunc =>
      a ← awaits s !! h;
      let v := match akind a with CoAwait => v | PoolAwait => 0 end in
      Some (log_call h v (set_helper h HTest (set_await h (mk_await (akind a) (atask a) v (bFinished a)) s)))
  | HTest =>
      a ← awaits s !! h;
      Some (set_helper h (match akind a with
                          | CoAwait => await_task_next (atask a)
                          | PoolAwait => AwaitRunner_next (atask a)
                          end) s)
  | HWake =>
      a ← awaits s !! h;
      t ← atask a;
      y ← step junk tid_of (Wake t) (sys s);
      Some (set_helper h HActive (set_sys y s))
  | HNotify =>
      a ← awaits s !! h;
      Some (set_helper h HEnd (set_await h (AwaitRunner_notify a) s))
  | HActive => Some (set_helper h HEnd s)
  | HEnd => None
  end.

(** The task that runs on thread [k]. *)
Definition running (k : nat) s : option nat := current (scheds (sys s) k).

Definition in_wait (t : nat) s : bool := bool_decide (is_Some (waits s !! t)).

(** The steps of the schedulers that are not those of a wait. *)
Definition env_step (a : act) s : option (astate H) :=
  let ok := match a with
            | Mark k _ | Switch k => match running k s with Some t => negb (in_wait t s) | None => false end
            | _ => true
            end in
  if ok then y ← step junk tid_of a (sys s); Some (set_sys y s) else None.

Inductive aact :=
  | Env (a : act)
  | Call (kd : kind) (k h : nat)       (* the task on thread [k], not killed, calls *)
  | Block (k : nat) | Leave (k : nat)  (* the two steps of [co_sys_yield] *)
  | Return (k : nat)
  | CallPlain (kd : kind) (h : nat)    (* a thread without a task calls *)
  | Join (h : nat)
  | Helper (h : nat) (v : Z).

(** A new record. *)
Definition new_await (kd : kind) (t : option nat) (h : nat) s : option (astate H) :=
  if bool_decide (helpers s !! h = None)
  then Some (set_helper h HStart (set_await h (new_record kd t) s)) else None.

Definition astep (a : aact) s : option (astate H) :=
  match a with
  | Env a => env_step a s
  | Call kd k h =>
      t ← running k s;
      T ← tasks (sys s) !! t;
      if in_wait t s || bool_decide (status T = KILLED) then None
      else s ← new_await kd (Some t) h s; Some (set_waits (<[t := (h, AtMark)]> (waits s)) s)
  | Block k =>
      t ← running k s;
      match waits s !! t with
      | Some (h, AtMark) =>
          y ← step junk tid_of (Mark k SYS_BLOCK) (sys s);
          Some (set_waits (<[t := (h, AtSwitch)]> (waits s)) (set_sys y s))
      | _ => None
      end
  | Leave k =>
      t ← running k s;
      match waits s !! t with
      | Some (h, AtSwitch) =>
          y ← step junk tid_of (Switch k) (sys s);
          Some (set_waits (<[t := (h, Away)]> (waits s)) (set_sys y s))
      | _ => None
      end
  | Return k =>
      t ← running k s;
      match waits s !! t with
      | Some (h, Away) => a ← awaits s !! h; Some (give_back h a (set_waits (delete t (waits s)) s))
      | _ => None
      end
  | CallPlain kd h => s ← new_await kd None h s; Some (set_joins ({[h]} ∪ joins s) s)
  | Join h =>
      if bool_decide (h ∈ joins s) then
        a ← awaits s !! h;
        let over := match akind a with
                    | CoAwait => joined (helpers s !! h)
                    | PoolAwait => AwaitRunner_wait a
                    end in
        if over then Some (give_back h a (set_joins (joins s ∖ {[h]}) s)) else None
      else None
  | Helper h v => helper_step h v s
  end.

Fixpoint asteps (acts : list aact) s : option (astate H) :=
  match acts with [] => Some s | a :: acts => s ← astep a s; asteps acts s end.

Definition ainit : astate H := mk_astate init ∅ ∅ ∅ ∅ [] [].

(** Nobody else resumes a task that waits, and none that calls is still queued from an
    earlier resume. *)
Definition calm_act (a : aact) s : bool :=
  match a with
  | Env (Resume _ t) | Env (Wake t) => negb (in_wait t s)
  | Call _ k _ =>
      match running k s with
      | Some t => bool_decide (t ∉ run_list (scheds (sys s) k))
      | None => true
      end
  | _ => true
  end.
Fixpoint calm (acts : list aact) s : bool :=
  match acts with
  | [] => true
  | a :: acts => calm_act a s && match astep a s with Some s => calm acts s | None => true end
  end.

Definition acreates (acts : list aact) : nat :=
  creates (omap (fun a => match a with Env a => Some a | _ => None end) acts).
End await.

(** ** A task in a wait *)
(** Whether the helper has yet to wake the task, and whether it has called the function. *)
Definition before (p : helper) : bool := match p with HStart | HFunc | HTest | HWake => true | _ => false end.
Definition called (p : helper) : bool := match p with HStart | HFunc => false | _ => true end.

(** A task waits for the helper that is at [pc]. *)
Definition wait_ok {H} (y : system H) (pc : helper) (t : nat) (p : place) : Prop := parked y (before pc) t p.

Lemma wait_ok_pc {H} (y : system H) pc pc' t p : before pc = before pc' -> wait_ok y pc t p -> wait_ok y pc' t p.
Proof. unfold wait_ok. by intros ->. Qed.

(** ** Invariant *)
Section inv.
Context {H : Type} `{PQ : !PriorityQueue H _id_cmp} (junk : H) (tid_of : nat -> Z).
Implicit Types (s : astate H).
Local Abbreviation astep := (astep junk tid_of).

(** [waiting s h o]: the wait of record [h], by task [o] or by no task, has not returned. *)
Definition waiting s (h : nat) (o : option nat) : Prop :=
  match o with Some t => exists p, waits s !! t = Some (h, p) | None => h ∈ joins s end.

Record await_inv (n : nat) s : Prop := {
  ai_sched : sched_inv n (sys s);
  (* a wait that has not returned has its record and its helper *)
  ai_record h o : waiting s h o -> exists a pc, awaits s !! h = Some a /\ atask a = o /\
    helpers s !! h = Some pc /\ (bFinished a = true -> pc = HEnd);
  (* and the task is where the program counter of the helper says *)
  ai_wait t h p pc : waits s !! t = Some (h, p) -> helpers s !! h = Some pc -> wait_ok (sys s) pc t p;
  (* a helper that still uses its record is waited for *)
  ai_helper h pc : helpers s !! h = Some pc -> pc <> HActive -> pc <> HEnd -> exists o, waiting s h o /\
    (pc = HWake -> o <> None) /\ (pc = HNotify -> o = None);
  (* the function was called once, and the record has its value from then on *)
  ai_called h v : (h, v) ∈ calls s -> exists pc, helpers s !! h = Some pc /\ called pc = true;
  ai_value h pc : helpers s !! h = Some pc -> called pc = true ->
    exists v, (h, v) ∈ calls s /\ forall a, awaits s !! h = Some a -> aret a = v;
  ai_once : NoDup (fst <$> calls s);
  ai_returned h v : (h, v) ∈ returns s -> (h, v) ∈ calls s /\ is_Some (helpers s !! h) /\ forall o, ~ waiting s h o;
  ai_returns : NoDup (fst <$> returns s)
}.

Lemma await_inv_init : await_inv 0 ainit.
Proof.
  constructor; cbn; try done.
  - apply init_sched_inv.
  - intros h [t|]; cbn; [intros (p & E)|]; set_solver.
  - intros h v ?%elem_of_nil. done.
  - apply NoDup_nil_2.
  - intros h v ?%elem_of_nil. done.
  - apply NoDup_nil_2.
Qed.

(** A step of the schedulers on behalf of the rest of the program. *)
Lemma await_inv_sys n y' a s :
  await_inv n s -> Z.of_nat n < THREAD_MAX_TASK_SIZE -> step junk tid_of a (sys s) = Some y' ->
  (forall t h p, waits s !! t = Some (h, p) -> leaves_be a t (sys s)) ->
  await_inv (n + creates [a]) (set_sys y' s).
Proof.
  intros [] Hn Hs Ha. constructor; try done; cbn.
  - by eapply sched_step_inv.
  - intros t h p pc Hw Hp. eapply parked_env; [done..|by eapply Ha|]. by eapply ai_wait0.
Qed.

Lemma in_wait_false t s : in_wait t s = false -> waits s !! t = None.
Proof. unfold in_wait. rewrite bool_decide_eq_false. destruct (waits s !! t); naive_solver. Qed.

Lemma await_inv_env n a s s' :
  await_inv n s -> Z.of_nat n < THREAD_MAX_TASK_SIZE -> env_step junk tid_of a s = Some s' ->
  calm_act (Env a) s = true -> await_inv (n + creates [a]) s'.
Proof.
  intros Hi Hn Hs Hcalm. unfold env_step in Hs.
  destruct (match a with Mark k _ | Switch k => _ | _ => true end) eqn:Hok; [|done].
  destruct (step junk tid_of a (sys s)) as [y'|] eqn:E; [|done]. injection Hs as <-.
  apply await_inv_sys; try done. intros t h p Hw.
  destruct a; try done; cbn [leaves_be]; cbn in Hcalm, Hok;
    try (apply negb_true_iff, in_wait_false in Hcalm; intros ->; congruence).
  - unfold running in Hok. destruct (current (scheds (sys s) k)) as [u|]; [|done].
    apply negb_true_iff, in_wait_false in Hok. intros [= ->]. congruence.
  - unfold running in Hok. destruct (current (scheds (sys s) k)) as [u|]; [|done].
    apply negb_true_iff, in_wait_false in Hok. intros [= ->]. congruence.
Qed.

(** A new record: nobody waits for it yet, and it was never called or returned. *)
Lemma fresh_record n h s :
  await_inv n s -> helpers s !! h = None ->
  (forall o, ~ waiting s h o) /\ (forall v, (h, v) ∉ calls s) /\ (forall v, (h, v) ∉ returns s).
Proof.
  intros [] Hh. split_and!.
  - intros o Ho. destruct (ai_record0 h o Ho) as (a & pc & _ & _ & E & _). congruence.
  - intros v Hv. destruct (ai_called0 h v Hv) as (pc & E & _). congruence.
  - intros v Hv. destruct (ai_returned0 h v Hv) as (_ & [? E] & _). congruence.
Qed.

Lemma await_inv_new n kd o h s w j :
  await_inv n s -> helpers s !! h = None ->
  (forall t p, w !! t = Some p -> (o = Some t /\ p = (h, AtMark)) \/ (o <> Some t /\ waits s !! t = Some p)) ->
  (forall t p, waits s !! t = Some p -> w !! t = Some p) ->
  (forall x, x ∈ j <-> (o = None /\ x = h) \/ x ∈ joins s) ->
  match o with Some t => w !! t = Some (h, AtMark) /\ wait_ok (sys s) HStart t AtMark | None => True end ->
  await_inv n (set_joins j (set_waits w (set_helper h HStart (set_await h (new_record kd o) s)))).
Proof.
  intros Hi Hh Hw Hw' Hj Ho. destruct (fresh_record n h s Hi Hh) as (Hnw & Hnc & Hnr). pose proof Hi as [].
  assert (forall x o', waiting (set_joins j (set_waits w s)) x o' <-> (x = h /\ o' = o) \/ waiting s x o') as Hwt.
  { intros x o'. destruct o' as [t|]; cbn.
    - split; [intros (p & E); destruct (Hw _ _ E) as [[-> [= -> ->]]|[_ ?]]; eauto|].
      intros [[-> <-]|(p & E)]; [destruct Ho; eauto|]. eauto.
    - rewrite Hj. naive_solver. }
  assert (forall x o', waiting s x o' -> x <> h) as Hne by (intros x o' Hx ->; by eapply Hnw).
  constructor; cbn; try done.
  - intros x o' Hx. apply Hwt in Hx as [[-> ->]|Hx].
    + rewrite !lookup_insert_eq. exists (new_record kd o), HStart. by destruct kd.
    + specialize (Hne _ _ Hx). rewrite !lookup_insert_ne by done. by apply ai_record0.
  - intros t x p pc Hwx. destruct (Hw _ _ Hwx) as [[-> [= -> ->]]|[_ Hx]].
    + rewrite lookup_insert_eq. intros [= <-]. by destruct Ho.
    + assert (x <> h) by (eapply (Hne x (Some t)); by eexists). rewrite lookup_insert_ne by done. eauto.
  - intros x pc. destruct (decide (x = h)) as [->|Hx].
    + rewrite lookup_insert_eq. intros [= <-] _ _. exists o. split; [apply Hwt; by left|done].
    + rewrite lookup_insert_ne by done. intros Hp H1 H2. destruct (ai_helper0 x pc Hp H1 H2) as (o' & Ho' & ?).
      exists o'. split; [|done]. apply Hwt. by right.
  - intros x v Hv. destruct (decide (x = h)) as [->|Hx]; [by destruct (Hnc v)|].
    rewrite lookup_insert_ne by done. by eapply ai_called0.
  - intros x pc. destruct (decide (x = h)) as [->|Hx].
    + rewrite lookup_insert_eq. by intros [= <-].
    + rewrite !lookup_insert_ne by done. apply ai_value0.
  - intros x v Hv. destruct (decide (x = h)) as [->|Hx]; [by destruct (Hnr v)|].
    rewrite lookup_insert_ne by done. destruct (ai_returned0 x v Hv) as (H1 & H2 & H3). split_and!; [done..|].
    intros o' Hx'. apply Hwt in Hx' as [[? _]|Hx']; [done|by eapply H3].
Qed.

(** The two steps of the yield. *)
Lemma await_inv_move n y' a t h p p' s :
  await_inv n s -> Z.of_nat n < THREAD_MAX_TASK_SIZE -> waits s !! t = Some (h, p) ->
  step junk tid_of a (sys s) = Some y' -> creates [a] = 0%nat ->
  (forall u, u <> t -> ~ touches a u (sys s)) ->
  (forall pc, wait_ok (sys s) pc t p -> wait_ok y' pc t p') ->
  await_inv n (set_waits (<[t := (h, p')]> (waits s)) (set_sys y' s)).
Proof.
  intros [] Hn Hw Hs Hc Hfar Hok.
  assert (forall x o, waiting (set_waits (<[t := (h, p')]> (waits s)) (set_sys y' s)) x o <-> waiting s x o) as Hwt.
  { intros x [u|]; cbn; [|done]. destruct (decide (u = t)) as [->|Hne].
    - rewrite lookup_insert_eq, Hw. naive_solver.
    - by rewrite lookup_insert_ne. }
  constructor; cbn; try done.
  - pose proof (sched_step_inv junk tid_of n a _ _ ai_sched0 Hn Hs) as Hi. by rewrite Hc, Nat.add_0_r in Hi.
  - intros x o Hx%Hwt. by apply ai_record0.
  - intros u x q pc. destruct (decide (u = t)) as [->|Hne].
    + rewrite lookup_insert_eq. intros [= <- <-] Hp. apply Hok. eauto.
    + rewrite lookup_insert_ne by done. intros Hx Hp.
      destruct (untouched junk tid_of n a u _ _ ai_sched0 Hs (Hfar u Hne)) as [E1 E2].
      eapply parked_same; [done..|]. by eapply ai_wait0.
  - intros x pc Hp H1 H2. destruct (ai_helper0 x pc Hp H1 H2) as (o & Ho & ?). exists o. split; [by apply Hwt|done].
  - intros x v Hv. destruct (ai_returned0 x v Hv) as (H1 & H2 & H3). split_and!; [done..|].
    intros o Hx%Hwt. by eapply H3.
Qed.

(** A wait returns. *)
Lemma await_inv_return n h a o w j s :
  await_inv n s -> waiting s h o -> awaits s !! h = Some a ->
  (exists pc, helpers s !! h = Some pc /\ called pc = true /\ (pc = HActive \/ pc = HEnd)) ->
  (forall x o', waiting (set_joins j (set_waits w s)) x o' <-> waiting s x o' /\ x <> h) ->
  (forall t p, w !! t = Some p -> waits s !! t = Some p) ->
  await_inv n (give_back h a (set_joins j (set_waits w s))).
Proof.
  intros [] Ho Ha (pc & Hp & Hpc & Hover) Hwt Hw.
  assert (forall x, x <> h -> match akind a with CoAwait => delete h (awaits s) | PoolAwait => awaits s end !! x =
    awaits s !! x) as Hl by (intros x Hx; destruct (akind a); [by rewrite lookup_delete_ne|done]).
  constructor; cbn; try done.
  - intros x o' [Hx Hne]%Hwt. rewrite Hl by done. by apply ai_record0.
  - intros t x p pc' Hx. eauto.
  - intros x pc' Hx H1 H2. destruct (ai_helper0 x pc' Hx H1 H2) as (o' & Ho' & ?). exists o'. split; [|done].
    apply Hwt. split; [done|]. intros ->. destruct Hover; congruence.
  - intros x pc' Hx Hc. destruct (ai_value0 x pc' Hx Hc) as (v & Hv & Hv'). exists v. split; [done|].
    intros a' Ha'. apply Hv'. destruct (akind a); [by apply lookup_delete_Some in Ha' as [_ ?]|done].
  - intros x v. rewrite elem_of_app, list_elem_of_singleton. intros [Hx|[= -> ->]].
    + destruct (ai_returned0 x v Hx) as (H1 & H2 & H3). split_and!; [done..|]. intros o' [Hx' _]%Hwt. by eapply H3.
    + split_and!; [|eauto|by intros o' [_ ?]%Hwt]. destruct (ai_value0 h pc Hp Hpc) as (v & Hv & Hv').
      by rewrite (Hv' a Ha).
  - rewrite fmap_app. apply NoDup_app. split_and!; [done| |apply NoDup_singleton].
    intros x ((? & v) & -> & Hx)%list_elem_of_fmap. cbn. rewrite list_elem_of_singleton. intros ->.
    destruct (ai_returned0 h v Hx) as (_ & _ & H3). by eapply H3.
Qed.

(** A step of helper [h] from [pc] to [pc'], with its record [a] made [a']. *)
Lemma await_inv_helper n h pc pc' a a' y' cs s :
  await_inv n s -> helpers s !! h = Some pc -> awaits s !! h = Some a -> before pc || bool_decide (pc = HNotify) = true ->
  sched_inv n y' -> atask a' = atask a -> (bFinished a' = true -> pc' = HEnd) ->
  (forall t p x px, waits s !! t = Some (x, p) -> helpers s !! x = Some px -> wait_ok (sys s) px t p ->
     wait_ok y' (if bool_decide (x = h) then pc' else px) t p) ->
  (pc' <> HActive -> pc' <> HEnd -> forall o, waiting s h o -> (pc' = HWake -> o <> None) /\ (pc' = HNotify -> o = None)) ->
  (forall e, e ∈ cs <-> e ∈ calls s \/ (called pc = false /\ called pc' = true /\ e = (h, aret a'))) ->
  (called pc = true -> called pc' = true /\ aret a' = aret a) -> NoDup (fst <$> cs) ->
  await_inv n (mk_astate y' (<[h := a']> (awaits s)) (<[h := pc']> (helpers s)) (waits s) (joins s) cs (returns s)).
Proof.
  intros [] Hp Ha Hpc Hi' Hta Hfin Hwait Hown Hcs Hmono Hnd.
  assert (forall x o, waiting (mk_astate y' (<[h := a']> (awaits s)) (<[h := pc']> (helpers s)) (waits s) (joins s) cs
    (returns s)) x o <-> waiting s x o) as Hwt by (by intros x [t|]).
  constructor; cbn; try done.
  - intros x o Hx%Hwt. destruct (ai_record0 x o Hx) as (b & px & Hb & Ho & Hpx & Hbf).
    destruct (decide (x = h)) as [->|Hne].
    + rewrite !lookup_insert_eq. exists a', pc'. split_and!; [done|congruence|done|done].
    + rewrite !lookup_insert_ne by done. by exists b, px.
  - intros t x p px Hx. destruct (decide (x = h)) as [->|Hne].
    + rewrite lookup_insert_eq. intros [= <-]. specialize (Hwait t p h pc Hx Hp (ai_wait0 _ _ _ _ Hx Hp)).
      by rewrite bool_decide_eq_true_2 in Hwait.
    + rewrite lookup_insert_ne by done. intros Hpx. specialize (Hwait t p x px Hx Hpx (ai_wait0 _ _ _ _ Hx Hpx)).
      by rewrite bool_decide_eq_false_2 in Hwait.
  - intros x px. destruct (decide (x = h)) as [->|Hne].
    + rewrite lookup_insert_eq. intros [= <-] H1 H2. destruct (ai_helper0 h pc Hp) as (o & Ho & _); [by intros ->..|].
      exists o. split; [by apply Hwt|]. by apply Hown.
    + rewrite lookup_insert_ne by done. intros Hpx H1 H2. destruct (ai_helper0 x px Hpx H1 H2) as (o & Ho & ?).
      exists o. split; [by apply Hwt|done].
  - intros x v [Hx|(_ & Hc & [= -> _])]%Hcs.
    + destruct (ai_called0 x v Hx) as (px & Hpx & Hc). destruct (decide (x = h)) as [->|Hne].
      * rewrite lookup_insert_eq. exists pc'. split; [done|]. apply Hmono. congruence.
      * rewrite lookup_insert_ne by done. eauto.
    + rewrite lookup_insert_eq. eauto.
  - intros x px. destruct (decide (x = h)) as [->|Hne].
    + rewrite !lookup_insert_eq. intros [= <-] Hc. destruct (called pc) eqn:Hcp.
      * destruct (Hmono eq_refl) as [_ Hr]. destruct (ai_value0 h pc Hp Hcp) as (v & Hv & Hv'). exists v.
        split; [by apply Hcs; left|]. intros b [= <-]. rewrite Hr. by apply Hv'.
      * exists (aret a'). split; [apply Hcs; by right|by intros b [= <-]].
    + rewrite !lookup_insert_ne by done. intros Hpx Hc. destruct (ai_value0 x px Hpx Hc) as (v & Hv & ?).
      exists v. split; [by apply Hcs; left|done].
  - intros x v Hx. destruct (ai_returned0 x v Hx) as (H1 & H2 & H3). split_and!.
    + by apply Hcs; left.
    + destruct (decide (x = h)) as [->|Hne]; [rewrite lookup_insert_eq; eauto|by rewrite lookup_insert_ne].
    + intros o Ho%Hwt. by eapply H3.
Qed.

(** A helper that is done with its record ends. *)
Lemma await_inv_end n h s :
  await_inv n s -> helpers s !! h = Some HActive -> await_inv n (set_helper h HEnd s).
Proof.
  intros [] Hp. constructor; cbn; try done.
  - intros x o Hx. destruct (ai_record0 x o Hx) as (b & px & Hb & Ho & Hpx & Hbf).
    destruct (decide (x = h)) as [->|Hne]; [rewrite lookup_insert_eq; by eexists _, _|].
    rewrite lookup_insert_ne by done. by eexists _, _.
  - intros t x p px Hx. destruct (decide (x = h)) as [->|Hne].
    + rewrite lookup_insert_eq. intros [= <-]. eapply (wait_ok_pc _ HActive); [done|eauto].
    + rewrite lookup_insert_ne by done. eauto.
  - intros x px. destruct (decide (x = h)) as [->|Hne]; [rewrite lookup_insert_eq; by intros [= <-]|].
    rewrite lookup_insert_ne by done. apply ai_helper0.
  - intros x v Hx. destruct (ai_called0 x v Hx) as (px & Hpx & Hc). destruct (decide (x = h)) as [->|Hne].
    + rewrite lookup_insert_eq. eauto.
    + rewrite lookup_insert_ne by done. eauto.
  - intros x px. destruct (decide (x = h)) as [->|Hne]; [rewrite lookup_insert_eq; intros [= <-] _; by eapply ai_value0|].
    rewrite lookup_insert_ne by done. apply ai_value0.
  - intros x v Hx. destruct (ai_returned0 x v Hx) as (H1 & H2 & H3). split_and!; [done| |done].
    destruct (decide (x = h)) as [->|Hne]; [rewrite lookup_insert_eq; eauto|by rewrite lookup_insert_ne].
Qed.

(** A wait and its record belong to each other. *)
Lemma waiting_task n h s a o : await_inv n s -> awaits s !! h = Some a -> waiting s h o -> atask a = o.
Proof. intros Hi Ha Ho. destruct (ai_record n s Hi h o Ho) as (b & pc & Hb & E & _). congruence. Qed.

(** The helper of task [t] wakes it. *)
Lemma await_inv_wake n h a t y' s :
  await_inv n s -> helpers s !! h = Some HWake -> awaits s !! h = Some a -> atask a = Some t -> waiting s h (Some t) ->
  (forall u p, waits s !! u = Some (h, p) -> u = t) -> step junk tid_of (Wake t) (sys s) = Some y' ->
  await_inv n (set_helper h HActive (set_sys y' s)).
Proof.
  intros Hi Hp Ha Ht Ho Hown E. pose proof Hi as [].
  replace (set_helper h HActive (set_sys y' s)) with (mk_astate y' (<[h := a]> (awaits s)) (<[h := HActive]> (helpers s))
    (waits s) (joins s) (calls s) (returns s)) by (rewrite insert_id by done; reflexivity).
  assert (sched_inv n y') as Hi'.
  { cbn in E. destruct (tasks (sys s) !! t) as [T|] eqn:HT; [|done]. cbn in E. destruct (bool_decide _); [done|].
    destruct (wake_inv n t (sys s) T ai_sched0 HT) as [E' ?]. congruence. }
  assert (bFinished a = true -> False) as Hnf.
  { intros Hb. destruct (ai_record0 h (Some t) Ho) as (b & px & Hb' & _ & Hpx & Hbf). simplify_eq. by specialize (Hbf Hb). }
  eapply await_inv_helper; try done; [|naive_solver].
  intros u p x px Hx Hpx Hok. case_bool_decide as Hxh.
  - subst x. assert (u = t) as -> by (by eapply Hown).
    apply (parked_wake junk tid_of n (sys s)); [done..|]. by replace true with (before px) by (by replace px with HWake by congruence).
  - apply (parked_env junk tid_of n (Wake t) (sys s)); [done..| |done]. cbn. intros ->.
    destruct Ho as (q & Hq). congruence.
Qed.

Lemma await_inv_helper_step n h v s s' :
  await_inv n s -> helper_step junk tid_of h v s = Some s' -> await_inv n s'.
Proof.
  intros Hi Hs. unfold helper_step in Hs. destruct (helpers s !! h) as [pc|] eqn:Hp; [|done]. cbn -[step] in Hs.
  destruct (decide (pc = HActive)) as [->|Hna]; [injection Hs as <-; by apply await_inv_end|].
  destruct (decide (pc = HEnd)) as [->|Hne]; [done|].
  destruct (ai_helper n s Hi h pc Hp Hna Hne) as (o & Ho & Hwk & Hnt).
  destruct (ai_record n s Hi h o Ho) as (a & px & Ha & Hta & Hpx & Hbf).
  assert (px = pc) as -> by congruence. rewrite Ha in Hs.
  assert (forall t x p, waits s !! t = Some (x, p) -> x = h -> o = Some t) as Hown.
  { intros t x p Hx ->. rewrite <- Hta. eapply (waiting_task n h s a (Some t)); [done..|by eexists]. }
  pose proof Hi as []. assert (bFinished a = true -> False) as Hnf by (intros E; by apply Hne, Hbf).
  assert (forall pc', before pc = before pc' -> forall t p x px, waits s !! t = Some (x, p) -> helpers s !! x = Some px ->
    wait_ok (sys s) px t p -> wait_ok (sys s) (if bool_decide (x = h) then pc' else px) t p) as Hkeep.
  { intros pc' Hb t p x px Hx Hpx' Hok. case_bool_decide; [|done]. subst x. eapply wait_ok_pc; [exact Hb|].
    by replace pc with px by congruence. }
  destruct pc; try done; cbn -[step] in Hs.
  - injection Hs as <-.
    replace (set_helper h HFunc s) with (mk_astate (sys s) (<[h := a]> (awaits s)) (<[h := HFunc]> (helpers s))
      (waits s) (joins s) (calls s) (returns s)) by (rewrite insert_id by done; reflexivity).
    eapply await_inv_helper; try done; [by apply Hkeep|naive_solver].
  - injection Hs as <-. unfold log_call, set_helper, set_await. cbn.
    eapply await_inv_helper; try done; [by apply Hkeep| |].
    + intros e. rewrite elem_of_app, list_elem_of_singleton. cbn. naive_solver.
    + rewrite fmap_app. apply NoDup_app. split_and!; [done| |apply NoDup_singleton].
      intros x ((? & u) & -> & Hx)%list_elem_of_fmap. cbn. rewrite list_elem_of_singleton. intros ->.
      destruct (ai_called0 h u Hx) as (px & E & Hc). rewrite Hp in E. by injection E as <-.
  - injection Hs as <-. set (pc' := match akind a with CoAwait => _ | PoolAwait => _ end).
    replace (set_helper h pc' s) with (mk_astate (sys s) (<[h := a]> (awaits s)) (<[h := pc']> (helpers s))
      (waits s) (joins s) (calls s) (returns s)) by (rewrite insert_id by done; reflexivity).
    assert (called pc' = true) as Hc by (unfold pc'; by destruct (atask a), (akind a)).
    eapply await_inv_helper; try done.
    + intros t p x px Hx Hpx' Hok. case_bool_decide; [|done]. specialize (Hown t x p Hx H0). subst x.
      assert (px = HTest) as -> by congruence. eapply wait_ok_pc; [|exact Hok]. unfold pc'. rewrite Hta, Hown. by destruct (akind a).
    + intros _ _ o' Ho'. assert (o' = o) as -> by (rewrite <- Hta; symmetry; by eapply waiting_task).
      unfold pc'. rewrite Hta. by destruct o, (akind a).
    + naive_solver.
  - destruct (atask a) as [t|] eqn:Et; [|done]. cbn -[step] in Hs.
    destruct (step junk tid_of (Wake t) (sys s)) as [y'|] eqn:E; cbn -[step] in Hs; [|done]. injection Hs as <-.
    eapply await_inv_wake; try done; [by rewrite <- Hta in Ho|]. intros u p Hx.
    specialize (Hown u h p Hx eq_refl). congruence.
  - injection Hs as <-. unfold set_helper, set_await. cbn.
    eapply await_inv_helper; try done; [|naive_solver].
    intros t p x px Hx Hpx' Hok. case_bool_decide; [|done]. specialize (Hown t x p Hx H0).
    by rewrite (Hnt eq_refl) in Hown.
Qed.

(** The goal's state, written as [X]. *)
Ltac state_as X := match goal with |- await_inv _ ?Y => replace Y with X by reflexivity end.

Lemma await_inv_call n kd k h s s' :
  await_inv n s -> astep (Call kd k h) s = Some s' -> calm_act (Call kd k h) s = true -> await_inv n s'.
Proof.
  intros Hi Hs Hcalm. cbn in Hs, Hcalm. unfold running in *.
  destruct (current (scheds (sys s) k)) as [t|] eqn:Hc; [|done]. cbn in Hs.
  destruct (tasks (sys s) !! t) as [T|] eqn:HT; [|done]. cbn in Hs.
  destruct (in_wait t s) eqn:Hw; [done|]. apply in_wait_false in Hw. cbn in Hs.
  apply bool_decide_eq_true in Hcalm. case_bool_decide as Hk; [done|]. unfold new_await in Hs. case_bool_decide as Hh; [|done]. cbn in Hs. injection Hs as <-.
  pose proof (ai_sched n s Hi) as Hsi.
  assert (k = owner T) as -> by (eapply (cpu_owner n); [done|by left|done]).
  state_as (set_joins (joins s) (set_waits (<[t := (h, AtMark)]> (waits s))
    (set_helper h HStart (set_await h (new_record kd (Some t)) s)))).
  apply await_inv_new; try done.
  - intros u p. rewrite lookup_insert_Some. intros [[<- <-]|[? ?]]; [by left|right; split; [congruence|done]].
  - intros u p Hu. rewrite lookup_insert_ne; [done|congruence].
  - intros x. naive_solver.
  - rewrite lookup_insert_eq. split; [done|]. exists T. cbn. split_and!; try done. intros j Hin.
    destruct (si_queue n _ Hsi j t Hin) as (U & HU & <-). assert (U = T) as -> by congruence. done.
Qed.

Lemma await_inv_Return n k s s' : await_inv n s -> astep (Return k) s = Some s' -> await_inv n s'.
Proof.
  intros Hi Hs. cbn in Hs. unfold running in Hs.
  destruct (current (scheds (sys s) k)) as [t|] eqn:Hc; [|done]. cbn in Hs.
  destruct (waits s !! t) as [[h p]|] eqn:Hw; [|done]. destruct p; try done.
  destruct (awaits s !! h) as [a|] eqn:Ha; [|done]. cbn in Hs. injection Hs as <-.
  assert (waiting s h (Some t)) as Ho by (by eexists).
  destruct (ai_record n s Hi h _ Ho) as (b & pc & Hb & Hta & Hpc & _).
  destruct (parked_returns n (sys s) k (before pc) t) as [Hnb _]; [apply Hi|by eapply ai_wait|done|].
  assert (pc <> HNotify) as Hnn.
  { intros ->. destruct (ai_helper n s Hi h _ Hpc) as (o & Ho' & _ & Hn); [done..|].
    pose proof (waiting_task n h s a o Hi Ha Ho'). pose proof (waiting_task n h s a _ Hi Ha Ho).
    specialize (Hn eq_refl). congruence. }
  state_as (give_back h a (set_joins (joins s) (set_waits (delete t (waits s)) s))).
  apply (await_inv_return n h a (Some t)); try done.
  - exists pc. split; [done|]. by destruct pc; auto.
  - intros x [u|]; cbn.
    + split; [intros (q & [Hne Hq]%lookup_delete_Some); split; [by eexists|]|intros [(q & Hq) Hne]].
      * intros ->. assert (Some u = Some t); [|congruence].
        pose proof (waiting_task n h s a (Some u) Hi Ha ltac:(by eexists)).
        pose proof (waiting_task n h s a _ Hi Ha Ho). congruence.
      * exists q. rewrite lookup_delete_ne; [done|]. intros ->. congruence.
    + split; [|by intros [? _]]. intros Hx. split; [done|]. intros ->.
      pose proof (waiting_task n h s a None Hi Ha Hx). pose proof (waiting_task n h s a _ Hi Ha Ho). congruence.
  - intros u q [_ ?]%lookup_delete_Some. done.
Qed.

Lemma await_inv_join n h s s' : await_inv n s -> astep (Join h) s = Some s' -> await_inv n s'.
Proof.
  intros Hi Hs. cbn in Hs. case_bool_decide as Hj; [|done].
  destruct (awaits s !! h) as [a|] eqn:Ha; [|done]. cbn in Hs.
  assert (waiting s h None) as Ho by done.
  destruct (ai_record n s Hi h None Ho) as (b & pc & Hb & Hta & Hpc & Hbf). assert (b = a) as -> by congruence.
  destruct (match akind a with CoAwait => _ | PoolAwait => _ end) eqn:Hover; [|done]. injection Hs as <-.
  assert (pc = HEnd) as ->.
  { destruct (akind a); [apply bool_decide_eq_true in Hover; congruence|by apply Hbf]. }
  state_as (give_back h a (set_joins (joins s ∖ {[h]}) (set_waits (waits s) s))).
  apply (await_inv_return n h a None); try done; [exists HEnd; auto|].
  intros x [u|]; cbn; [|set_solver]. split; [|by intros [? _]]. intros Hx. split; [done|]. intros ->.
  pose proof (waiting_task n h s a (Some u) Hi Ha Hx). congruence.
Qed.

Lemma await_inv_step n a s s' :
  await_inv n s -> Z.of_nat n < THREAD_MAX_TASK_SIZE -> astep a s = Some s' -> calm_act a s = true ->
  await_inv (n + acreates [a]) s'.
Proof.
  intros Hi Hn Hs Hcalm. unfold acreates.
  assert (await_inv n s' -> await_inv (n + creates []) s') as H0 by (by rewrite Nat.add_0_r).
  destruct a as [a|kd k h|k|k|k|kd h|h|h v]; cbn [omap list_omap]; try apply H0.
  - by apply await_inv_env with s.
  - by eapply await_inv_call.
  - cbn -[step] in Hs. unfold running in Hs. destruct (current (scheds (sys s) k)) as [t|] eqn:Hc; [|done].
    cbn -[step] in Hs. destruct (waits s !! t) as [[h p]|] eqn:Hw; [|done]. destruct p; try done.
    destruct (step junk tid_of (Mark k SYS_BLOCK) (sys s)) as [y|] eqn:E; cbn -[step] in Hs; [|done]. injection Hs as <-.
    eapply (await_inv_move n y _ t h AtMark AtSwitch s Hi Hn Hw E); [done|cbn; intros; congruence|].
    intros pc Hok. by eapply parked_block; [apply Hi|..].
  - cbn -[step] in Hs. unfold running in Hs. destruct (current (scheds (sys s) k)) as [t|] eqn:Hc; [|done].
    cbn -[step] in Hs. destruct (waits s !! t) as [[h p]|] eqn:Hw; [|done]. destruct p; try done.
    destruct (step junk tid_of (Switch k) (sys s)) as [y|] eqn:E; cbn -[step] in Hs; [|done]. injection Hs as <-.
    eapply (await_inv_move n y _ t h AtSwitch Away s Hi Hn Hw E); [done|cbn; intros; congruence|].
    intros pc Hok. by eapply parked_leave; [apply Hi|..].
  - by eapply await_inv_Return.
  - cbn in Hs. unfold new_await in Hs. case_bool_decide as Hh; [|done]. cbn in Hs. injection Hs as <-.
    state_as (set_joins ({[h]} ∪ joins s) (set_waits (waits s)
      (set_helper h HStart (set_await h (new_record kd None) s)))).
    apply await_inv_new; try done; [by right|set_solver].
  - by eapply await_inv_join.
  - by eapply await_inv_helper_step.
Qed.

Lemma acreates_cons a acts : acreates (a :: acts) = (acreates [a] + acreates acts)%nat.
Proof. unfold acreates. destruct a as [a| | | | | | |]; [|done..]. apply creates_cons. Qed.

Lemma await_inv_steps acts : forall n s s',
  await_inv n s -> Z.of_nat (n + acreates acts) < THREAD_MAX_TASK_SIZE ->
  asteps junk tid_of acts s = Some s' -> calm junk tid_of acts s = true -> await_inv (n + acreates acts) s'.
Proof.
  induction acts as [|a acts IH]; intros n s s' Hi Hn Hs Hcalm; cbn [asteps calm] in *.
  { simplify_eq. unfold acreates, creates. cbn. by rewrite Nat.add_0_r. }
  apply andb_true_iff in Hcalm as [Hc1 Hc2]. destruct (astep a s) as [s1|] eqn:E; [|done].
  rewrite acreates_cons in *. rewrite Nat.add_assoc in *.
  apply (IH _ s1); [|done..]. by apply (await_inv_step n a s s1 Hi ltac:(lia) E).
Qed.
End inv.



(** *** Runs over heap.c's priority queue *)
#[local] Instance await_heap : PriorityQueue heap_t _id_cmp := heap_pq _id_cmp RhsFirst.

(** Two tasks of thread 0 wait, one for a thread and one for the pool; the first helper is
    done before its task has switched, the second after. A thread without tasks waits too. *)
Definition await_acts : list aact :=
  [Env (Create 0 1); Env (Create 0 2); Env (Pick 0); Call CoAwait 0 10; Helper 10 0; Helper 10 42; Helper 10 0;
   Helper 10 0; Block 0; Leave 0; Env (Settle 0); Env (Pick 0); Call PoolAwait 0 11; Block 0; Leave 0;
   Env (Settle 0); Env (Pick 0); Return 0; CallPlain PoolAwait 12; Helper 12 0; Helper 12 7; Helper 12 0;
   Helper 11 0; Helper 11 7; Helper 11 0; Helper 11 0; Helper 12 0; Join 12].
Definition await_state : astate heap_t := default ainit (asteps raw_heap Z.of_nat await_acts ainit).



(** Anybody else's resume ends the wait: [async_wait] returns [-1], and its helper goes on
    with a record that is gone. *)
Definition spurious : list aact :=
  [Env (Create 0 1); Env (Pick 0); Call CoAwait 0 10; Block 0; Leave 0; Env (Settle 0); Env (Resume 5 1);
   Env (Pick 0); Return 0].
Example await_woken_early :
  (fun s => (returns s, calls s, helpers s !! 10%nat, awaits s !! 10%nat, defined (astep raw_heap Z.of_nat (Helper 10 42) s))) <$>
    asteps raw_heap Z.of_nat spurious ainit = Some ([(10%nat, -1)], [], Some HStart, None, false) /\
  calm raw_heap Z.of_nat spurious ainit = false.
Proof. by vm_compute. Qed.
