(* ===== verification/MutexSched.v ===== *)
(** * co_mutex.c on the schedulers

    CoMutex.v has a task go on when it is in "the run queue"; here the run queues are those
    of the schedulers of Sched.v. A task takes its steps while it runs; [task_wait_mutex]
    yields in two steps, [co_resume] is a step of the schedulers, and all other parts of the
    program may take any other step of theirs. The field [run_queue] is only carried along:
    no step here reads it. *)
From S2P Require Import Prelude Interfaces Heap Cid Sched Parked CoMutex.

(** [marked]: the tasks in [co_sync_yield] that have set their status. *)
Record mstate (H : Type) := mk_mstate { sys : system H; mtx : co_mutex_t; marked : gset nat }.
Arguments mk_mstate {H}. Arguments sys {H}. Arguments mtx {H}. Arguments marked {H}.

Inductive op := OLock | OTryLock | OUnlock.
Definition call_of (c : op) (t : nat) : CoMutex.act :=
  match c with OLock => Lock t | OTryLock => TryLock t | OUnlock => Unlock t end.

Inductive mact :=
  | Env (a : Sched.act)
  | Call (c : op) (k : nat)        (* the task that runs on thread [k] calls *)
  | Step (k : nat)                 (* and takes its next step *)
  | Block (k : nat) | Leave (k : nat).  (* [co_sync_yield] *)

(** A task that is back from the scheduler tries again; the yield has steps of its own. *)
Definition task_step (t : nat) (m : co_mutex_t) : option co_mutex_t :=
  match pcs m t with
  | L5 => None
  | Asleep => Some (at_pc t L1 (set_run t false m))
  | _ => go t m
  end.

(** Inside an operation of the mutex. *)
Definition in_op (t : nat) (m : co_mutex_t) : bool := match pcs m t with Idle | CS => false | _ => true end.

Section mutex.
Context {H : Type} `{PQ : !PriorityQueue H _id_cmp} (junk : H) (tid_of : nat -> Z).
Implicit Types (s : mstate H).

Definition set_sys (y : system H) s : mstate H := mk_mstate y (mtx s) (marked s).
Definition set_mtx (m : co_mutex_t) s : mstate H := mk_mstate (sys s) m (marked s).
Definition set_marked (x : gset nat) s : mstate H := mk_mstate (sys s) (mtx s) x.

Definition running (k : nat) s : option nat := current (scheds (sys s) k).

(** The rest of the program; a task inside an operation does nothing else. *)
Definition env_step (a : Sched.act) s : option (mstate H) :=
  let ok := match a with
            | Mark k _ | Switch k => match running k s with Some t => negb (in_op t (mtx s)) | None => false end
            | _ => true
            end in
  if ok then y ← Sched.step junk tid_of a (sys s); Some (set_sys y s) else None.

Definition mstep (a : mact) s : option (mstate H) :=
  match a with
  | Env a => env_step a s
  | Call c k =>
      t ← running k s;
      T ← tasks (sys s) !! t;
      if bool_decide (status T = KILLED) then None
      else m ← CoMutex.step (call_of c t) (mtx s); Some (set_mtx m s)
  | Step k =>
      t ← running k s;
      m ← task_step t (mtx s);
      match pcs (mtx s) t with
      | W3 u => y ← Sched.step junk tid_of (Resume k u) (sys s); Some (set_mtx m (set_sys y s))
      | _ => Some (set_mtx m s)
      end
  | Block k =>
      t ← running k s;
      match pcs (mtx s) t with
      | L5 =>
          if bool_decide (t ∈ marked s) then None
          else y ← Sched.step junk tid_of (Mark k SYS_BLOCK) (sys s);
               Some (set_marked ({[t]} ∪ marked s) (set_sys y s))
      | _ => None
      end
  | Leave k =>
      t ← running k s;
      match pcs (mtx s) t with
      | L5 =>
          if bool_decide (t ∈ marked s)
          then y ← Sched.step junk tid_of (Switch k) (sys s);
               Some (set_marked (marked s ∖ {[t]}) (set_mtx (at_pc t Asleep (mtx s)) (set_sys y s)))
          else None
      | _ => None
      end
  end.

Fixpoint msteps (acts : list mact) s : option (mstate H) :=
  match acts with [] => Some s | a :: acts => s ← mstep a s; msteps acts s end.

Definition minit : mstate H := mk_mstate init co_mutex_init ∅.

(** Nobody else resumes a task that is inside an operation, and none that locks is still
    queued from an earlier resume. *)
Definition calm_act (a : mact) s : bool :=
  match a with
  | Env (Resume _ t) | Env (Wake t) => negb (in_op t (mtx s))
  | Call OLock k =>
      match running k s with
      | Some t => bool_decide (t ∉ run_list (scheds (sys s) k))
      | None => true
      end
  | _ => true
  end.
Fixpoint calm (acts : list mact) s : bool :=
  match acts with
  | [] => true
  | a :: acts => calm_act a s && match mstep a s with Some s => calm acts s | None => true end
  end.

(** The steps of CoMutex.v that a step amounts to. *)
Definition project (a : mact) s : list CoMutex.act :=
  match a with
  | Env _ | Block _ => []
  | Call c k => match running k s with Some t => [call_of c t] | None => [] end
  | Step k | Leave k => match running k s with Some t => [Go t] | None => [] end
  end.
Fixpoint projection (acts : list mact) s : list CoMutex.act :=
  match acts with
  | [] => []
  | a :: acts => project a s ++ match mstep a s with Some s => projection acts s | None => [] end
  end.

Definition mcreates (acts : list mact) : nat :=
  creates (omap (fun a => match a with Env a => Some a | _ => None end) acts).
End mutex.

(** ** Invariant *)
(** Where a task in [p] stands on its way through the yield. *)
Definition place_of (p : pc) (b : bool) : place :=
  match p with L5 => if b then AtSwitch else AtMark | Asleep => Away | _ => AtMark end.

Section inv.
Context {H : Type} `{PQ : !PriorityQueue H _id_cmp} (junk : H) (tid_of : nat -> Z).
Implicit Types (s : mstate H) (y : system H) (m : co_mutex_t).

(** What the schedulers know of a task whose program counter is [p]: on its way to the wait
    list it runs and is in no queue; from there on it waits to be woken, which the mutex
    records as [r]; an unlocking task runs. *)
Definition placed y (p : pc) (r mk : bool) (t : nat) : Prop :=
  match p with
  | Idle | CS => True
  | L0 | L1 | L2 | L3 => parked y true t AtMark
  | L4 | L5 | Asleep => parked y (negb r) t (place_of p mk)
  | U1 | W0 | W1 | W2 _ | W3 _ => exists b, parked y b t AtMark
  end.

Record minv (n : nat) s : Prop := {
  mi_sched : sched_inv n (sys s);
  mi_mutex : CoMutex.inv (mtx s);
  mi_marked t : t ∈ marked s -> pcs (mtx s) t = L5;
  mi_placed t : placed (sys s) (pcs (mtx s) t) (run_queue (mtx s) t) (bool_decide (t ∈ marked s)) t
}.

Lemma minv_init : minv 0 minit.
Proof. constructor; cbn; [apply init_sched_inv|apply init_inv|set_solver|done]. Qed.

Lemma placed_env n a y y' p r mk t :
  sched_inv n y -> Sched.step junk tid_of a y = Some y' ->
  (p <> Idle -> p <> CS -> leaves_be a t y) -> placed y p r mk t -> placed y' p r mk t.
Proof.
  intros Hi Hs Ha Hp. destruct p; cbn in *; try done; try (eapply parked_env; by eauto).
  all: destruct Hp as [b Hp]; exists b; eapply parked_env; by eauto.
Qed.

(** A step of the mutex, with the steps of the schedulers it takes. *)
Lemma minv_mutex n n' a y' m' mk s :
  minv n s -> sched_inv n' y' -> CoMutex.step a (mtx s) = Some m' -> (forall t, t ∈ mk -> pcs m' t = L5) ->
  (forall t, placed y' (pcs m' t) (run_queue m' t) (bool_decide (t ∈ mk)) t) -> minv n' (mk_mstate y' m' mk).
Proof.
  intros [] Hi Hs Hm Hp. constructor; cbn; [done|by eapply mutex_step_inv|done..].
Qed.

(** What a step leaves alone. *)
Lemma go_frame t m m' : go t m = Some m' ->
  forall u, u <> t -> pcs m' u = pcs m u /\ (pcs m t <> W3 u -> run_queue m' u = run_queue m u).
Proof.
  intros Hg u Hu. unfold go, spin_enter, spin_leave in Hg.
  destruct (pcs m t) eqn:Hp; repeat case_match; simplify_eq; try done; cbn; rewrite ?upd_ne by done; try done.
  split; [done|]. intros Hne. rewrite upd_ne; [done|congruence].
Qed.

Lemma placed_go y t m m' :
  CoMutex.inv m -> go t m = Some m' -> pcs m t <> L5 -> pcs m t <> Asleep ->
  placed y (pcs m t) (run_queue m t) false t -> placed y (pcs m' t) (run_queue m' t) false t.
Proof.
  intros Hi Hg H5 Ha Hp. pose proof (not_waiting m t Hi) as Hr. unfold go, spin_enter, spin_leave in Hg.
  destruct (pcs m t) eqn:E; try done; repeat case_match; simplify_eq; try done;
    cbn in *; rewrite !upd_eq; cbn; try done.
  destruct (Hr eq_refl) as (_ & -> & _). done.
Qed.

Lemma call_frame c t m m' : CoMutex.step (call_of c t) m = Some m' ->
  pcs m t <> L5 /\ run_queue m' = run_queue m /\ forall u, u <> t -> pcs m' u = pcs m u.
Proof.
  destruct c; cbn; intros Hs; repeat case_match; simplify_eq; try done; cbn; split_and!; try done;
    intros u Hu; by rewrite ?upd_ne.
Qed.

Lemma at_pc_other n s t p : minv n s -> pcs (mtx s) t = p -> p <> L5 -> t ∉ marked s.
Proof. intros Hi Hp Hn Hin. by rewrite (mi_marked n s Hi t Hin) in Hp. Qed.

(** The invariant for the tasks that the step is not about. *)
Lemma minv_sched_env n a y' s :
  minv n s -> (Z.of_nat n < THREAD_MAX_TASK_SIZE)%Z -> Sched.step junk tid_of a (sys s) = Some y' ->
  (forall t, in_op t (mtx s) = true -> leaves_be a t (sys s)) -> minv (n + creates [a]) (set_sys y' s).
Proof.
  intros [] Hn Hs Ha. constructor; cbn; [by eapply sched_step_inv|done..|].
  intros t. eapply placed_env; [done..| |done]. intros H1 H2. apply Ha. unfold in_op. by destruct (pcs (mtx s) t).
Qed.

Lemma minv_env n a s s' :
  minv n s -> (Z.of_nat n < THREAD_MAX_TASK_SIZE)%Z -> env_step junk tid_of a s = Some s' ->
  calm_act (Env a) s = true -> minv (n + creates [a]) s'.
Proof.
  intros Hi Hn Hs Hcalm. unfold env_step in Hs.
  destruct (match a with Mark k _ | Switch k => _ | _ => true end) eqn:Hok; [|done].
  destruct (Sched.step junk tid_of a (sys s)) as [y'|] eqn:E; [|done]. injection Hs as <-.
  apply minv_sched_env; try done. intros t Ht.
  destruct a; try done; cbn [leaves_be]; cbn in Hcalm, Hok; try (intros ->; by rewrite Ht in Hcalm);
    unfold running in Hok; destruct (current (scheds (sys s) k)) as [u|]; [|done| |done];
    intros [= ->]; by rewrite Ht in Hok.
Qed.

Lemma minv_call n c k s s' :
  minv n s -> mstep junk tid_of (Call c k) s = Some s' -> calm_act (Call c k) s = true -> minv n s'.
Proof.
  intros Hi Hs Hcalm. cbn -[CoMutex.step] in Hs, Hcalm. unfold running in *.
  destruct (current (scheds (sys s) k)) as [t|] eqn:Hc; [|done]. cbn -[CoMutex.step] in Hs.
  destruct (tasks (sys s) !! t) as [T|] eqn:HT; [|done]. cbn -[CoMutex.step] in Hs.
  destruct (bool_decide (status T = KILLED)) eqn:Hk; [done|]. apply bool_decide_eq_false in Hk. destruct (CoMutex.step _ _) as [m|] eqn:E; [|done]. injection Hs as <-.
  pose proof (mi_sched n s Hi) as Hsi. destruct (call_frame c t _ m E) as (H5 & Hr & Hf).
  assert (k = owner T) as -> by (eapply (cpu_owner n); [done|by left|done]).
  assert (t ∉ marked s) as Hm by (by eapply at_pc_other).
  apply (minv_mutex n n (call_of c t) _ _ _ s); try done.
  - intros u Hu. rewrite Hf by congruence. by apply (mi_marked n s Hi).
  - intros u. destruct (decide (u = t)) as [->|Hu]; [|rewrite Hf, Hr by done; apply (mi_placed n s Hi)].
    rewrite (bool_decide_eq_false_2 _ Hm). pose proof (mi_placed n s Hi t) as Hp.
    assert (forall j, t ∈ run_list (scheds (sys s) j) -> j = owner T) as Hq
      by (intros j Hj; destruct (si_queue n _ Hsi j t Hj) as (U & HU & <-); congruence).
    destruct c; cbn in E; destruct (pcs (mtx s) t) eqn:Ep; repeat case_match; simplify_eq; try done;
      cbn; rewrite ?upd_eq, ?Ep; cbn; try done.
    + apply bool_decide_eq_true in Hcalm. exists T. split_and!; try done. intros j Hj. by rewrite (Hq j Hj) in Hj.
    + destruct (decide (t ∈ run_list (scheds (sys s) (owner T)))) as [Hin|Hin].
      * exists false. by apply (parked_queued _ t T).
      * exists true, T. split_and!; try done. intros j Hj. by rewrite (Hq j Hj) in Hj.
Qed.

(** A task that is back from the scheduler was woken: its step is one of CoMutex.v. *)
Lemma task_step_go n k t m s :
  minv n s -> running k s = Some t -> task_step t (mtx s) = Some m ->
  go t (mtx s) = Some m /\ (pcs (mtx s) t = Asleep -> placed (sys s) L1 false false t).
Proof.
  intros Hi Hc Hs. unfold running in Hc. unfold task_step in Hs.
  destruct (decide (pcs (mtx s) t = Asleep)) as [E|Hne]; [|split; [by destruct (pcs (mtx s) t)|done]].
  rewrite E in Hs. pose proof (mi_placed n s Hi t) as Hp. rewrite E in Hp. cbn in Hp.
  destruct (parked_returns n _ k _ t (mi_sched n s Hi) Hp Hc) as [Hr (T & HT & Hk & Hct & Hq)].
  apply negb_false_iff in Hr. unfold go. rewrite E, Hr. split; [done|]. intros _. by exists T.
Qed.

Lemma minv_go n k t m s :
  minv n s -> running k s = Some t -> task_step t (mtx s) = Some m -> (forall u, pcs (mtx s) t <> W3 u) ->
  minv n (set_mtx m s).
Proof.
  intros Hi Hc Hs Hw. destruct (task_step_go n k t m s Hi Hc Hs) as [Hg Hb]. pose proof (mi_placed n s Hi t) as Hp.
  assert (pcs (mtx s) t <> L5) as H5 by (intros E; unfold task_step in Hs; by rewrite E in Hs).
  assert (t ∉ marked s) as Hm by (by eapply at_pc_other). rewrite (bool_decide_eq_false_2 _ Hm) in Hp.
  apply (minv_mutex n n (Go t) _ _ _ s); try done; [apply Hi| |].
  - intros u Hu. destruct (go_frame t _ m Hg u) as [-> _]; [congruence|]. by apply (mi_marked n s Hi).
  - intros u. destruct (decide (u = t)) as [->|Hu].
    + rewrite (bool_decide_eq_false_2 _ Hm). destruct (decide (pcs (mtx s) t = Asleep)) as [E|Ha].
      * unfold task_step in Hs. rewrite E in Hs. injection Hs as <-. cbn. rewrite !upd_eq. by apply Hb.
      * eapply placed_go; [apply Hi|done..].
    + destruct (go_frame t _ m Hg u Hu) as [-> Hr]. rewrite Hr by done. apply (mi_placed n s Hi).
Qed.

(** It wakes the first of the wait list. *)
Lemma minv_wake n k t u m y' s :
  minv n s -> (Z.of_nat n < THREAD_MAX_TASK_SIZE)%Z -> pcs (mtx s) t = W3 u -> task_step t (mtx s) = Some m ->
  Sched.step junk tid_of (Resume k u) (sys s) = Some y' -> minv n (set_mtx m (set_sys y' s)).
Proof.
  intros Hi Hn Hp Hg Hs. pose proof (mi_placed n s Hi) as Hpl.
  destruct (inv_wakes _ (mi_mutex n s Hi) t u) as [Hoff Hr]; [by rewrite Hp|].
  assert (u <> t) as Hut by (intros ->; by rewrite Hp in Hoff).
  assert (sched_inv n y') as Hi'.
  { pose proof (sched_step_inv junk tid_of n _ _ _ (mi_sched n s Hi) Hn Hs) as Hi'. by rewrite Nat.add_0_r in Hi'. }
  unfold task_step in Hg. rewrite Hp in Hg. pose proof Hg as Hm. unfold go in Hm. rewrite Hp in Hm. injection Hm as <-.
  apply (minv_mutex n n (Go t) _ _ _ s); try done; cbn.
  - intros v Hv. rewrite upd_ne; [by apply (mi_marked n s Hi)|]. intros ->.
    by rewrite (mi_marked n s Hi t Hv) in Hp.
  - intros v. destruct (decide (v = t)) as [->|Hvt]; [by rewrite upd_eq|]. rewrite (upd_ne (pcs (mtx s))) by done.
    specialize (Hpl v). destruct (decide (v = u)) as [->|Hvu].
    + rewrite upd_eq. rewrite Hr in Hpl. destruct (pcs (mtx s) u); try done; cbn in Hpl |- *;
        by eapply (parked_resume junk tid_of n k); [apply Hi|..].
    + rewrite upd_ne by done. eapply placed_env; [apply Hi|done| |done]. cbn. congruence.
Qed.

(** [co_sync_yield]. *)
Lemma minv_block n k t y' s :
  minv n s -> (Z.of_nat n < THREAD_MAX_TASK_SIZE)%Z -> running k s = Some t -> pcs (mtx s) t = L5 -> t ∉ marked s ->
  Sched.step junk tid_of (Mark k SYS_BLOCK) (sys s) = Some y' -> minv n (set_marked ({[t]} ∪ marked s) (set_sys y' s)).
Proof.
  intros [] Hn Hc Hp Hm Hs. unfold running in Hc. constructor; cbn; [|done| |].
  - pose proof (sched_step_inv junk tid_of n _ _ _ mi_sched0 Hn Hs) as Hi'. by rewrite Nat.add_0_r in Hi'.
  - intros u [->%elem_of_singleton|Hu]%elem_of_union; auto.
  - intros u. specialize (mi_placed0 u). destruct (decide (u = t)) as [->|Hu].
    + rewrite Hp in *. rewrite bool_decide_eq_false_2 in mi_placed0 by done.
      rewrite bool_decide_eq_true_2 by set_solver. by eapply parked_block.
    + rewrite (bool_decide_ext (u ∈ {[t]} ∪ marked s) (u ∈ marked s)) by set_solver.
      eapply placed_env; [done..| |done]. cbn. congruence.
Qed.

Lemma minv_leave n k t y' s :
  minv n s -> (Z.of_nat n < THREAD_MAX_TASK_SIZE)%Z -> running k s = Some t -> pcs (mtx s) t = L5 -> t ∈ marked s ->
  Sched.step junk tid_of (Switch k) (sys s) = Some y' ->
  minv n (set_marked (marked s ∖ {[t]}) (set_mtx (at_pc t Asleep (mtx s)) (set_sys y' s))).
Proof.
  intros Hi Hn Hc Hp Hm Hs. pose proof (mi_placed n s Hi) as Hpl. unfold running in Hc.
  assert (sched_inv n y') as Hi'.
  { pose proof (sched_step_inv junk tid_of n _ _ _ (mi_sched n s Hi) Hn Hs) as Hi'. by rewrite Nat.add_0_r in Hi'. }
  apply (minv_mutex n n (Go t) _ _ _ s); try done; cbn.
  - unfold go. by rewrite Hp.
  - intros u [Hu Hne]%elem_of_difference. rewrite upd_ne by set_solver. by apply (mi_marked n s Hi).
  - intros u. specialize (Hpl u). destruct (decide (u = t)) as [->|Hu].
    + rewrite upd_eq. rewrite Hp, bool_decide_eq_true_2 in Hpl by done. by eapply parked_leave; [apply Hi|..].
    + rewrite upd_ne by done. rewrite (bool_decide_ext (u ∈ marked s ∖ {[t]}) (u ∈ marked s)) by set_solver.
      eapply placed_env; [apply Hi|done| |done]. cbn. congruence.
Qed.

Lemma minv_step n a s s' :
  minv n s -> (Z.of_nat n < THREAD_MAX_TASK_SIZE)%Z -> mstep junk tid_of a s = Some s' -> calm_act a s = true ->
  minv (n + mcreates [a]) s'.
Proof.
  intros Hi Hn Hs Hcalm. unfold mcreates.
  assert (minv n s' -> minv (n + creates []) s') as H0 by (by rewrite Nat.add_0_r).
  destruct a as [a|c k|k|k|k]; cbn [omap list_omap]; try apply H0; [by apply minv_env with s|by eapply minv_call|..];
    cbn -[Sched.step] in Hs; destruct (running k s) as [t|] eqn:Hc; try done; cbn -[Sched.step] in Hs.
  - destruct (task_step t (mtx s)) as [m|] eqn:Hg; [|done]. cbn -[Sched.step] in Hs.
    destruct (pcs (mtx s) t) as [| | | | | | | | | | | | |u] eqn:Hp; try (injection Hs as <-; eapply minv_go; [done..|]; by rewrite Hp).
    destruct (Sched.step _ _ _ _) as [y'|] eqn:E; [|done]. injection Hs as <-. by eapply minv_wake.
  - destruct (pcs (mtx s) t) eqn:Hp; try done. case_bool_decide; [done|].
    destruct (Sched.step _ _ _ _) as [y'|] eqn:E; [|done]. injection Hs as <-. by eapply minv_block.
  - destruct (pcs (mtx s) t) eqn:Hp; try done. case_bool_decide; [|done].
    destruct (Sched.step _ _ _ _) as [y'|] eqn:E; [|done]. injection Hs as <-. by eapply minv_leave.
Qed.

Lemma mcreates_cons a acts : mcreates (a :: acts) = (mcreates [a] + mcreates acts)%nat.
Proof. unfold mcreates. destruct a as [a| | | |]; [|done..]. apply creates_cons. Qed.

Lemma minv_steps acts : forall n s s',
  minv n s -> (Z.of_nat (n + mcreates acts) < THREAD_MAX_TASK_SIZE)%Z ->
  msteps junk tid_of acts s = Some s' -> calm junk tid_of acts s = true -> minv (n + mcreates acts) s'.
Proof.
  induction acts as [|a acts IH]; intros n s s' Hi Hn Hs Hcalm; cbn [msteps calm] in *.
  { simplify_eq. unfold mcreates, creates. cbn. by rewrite Nat.add_0_r. }
  apply andb_true_iff in Hcalm as [Hc1 Hc2]. destruct (mstep junk tid_of a s) as [s1|] eqn:E; [|done].
  rewrite mcreates_cons in *. rewrite Nat.add_assoc in *.
  apply (IH _ s1); [|done..]. by apply (minv_step n a s s1 Hi ltac:(lia) E).
Qed.

(** Every run is one of CoMutex.v. *)
Lemma csteps_app xs ys m m' : CoMutex.steps xs m = Some m' -> CoMutex.steps (xs ++ ys) m = CoMutex.steps ys m'.
Proof.
  revert m. induction xs as [|x xs IH]; intros m Hs; cbn in *; [by simplify_eq|].
  destruct (CoMutex.step x m); [by apply IH|done].
Qed.

Lemma project_step n a s s' :
  minv n s -> mstep junk tid_of a s = Some s' -> CoMutex.steps (project a s) (mtx s) = Some (mtx s').
Proof.
  intros Hi Hs. destruct a as [a|c k|k|k|k]; cbn -[Sched.step CoMutex.step] in *.
  - unfold env_step in Hs. repeat case_match; simplify_option_eq; done.
  - destruct (running k s) as [t|]; [|done]. cbn -[CoMutex.step] in *.
    destruct (tasks (sys s) !! t); [|done]. cbn -[CoMutex.step] in Hs. case_bool_decide; [done|].
    destruct (CoMutex.step _ _) as [m|]; [|done]. by injection Hs as <-.
  - destruct (running k s) as [t|] eqn:Hc; [|done]. cbn -[Sched.step] in *.
    destruct (task_step t (mtx s)) as [m|] eqn:Hg; [|done]. destruct (task_step_go n k t m s Hi Hc Hg) as [-> _].
    cbn -[Sched.step] in *. repeat case_match; simplify_option_eq; done.
  - repeat (case_match || simplify_option_eq); done.
  - destruct (running k s) as [t|]; [|done]. cbn -[Sched.step] in *. unfold go.
    destruct (pcs (mtx s) t); try done. case_bool_decide; [|done].
    destruct (Sched.step _ _ _ _); [|done]. by injection Hs as <-.
Qed.

Lemma projection_steps acts : forall n s s',
  minv n s -> (Z.of_nat (n + mcreates acts) < THREAD_MAX_TASK_SIZE)%Z ->
  msteps junk tid_of acts s = Some s' -> calm junk tid_of acts s = true ->
  CoMutex.steps (projection junk tid_of acts s) (mtx s) = Some (mtx s').
Proof.
  induction acts as [|a acts IH]; intros n s s' Hi Hn Hs Hcalm; cbn [msteps calm projection] in *; [by simplify_eq|].
  apply andb_true_iff in Hcalm as [Hc1 Hc2]. destruct (mstep junk tid_of a s) as [s1|] eqn:E; [|done].
  rewrite mcreates_cons in *. rewrite (csteps_app _ _ _ (mtx s1)) by (by eapply project_step).
  apply (IH (n + mcreates [a])%nat); [|lia|done..]. by apply (minv_step n a s s1 Hi ltac:(lia) E).
Qed.

(** A task that the mutex lets go on is queued, or runs and has its step. *)
Lemma goes_on n t m s :
  minv n s -> go t (mtx s) = Some m -> exists T, tasks (sys s) !! t = Some T /\
    (t ∈ run_list (scheds (sys s) (owner T)) \/ running (owner T) s = Some t /\
       exists a, a ∈ [Step (owner T); Block (owner T); Leave (owner T)] /\ is_Some (mstep junk tid_of a s)).
Proof.
  intros Hi Hg. pose proof (mi_placed n s Hi t) as Hp.
  assert (forall T m', running (owner T) s = Some t -> task_step t (mtx s) = Some m' ->
    is_Some (mstep junk tid_of (Step (owner T)) s)) as Hstep.
  { intros T m' Hr Ht. cbn -[Sched.step]. rewrite Hr. cbn -[Sched.step]. rewrite Ht. cbn -[Sched.step].
    destruct (pcs (mtx s) t) as [| | | | | | | | | | | | |u] eqn:Hpc; eauto.
    destruct (inv_wakes _ (mi_mutex n s Hi) t u) as [Hoff Hrun]; [by rewrite Hpc|].
    pose proof (mi_placed n s Hi u) as Hu. destruct (pcs (mtx s) u); try done; cbn -[Sched.step] in Hu;
      by destruct (resume_defined junk tid_of n (owner T) _ _ _ _ (mi_sched n s Hi) Hu) as [y ->]; eauto. }
  destruct (decide (pcs (mtx s) t = Asleep)) as [E|Ha].
  { unfold go in Hg. rewrite E in Hp, Hg. destruct (run_queue (mtx s) t); [|done]. cbn in Hp.
    destruct (parked_woken _ _ _ Hp) as (T & HT & [?|Hc]); exists T; (split; [done|]); [by left|right].
    split; [done|]. exists (Step (owner T)). split; [left|]. eapply Hstep; [done|]. unfold task_step. by rewrite E. }
  assert (exists b q, parked (sys s) b t q /\ q <> Away) as (b & q & (T & HT & _ & Hc & _) & Hq).
  { unfold go in Hg. destruct (pcs (mtx s) t); try done; cbn in Hp; try (by eexists _, _);
      try (by destruct Hp as [b Hp]; exists b, AtMark). eexists _, _. split; [exact Hp|]. by case_bool_decide. }
  specialize (Hc Hq). exists T. split; [done|]. right. split; [done|].
  destruct (decide (pcs (mtx s) t = L5)) as [E|H5].
  - destruct (decide (t ∈ marked s)) as [Hm|Hm].
    + exists (Leave (owner T)). split; [set_solver|]. cbn. unfold running. rewrite Hc. cbn.
      rewrite E, bool_decide_eq_true_2 by done. cbn. eauto.
    + exists (Block (owner T)). split; [set_solver|]. cbn. unfold running. rewrite Hc. cbn.
      rewrite E, bool_decide_eq_false_2 by done. cbn. rewrite HT. cbn. eauto.
  - exists (Step (owner T)). split; [left|]. eapply Hstep; [done|]. unfold task_step. by destruct (pcs (mtx s) t).
Qed.
End inv.


(** *** Runs over heap.c's priority queue *)
#[local] Instance mutex_heap : PriorityQueue heap_t _id_cmp := heap_pq _id_cmp RhsFirst.

(** Task 1 of thread 0 has the mutex; task 2 of thread 5 queues up, sets its status, and is
    woken by the unlock before it switches away. *)
Definition unlock_acts : list mact :=
  [Env (Create 0 1); Env (Create 5 2); Env (Pick 0); Env (Pick 5); Call OLock 0; Step 0; Step 0; Call OLock 5;
   Step 5; Step 5; Step 5; Step 5; Step 5; Block 5; Call OUnlock 0; Step 0; Step 0; Step 0; Step 0; Step 0; Leave 5].
Definition unlock_state : mstate heap_t := default minit (msteps raw_heap Z.of_nat unlock_acts minit).


(** It goes on and gets the mutex. *)
Example unlock_hands_over :
  (fun s => (lock (mtx s), pcs (mtx s) 1%nat, pcs (mtx s) 2%nat)) <$>
    msteps raw_heap Z.of_nat [Env (Settle 5); Env (Pick 5); Step 5; Step 5] unlock_state = Some (Some 2%nat, Idle, CS).
Proof. by vm_compute. Qed.

(** A task that was resumed while it ran is still queued when it locks: its link is in the
    run queue and [task_wait_mutex] adds it to the wait list as well. *)
Definition stale : list mact :=
  [Env (Create 0 1); Env (Create 5 2); Env (Pick 0); Env (Pick 5); Call OLock 0; Step 0; Step 0;
   Env (Resume 7 2); Call OLock 5; Step 5; Step 5; Step 5; Step 5].
Example mutex_stale_resume :
  (fun s => (wait_list (mtx s), run_list (scheds (sys s) 5%nat))) <$> msteps raw_heap Z.of_nat stale minit =
    Some ([2%nat], [2%nat]) /\
  calm raw_heap Z.of_nat stale minit = false.
Proof. by vm_compute. Qed.
