(* ===== verification/Event.v ===== *)
(** * inner_fd.c and event.c: descriptors and the wait for their events

    The table of descriptors, the epoll instance of a scheduler, and [event_poll], which
    arms a descriptor, sleeps and reports why it woke up. The kernel is a parameter: a
    class of its calls over a state [K]. Operations are in a state monad over the calling
    thread; [None] is a crash or a panic. *)
From S2P Require Import Prelude TimeWheel.
Local Open Scope Z_scope.

Definition MAX_FD_NUM : Z := 102400.
Definition INVALID_FD : Z := -1.
Definition FD_TIMEOUT : Z := 3.

Definition IENONE : Z := 0.
Definition IEREAD : Z := 2.
Definition IEWRITE : Z := 4.
Definition IERDHUP : Z := 8.
Definition IEERR : Z := 16.
Definition IEHUP : Z := 32.

(** Constants of the platform. *)
Definition EPOLLIN : Z := 1.
Definition EPOLLOUT : Z := 4.
Definition EPOLLERR : Z := 8.
Definition EPOLLHUP : Z := 16.
Definition EPOLLRDHUP : Z := 8192.
Definition EPOLLET : Z := 2147483648.
Definition ENOENT : Z := 2.
Definition EBADF : Z := 9.
Definition EAGAIN : Z := 11.
Definition EEXIST : Z := 17.
Definition ETIME : Z := 62.
Definition ENETDOWN : Z := 100.
Definition O_NONBLOCK : Z := 2048.

Inductive epoll_op := EPOLL_CTL_ADD | EPOLL_CTL_MOD | EPOLL_CTL_DEL.

Record inner_fd := mk_ifd {
  ifd_fd : Z; flags : Z; user_flags : Z; ifd_task : option nat; timeout : Z; error : Z }.

(** The running thread: [g_inner_fd_list], the wheel of its scheduler, [errno], the tasks
    that were resumed, and the [hook] flag of the running task [self]. *)
Record thread (K : Type) := mk_thread {
  kern : K; fds : gmap Z inner_fd; wheel_of : time_wheel_t; errno : Z; woken : list nat;
  hook : bool; self : nat }.
Arguments mk_thread {K}. Arguments kern {K}. Arguments fds {K}. Arguments wheel_of {K}.
Arguments errno {K}. Arguments woken {K}. Arguments hook {K}. Arguments self {K}.

Inductive fcntl_cmd :=
  | F_DUPFD_CLOEXEC | F_DUPFD | F_GETFD | F_SETFD | F_GETFL | F_SETFL | F_GETOWN | F_SETOWN
  | F_GETLK | F_SETLK | F_SETLKW | F_OTHER (cmd : Z).
#[export] Instance fcntl_cmd_eq_dec : EqDecision fcntl_cmd.
Proof. solve_decision. Defined.

(** The calls into libc and the kernel. A call returns its result, what it hands over in
    a buffer, the [errno] it sets when the result is negative, and the next state.
    [k_sleep] is what the rest of the thread does while the task is switched out. *)
Class Kernel (K : Type) := {
  k_sleep : thread K -> thread K;
  k_epoll_create : K -> Z * Z * K;
  k_epoll_ctl : epoll_op -> Z -> Z -> K -> Z * Z * K;
  k_epoll_wait : Z -> Z -> K -> Z * list (Z * Z) * Z * K;
  k_timerfd_create : K -> Z * Z * K;
  k_timerfd_settime : Z -> Z -> Z -> K -> Z * Z * K;
  k_fcntl : Z -> fcntl_cmd -> Z -> K -> Z * Z * K;
  k_socket : Z -> Z -> Z -> K -> Z * Z * K;
  k_listen : Z -> Z -> K -> Z * Z * K;
  k_connect : Z -> Z -> K -> Z * Z * K;
  k_accept : Z -> K -> Z * Z * K;
  k_so_error : Z -> K -> Z;
  k_close : Z -> K -> Z * Z * K;
  k_read : Z -> Z -> K -> Z * list Z * Z * K;
  k_recv : Z -> Z -> Z -> K -> Z * list Z * Z * K;
  k_recvmsg : Z -> Z -> K -> Z * list Z * Z * K;
  k_write : Z -> list Z -> K -> Z * Z * K;
  k_send : Z -> list Z -> Z -> K -> Z * Z * K;
  k_sendto : Z -> list Z -> Z -> Z -> K -> Z * Z * K;
  k_sendmsg : Z -> list (list Z) -> Z -> K -> Z * Z * K
}.

(** ** The state monad *)
Definition M (K A : Type) : Type := thread K -> option (A * thread K).
Definition ret {K A} (x : A) : M K A := fun s => Some (x, s).
Definition bind {K A B} (m : M K A) (f : A -> M K B) : M K B :=
  fun s => match m s with Some (x, s) => f x s | None => None end.
Definition panic {K A} : M K A := fun _ => None.
Declare Scope monad_scope.
Delimit Scope monad_scope with M.
Notation "x <- m ;; k" := (bind m (fun x => k)) (at level 100, m at next level, right associativity) : monad_scope.
Notation "m ;; k" := (bind m (fun _ => k)) (at level 100, right associativity) : monad_scope.
#[local] Open Scope monad_scope.

Section event.
Context {K : Type} `{!Kernel K}.

Definition get {A} (f : thread K -> A) : M K A := fun s => Some (f s, s).
Definition put (f : thread K -> thread K) : M K unit := fun s => Some (tt, f s).
Definition set_errno (e : Z) : M K unit := put (fun s =>
  mk_thread (kern s) (fds s) (wheel_of s) e (woken s) (hook s) (self s)).
Definition set_hook (b : bool) : M K unit := put (fun s =>
  mk_thread (kern s) (fds s) (wheel_of s) (errno s) (woken s) b (self s)).
Definition set_fds (m : gmap Z inner_fd) : M K unit := put (fun s =>
  mk_thread (kern s) m (wheel_of s) (errno s) (woken s) (hook s) (self s)).
Definition set_wheel (w : time_wheel_t) : M K unit := put (fun s =>
  mk_thread (kern s) (fds s) w (errno s) (woken s) (hook s) (self s)).

(** A system call: [errno] is set when it fails. *)
Definition after {A} (x : A) (failed : bool) (e : Z) (k : K) : M K A := fun s =>
  Some (x, mk_thread k (fds s) (wheel_of s) (if failed then e else errno s) (woken s) (hook s) (self s)).
Definition call (f : K -> Z * Z * K) : M K Z := fun s =>
  let '(r, e, k) := f (kern s) in after r (bool_decide (r < 0)) e k s.
Definition call_in {A} (f : K -> Z * A * Z * K) : M K (Z * A) := fun s =>
  let '(r, x, e, k) := f (kern s) in after (r, x) (bool_decide (r < 0)) e k s.

(** ** inner_fd.c *)
Definition is_fd_valid (fd : Z) : bool := bool_decide (INVALID_FD < fd) && bool_decide (fd < MAX_FD_NUM).

(** The entry of the table at [fd]; [None]: outside the array. *)
Definition new_inner_fd (fd : Z) : M K inner_fd :=
  if is_fd_valid fd then
    let ifd := mk_ifd fd 0 0 None FD_TIMEOUT IENONE in
    m <- get fds;;
    set_fds (<[fd := ifd]> m);;
    ret ifd
  else panic.

Definition get_inner_fd (fd : Z) : M K (option inner_fd) :=
  if is_fd_valid fd then m <- get fds;; ret (m !! fd)
  else set_errno EBADF;; ret None.

(** The link leaves the wheel before the entry is freed. *)
Definition delete_inner_fd (fd : Z) : M K unit :=
  if is_fd_valid fd then
    m <- get fds;;
    match m !! fd with
    | Some _ =>
        w <- get wheel_of;;
        set_wheel (wheel_delete_element (Z.to_nat fd) w);;
        set_fds (delete fd m)
    | None => ret tt
    end
  else ret tt.

Definition update_ifd (fd : Z) (f : inner_fd -> inner_fd) : M K unit :=
  m <- get fds;;
  match m !! fd with
  | Some ifd => set_fds (<[fd := f ifd]> m)
  | None => panic
  end.

(** The test is on a null pointer, which is then written through. *)
Definition set_inner_fd_timeout (fd msecs : Z) : M K unit :=
  if is_fd_valid fd then
    o <- get_inner_fd fd;;
    match o with None => panic | Some _ => ret tt end
  else ret tt.

(** ** event.c *)
Definition cntl_events (op : epoll_op) (fd events : Z) : M K Z :=
  if is_fd_valid fd then call (k_epoll_ctl op fd events)
  else set_errno EBADF;; ret (-1).

Definition add_events (fd events : Z) : M K Z :=
  r <- cntl_events EPOLL_CTL_ADD fd events;;
  e <- get errno;;
  if bool_decide (r < 0) && bool_decide (e = EEXIST) then cntl_events EPOLL_CTL_MOD fd events
  else ret r.

Definition delete_events (fd events : Z) : M K Z :=
  r <- cntl_events EPOLL_CTL_DEL fd events;;
  e <- get errno;;
  if bool_decide (r < 0) && bool_decide (e = ENOENT) then ret 0 else ret r.

Definition modify_events (fd events : Z) : M K Z := cntl_events EPOLL_CTL_MOD fd events.

Definition set_error (e : Z) (ifd : inner_fd) : inner_fd :=
  mk_ifd (ifd_fd ifd) (flags ifd) (user_flags ifd) (ifd_task ifd) (timeout ifd) e.
Definition set_waiter (t : nat) (ifd : inner_fd) : inner_fd :=
  mk_ifd (ifd_fd ifd) (flags ifd) (user_flags ifd) (Some t) (timeout ifd) (error ifd).

(** [co_io_yield]: the task goes on when it is picked after a [co_resume]. *)
Definition co_io_yield : M K unit := put (fun s =>
  let s' := k_sleep s in
  mk_thread (kern s') (fds s') (wheel_of s') (errno s') (woken s') (hook s) (self s)).

Definition co_resume (t : nat) : M K unit := put (fun s =>
  mk_thread (kern s) (fds s) (wheel_of s) (errno s) (woken s ++ [t]) (hook s) (self s)).

Definition has (e bit : Z) : bool := bool_decide (Z.land e bit <> 0).

(** The link of the entry goes onto the wheel of the scheduler, or off it. *)
Definition arm (fd : Z) : M K unit :=
  m <- get fds;;
  w <- get wheel_of;;
  match (ifd ← m !! fd; wheel_update_element (Z.to_nat fd) (i32 (timeout ifd)) w) with
  | Some w => set_wheel w
  | None => panic
  end.

Definition disarm (fd : Z) : M K unit :=
  m <- get fds;;
  w <- get wheel_of;;
  match m !! fd with
  | Some _ => set_wheel (wheel_delete_element (Z.to_nat fd) w)
  | None => panic
  end.

Definition event_poll (fd events : Z) : M K Z :=
  o <- get_inner_fd fd;;
  match o with
  | None => panic
  | Some _ =>
      me <- get self;;
      update_ifd fd (fun ifd => set_waiter me (set_error IENONE ifd));;
      r <- add_events fd events;;
      if bool_decide (r <> 0) then delete_events fd events;; ret (-1)
      else
        arm fd;;
        co_io_yield;;
        disarm fd;;
        r <- delete_events fd 0;;
        if bool_decide (r <> 0) then ret (-1)
        else
          m <- get fds;;
          match m !! fd with
          | None => panic
          | Some ifd =>
              if has (error ifd) IETIMEOUT then set_errno ETIME;; ret (-1)
              else if has (error ifd) IEERR then set_errno ENETDOWN;; ret (-1)
              else if has (error ifd) IEHUP then set_errno ENETDOWN;; ret (-1)
              else ret 0
          end
  end.

Definition events_to_error (events : Z) : Z :=
  let error := IENONE in
  let error := if has events EPOLLIN then Z.lor error IEREAD else error in
  let error := if has events EPOLLOUT then Z.lor error IEWRITE else error in
  let error := if has events EPOLLERR then Z.lor error IEERR else error in
  let error := if has events EPOLLRDHUP then Z.lor error IERDHUP else error in
  if has events EPOLLHUP then Z.lor error IEHUP else error.

(** The epoll instance itself is in the kernel state; [loop] is the flag that
    [stop_event_loop] clears. *)
Record epoll_t := mk_epoll { maxevents : Z; ep_timeout : Z; ep_fd : Z; loop : bool }.

Definition new_epoll (maxevents timeout : Z) : M K (option epoll_t) :=
  epfd <- call k_epoll_create;;
  if bool_decide (epfd < 0) then ret None
  else ret (Some (mk_epoll (if bool_decide (maxevents = 0) then 1 else maxevents)
                           (if bool_decide (timeout < 0) then 0 else timeout) epfd true)).

(** The timeout task itself is [TimeWheel.tick]; [t] is the task created for it. *)
Definition init_epoll_timer (msec_size interval : Z) (t : nat) : M K unit :=
  tfd <- call k_timerfd_create;;
  set_wheel (new_time_wheel msec_size interval);;
  new_inner_fd tfd;;
  update_ifd tfd (fun ifd =>
    mk_ifd (ifd_fd ifd) (Z.lor (flags ifd) O_NONBLOCK) (user_flags ifd) (Some t) (-1) (error ifd));;
  co_resume t.

Definition stop_event_loop (ep : epoll_t) : epoll_t :=
  mk_epoll (maxevents ep) (ep_timeout ep) (ep_fd ep) false.

(** One round of the loop of [event_wait]. The entry is written through before it is
    tested, and the log line reads [ifd->task->cid]: both must be there. *)
Definition dispatch (ev : Z * Z) : M K unit :=
  o <- get_inner_fd ev.1;;
  match o with
  | None => panic
  | Some ifd =>
      update_ifd ev.1 (set_error (events_to_error ev.2));;
      delete_events (ifd_fd ifd) 0;;
      match ifd_task ifd with
      | Some t => co_resume t
      | None => panic
      end
  end.

Fixpoint dispatch_all (evs : list (Z * Z)) : M K unit :=
  match evs with
  | [] => ret tt
  | ev :: evs => dispatch ev;; dispatch_all evs
  end.

Definition event_wait (ep : epoll_t) : M K Z :=
  res <- call_in (k_epoll_wait (maxevents ep) (ep_timeout ep));;
  let '(num, evs) := res in
  (if bool_decide (num = -1) then ret tt
   else if bool_decide (num = 0) then ret tt
   else dispatch_all (take (Z.to_nat num) evs));;
  if bool_decide (num < 0) then panic else ret num.
End event.

(** ** A kernel to run the code on *)
(** Scripted answers: [t_in] the reads ([None]: [EAGAIN]; end of file when it runs out),
    [t_out] how much each write takes (0: [EAGAIN]; everything when it runs out), [t_wake]
    the error word that wakes waiters, [t_events] the next answer of [epoll_wait]; [t_sent]
    and [t_got] log what was written and read. *)
Record toy := mk_toy_got {
  t_interest : gset Z; t_flags : gmap Z Z; t_next : Z; t_in : list (option (list Z));
  t_out : list Z; t_sent : list Z; t_wake : Z; t_events : list (Z * Z);
  t_got : list Z }.
Definition mk_toy i fl next inp out sent wake evs : toy := mk_toy_got i fl next inp out sent wake evs [].

Definition toy0 : toy := mk_toy ∅ ∅ 3 [] [] [] IEREAD [].

Definition toy_interest (i : gset Z) (k : toy) : toy :=
  mk_toy_got i (t_flags k) (t_next k) (t_in k) (t_out k) (t_sent k) (t_wake k) (t_events k) (t_got k).
Definition toy_flags (m : gmap Z Z) (k : toy) : toy :=
  mk_toy_got (t_interest k) m (t_next k) (t_in k) (t_out k) (t_sent k) (t_wake k) (t_events k) (t_got k).

Definition toy_ctl (op : epoll_op) (fd _ : Z) (k : toy) : Z * Z * toy :=
  let here := bool_decide (fd ∈ t_interest k) in
  match op with
  | EPOLL_CTL_ADD =>
      if here then (-1, EEXIST, k) else (0, 0, toy_interest ({[fd]} ∪ t_interest k) k)
  | EPOLL_CTL_MOD => if here then (0, 0, k) else (-1, ENOENT, k)
  | EPOLL_CTL_DEL =>
      if here then (0, 0, toy_interest (t_interest k ∖ {[fd]}) k) else (-1, ENOENT, k)
  end.

Definition toy_sleep (s : thread toy) : thread toy :=
  let k := kern s in
  mk_thread k
    (map_imap (fun fd ifd => Some (if decide (fd ∈ t_interest k)
      then mk_ifd (ifd_fd ifd) (flags ifd) (user_flags ifd) (ifd_task ifd) (timeout ifd) (t_wake k)
      else ifd)) (fds s))
    (wheel_of s) (errno s) (woken s) (hook s) (self s).

Definition toy_fcntl (fd : Z) (cmd : fcntl_cmd) (arg : Z) (k : toy) : Z * Z * toy :=
  match t_flags k !! fd with
  | None => (-1, EBADF, k)
  | Some fl =>
      match cmd with
      | F_GETFL => (fl, 0, k)
      | F_SETFL => (0, 0, toy_flags (<[fd := arg]> (t_flags k)) k)
      | _ => (0, 0, k)
      end
  end.

Definition toy_open (k : toy) : Z * Z * toy :=
  if bool_decide (t_flags k !! t_next k = None) then
    (t_next k, 0, mk_toy_got (t_interest k) (<[t_next k := 2]> (t_flags k)) (t_next k + 1) (t_in k)
       (t_out k) (t_sent k) (t_wake k) (t_events k) (t_got k))
  else (-1, EBADF, k).

Definition toy_read (n : Z) (k : toy) : Z * list Z * Z * toy :=
  let k' rest bs := mk_toy_got (t_interest k) (t_flags k) (t_next k) (rest ++ tail (t_in k)) (t_out k)
                      (t_sent k) (t_wake k) (t_events k) (t_got k ++ bs) in
  match t_in k with
  | [] => (0, [], 0, k)
  | None :: _ => (-1, [], EAGAIN, k' [] [])
  | Some bs :: _ =>
      let rest := drop (Z.to_nat n) bs in
      let bs := take (Z.to_nat n) bs in
      (Z.of_nat (length bs), bs, 0, k' (if bool_decide (rest = []) then [] else [Some rest]) bs)
  end.

Definition toy_write (bs : list Z) (k : toy) : Z * Z * toy :=
  let k' n := mk_toy_got (t_interest k) (t_flags k) (t_next k) (t_in k) (tail (t_out k))
                (t_sent k ++ take n bs) (t_wake k) (t_events k) (t_got k) in
  match t_out k with
  | [] => (Z.of_nat (length bs), 0, k' (length bs))
  | c :: _ =>
      let n := Nat.min (Z.to_nat c) (length bs) in
      if bool_decide (n = 0)%nat then (-1, EAGAIN, k' 0%nat) else (Z.of_nat n, 0, k' n)
  end.

#[export] Instance toy_kernel : Kernel toy := {|
  k_sleep := toy_sleep;
  k_epoll_create := toy_open;
  k_epoll_ctl := toy_ctl;
  k_epoll_wait := fun _ _ k => (Z.of_nat (length (t_events k)), t_events k, 0, k);
  k_timerfd_create := toy_open;
  k_timerfd_settime := fun _ _ _ k => (0, 0, k);
  k_fcntl := toy_fcntl;
  k_socket := fun _ _ _ => toy_open;
  k_listen := fun _ _ k => (0, 0, k);
  k_connect := fun _ _ k => (0, 0, k);
  k_accept := fun _ => toy_open;
  k_so_error := fun _ _ => 0;
  k_close := fun fd k => (0, 0, mk_toy_got (t_interest k ∖ {[fd]}) (delete fd (t_flags k)) fd (t_in k)
    (t_out k) (t_sent k) (t_wake k) (t_events k) (t_got k));
  k_read := fun _ => toy_read;
  k_recv := fun _ n _ => toy_read n;
  k_recvmsg := fun _ _ => toy_read 4096;
  k_write := fun _ => toy_write;
  k_send := fun _ bs _ => toy_write bs;
  k_sendto := fun _ bs _ _ => toy_write bs;
  k_sendmsg := fun _ iov _ => toy_write (concat iov)
|}.

Definition toy_thread (k : toy) : thread toy := mk_thread k ∅ (new_time_wheel 60 1) 0 [] true 1%nat.

(** ** Runs *)
(** [m] run from [s] is defined and its outcome satisfies [Q]. *)
Definition runs {K A} (m : M K A) (s : thread K) (Q : A -> thread K -> Prop) : Prop :=
  exists x s', m s = Some (x, s') /\ Q x s'.

Section runs.
Context {K : Type}.
Implicit Types s : thread K.

Lemma runs_ret {A} (x : A) s (Q : A -> thread K -> Prop) : Q x s -> runs (ret x) s Q.
Proof. intros HQ. by exists x, s. Qed.

Lemma runs_bind {A B} (m : M K A) (f : A -> M K B) s Q R :
  runs m s Q -> (forall x s', Q x s' -> runs (f x) s' R) -> runs (bind m f) s R.
Proof.
  intros (x & s1 & E & HQ) Hf. destruct (Hf _ _ HQ) as (y & s2 & E2 & HR).
  exists y, s2. split; [|done]. unfold bind. by rewrite E.
Qed.

Lemma runs_get {A B} (g : thread K -> A) (f : A -> M K B) s R :
  runs (f (g s)) s R -> runs (bind (get g) f) s R.
Proof. done. Qed.

Lemma runs_put {B} (g : thread K -> thread K) (f : unit -> M K B) s R :
  runs (f tt) (g s) R -> runs (bind (put g) f) s R.
Proof. done. Qed.

Lemma runs_put_end (g : thread K -> thread K) s (Q : unit -> thread K -> Prop) :
  Q tt (g s) -> runs (put g) s Q.
Proof. intros HQ. by exists tt, (g s). Qed.

Lemma runs_conseq {A} (m : M K A) s (Q R : A -> thread K -> Prop) :
  runs m s Q -> (forall x s', Q x s' -> R x s') -> runs m s R.
Proof. intros (x & s' & E & HQ) Himp. exists x, s'. auto. Qed.

Lemma runs_assoc {A B C} (m : M K A) (f : A -> M K B) (g : B -> M K C) s R :
  runs (bind m (fun x => bind (f x) g)) s R -> runs (bind (bind m f) g) s R.
Proof.
  intros (x & s' & E & HQ). exists x, s'. split; [|done]. revert E. unfold bind.
  by destruct (m s) as [[??]|].
Qed.
End runs.


(** ** Laws of the kernel *)
(** [epoll_ctl] on open descriptors, over the set of descriptors of interest. [R] is a
    relation on kernel states that epoll calls and sleeping keep, such as the bytes
    accepted so far being the same. *)
Class EpollLaws (K : Type) `{Kernel K} (interest : K -> gset Z) (R : K -> K -> Prop) := {
  R_preorder :: PreOrder R;
  ctl_add fd ev k : fd ∉ interest k ->
    exists r e k', k_epoll_ctl EPOLL_CTL_ADD fd ev k = (r, e, k') /\ R k k' /\
      ((r = 0 /\ interest k' = {[fd]} ∪ interest k) \/
       (r = -1 /\ e <> EEXIST /\ interest k' = interest k));
  ctl_add_exists fd ev k : fd ∈ interest k ->
    exists k', k_epoll_ctl EPOLL_CTL_ADD fd ev k = (-1, EEXIST, k') /\ R k k' /\
      interest k' = interest k;
  ctl_mod fd ev k : fd ∈ interest k ->
    exists r e k', k_epoll_ctl EPOLL_CTL_MOD fd ev k = (r, e, k') /\ R k k' /\
      (r = 0 \/ r = -1) /\ interest k' = interest k;
  ctl_del fd ev k :
    exists r e k', k_epoll_ctl EPOLL_CTL_DEL fd ev k = (r, e, k') /\ R k k' /\
      interest k' = interest k ∖ {[fd]} /\
      (r = 0 \/ (r = -1 /\ e = ENOENT /\ fd ∉ interest k))
}.

(** The configuration of a descriptor, which waiting does not change. *)
Definition same_conf (a b : inner_fd) : Prop :=
  ifd_fd b = ifd_fd a /\ flags b = flags a /\ user_flags b = user_flags a /\ timeout b = timeout a.

Definition has_conf {K} (fd : Z) (ifd : inner_fd) (s : thread K) : Prop :=
  exists ifd', fds s !! fd = Some ifd' /\ same_conf ifd ifd'.

(** While a task waits for [fd] nobody closes or reconfigures it, and the wheel stays one. *)
Definition sleeps_well {K} `{Kernel K} (R : K -> K -> Prop) (fd : Z) : Prop :=
  forall s ifd, wf (wheel_of s) -> has_conf fd ifd s ->
    wf (wheel_of (k_sleep s)) /\ has_conf fd ifd (k_sleep s) /\ R (kern s) (kern (k_sleep s)).

(** What a woken waiter is told: the result and the [errno]. *)
Definition poll_result (e : Z) : Z * option Z :=
  if has e IETIMEOUT then (-1, Some ETIME)
  else if has e IEERR || has e IEHUP then (-1, Some ENETDOWN)
  else (0, None).

Section poll.
Context {K : Type} (interest : K -> gset Z) (R : K -> K -> Prop) `{HL : EpollLaws K interest R}.
Implicit Types s : thread K.

(** Registered, with a timeout that fits the wheel. *)
Record ready (fd : Z) (ifd : inner_fd) s : Prop := {
  ready_fd : is_fd_valid fd = true;
  ready_entry : has_conf fd ifd s;
  ready_timeout : -2147483648 <= timeout ifd < 2147483648;
  ready_wheel : wf (wheel_of s);
  ready_id : ifd_fd ifd = fd
}.

(** Nothing but the kernel, [errno] and [R] moves. *)
Record quiet s s' : Prop := {
  quiet_fds : fds s' = fds s;
  quiet_wheel : wheel_of s' = wheel_of s;
  quiet_hook : hook s' = hook s;
  quiet_self : self s' = self s;
  quiet_R : R (kern s) (kern s')
}.

#[export] Instance quiet_refl : Reflexive quiet.
Proof. intros s. by constructor. Qed.
#[export] Instance quiet_trans : Transitive quiet.
Proof. intros s1 s2 s3 [] []. constructor; try congruence. by etrans. Qed.

Lemma runs_call {B} (f : K -> Z * Z * K) (g : Z -> M K B) s Q r e k :
  f (kern s) = (r, e, k) ->
  (forall s', kern s' = k -> errno s' = (if bool_decide (r < 0) then e else errno s) ->
    (R (kern s) k -> quiet s s') -> runs (g r) s' Q) ->
  runs (bind (call f) g) s Q.
Proof.
  intros E Hg. unfold bind, call, runs. rewrite E. cbn. apply Hg; cbn; [done..|].
  intros. by constructor.
Qed.

Lemma add_events_runs fd ev s :
  is_fd_valid fd = true ->
  runs (add_events fd ev) s (fun r s' => quiet s s' /\
    (interest (kern s') = interest (kern s) \/ interest (kern s') = {[fd]} ∪ interest (kern s)) /\
    ((k_epoll_ctl EPOLL_CTL_ADD fd ev (kern s)).1.1 = 0 -> r = 0)).
Proof.
  intros Hv. unfold add_events, cntl_events. rewrite Hv.
  destruct (decide (fd ∈ interest (kern s))) as [Hin|Hin].
  - destruct (ctl_add_exists fd ev (kern s) Hin) as (k1 & E & HR & Hi).
    eapply runs_call; [exact E|]. intros s1 Hk He Hq. specialize (Hq HR). apply runs_get.
    rewrite He, !bool_decide_eq_true_2 by done. cbn [andb].
    destruct (ctl_mod fd ev (kern s1)) as (r & e2 & k2 & E2 & HR2 & Hr & Hi2); [by rewrite Hk, Hi|].
    unfold runs, call. rewrite E2. cbn. eexists _, _. split; [done|]. cbn. rewrite Hi2, Hk, Hi.
    split; [|split]; [|by left|rewrite E; cbn; lia]. etrans; [exact Hq|]. by constructor.
  - destruct (ctl_add fd ev (kern s) Hin) as (r & e & k1 & E & HR & Hc).
    eapply runs_call; [exact E|]. intros s1 Hk He Hq. specialize (Hq HR). apply runs_get.
    rewrite He. assert (bool_decide (r < 0) && bool_decide ((if bool_decide (r < 0) then e else errno s) = EEXIST) = false) as ->.
    { destruct Hc as [(-> & _)|(-> & He' & _)]; [done|].
      by rewrite (bool_decide_eq_true_2 (-1 < 0)), bool_decide_eq_false_2. }
    apply runs_ret. rewrite Hk, E. cbn. split; [done|].
    destruct Hc as [(-> & ->)|(-> & _ & ->)]; auto.
Qed.

Lemma delete_events_runs fd ev s :
  is_fd_valid fd = true ->
  runs (delete_events fd ev) s (fun r s' => quiet s s' /\ r = 0 /\ interest (kern s') = interest (kern s) ∖ {[fd]}).
Proof.
  intros Hv. unfold delete_events, cntl_events. rewrite Hv.
  destruct (ctl_del fd ev (kern s)) as (r & e & k1 & E & HR & Hi & Hc).
  eapply runs_call; [exact E|]. intros s1 Hk He Hq. specialize (Hq HR). apply runs_get. rewrite He.
  destruct Hc as [->|(-> & -> & _)]; cbn; apply runs_ret; by rewrite Hk.
Qed.

Lemma runs_get_inner_fd {B} fd (f : option inner_fd -> M K B) s Q :
  is_fd_valid fd = true -> runs (f (fds s !! fd)) s Q -> runs (bind (get_inner_fd fd) f) s Q.
Proof. intros Hv HQ. unfold get_inner_fd. rewrite Hv. exact HQ. Qed.

Lemma runs_update_ifd fd g ifd s :
  fds s !! fd = Some ifd ->
  runs (update_ifd fd g) s (fun _ s' => fds s' = <[fd := g ifd]> (fds s) /\ kern s' = kern s /\
    wheel_of s' = wheel_of s /\ hook s' = hook s /\ self s' = self s).
Proof.
  intros E. unfold update_ifd. apply runs_get. rewrite E. by apply runs_put_end.
Qed.

Lemma runs_arm fd ifd s :
  ready fd ifd s ->
  runs (arm fd) s (fun _ s' => ready fd ifd s' /\ kern s' = kern s /\ hook s' = hook s /\ self s' = self s).
Proof.
  intros [Hv (i & E & Hc) Ht Hw Hid]. unfold arm. do 2 apply runs_get. rewrite E. cbn [mbind option_bind].
  destruct Hc as (? & ? & ? & Et). rewrite i32_small by lia.
  assert (exists w', wheel_update_element (Z.to_nat fd) (timeout i) (wheel_of s) = Some w' /\ wf w')
    as (w' & -> & Hw').
  { unfold wheel_update_element. destruct (decide (timeout i < 0)) as [Hn|Hn].
    - rewrite bool_decide_eq_true_2 by done. eauto.
    - destruct (update_spec (Z.to_nat fd) (timeout i) (wheel_of s) Hw ltac:(lia)) as (w' & Ew & Hw' & _). eauto. }
  apply runs_put_end. cbn. split; [|done]. constructor; try done. by exists i.
Qed.

Lemma gone_delete e w : gone e (wheel_delete_element e w).
Proof.
  intros i ls. cbn. rewrite list_lookup_fmap.
  destruct (wheel w !! i); cbn; [|done]. intros [= <-]. rewrite list_elem_of_filter. naive_solver.
Qed.

Lemma runs_disarm fd ifd s :
  ready fd ifd s ->
  runs (disarm fd) s (fun _ s' => ready fd ifd s' /\ gone (Z.to_nat fd) (wheel_of s') /\
    kern s' = kern s /\ hook s' = hook s /\ self s' = self s).
Proof.
  intros [Hv (i & E & Hc) Ht Hw Hid]. unfold disarm. do 2 apply runs_get. rewrite E.
  apply runs_put_end. cbn. split_and!; try done; [|apply gone_delete].
  constructor; try done; [by exists i|]. by apply delete_wf.
Qed.

(** What holds of a descriptor when nobody waits for it. *)
Record idle (fd : Z) (ifd : inner_fd) s : Prop := {
  idle_ready : ready fd ifd s;
  idle_gone : gone (Z.to_nat fd) (wheel_of s);
  idle_interest : fd ∉ interest (kern s)
}.

Lemma idle_errno fd ifd s e :
  idle fd ifd s ->
  idle fd ifd (mk_thread (kern s) (fds s) (wheel_of s) e (woken s) (hook s) (self s)).
Proof. intros [[] ? ?]. constructor; [by constructor|done|done]. Qed.

Lemma quiet_ready fd ifd s s' : quiet s s' -> ready fd ifd s -> ready fd ifd s'.
Proof.
  intros [Ef Ew _ _ _] [? (i & E & ?) ???]. constructor; rewrite ?Ew; try done.
  exists i. by rewrite Ef.
Qed.

Lemma sleep_ready fd ifd s :
  sleeps_well R fd -> ready fd ifd s ->
  runs co_io_yield s (fun _ s' => ready fd ifd s' /\ R (kern s) (kern s') /\
    hook s' = hook s /\ self s' = self s).
Proof.
  intros Hs [? Hc ???]. destruct (Hs s ifd) as (? & ? & ?); [done..|].
  apply runs_put_end. cbn. split_and!; try done.
Qed.

Lemma event_poll_runs fd ev ifd s :
  sleeps_well R fd -> idle fd ifd s ->
  runs (event_poll fd ev) s (fun r s' => idle fd ifd s' /\ hook s' = hook s /\ self s' = self s /\
    R (kern s) (kern s') /\ (r = 0 \/ r = -1) /\
    ((k_epoll_ctl EPOLL_CTL_ADD fd ev (kern s)).1.1 = 0 ->
       exists ifd', fds s' !! fd = Some ifd' /\ r = (poll_result (error ifd')).1 /\
         forall e, (poll_result (error ifd')).2 = Some e -> errno s' = e)).
Proof.
  intros Hs [[Hv (i & E & Hc) Ht Hw Hid] Hg Hi]. unfold event_poll.
  apply runs_get_inner_fd; [done|]. rewrite E. apply runs_get.
  eapply runs_bind; [by apply runs_update_ifd|]. intros _ s1 (Ef1 & Ek1 & Ew1 & Eh1 & Es1). cbn beta.
  assert (ready fd ifd s1) as Hr1.
  { constructor; rewrite ?Ew1; try done. eexists. rewrite Ef1, lookup_insert_eq. split; [done|]. exact Hc. }
  eapply runs_bind; [by apply add_events_runs|]. intros r s2 (Hq2 & Hi2 & Hr). cbn beta.
  pose proof (quiet_ready _ _ _ _ Hq2 Hr1) as Hr2.
  destruct Hq2 as [Ef2 Ew2 Eh2 Es2 HR2]. rewrite Ek1 in *.
  destruct (decide (r = 0)) as [->|Hne].
  - rewrite bool_decide_eq_false_2 by (intros ?; done).
    eapply runs_bind; [by eapply runs_arm|]. intros _ s3 (Hr3 & Ek3 & Eh3 & Es3). cbn beta.
    eapply runs_bind; [by eapply sleep_ready|]. intros _ s4 (Hr4 & HR4 & Eh4 & Es4). cbn beta.
    eapply runs_bind; [by eapply runs_disarm|]. intros _ s5 (Hr5 & Hg5 & Ek5 & Eh5 & Es5). cbn beta.
    eapply runs_bind; [by apply delete_events_runs|]. intros r s6 (Hq6 & -> & Hi6). cbn beta.
    rewrite bool_decide_eq_false_2 by (intros ?; done).
    pose proof (quiet_ready _ _ _ _ Hq6 Hr5) as Hr6. destruct Hq6 as [Ef6 Ew6 Eh6 Es6 HR6].
    assert (R (kern s) (kern s6)) as HR.
    { etrans; [exact HR2|]. rewrite <- Ek3. etrans; [exact HR4|]. by rewrite <- Ek5. }
    apply runs_get. pose proof Hr6 as [_ (i6 & E6 & _) _ _ _]. rewrite E6.
    assert (idle fd ifd s6) as Hd6.
    { constructor; [done|by rewrite Ew6|]. rewrite Hi6. set_solver. }
    assert (hook s6 = hook s /\ self s6 = self s) as [? ?] by (split; congruence).
    unfold poll_result.
    destruct (has (error i6) IETIMEOUT) eqn:B1; [|destruct (has (error i6) IEERR) eqn:B2; [|destruct (has (error i6) IEHUP) eqn:B3]].
    + apply runs_put, runs_ret. split_and!; [by apply idle_errno|auto..|].
      intros _. exists i6. rewrite B1. naive_solver.
    + apply runs_put, runs_ret. split_and!; [by apply idle_errno|auto..|].
      intros _. exists i6. rewrite B1, B2. naive_solver.
    + apply runs_put, runs_ret. split_and!; [by apply idle_errno|auto..|].
      intros _. exists i6. rewrite B1, B2, B3. naive_solver.
    + apply runs_ret. split_and!; auto. intros _. exists i6. rewrite B1, B2, B3. naive_solver.
  - rewrite bool_decide_eq_true_2 by done.
    eapply runs_bind; [by apply delete_events_runs|]. intros r' s3 (Hq3 & -> & Hi3). cbn beta.
    apply runs_ret. pose proof (quiet_ready _ _ _ _ Hq3 Hr2) as Hr3. destruct Hq3 as [Ef3 Ew3 Eh3 Es3 HR3].
    split_and!; [|congruence|congruence|by etrans|by right|naive_solver].
    constructor; [done|by rewrite Ew3, Ew2, Ew1|]. rewrite Hi3. set_solver.
Qed.
End poll.

(** ** The toy kernel keeps the laws *)
Definition toy_io (k : toy) := (t_flags k, t_next k, t_in k, t_out k, t_sent k, t_got k).
Definition toy_R (k k' : toy) : Prop := toy_io k' = toy_io k.

#[export] Instance toy_R_preorder : PreOrder toy_R.
Proof. unfold toy_R. constructor; [by intros ?|]. intros k1 k2 k3. congruence. Qed.

#[export] Instance toy_laws : EpollLaws toy t_interest toy_R.
Proof.
  constructor; [apply _| | | |]; intros fd ev k; cbn; unfold toy_ctl.
  - intros Hn. rewrite bool_decide_eq_false_2 by done. eexists _, _, _. split_and!; [done|done|by left].
  - intros Hi. rewrite bool_decide_eq_true_2 by done. by eexists.
  - intros Hi. rewrite bool_decide_eq_true_2 by done. eexists _, _, _. split_and!; [done|done|by left|done].
  - destruct (decide (fd ∈ t_interest k)) as [Hi|Hi].
    + rewrite bool_decide_eq_true_2 by done. eexists _, _, _. split_and!; [done|done|done|by left].
    + rewrite bool_decide_eq_false_2 by done. eexists _, _, _. split_and!; [done|done| |by right].
      set_solver.
Qed.

Lemma toy_sleeps_well fd : sleeps_well toy_R fd.
Proof.
  intros s ifd Hw (i & E & Hc). cbn. split_and!; [done| |done].
  eexists. cbn. rewrite map_lookup_imap, E. cbn. split; [done|].
  by destruct (decide _).
Qed.

(** ** Waiting for one descriptor *)
(** C21. Waiting for a descriptor always comes back: its link is off the wheel, the kernel
    watches it no longer, and once armed the result is -1 with [ETIME] after a timeout, -1
    with [ENETDOWN] after an error or hang-up, and 0 otherwise. *)
Theorem event_poll_outcome (K : Type) `{Kernel K} (interest : K -> gset Z) (R : K -> K -> Prop)
    `{!EpollLaws K interest R} (fd events : Z) (ifd : inner_fd) (s : thread K) :
  sleeps_well R fd -> idle interest fd ifd s ->
  exists r s' ifd', event_poll fd events s = Some (r, s') /\ fds s' !! fd = Some ifd' /\
    gone (Z.to_nat fd) (wheel_of s') /\ (fd ∉ interest (kern s')) /\ (r = 0 \/ r = -1) /\
    ((k_epoll_ctl EPOLL_CTL_ADD fd events (kern s)).1.1 = 0 ->
       r = (poll_result (error ifd')).1 /\
       forall e, (poll_result (error ifd')).2 = Some e -> errno s' = e).
Proof.
  intros Hs Hd. destruct (event_poll_runs interest R fd events ifd s Hs Hd)
    as (r & s' & E & [Hr Hg Hi] & _ & _ & _ & Hrr & Hk).
  destruct Hr as [_ (i & Ei & _) _ _ _].
  exists r, s', i. split_and!; try done. intros H0. destruct (Hk H0) as (i' & Ei' & ?). by simplify_eq.
Qed.

Lemma new_wheel_gone size e : 60 <= size -> gone e (new_time_wheel size 1).
Proof. intros _ i ls. cbn. intros Hl%list_elem_of_lookup_2. apply list_elem_of_In, repeat_spec in Hl. subst. apply not_elem_of_nil. Qed.

(** A registered descriptor of the toy kernel, waited for once. *)
Definition toy_fd : inner_fd := mk_ifd 5 O_NONBLOCK 2 None FD_TIMEOUT IENONE.
Definition toy_ready (k : toy) : thread toy :=
  mk_thread k {[5 := toy_fd]} (new_time_wheel 60 1) 0 [] true 1%nat.

Lemma toy_idle k : 5 ∉ t_interest k -> idle t_interest 5 toy_fd (toy_ready k).
Proof.
  intros Hn. constructor; [constructor|by apply new_wheel_gone|done].
  - done.
  - by exists toy_fd.
  - cbn. unfold FD_TIMEOUT. lia.
  - apply (new_timer_wf 60). lia.
  - done.
Qed.

Lemma event_poll_outcome_witness :
  exists s', event_poll 5 EPOLLIN (toy_ready (mk_toy ∅ ∅ 3 [] [] [] IETIMEOUT [])) = Some (-1, s') /\
    errno s' = ETIME.
Proof.
  destruct (event_poll_outcome toy t_interest toy_R 5 EPOLLIN toy_fd
              (toy_ready (mk_toy ∅ ∅ 3 [] [] [] IETIMEOUT [])) (toy_sleeps_well 5) (toy_idle _ (not_elem_of_empty 5)))
    as (r & s' & i & E & Ei & _ & _ & _ & Hk).
  destruct (Hk ltac:(vm_compute; reflexivity)) as [Hr He].
  assert (error i = IETIMEOUT) as Hi.
  { enough (error <$> fds s' !! 5 = Some IETIMEOUT) by (rewrite Ei in *; cbn in *; congruence).
    assert (s' = (default (0, s') (event_poll 5 EPOLLIN (toy_ready (mk_toy ∅ ∅ 3 [] [] [] IETIMEOUT [])))).2)
      as -> by (by rewrite E). by vm_compute. }
  rewrite Hi in *. exists s'. split; [by rewrite E, Hr|by apply He].
Defined.


(** ** One round of the event loop *)
(** [t] sleeps on the descriptor of the event. *)
Definition waiter {K} (s : thread K) (ev : Z * Z) (t : nat) : Prop :=
  is_fd_valid ev.1 = true /\
  exists ifd, fds s !! ev.1 = Some ifd /\ ifd_fd ifd = ev.1 /\ ifd_task ifd = Some t.

Section dispatch.
Context {K : Type} (interest : K -> gset Z) (R : K -> K -> Prop) `{HL : EpollLaws K interest R}.

(** Each reported descriptor has the reported events and is of no interest any more. *)
Record dispatched (evs : list (Z * Z)) (ts : list nat) (s s' : thread K) : Prop := {
  dis_woken : woken s' = woken s ++ ts;
  dis_interest : interest (kern s') ⊆ interest (kern s) /\
    forall ev, ev ∈ evs -> ev.1 ∉ interest (kern s');
  dis_same fd : fd ∉ evs.*1 -> fds s' !! fd = fds s !! fd;
  dis_error ev : ev ∈ evs ->
    exists ifd, fds s' !! ev.1 = Some ifd /\ error ifd = events_to_error ev.2
}.

Lemma quiet_woken_delete fd ev (s s' : thread K) r :
  delete_events fd ev s = Some (r, s') -> woken s' = woken s.
Proof.
  unfold delete_events, cntl_events, bind, call, after, get, set_errno, put, ret.
  destruct (is_fd_valid fd); cbn.
  - destruct (k_epoll_ctl _ _ _ _) as [[??]?]. cbn. destruct (_ && _); intros; by simplify_eq.
  - destruct (_ && _); intros; by simplify_eq.
Qed.

Lemma dispatch_runs ev t (s : thread K) :
  waiter s ev t -> runs (dispatch ev) s (fun _ s' => dispatched [ev] [t] s s').
Proof.
  intros (Hv & i & E & Hid & Ht). unfold dispatch. apply runs_get_inner_fd; [done|]. rewrite E.
  eapply runs_bind with (Q := fun _ s1 => fds s1 = <[ev.1 := set_error (events_to_error ev.2) i]> (fds s) /\
    kern s1 = kern s /\ woken s1 = woken s).
  { unfold update_ifd. apply runs_get. rewrite E. by apply runs_put_end. }
  intros _ s1 (Ef1 & Ek1 & Ew1). cbn beta.
  eapply runs_bind with (Q := fun _ s2 => quiet R s1 s2 /\
    interest (kern s2) = interest (kern s1) ∖ {[ifd_fd i]} /\ woken s2 = woken s1).
  { rewrite Hid. destruct (delete_events_runs interest R ev.1 0 s1 Hv) as (r & s2 & E2 & Hq & _ & Hi).
    exists r, s2. split_and!; try done. by eapply quiet_woken_delete. }
  intros _ s2 ([Ef2 _ _ _ _] & Hi2 & Ew2). cbn beta. rewrite Ht. apply runs_put_end. rewrite Hid in Hi2.
  constructor; cbn; [congruence|rewrite Hi2, Ek1; set_solver|intros fd Hfd|intros ev' Hev'].
  - rewrite Ef2, Ef1, lookup_insert_ne; set_solver.
  - apply list_elem_of_singleton in Hev' as ->. rewrite Ef2, Ef1, lookup_insert_eq. by eexists.
Qed.

Lemma waiter_other (s s1 : thread K) evs ts :
  Forall2 (waiter s) evs ts -> (forall ev, ev ∈ evs -> fds s1 !! ev.1 = fds s !! ev.1) ->
  Forall2 (waiter s1) evs ts.
Proof.
  induction 1 as [|ev t evs ts (Hv & i & Ei & Hi) _ IH]; intros Hf; constructor.
  - split; [done|]. exists i. rewrite Hf by (by left). done.
  - apply IH. intros ev' ?. apply Hf. by right.
Qed.

Lemma dispatch_all_runs evs : forall ts (s : thread K),
  NoDup evs.*1 -> Forall2 (waiter s) evs ts ->
  runs (dispatch_all evs) s (fun _ s' => dispatched evs ts s s').
Proof.
  induction evs as [|ev evs IH]; intros ts s Hnd Hw; inversion Hw as [|? t ? ts' Ht Hts]; subst; cbn.
  - apply runs_ret. constructor; [by rewrite app_nil_r|set_solver..].
  - inversion Hnd as [|? ? Hn Hnd']; subst.
    eapply runs_bind; [by apply dispatch_runs|]. intros _ s1 [W1 [I1 N1] S1 E1]. cbn beta.
    eapply runs_conseq; [apply (IH ts'); [done|]|].
    + apply (waiter_other s); [done|]. intros ev' Hev'. apply S1. cbn. intros Hin%list_elem_of_singleton.
      apply Hn. rewrite <- Hin. by apply list_elem_of_fmap_2.
    + intros _ s2 [W2 [I2 N2] S2 E2]. constructor.
      * rewrite W2, W1, <- app_assoc. done.
      * split; [set_solver|]. intros ev' [->|?]%elem_of_cons; [|by apply N2]. specialize (N1 ev). set_solver.
      * intros fd Hfd. rewrite S2, S1; set_solver.
      * intros ev' [->|?]%elem_of_cons; [|by apply E2]. rewrite S2 by done. apply E1. set_solver.
Qed.
End dispatch.

(** C36. A round of the event loop resumes the waiters of the reported descriptors, in the
    order reported, leaves each one its translated events, and stops watching them. *)
Theorem event_wait_dispatches (K : Type) `{Kernel K} (interest : K -> gset Z) (R : K -> K -> Prop)
    `{!EpollLaws K interest R} (ep : epoll_t) (s : thread K) (evs : list (Z * Z)) (ts : list nat) (e : Z) (k : K) :
  k_epoll_wait (maxevents ep) (ep_timeout ep) (kern s) = (Z.of_nat (length evs), evs, e, k) ->
  interest k = interest (kern s) -> NoDup evs.*1 -> Forall2 (waiter s) evs ts ->
  exists s', event_wait ep s = Some (Z.of_nat (length evs), s') /\ woken s' = woken s ++ ts /\
    interest (kern s') ⊆ interest (kern s) /\
    forall ev, ev ∈ evs -> (ev.1 ∉ interest (kern s')) /\
      exists ifd, fds s' !! ev.1 = Some ifd /\ error ifd = events_to_error ev.2.
Proof.
  intros E Hk Hnd Hw.
  enough (runs (event_wait ep) s (fun r s' => r = Z.of_nat (length evs) /\
            dispatched interest evs ts s s')) as (r & s' & Er & -> & [W [I N] _ Er']).
  { exists s'. split_and!; [done..|]. intros ev Hev. split; [by apply N|by apply Er']. }
  eapply runs_bind with (Q := fun x s1 => x = (Z.of_nat (length evs), evs) /\ kern s1 = k /\ fds s1 = fds s /\
    woken s1 = woken s).
  { unfold call_in, runs. rewrite E. cbn. by eexists _, _. }
  intros [num evs'] s1 ([= -> ->] & Ek & Ef & Ew). cbn beta iota.
  rewrite bool_decide_eq_false_2 by lia. rewrite (bool_decide_eq_false_2 (_ < 0)) by lia.
  eapply runs_bind with (Q := fun _ s' => dispatched interest evs ts s s'); [|intros _ s' Hd; by apply runs_ret].
  case_bool_decide as H0.
  - destruct evs; [|cbn in H0; lia]. inversion Hw; subst. apply runs_ret.
    constructor; rewrite ?Ek, ?Hk, ?Ew, ?app_nil_r; [done|set_solver|by rewrite Ef|set_solver].
  - rewrite Nat2Z.id, firstn_all. assert (Forall2 (waiter s1) evs ts) as Hw1.
    { apply (waiter_other s); [done|]. by rewrite Ef. }
    eapply runs_conseq; [by apply (dispatch_all_runs interest R)|].
    intros _ s' [W [I N] S Er']. rewrite Ek, Hk in *.
    constructor; [congruence|done|by rewrite <- Ef|done].
Qed.

Lemma event_wait_dispatches_witness :
  exists s', event_wait (mk_epoll 10 0 3 true)
      (mk_thread (mk_toy {[5; 6]} ∅ 3 [] [] [] 0 [(5, EPOLLIN)])
        {[5 := mk_ifd 5 O_NONBLOCK 2 (Some 7%nat) 3 0]} (new_time_wheel 60 1) 0 [] true 1%nat) =
      Some (1, s') /\ woken s' = [7%nat].
Proof.
  destruct (event_wait_dispatches toy t_interest toy_R (mk_epoll 10 0 3 true)
    (mk_thread (mk_toy {[5; 6]} ∅ 3 [] [] [] 0 [(5, EPOLLIN)])
        {[5 := mk_ifd 5 O_NONBLOCK 2 (Some 7%nat) 3 0]} (new_time_wheel 60 1) 0 [] true 1%nat)
    [(5, EPOLLIN)] [7%nat] 0 (mk_toy {[5; 6]} ∅ 3 [] [] [] 0 [(5, EPOLLIN)]))
    as (s' & E & W & _); [done|done|apply NoDup_singleton| |].
  - constructor; [|constructor]. split; [done|]. by eexists.
  - exists s'. split; [exact E|exact W].
Defined.

(** A failing [epoll_wait] ends the process, an interrupted one ([EINTR]) too. *)
Lemma event_wait_dies (K : Type) `{Kernel K} ep (s : thread K) num evs e k :
  k_epoll_wait (maxevents ep) (ep_timeout ep) (kern s) = (num, evs, e, k) -> num = -1 ->
  event_wait ep s = None.
Proof. intros E ->. unfold event_wait, bind, call_in. by rewrite E. Qed.

(** A descriptor that the table has no room for is written to outside of it. *)
Lemma new_inner_fd_overflows (K : Type) fd (s : thread K) :
  MAX_FD_NUM <= fd -> new_inner_fd fd s = None.
Proof.
  intros Hfd. unfold new_inner_fd, is_fd_valid. by rewrite (bool_decide_eq_false_2 (fd < _)), andb_false_r by lia.
Qed.

(** [set_inner_fd_timeout] never sets anything. *)
Lemma set_inner_fd_timeout_useless (K : Type) fd msecs (s s' : thread K) x :
  set_inner_fd_timeout fd msecs s = Some (x, s') -> s' = s.
Proof.
  unfold set_inner_fd_timeout, get_inner_fd. destruct (is_fd_valid fd); cbn; [|by intros [=]].
  unfold bind, get, ret. destruct (fds s !! fd); by intros [=].
Qed.
