(* ===== verification/SysHook.v ===== *)
(** * sys_hook.c: the system calls a task sees

    Each hooked call falls through to the raw one when the task has the hook off or the
    descriptor is not registered as non-blocking; otherwise it waits with [event_poll]
    where the raw call would block. The raw calls are the class [Kernel] of Event.v; a
    call that moves data out takes fuel, which theorems bound by the answers [EAGAIN] that
    the kernel can still give. *)
From S2P Require Import Prelude TimeWheel Event.
Local Open Scope Z_scope.
Local Open Scope monad_scope.

Definition EWOULDBLOCK : Z := EAGAIN.
Definition EALREADY : Z := 114.
Definition EINPROGRESS : Z := 115.

Definition set_user_flags (v : Z) (ifd : inner_fd) : inner_fd :=
  mk_ifd (ifd_fd ifd) (flags ifd) v (ifd_task ifd) (timeout ifd) (error ifd).
Definition set_both_flags (v : Z) (ifd : inner_fd) : inner_fd :=
  mk_ifd (ifd_fd ifd) v v (ifd_task ifd) (timeout ifd) (error ifd).
Definition set_timeout (v : Z) (ifd : inner_fd) : inner_fd :=
  mk_ifd (ifd_fd ifd) (flags ifd) (user_flags ifd) (ifd_task ifd) v (error ifd).

Section hooks.
Context {K : Type} `{!Kernel K}.

Definition co_enable_hook : M K unit := set_hook true.
Definition co_disable_hook : M K unit := set_hook false.

(** The case [F_SETFL] under the hook. *)
Definition fcntl_setfl (fd arg : Z) (o : option inner_fd) : M K Z :=
  o <- (if bool_decide (o = None) && has arg O_NONBLOCK
        then ifd <- new_inner_fd fd;; ret (Some ifd) else ret o);;
  match o with
  | None => panic
  | Some ifd =>
      if negb (has arg O_NONBLOCK) then
        update_ifd fd (set_user_flags arg);;
        call (k_fcntl fd F_SETFL (Z.lor arg O_NONBLOCK))
      else if bool_decide (user_flags ifd = arg) then ret 0
      else if bool_decide (flags ifd = arg) then
        update_ifd fd (set_user_flags (flags ifd));; ret 0
      else
        r <- call (k_fcntl fd F_SETFL arg);;
        (if bool_decide (r = 0) then update_ifd fd (set_both_flags arg) else ret tt);;
        ret r
  end.

Definition fcntl (fd : Z) (cmd : fcntl_cmd) (arg : Z) : M K Z :=
  if bool_decide (fd < 0) then set_errno EBADF;; ret (-1)
  else
    o <- get_inner_fd fd;;
    h <- get hook;;
    match cmd with
    | F_DUPFD_CLOEXEC | F_DUPFD =>
        r <- call (k_fcntl fd cmd arg);;
        (if bool_decide (0 < r) && h && (match o with Some ifd => has (flags ifd) O_NONBLOCK | None => false end)
         then new_inner_fd r;; ret tt else ret tt);;
        ret r
    | F_GETFL =>
        match o with
        | Some ifd => if h then ret (user_flags ifd) else call (k_fcntl fd cmd arg)
        | None => call (k_fcntl fd cmd arg)
        end
    | F_SETFL => if h then fcntl_setfl fd arg o else call (k_fcntl fd cmd arg)
    | F_OTHER _ => ret (-1)
    | _ => call (k_fcntl fd cmd arg)
    end.

Definition in_set_nonblock (sockfd : Z) : M K Z :=
  co_disable_hook;;
  uf <- fcntl sockfd F_GETFL 0;;
  co_enable_hook;;
  r <- fcntl sockfd F_SETFL (Z.lor uf O_NONBLOCK);;
  if bool_decide (r < 0) then ret (-1)
  else update_ifd sockfd (set_user_flags uf);; ret 0.

Definition socket (domain type protocol : Z) : M K Z :=
  sockfd <- call (k_socket domain type protocol);;
  h <- get hook;;
  if bool_decide (sockfd < 0) || negb h then ret sockfd
  else in_set_nonblock sockfd;; ret sockfd.

Definition listen (sockfd backlog : Z) : M K Z :=
  o <- get_inner_fd sockfd;;
  h <- get hook;;
  (if h && bool_decide (o <> None) then update_ifd sockfd (set_timeout (-1)) else ret tt);;
  call (k_listen sockfd backlog).

(** Whether the call on [fd] goes to the raw function at once. *)
Definition falls_through (fd : Z) : M K bool :=
  h <- get hook;;
  if negb h then ret true
  else
    o <- get_inner_fd fd;;
    ret (match o with Some ifd => negb (has (flags ifd) O_NONBLOCK) | None => true end).

Definition connect (sockfd address : Z) : M K Z :=
  raw <- falls_through sockfd;;
  if (raw : bool) then call (k_connect sockfd address)
  else
    r <- call (k_connect sockfd address);;
    e <- get errno;;
    if bool_decide (r = -1) && (bool_decide (e = EALREADY) || bool_decide (e = EINPROGRESS)) then
      r <- event_poll sockfd (Z.lor EPOLLOUT (Z.lor EPOLLRDHUP EPOLLERR));;
      if bool_decide (r <> 0) then ret (-1)
      else
        m <- get fds;;
        match m !! sockfd with
        | None => panic
        | Some isfd =>
            if has (error isfd) IEWRITE then
              k <- get kern;;
              set_errno (k_so_error sockfd k);;
              ret (if bool_decide (k_so_error sockfd k = 0) then 0 else -1)
            else ret r
        end
    else ret r.

Definition accept (sockfd : Z) : M K Z :=
  raw <- falls_through sockfd;;
  if (raw : bool) then call (k_accept sockfd)
  else
    r <- call (k_accept sockfd);;
    e <- get errno;;
    if bool_decide (r < 0) then
      if negb (bool_decide (e = EAGAIN)) && negb (bool_decide (e = EWOULDBLOCK)) then ret r
      else
        p <- event_poll sockfd (Z.lor EPOLLIN (Z.lor EPOLLRDHUP (Z.lor EPOLLERR EPOLLET)));;
        if bool_decide (p <> 0) then ret p
        else
          r <- call (k_accept sockfd);;
          if bool_decide (r < 0) then ret r
          else in_set_nonblock r;; ret r
    else in_set_nonblock r;; ret r.

Definition close (fd : Z) : M K Z :=
  h <- get hook;;
  if negb h then call (k_close fd)
  else
    o <- get_inner_fd fd;;
    (if bool_decide (o <> None) then delete_inner_fd fd else ret tt);;
    call (k_close fd).

(** [close_all_inner_fd] of inner_fd.c, which closes through the hook; [n] entries from [i]. *)
Fixpoint close_inner_fds (n : nat) (i : Z) : M K unit :=
  match n with
  | O => ret tt
  | S n =>
      m <- get fds;;
      match m !! i with Some ifd => close (ifd_fd ifd);; ret tt | None => ret tt end;;
      close_inner_fds n (i + 1)
  end.
Definition close_all_inner_fd : M K unit := close_inner_fds (Z.to_nat MAX_FD_NUM) 0.

Definition again (e : Z) : bool := bool_decide (e = EAGAIN) || bool_decide (e = EWOULDBLOCK).

(** [read] and the [recv] family have one body; [raw] is the raw call on the arguments.
    The result is truncated to the [int] that holds it. *)
Definition hooked_in (fd : Z) (raw : K -> Z * list Z * Z * K) : M K (Z * list Z) :=
  through <- falls_through fd;;
  if (through : bool) then call_in raw
  else
    x <- call_in raw;;
    e <- get errno;;
    if bool_decide (i32 x.1 = -1) && again e then
      r <- event_poll fd (Z.lor EPOLLIN (Z.lor EPOLLRDHUP EPOLLERR));;
      if bool_decide (r <> 0) then ret (-1, [])
      else
        x <- call_in raw;;
        if bool_decide (i32 x.1 = 0) then
          m <- get fds;;
          match m !! fd with
          | None => panic
          | Some ifd => ret (if has (error ifd) IERDHUP then (-1, []) else (i32 x.1, x.2))
          end
        else ret (i32 x.1, x.2)
    else ret (i32 x.1, x.2).

Definition read (fd n : Z) : M K (Z * list Z) := hooked_in fd (k_read fd n).
Definition recv (sockfd len flags : Z) : M K (Z * list Z) := hooked_in sockfd (k_recv sockfd len flags).
(** The address the kernel fills in is left out. *)
Definition recvfrom (sockfd len flags : Z) : M K (Z * list Z) := hooked_in sockfd (k_recv sockfd len flags).
Definition recvmsg (sockfd flags : Z) : M K (Z * list Z) := hooked_in sockfd (k_recvmsg sockfd flags).

Definition out_events : Z := Z.lor EPOLLOUT (Z.lor EPOLLRDHUP (Z.lor EPOLLERR EPOLLET)).

(** The inner loop: [inl] the result to return, [inr] the [len] to go on with. *)
Fixpoint drain (fuel : nat) (raw : list Z -> K -> Z * Z * K) (buffer : list Z) (n len : Z) : M K (Z + Z) :=
  match fuel with
  | O => panic
  | S fuel =>
      if bool_decide (u64 len < n) then
        r <- call (raw (drop (Z.to_nat len) buffer));;
        e <- get errno;;
        if bool_decide (i32 r < 0) then ret (if again e then inr len else inl (i32 r))
        else
          match cint (len + i32 r) with
          | Some len => drain fuel raw buffer n len
          | None => panic
          end
      else ret (inr len)
  end.

Fixpoint output_loop (fuel : nat) (raw : list Z -> K -> Z * Z * K) (fd : Z) (buffer : list Z) (n len : Z) : M K Z :=
  match fuel with
  | O => panic
  | S fuel =>
      x <- drain (S fuel) raw buffer n len;;
      match x with
      | inl r => ret r
      | inr len =>
          if negb (bool_decide (u64 len < n)) then ret len
          else
            r <- event_poll fd out_events;;
            if bool_decide (r <> 0) then ret (-1) else output_loop fuel raw fd buffer n len
      end
  end.

(** [write], [send] and [sendto] have one body. *)
Definition hooked_out (fuel : nat) (fd : Z) (raw : list Z -> K -> Z * Z * K) (buffer : list Z) : M K Z :=
  through <- falls_through fd;;
  if (through : bool) then call (raw buffer)
  else output_loop fuel raw fd buffer (Z.of_nat (length buffer)) 0.

Definition write (fuel : nat) (fd : Z) (buffer : list Z) : M K Z := hooked_out fuel fd (k_write fd) buffer.
Definition send (fuel : nat) (sockfd : Z) (buf : list Z) (flags : Z) : M K Z :=
  hooked_out fuel sockfd (fun bs => k_send sockfd bs flags) buf.
Definition sendto (fuel : nat) (sockfd : Z) (buf : list Z) (flags dest_addr : Z) : M K Z :=
  hooked_out fuel sockfd (fun bs => k_sendto sockfd bs flags dest_addr) buf.

(** sys_helper.c; [None] is the null message. *)
Definition get_msg_len (msg : option (list (list Z))) : Z :=
  match msg with
  | None => -1
  | Some iov => foldl (fun len v => i32 (u64 (u64 len + Z.of_nat (length v)))) 0 iov
  end.

(** The whole message is handed over again in every round. *)
Definition sendmsg (fuel : nat) (sockfd : Z) (msg : list (list Z)) (flags : Z) : M K Z :=
  through <- falls_through sockfd;;
  if (through : bool) then call (k_sendmsg sockfd msg flags)
  else
    let n := get_msg_len (Some msg) in
    if bool_decide (n < 0) then call (k_sendmsg sockfd msg flags)
    else output_loop fuel (fun _ => k_sendmsg sockfd msg flags) sockfd [] n 0.
End hooks.

(** ** Laws of the raw output calls *)
(** [raw] appends what it takes to the stream [sent] and takes something or fails; a
    kernel that answers [EAGAIN] loses [patience], so it cannot do that for ever. *)
Class OutputLaws {K} (interest : K -> gset Z) (R : K -> K -> Prop) (raw : list Z -> K -> Z * Z * K)
    (sent : K -> list Z) (patience : K -> nat) := {
  out_raw bs k : bs <> [] -> Z.of_nat (length bs) <= INT_MAX ->
    exists r e k', raw bs k = (r, e, k') /\ interest k' = interest k /\ (patience k' <= patience k)%nat /\
      ((0 < r <= Z.of_nat (length bs) /\ sent k' = sent k ++ take (Z.to_nat r) bs) \/
       (r = -1 /\ sent k' = sent k /\ (again e = true -> (patience k' < patience k)%nat)));
  out_R k k' : R k k' -> sent k' = sent k /\ (patience k' <= patience k)%nat
}.

Section output.
Context {K : Type} (interest : K -> gset Z) (R : K -> K -> Prop) `{HL : EpollLaws K interest R}.
Context (raw : list Z -> K -> Z * Z * K) (sent : K -> list Z) (patience : K -> nat).
Context `{HO : !OutputLaws interest R raw sent patience}.
Context (fd : Z) (ifd : inner_fd) (bs base : list Z) (most : nat).
Context (Hsleep : sleeps_well R fd) (Hlen : Z.of_nat (length bs) <= INT_MAX).
Abbreviation n := (Z.of_nat (length bs)).

(** The first [len] bytes have been handed over; the patience of the kernel is at most [most]. *)
Record handed (len : Z) (s : thread K) : Prop := {
  handed_len : 0 <= len <= n;
  handed_sent : sent (kern s) = base ++ take (Z.to_nat len) bs;
  handed_idle : idle interest fd ifd s;
  handed_hook : hook s = true;
  handed_most : (patience (kern s) <= most)%nat
}.

Lemma idle_call s k e f :
  idle interest fd ifd s -> interest k = interest (kern s) ->
  idle interest fd ifd
    (mk_thread k (fds s) (wheel_of s) (if f : bool then e else errno s) (woken s) (hook s) (self s)).
Proof. intros [[] ? ?] Hk. constructor; [by constructor|done|by rewrite <- Hk in *]. Qed.

Lemma drain_runs fuel : forall len s,
  handed len s -> (Z.to_nat (n - len) < fuel)%nat ->
  runs (drain fuel raw bs n len) s (fun x s' =>
    match x with
    | inl r => r = -1 /\ exists j, j < n /\ handed j s'
    | inr len' => handed len' s' /\ (patience (kern s') <= patience (kern s))%nat /\
        (len' < n -> (patience (kern s') < patience (kern s))%nat)
    end).
Proof.
  induction fuel as [|fuel IH]; intros len s Hh Hf; [lia|].
  destruct Hh as [Hl Hs Hi Hh Hp]. pose proof Hlen as Hn. unfold INT_MAX in Hn. cbn [drain].
  rewrite u64_small by lia. case_bool_decide as Hlt.
  2: { apply runs_ret. split; [by constructor|]. split; [done|lia]. }
  assert (drop (Z.to_nat len) bs <> []) as Hne.
  { intros E. apply (f_equal length) in E. rewrite length_drop in E. cbn in E. lia. }
  destruct (out_raw (drop (Z.to_nat len) bs) (kern s) Hne) as (r & e & k & E & Ek & Ep & Hc).
  { rewrite length_drop. unfold INT_MAX. lia. }
  rewrite length_drop in Hc. eapply runs_bind with (Q := fun x s1 => x = r /\ s1 = mk_thread k (fds s) (wheel_of s)
    (if bool_decide (r < 0) then e else errno s) (woken s) (hook s) (self s)).
  { unfold runs, call. rewrite E. by eexists _, _. }
  intros ? s1 [-> ->]. cbn beta. apply runs_get. cbn [errno].
  destruct Hc as [[Hr Hsent] | (-> & Hsent & Hagain)].
  - rewrite i32_small by lia. rewrite (bool_decide_eq_false_2 (r < 0)) by lia.
    rewrite cint_ok by (unfold INT_MAX; lia). eapply runs_conseq; [apply IH|].
    + constructor; [lia| |by apply (idle_call s k e false)|done|cbn; lia]. cbn [kern]. rewrite Hsent, Hs, <- app_assoc. f_equal.
      rewrite Z2Nat.inj_add by lia. by rewrite <- take_take_drop.
    + lia.
    + intros x s' Hx. destruct x; [done|]. cbn [kern] in Hx. destruct Hx as (? & ? & ?).
      split; [done|]. split; [lia|]. intros ?. assert (patience (kern s') < patience k)%nat; [auto|lia].
  - rewrite i32_small by lia. rewrite !(bool_decide_eq_true_2 (-1 < 0)) by lia.
    assert (handed len (mk_thread k (fds s) (wheel_of s) e (woken s) (hook s) (self s))) as Hh'.
    { constructor; [done|by cbn; rewrite Hsent|by apply (idle_call s k e true)|done|cbn; lia]. }
    apply runs_ret. destruct (again e); [|by eauto]. cbn. split; [done|]. split; [lia|auto].
Qed.

Lemma output_loop_runs fuel : forall len s,
  handed len s -> (patience (kern s) + length bs < fuel)%nat ->
  runs (output_loop fuel raw fd bs n len) s (fun r s' =>
    (r = n /\ handed n s') \/ (r = -1 /\ exists j, j < n /\ handed j s')).
Proof.
  induction fuel as [|fuel IH]; intros len s Hh Hf; [lia|]. cbn [output_loop].
  eapply runs_bind; [apply drain_runs; [done|destruct Hh; lia]|].
  intros [r|len'] s1; cbn beta iota.
  { intros [-> Hj]. apply runs_ret. by right. }
  intros (Hh1 & Hp1 & Hlt). pose proof (handed_len _ _ Hh1). pose proof Hlen as Hn. unfold INT_MAX in Hn.
  rewrite u64_small by lia. case_bool_decide as Hd; cbn [negb].
  2: { apply runs_ret. left. assert (len' = n) as -> by lia. done. }
  destruct Hh1 as [Hl1 Hs1 Hi1 Hk1 Hm1].
  eapply runs_bind; [by apply event_poll_runs|]. intros r s2 (Hi2 & Hk2 & _ & HR & Hr & _). cbn beta.
  destruct (out_R _ _ HR) as [HsR HpR].
  assert (handed len' s2) as Hh2 by (constructor; [done|by rewrite HsR|done|congruence|lia]).
  destruct Hr as [->| ->]; cbn.
  - apply IH; [done|]. specialize (Hlt Hd). lia.
  - apply runs_ret. right. eauto.
Qed.

Lemma hooked_out_runs fuel s :
  idle interest fd ifd s -> hook s = true -> has (flags ifd) O_NONBLOCK = true ->
  sent (kern s) = base -> (patience (kern s) <= most)%nat -> (most + length bs < fuel)%nat ->
  runs (hooked_out fuel fd raw bs) s (fun r s' =>
    (r = n /\ handed n s') \/ (r = -1 /\ exists j, j < n /\ handed j s')).
Proof.
  intros Hi Hh Hnb Hb Hp Hf. unfold hooked_out, falls_through. destruct Hi as [Hr Hg Hni]. pose proof Hr as [Hv (i & E & Hc) _ _ _].
  apply runs_assoc, runs_get. rewrite Hh. cbn [negb].
  apply runs_assoc, runs_get_inner_fd; [done|]. rewrite E.
  eapply runs_bind; [by apply runs_ret with (Q := fun b s' => b = false /\ s' = s);
    destruct Hc as (_ & -> & _); rewrite Hnb|].
  intros ? ? [-> ->]. cbn beta iota. apply output_loop_runs; [|lia].
  constructor; [lia|by rewrite Hb, app_nil_r|done..].
Qed.
End output.

(** C2. On a non-blocking descriptor the hooked [write] returns, however the kernel splits
    and delays it: with the length after every byte went out once and in order, or with -1
    after a proper prefix did. The fuel covers the patience of the kernel and the bytes. *)
Theorem write_in_order (K : Type) `{Kernel K} (interest : K -> gset Z) (R : K -> K -> Prop)
    `{!EpollLaws K interest R} (fd : Z) (sent : K -> list Z) (patience : K -> nat)
    `{!OutputLaws interest R (k_write fd) sent patience} (ifd : inner_fd) (bs : list Z) (s : thread K) (fuel : nat) :
  sleeps_well R fd -> idle interest fd ifd s -> hook s = true -> has (flags ifd) O_NONBLOCK = true ->
  Z.of_nat (length bs) <= INT_MAX -> (patience (kern s) + length bs < fuel)%nat ->
  exists r s', write fuel fd bs s = Some (r, s') /\ idle interest fd ifd s' /\
    ((r = Z.of_nat (length bs) /\ sent (kern s') = sent (kern s) ++ bs) \/
     (r = -1 /\ exists j, (j < length bs)%nat /\ sent (kern s') = sent (kern s) ++ take j bs)).
Proof.
  intros Hs Hi Hh Hnb Hlen Hf.
  destruct (hooked_out_runs interest R (k_write fd) sent patience fd ifd bs (sent (kern s)) (patience (kern s)) Hs Hlen fuel s)
    as (r & s' & E & Hc); [done..|].
  exists r, s'. split; [exact E|]. destruct Hc as [[-> [_ Hsent Hi' _ _]]|(-> & j & Hj & [Hl Hsent Hi' _ _])].
  - split; [done|]. left. rewrite Nat2Z.id, firstn_all in Hsent. done.
  - split; [done|]. right. split; [done|]. exists (Z.to_nat j). split; [lia|done].
Qed.

#[export] Instance toy_out fd : OutputLaws t_interest toy_R (k_write fd) t_sent (fun k => length (t_out k)).
Proof.
  constructor.
  - intros bs k Hne _. cbn [k_write toy_kernel]. unfold toy_write.
    assert (0 < length bs)%nat as Hl by (destruct bs; [done|cbn; lia]).
    destruct (t_out k) as [|c out]; cbn [tail].
    + eexists _, _, _. split; [done|]. cbn. split_and!; [done|lia|]. left. rewrite Nat2Z.id. split; [lia|done].
    + case_bool_decide as Hn; eexists _, _, _; (split; [done|]); cbn; (split_and!; [done|lia|]).
      * right. rewrite app_nil_r. split_and!; [done..|lia].
      * left. rewrite Nat2Z.id. split; [lia|done].
  - intros k k'. unfold toy_R, toy_io. intros [= _ _ _ -> -> _]. split; [done|lia].
Qed.

Lemma write_in_order_witness :
  exists s', write 20 5 [10; 20; 30; 40; 50] (toy_ready (mk_toy ∅ ∅ 3 [] [2; 0; 0; 1] [7] IEWRITE [])) = Some (5, s') /\
    t_sent (kern s') = [7; 10; 20; 30; 40; 50].
Proof.
  destruct (write_in_order toy t_interest toy_R 5 t_sent (fun k => length (t_out k)) toy_fd [10; 20; 30; 40; 50]
    (toy_ready (mk_toy ∅ ∅ 3 [] [2; 0; 0; 1] [7] IEWRITE [])) 20 (toy_sleeps_well 5) (toy_idle _ (not_elem_of_empty 5)))
    as (r & s' & E & _ & [[-> Hs]|[-> _]]); [done|done|done|cbn; lia| |].
  - exists s'. split; [exact E|exact Hs].
  - exfalso. assert (fst <$> write 20 5 [10; 20; 30; 40; 50] (toy_ready (mk_toy ∅ ∅ 3 [] [2; 0; 0; 1] [7] IEWRITE []))
      = Some 5) as E5 by (by vm_compute). rewrite E in E5. cbn in E5. discriminate E5.
Defined.

(** ** A message sent in parts *)
(** A message of which the kernel first takes a part is handed over again from its start:
    [sendmsg] then reports more bytes than the message has, and the peer sees the part twice. *)
Theorem sendmsg_resends (K : Type) `{Kernel K} (fd fl j : Z) (msg : list (list Z)) (ifd : inner_fd) (s : thread K)
    (k1 k2 : K) (e1 e2 : Z) (fuel : nat) :
  is_fd_valid fd = true -> fds s !! fd = Some ifd -> hook s = true -> has (flags ifd) O_NONBLOCK = true ->
  get_msg_len (Some msg) = Z.of_nat (length (concat msg)) -> 0 < j < Z.of_nat (length (concat msg)) ->
  j + Z.of_nat (length (concat msg)) <= INT_MAX -> (2 < fuel)%nat ->
  k_sendmsg fd msg fl (kern s) = (j, e1, k1) ->
  k_sendmsg fd msg fl k1 = (Z.of_nat (length (concat msg)), e2, k2) ->
  exists s', sendmsg fuel fd msg fl s = Some (j + Z.of_nat (length (concat msg)), s') /\ kern s' = k2.
Proof.
  intros Hv E Hh Hnb Hm Hj Hle Hf E1 E2. unfold INT_MAX in Hle. set (n := Z.of_nat _) in *.
  enough (runs (sendmsg fuel fd msg fl) s (fun r s' => r = j + n /\ kern s' = k2)) as (r & s' & Er & -> & ?) by eauto.
  unfold sendmsg, falls_through. apply runs_assoc, runs_get. rewrite Hh. cbn [negb].
  apply runs_assoc, runs_get_inner_fd; [done|]. rewrite E.
  unfold bind at 1, ret at 1, runs. rewrite Hnb. cbn [negb]. rewrite Hm, bool_decide_eq_false_2 by lia.
  destruct fuel as [|[|[|fuel]]]; try lia. cbn [output_loop drain].
  unfold bind, call, get, after. cbn [drain].
  rewrite u64_small, bool_decide_eq_true_2 by lia. rewrite E1. cbn [errno kern].
  rewrite i32_small, bool_decide_eq_false_2 by lia. rewrite cint_ok by (unfold INT_MAX; lia).
  rewrite u64_small, bool_decide_eq_true_2 by lia. cbn [kern]. rewrite E2. cbn [errno kern].
  rewrite i32_small, (bool_decide_eq_false_2 (n < 0)) by lia. rewrite cint_ok by (unfold INT_MAX; lia).
  rewrite !u64_small, !bool_decide_eq_false_2 by lia. cbn [negb]. unfold ret.
  cbn. rewrite u64_small, bool_decide_eq_false_2 by lia. cbn. eexists _, _. split; [done|]. done.
Qed.

Lemma sendmsg_resends_witness :
  exists s', sendmsg 5 5 [[1; 2]; [3]] 0 (toy_ready (mk_toy ∅ ∅ 3 [] [2] [] IEWRITE [])) = Some (5, s') /\
    t_sent (kern s') = [1; 2; 1; 2; 3].
Proof.
  destruct (sendmsg_resends toy 5 0 2 [[1; 2]; [3]] toy_fd (toy_ready (mk_toy ∅ ∅ 3 [] [2] [] IEWRITE []))
    (mk_toy ∅ ∅ 3 [] [] [1; 2] IEWRITE []) (mk_toy ∅ ∅ 3 [] [] [1; 2; 1; 2; 3] IEWRITE []) 0 0 5)
    as (s' & E & Ek); try done; try lia; try zeval.
  exists s'. split; [exact E|by rewrite Ek].
Defined.

(** ** Reading *)
(** [raw] takes the bytes it returns off the stream [consumed], [lim] at most. *)
Class InputLaws {K} (interest : K -> gset Z) (R : K -> K -> Prop) (raw : K -> Z * list Z * Z * K) (lim : Z)
    (consumed : K -> list Z) := {
  in_lim : lim <= INT_MAX;
  in_raw k : exists r bs e k', raw k = (r, bs, e, k') /\ interest k' = interest k /\
    ((r = Z.of_nat (length bs) /\ r <= lim /\ consumed k' = consumed k ++ bs) \/
     (r = -1 /\ bs = [] /\ consumed k' = consumed k));
  in_R k k' : R k k' -> consumed k' = consumed k
}.

Section input.
Context {K : Type} (interest : K -> gset Z) (R : K -> K -> Prop) `{HL : EpollLaws K interest R}.
Context (raw : K -> Z * list Z * Z * K) (lim : Z) (consumed : K -> list Z).
Context `{HI : !InputLaws interest R raw lim consumed}.
Context (fd : Z) (ifd : inner_fd) (Hsleep : sleeps_well R fd).
(** Something about the kernel that neither the call nor waiting changes. *)
Context (kept : K -> Prop) (kept_raw : forall k, kept k -> kept (raw k).2).
Context (kept_R : forall k k', R k k' -> kept k -> kept k').

(** [x] is what the caller gets for what left the stream between [s] and [s']. *)
Definition received (s : thread K) (x : Z * list Z) (s' : thread K) : Prop :=
  (idle interest fd ifd s' /\ hook s' = hook s /\ (kept (kern s) -> kept (kern s'))) /\
  consumed (kern s') = consumed (kern s) ++ x.2 /\
  ((x.1 = Z.of_nat (length x.2) /\ x.1 <= lim) \/ x = (-1, [])).

Lemma runs_raw s :
  idle interest fd ifd s -> runs (call_in raw) s (received s).
Proof.
  intros Hi. destruct (in_raw (kern s)) as (r & bs & e & k & E & Ek & Hc). pose proof (kept_raw (kern s)) as Hkept.
  unfold runs, call_in. rewrite E in *. eexists _, _. split; [done|].
  split; [split_and!; [by apply (idle_call interest fd ifd s k e)|done|done]|].
  cbn [kern fst snd]. destruct Hc as [(? & ? & ?)|(-> & -> & ->)]; [by auto|]. rewrite app_nil_r. auto.
Qed.

Lemma received_int s x s' : received s x s' -> i32 x.1 = x.1.
Proof. intros (_ & _ & [[E Hle]| ->]); [|done]. pose proof in_lim. unfold INT_MAX in *. rewrite i32_small; lia. Qed.

Lemma received_same s x s1 s2 :
  received s x s1 -> idle interest fd ifd s2 -> hook s2 = hook s1 -> R (kern s1) (kern s2) -> received s x s2.
Proof.
  intros ((_ & Hh & Hk) & Hc & Hx) Hi Hh2 HR. split; [split_and!; [done|by rewrite Hh2|]|by rewrite (in_R _ _ HR)].
  intros Hs. by eapply kept_R, Hk.
Qed.

Lemma hooked_in_runs s :
  idle interest fd ifd s -> hook s = true -> has (flags ifd) O_NONBLOCK = true ->
  runs (hooked_in fd raw) s (received s).
Proof.
  intros Hi Hh Hnb. unfold hooked_in, falls_through. pose proof Hi as [[Hv (i & E & Hc) _ _ _] _ _].
  apply runs_assoc, runs_get. rewrite Hh. cbn [negb].
  apply runs_assoc, runs_get_inner_fd; [done|]. rewrite E.
  eapply runs_bind; [by apply runs_ret with (Q := fun b s' => b = false /\ s' = s);
    destruct Hc as (_ & -> & _); rewrite Hnb|].
  intros ? ? [-> ->]. cbn beta iota.
  eapply runs_bind; [by apply runs_raw|]. intros x s1 Hx. cbn beta. apply runs_get.
  rewrite (received_int _ _ _ Hx).
  destruct (bool_decide (x.1 = -1) && again (errno s1)) eqn:Eb.
  2: { apply runs_ret. by destruct x. }
  apply andb_true_iff in Eb as [Em%bool_decide_eq_true_1 _].
  assert (x = (-1, [])) as -> by (destruct Hx as (_ & _ & [[? _]|?]); [lia|done]).
  eapply runs_bind; [apply (event_poll_runs interest R fd _ ifd); [done|apply Hx]|].
  intros r s2 (Hi2 & Hh2 & _ & HR & Hr & _). cbn beta. pose proof (received_same _ _ _ _ Hx Hi2 Hh2 HR) as H2.
  destruct Hr as [->| ->]; cbn [bool_decide]; [|by apply runs_ret].
  rewrite bool_decide_eq_false_2 by (intros ?; done).
  eapply runs_bind; [by apply runs_raw|]. intros x s3 H3. cbn beta. rewrite (received_int _ _ _ H3).
  assert (received s x s3) as Hx3.
  { destruct H2 as ((_ & Eh2 & Hk2) & E2 & _), H3 as ((? & Eh3 & Hk3) & E3 & ?).
    split; [split_and!; [done|by rewrite Eh3|by auto]|]. by rewrite E3, E2, app_nil_r. }
  case_bool_decide as H0; [|apply runs_ret; by destruct x].
  apply runs_get. pose proof Hx3 as [[[[_ (i3 & E3 & _) _ _ _] _ _] _] _]. rewrite E3. apply runs_ret.
  assert (x = (0, [])) as ->.
  { destruct x as [r [|b bs]]; cbn in *; [by subst|]. destruct Hx3 as (_ & _ & [[??]|?]); cbn in *; [lia|done]. }
  destruct (has (error i3) IERDHUP); [|done]. destruct Hx3 as (? & Ec & ?). split; [done|]. split; [exact Ec|by right].
Qed.
End input.

(** C31. The hooked [read] returns with exactly the bytes that left the stream, or with -1 and
    none taken, also when it had to wait in between. *)
Theorem read_loses_nothing (K : Type) `{Kernel K} (interest : K -> gset Z) (R : K -> K -> Prop)
    `{!EpollLaws K interest R} (fd n : Z) (consumed : K -> list Z)
    `{!InputLaws interest R (k_read fd n) n consumed} (ifd : inner_fd) (s : thread K) :
  sleeps_well R fd -> idle interest fd ifd s -> hook s = true -> has (flags ifd) O_NONBLOCK = true ->
  exists r bs s', read fd n s = Some ((r, bs), s') /\ idle interest fd ifd s' /\
    consumed (kern s') = consumed (kern s) ++ bs /\ ((r = Z.of_nat (length bs) /\ r <= n) \/ (r = -1 /\ bs = [])).
Proof.
  intros Hs Hi Hh Hnb.
  destruct (hooked_in_runs interest R (k_read fd n) n consumed fd ifd Hs (fun _ => True) ltac:(done) ltac:(done) s Hi Hh Hnb)
    as ([r bs] & s' & E & [Hi' _] & Hc & Hx).
  exists r, bs, s'. split; [exact E|]. split; [done|]. split; [exact Hc|].
  cbn in Hx. naive_solver.
Qed.

#[export] Instance toy_in fd n :
  TCEq (bool_decide (0 <= n <= INT_MAX)) true -> InputLaws t_interest toy_R (k_read fd n) n t_got.
Proof.
  intros Hn%TCEq_eq%bool_decide_eq_true_1. constructor; [lia| |intros k k'; unfold toy_R, toy_io; by intros [=]].
  intros k. cbn [k_read toy_kernel]. unfold toy_read. destruct (t_in k) as [|[bs|] rest].
  - eexists _, _, _, _. split; [done|]. split; [done|]. left. cbn. rewrite app_nil_r. unfold INT_MAX. split_and!; [done|lia|done].
  - eexists _, _, _, _. split; [done|]. split; [done|]. left. cbn. rewrite length_take. split_and!; [done|lia|done].
  - eexists _, _, _, _. split; [done|]. split; [done|]. right. cbn. by rewrite app_nil_r.
Qed.

(** End of file with the hang-up seen: reported as an error, and the [errno] is the
    [EAGAIN] of the first attempt. *)
Example read_eof_is_error :
  (fun x => (x.1, errno x.2)) <$> read 5 100 (toy_ready (mk_toy ∅ ∅ 3 [None] [] [] (IEREAD + IERDHUP) [])) =
    Some ((-1, []), EAGAIN) /\
  fst <$> read 5 100 (toy_ready (mk_toy ∅ ∅ 3 [] [] [] (IEREAD + IERDHUP) [])) = Some (0, []).
Proof. by vm_compute. Qed.

Lemma read_loses_nothing_witness :
  exists s', read 5 100 (toy_ready (mk_toy ∅ ∅ 3 [None; Some [1; 2; 3]] [] [] IEREAD [])) = Some ((3, [1; 2; 3]), s') /\
    t_got (kern s') = [1; 2; 3].
Proof.
  destruct (read_loses_nothing toy t_interest toy_R 5 100 t_got toy_fd
    (toy_ready (mk_toy ∅ ∅ 3 [None; Some [1; 2; 3]] [] [] IEREAD [])) (toy_sleeps_well 5) (toy_idle _ (not_elem_of_empty 5)))
    as (r & bs & s' & E & _ & Hc & _); [done..|].
  assert (fst <$> read 5 100 (toy_ready (mk_toy ∅ ∅ 3 [None; Some [1; 2; 3]] [] [] IEREAD [])) =
    Some (3, [1; 2; 3])) as Er by (by vm_compute).
  rewrite E in Er. cbn in Er. injection Er as -> ->. exists s'. split; [exact E|exact Hc].
Defined.

(** ** Descriptor flags *)
Lemma has_lor e b : b <> 0 -> has (Z.lor e b) b = true.
Proof.
  intros Hb. unfold has. apply bool_decide_eq_true_2.
  replace (Z.land (Z.lor e b) b) with b; [done|]. apply Z.bits_inj'. intros n Hn.
  rewrite Z.land_spec, Z.lor_spec. destruct (Z.testbit e n), (Z.testbit b n); done.
Qed.

Lemma bind_inv {K A B} (m : M K A) (f : A -> M K B) s y s' :
  bind m f s = Some (y, s') -> exists x s1, m s = Some (x, s1) /\ f x s1 = Some (y, s').
Proof. unfold bind. destruct (m s) as [[x s1]|]; [|done]. eauto. Qed.

(** Take a defined run apart. *)
Ltac inv_run :=
  repeat match goal with
  | H : bind (get ?f) ?g ?s = Some _ |- _ => change (g (f s) s = Some _) in H; cbn beta in H
  | H : bind (put ?f) ?g ?s = Some _ |- _ => change (g tt (f s) = Some _) in H; cbn beta in H
  | H : bind _ _ _ = Some _ |- _ => apply bind_inv in H as (? & ? & ? & H)
  | H : ret _ _ = Some _ |- _ => injection H as ? ?; subst
  | H : get _ _ = Some _ |- _ => injection H as ? ?; subst
  | H : put _ _ = Some _ |- _ => injection H as ? ?; subst
  | H : panic _ = Some _ |- _ => discriminate H
  | H : (if ?b then _ else _) _ = Some _ |- _ => let E := fresh "B" in destruct b eqn:E
  end.

Lemma get_inner_fd_valid {K} fd (s s' : thread K) o :
  get_inner_fd fd s = Some (o, s') -> is_fd_valid fd = true -> o = fds s !! fd /\ s' = s.
Proof. unfold get_inner_fd. intros E Hv. rewrite Hv in E. by injection E as <- <-. Qed.

Lemma hook_call_inv {K} (f : K -> Z * Z * K) (s s' : thread K) r :
  call f s = Some (r, s') -> fds s' = fds s /\ hook s' = hook s /\ r = (f (kern s)).1.1.
Proof. unfold call. destruct (f (kern s)) as [[??]?]. by intros [= <- <-]. Qed.

Lemma update_ifd_inv {K} fd g (s s' : thread K) x :
  update_ifd fd g s = Some (x, s') ->
  exists ifd, fds s !! fd = Some ifd /\ fds s' = <[fd := g ifd]> (fds s) /\ hook s' = hook s /\ kern s' = kern s.
Proof.
  unfold update_ifd. intros H. change (match fds s !! fd with Some ifd => set_fds (<[fd := g ifd]> (fds s)) | None => panic end s = Some (x, s')) in H.
  destruct (fds s !! fd) as [ifd|]; [|done]. injection H as _ <-. by exists ifd.
Qed.

Lemma getfl_registered {K} `{!Kernel K} fd a (s : thread K) ifd :
  is_fd_valid fd = true -> hook s = true -> fds s !! fd = Some ifd ->
  fcntl fd F_GETFL a s = Some (user_flags ifd, s).
Proof.
  intros Hv Hh E. unfold fcntl, get_inner_fd. unfold is_fd_valid in Hv. pose proof Hv as Hv'.
  apply andb_true_iff in Hv' as [H0%bool_decide_eq_true_1 _]. unfold INVALID_FD in H0.
  rewrite bool_decide_eq_false_2 by lia. unfold is_fd_valid. rewrite Hv.
  unfold bind, get, ret. by rewrite E, Hh.
Qed.

Lemma setfl_inv {K} `{!Kernel K} fd v o (s s' : thread K) :
  o = fds s !! fd -> hook s = true -> fcntl_setfl fd v o s = Some (0, s') ->
  hook s' = true /\ exists ifd, fds s' !! fd = Some ifd /\ user_flags ifd = v.
Proof.
  intros Ho Hh H. unfold fcntl_setfl in H. apply bind_inv in H as (o1 & s1 & H1 & H).
  assert (hook s1 = true /\ o1 = fds s1 !! fd) as [Hh1 Ho1].
  { destruct (bool_decide (o = None) && has v O_NONBLOCK); [|by injection H1 as <- <-].
    unfold new_inner_fd in H1. destruct (is_fd_valid fd); [|done]. injection H1 as <- <-. cbn.
    by rewrite lookup_insert_eq. }
  destruct o1 as [ifd|]; [|done]. destruct (has v O_NONBLOCK) eqn:Hv; cbn [negb] in H.
  - destruct (bool_decide (user_flags ifd = v)) eqn:B1.
    { injection H as <-. split; [done|]. exists ifd. by apply bool_decide_eq_true_1 in B1. }
    destruct (bool_decide (flags ifd = v)) eqn:B2.
    + apply bool_decide_eq_true_1 in B2. apply bind_inv in H as (? & s2 & (i & Ei & Ef & Hh2 & _)%update_ifd_inv & [= <-]).
      split; [congruence|]. rewrite Ef, lookup_insert_eq. by eexists.
    + apply bind_inv in H as (r & s2 & (Ef & Hh2 & _)%hook_call_inv & H).
      apply bind_inv in H as (? & s3 & H3 & [= -> ->]). cbn in H3.
      rewrite bool_decide_eq_true_2 in H3 by done. apply update_ifd_inv in H3 as (i & Ei & Ef3 & Hh3 & _).
      split; [congruence|]. rewrite Ef3, lookup_insert_eq. by eexists.
  - apply bind_inv in H as (? & s2 & (i & Ei & Ef & Hh2 & _)%update_ifd_inv & (Ef3 & Hh3 & _)%hook_call_inv).
    split; [congruence|]. rewrite Ef3, Ef, lookup_insert_eq. by eexists.
Qed.

(** Under the hook, the flags that [fcntl] sets with success are the ones it reports
    afterwards, although the descriptor stays non-blocking underneath. *)
Theorem fcntl_flags_round_trip (K : Type) `{Kernel K} (fd v a : Z) (s s' : thread K) :
  is_fd_valid fd = true -> hook s = true -> fcntl fd F_SETFL v s = Some (0, s') ->
  fcntl fd F_GETFL a s' = Some (v, s').
Proof.
  intros Hv Hh H1. unfold fcntl in H1. destruct (bool_decide (fd < 0)); [by apply bind_inv in H1 as (? & ? & _ & ?)|].
  apply bind_inv in H1 as (o & s1 & Ho & H1). destruct (get_inner_fd_valid _ _ _ _ Ho Hv) as [-> ->].
  apply bind_inv in H1 as (h & s2 & [= <- <-] & H1). rewrite Hh in H1.
  destruct (setfl_inv fd v _ s s' eq_refl Hh H1) as (Hh' & ifd & E & <-).
  by apply getfl_registered.
Qed.

Lemma fcntl_flags_round_trip_witness :
  exists s', fcntl 5 F_SETFL 2050 (toy_thread (toy_flags {[5 := 2]} toy0)) = Some (0, s') /\
    fcntl 5 F_GETFL 0 s' = Some (2050, s').
Proof.
  pose proof (defined_default (0, toy_thread toy0) (fcntl 5 F_SETFL 2050 (toy_thread (toy_flags {[5 := 2]} toy0)))
    ltac:(by vm_compute)) as E.
  assert ((default (0, toy_thread toy0) (fcntl 5 F_SETFL 2050 (toy_thread (toy_flags {[5 := 2]} toy0)))).1 = 0)
    as E0 by (by vm_compute).
  destruct (default _ _) as [r s']. cbn in E0. subst r. exists s'. split; [exact E|].
  exact (fcntl_flags_round_trip toy 5 2050 0 (toy_thread (toy_flags {[5 := 2]} toy0)) s' eq_refl eq_refl E).
Defined.

(** ** The hooks wait only where the kernel does not *)
(** How the calls move the flags of the open descriptors. *)
Definition opens {K} (kflags : K -> gmap Z Z) (f : K -> Z * Z * K) : Prop :=
  forall k, kflags (f k).2 = kflags k \/
    (kflags k !! (f k).1.1 = None /\ exists v, kflags (f k).2 = <[(f k).1.1 := v]> (kflags k)).

Class FlagLaws (K : Type) `{Kernel K} (kflags : K -> gmap Z Z) := {
  fl_epoll op fd ev k : kflags (k_epoll_ctl op fd ev k).2 = kflags k;
  fl_listen fd b k : kflags (k_listen fd b k).2 = kflags k;
  fl_connect fd a k : kflags (k_connect fd a k).2 = kflags k;
  fl_read fd n k : kflags (k_read fd n k).2 = kflags k;
  fl_write fd bs k : kflags (k_write fd bs k).2 = kflags k;
  fl_setfl fd v k :
    ((k_fcntl fd F_SETFL v k).1.1 <> 0 /\ kflags (k_fcntl fd F_SETFL v k).2 = kflags k) \/
    exists v', kflags (k_fcntl fd F_SETFL v k).2 = <[fd := v']> (kflags k) /\
      has v' O_NONBLOCK = has v O_NONBLOCK;
  fl_dup fd cmd a : cmd = F_DUPFD \/ cmd = F_DUPFD_CLOEXEC -> opens kflags (k_fcntl fd cmd a);
  fl_fcntl fd cmd a k : cmd <> F_SETFL -> cmd <> F_DUPFD -> cmd <> F_DUPFD_CLOEXEC ->
    kflags (k_fcntl fd cmd a k).2 = kflags k;
  fl_socket d t p : opens kflags (k_socket d t p);
  fl_accept fd : opens kflags (k_accept fd);
  fl_close fd k : kflags (k_close fd k).2 = delete fd (kflags k)
}.

Section agree.
Context {K : Type} `{!Kernel K} (kflags : K -> gmap Z Z).

(** A descriptor registered as non-blocking is open and non-blocking in the kernel. *)
Definition agree (s : thread K) : Prop :=
  forall fd ifd, is_fd_valid fd = true -> fds s !! fd = Some ifd -> has (flags ifd) O_NONBLOCK = true ->
    exists v, kflags (kern s) !! fd = Some v /\ has v O_NONBLOCK = true.

Definition hooked (s : thread K) : Prop := agree s /\ hook s = true.

(** [m] keeps [P]. *)
Definition keeps (P : thread K -> Prop) {A} (m : M K A) : Prop :=
  forall s x s', P s -> m s = Some (x, s') -> P s'.

Lemma keeps_bind (P : thread K -> Prop) {A B} (m : M K A) (f : A -> M K B) :
  keeps P m -> (forall x, keeps P (f x)) -> keeps P (bind m f).
Proof. intros Hm Hf s x s' HP (y & s1 & E1 & E2)%bind_inv. eapply Hf, E2. by eapply Hm. Qed.
Lemma keeps_ret (P : thread K -> Prop) {A} (x : A) : keeps P (ret x).
Proof. by intros s y s' HP [= _ <-]. Qed.
Lemma keeps_get (P : thread K -> Prop) {A} (f : thread K -> A) : keeps P (get f).
Proof. by intros s y s' HP [= _ <-]. Qed.
Lemma keeps_panic (P : thread K -> Prop) {A} : keeps P (panic : M K A).
Proof. by intros s y s' HP. Qed.

(** Steps that leave table, kernel flags and hook alone. *)
Definition inert {A} (m : M K A) : Prop :=
  forall s x s', m s = Some (x, s') -> fds s' = fds s /\ kflags (kern s') = kflags (kern s) /\ hook s' = hook s.

Lemma inert_agree {A} (m : M K A) : inert m -> keeps agree m.
Proof. intros Hm s x s' Ha (Ef & Ek & _)%Hm. unfold agree. by rewrite Ef, Ek. Qed.
Lemma inert_hooked {A} (m : M K A) : inert m -> keeps hooked m.
Proof.
  intros Hm s x s' [Ha Hh] E. split; [by eapply inert_agree|]. destruct (Hm _ _ _ E) as (_ & _ & ->). done.
Qed.

Lemma inert_call f : (forall k, kflags (f k).2 = kflags k) -> inert (call f).
Proof. intros Hf s x s'. unfold call. specialize (Hf (kern s)). destruct (f (kern s)) as [[??]?]. by intros [= _ <-]. Qed.
Lemma inert_call_in {A} (f : K -> Z * A * Z * K) : (forall k, kflags (f k).2 = kflags k) -> inert (call_in f).
Proof. intros Hf s x s'. unfold call_in. specialize (Hf (kern s)). destruct (f (kern s)) as [[[??]?]?]. by intros [= _ <-]. Qed.
Lemma inert_errno e : inert (set_errno e).
Proof. by intros s x s' [= _ <-]. Qed.
Lemma inert_wheel w : inert (set_wheel w).
Proof. by intros s x s' [= _ <-]. Qed.
Lemma inert_get_inner_fd fd : inert (get_inner_fd fd).
Proof. unfold get_inner_fd. destruct (is_fd_valid fd); by intros s x s' [= _ <-]. Qed.

Lemma keeps_update fd g :
  (forall ifd, flags (g ifd) = flags ifd) -> keeps agree (update_ifd fd g) /\ keeps hooked (update_ifd fd g).
Proof.
  intros Hg. assert (keeps agree (update_ifd fd g)) as Ha.
  { intros s x s' Ha (i & Ei & Ef & _ & Ek)%update_ifd_inv fd' ifd Hv. rewrite Ef, Ek.
    destruct (decide (fd' = fd)) as [->|].
    - rewrite lookup_insert_eq. intros [= <-]. rewrite Hg. by apply Ha.
    - rewrite lookup_insert_ne by done. by apply Ha. }
  split; [done|]. intros s x s' [HP Hh] E. split; [by eapply Ha|].
  apply update_ifd_inv in E as (_ & _ & _ & -> & _). done.
Qed.

Lemma keeps_new fd : keeps hooked (new_inner_fd fd).
Proof.
  intros s x s' [Ha Hh]. unfold new_inner_fd. destruct (is_fd_valid fd); [|done]. intros [= _ <-].
  split; [|done]. intros fd' ifd Hv. cbn. destruct (decide (fd' = fd)) as [->|].
  - rewrite lookup_insert_eq. by intros [= <-].
  - rewrite lookup_insert_ne by done. by apply Ha.
Qed.

Lemma keeps_opens f : opens kflags f -> keeps hooked (call f).
Proof.
  intros Hf s x s' [Ha Hh]. unfold call. specialize (Hf (kern s)).
  destruct (f (kern s)) as [[r e] k]. cbn in Hf. intros [= _ <-]. split; [|done].
  intros fd ifd Hv E Hnb. destruct (Ha fd ifd Hv E Hnb) as (v & Ev & Hv'). cbn.
  destruct Hf as [->|(Hn & w & ->)]; [by eauto|]. exists v. rewrite lookup_insert_ne; [done|congruence].
Qed.
End agree.

#[export] Hint Resolve keeps_bind keeps_ret keeps_get keeps_panic inert_agree inert_hooked inert_errno
  inert_wheel inert_get_inner_fd keeps_new : nattan.
#[export] Hint Extern 1 (keeps _ (update_ifd _ _)) => by apply keeps_update : nattan.

(** Walk through the branches of a body; [nattan] knows the steps. *)
Ltac walk :=
  repeat first
    [ match goal with |- forall _, _ => intro end
    | progress cbv beta zeta
    | match goal with
      | |- keeps _ (bind _ _) => apply keeps_bind
      | |- keeps _ (if ?b then _ else _) => destruct b
      | |- keeps _ (match ?o with _ => _ end) => destruct o
      end
    | solve [auto with nattan] ].

Section never_block.
Context {K : Type} `{HK : Kernel K} (kflags : K -> gmap Z Z) `{HF : !FlagLaws K kflags}.
Context (Hsleep : forall s, agree kflags s -> agree kflags (k_sleep s)).
Local Abbreviation P := (hooked kflags).

Lemma keeps_get_hook {B} (f : bool -> M K B) : keeps P (f true) -> keeps P (bind (get hook) f).
Proof. intros Hf s x s' [Ha Hh] H. change (f (hook s) s = Some (x, s')) in H. rewrite Hh in H. by eapply Hf. Qed.

Lemma keeps_yield : keeps P (co_io_yield (K := K)).
Proof. intros s x s' [Ha Hh] [= _ <-]. split; [by apply Hsleep|done]. Qed.

Lemma keeps_cntl op fd ev : keeps P (cntl_events op fd ev).
Proof.
  unfold cntl_events. walk. apply inert_hooked, inert_call. intros. apply fl_epoll.
Qed.

Lemma keeps_event_poll fd ev : keeps P (event_poll fd ev).
Proof.
  pose proof keeps_yield. pose proof keeps_cntl.
  unfold event_poll, arm, disarm, add_events, delete_events. walk.
Qed.

(** Non-blocking flags that the kernel accepts. *)
Lemma setfl_call fd v s r s' :
  P s -> has v O_NONBLOCK = true -> call (k_fcntl fd F_SETFL v) s = Some (r, s') ->
  P s' /\ (r = 0 -> exists v', kflags (kern s') !! fd = Some v' /\ has v' O_NONBLOCK = true).
Proof.
  intros [Ha Hh] Hv H1. unfold call in H1. pose proof (fl_setfl fd v (kern s)) as Hfl.
  destruct (k_fcntl fd F_SETFL v (kern s)) as [[r1 e] k1]. injection H1 as -> <-. cbn in Hfl.
  destruct Hfl as [[Hne Hk]|(v' & Hk & Hv')].
  { split; [split; [unfold agree; cbn; by rewrite Hk|done]|done]. }
  split; [split; [|done]|intros _; cbn; rewrite Hk, lookup_insert_eq; exists v'; by rewrite Hv'].
  intros fd' ifd' Hvf E Hnb. cbn in *. rewrite Hk. destruct (decide (fd' = fd)) as [->|].
  - rewrite lookup_insert_eq. exists v'. by rewrite Hv'.
  - rewrite lookup_insert_ne by done. by eapply Ha.
Qed.

Lemma update_open fd g s x s' :
  P s -> (exists v, kflags (kern s) !! fd = Some v /\ has v O_NONBLOCK = true) ->
  update_ifd fd g s = Some (x, s') -> P s'.
Proof.
  intros [Ha Hh] Ho (i & Ei & Ef & Eh & Ek)%update_ifd_inv. split; [|congruence].
  intros fd' ifd Hvf. rewrite Ef, Ek. destruct (decide (fd' = fd)) as [->|]; [done|].
  rewrite lookup_insert_ne by done. by apply Ha.
Qed.

Lemma keeps_setfl fd v o : keeps P (fcntl_setfl fd v o).
Proof.
  unfold fcntl_setfl. apply keeps_bind; [walk|]. intros [ifd|]; [|walk].
  destruct (has v O_NONBLOCK) eqn:Hv; cbn [negb].
  - destruct (bool_decide (user_flags ifd = v)); [walk|]. destruct (bool_decide (flags ifd = v)); [walk|].
    intros s x s' HP H. apply bind_inv in H as (r & s1 & H1 & H).
    destruct (setfl_call _ _ _ _ _ HP Hv H1) as [HP1 Ho].
    apply bind_inv in H as (? & s2 & H2 & [= _ <-]). case_bool_decide; [|by injection H2 as _ <-].
    eapply update_open; [exact HP1|by apply Ho|exact H2].
  - apply keeps_bind; [walk|]. intros _ s x s' HP H.
    by apply (setfl_call _ _ _ _ _ HP (has_lor v O_NONBLOCK ltac:(done))) in H as [? _].
Qed.

Lemma keeps_fcntl fd cmd a : keeps P (fcntl fd cmd a).
Proof.
  pose proof keeps_setfl. unfold fcntl.
  destruct (bool_decide (fd < 0)); [walk|]. apply keeps_bind; [walk|]. intros o.
  assert (forall c, c <> F_SETFL -> c <> F_DUPFD -> c <> F_DUPFD_CLOEXEC -> keeps P (call (k_fcntl fd c a))) as Hc.
  { intros. apply inert_hooked, inert_call. intros. by apply fl_fcntl. }
  assert (forall c, c = F_DUPFD \/ c = F_DUPFD_CLOEXEC -> keeps P (call (k_fcntl fd c a))) as Hd.
  { intros. by apply keeps_opens, fl_dup. }
  apply keeps_get_hook. destruct cmd; walk.
Qed.

Lemma getfl_agree fd a : keeps (agree kflags) (fcntl fd F_GETFL a).
Proof.
  assert (keeps (agree kflags) (call (k_fcntl fd F_GETFL a))) as Hc.
  { apply inert_agree, inert_call. intros. by apply fl_fcntl. }
  unfold fcntl. walk.
Qed.

Lemma keeps_set_nonblock fd : keeps P (in_set_nonblock fd).
Proof.
  intros s x s' [Ha Hh] E. unfold in_set_nonblock in E.
  apply bind_inv in E as (? & s1 & [= _ <-] & E). apply bind_inv in E as (uf & s2 & E2 & E).
  apply bind_inv in E as (? & s3 & [= _ <-] & E). apply getfl_agree in E2; [|exact Ha].
  pose proof (keeps_fcntl fd F_SETFL (Z.lor uf O_NONBLOCK)) as Hf. revert E.
  match goal with |- ?m ?t = _ -> _ => enough (keeps P m) as Hm by (by apply (Hm t)) end. walk.
Qed.

Lemma keeps_falls_through fd : keeps P (falls_through (K := K) fd).
Proof. unfold falls_through. walk. Qed.

Lemma keeps_socket d t p : keeps P (socket d t p).
Proof.
  pose proof keeps_set_nonblock. assert (keeps P (call (k_socket d t p))) by apply keeps_opens, fl_socket.
  unfold socket. walk.
Qed.

Lemma keeps_listen fd b : keeps P (listen fd b).
Proof.
  assert (keeps P (call (k_listen fd b))) by (apply inert_hooked, inert_call; intros; apply fl_listen).
  unfold listen. walk.
Qed.

Lemma keeps_connect fd a : keeps P (connect fd a).
Proof.
  pose proof keeps_falls_through. pose proof keeps_event_poll.
  assert (keeps P (call (k_connect fd a))) by (apply inert_hooked, inert_call; intros; apply fl_connect).
  unfold connect. walk.
Qed.

Lemma keeps_accept fd : keeps P (accept fd).
Proof.
  pose proof keeps_falls_through. pose proof keeps_event_poll. pose proof keeps_set_nonblock.
  assert (keeps P (call (k_accept fd))) by apply keeps_opens, fl_accept.
  unfold accept. walk.
Qed.

(** The entry goes before the descriptor. *)
Lemma keeps_close fd : keeps P (close fd).
Proof.
  unfold close. apply keeps_get_hook. cbn [negb]. intros s x s' [Ha Hh] E.
  apply bind_inv in E as (o & s1 & E1 & E). apply bind_inv in E as (? & s2 & E2 & E).
  assert (agree kflags s2 /\ hook s2 = true /\ (is_fd_valid fd = true -> fds s2 !! fd = None)) as (Ha2 & Hh2 & Hn).
  { unfold get_inner_fd in E1. unfold delete_inner_fd in E2. destruct (is_fd_valid fd).
    - injection E1 as <- <-. case_bool_decide as Ho.
      + apply bind_inv in E2 as (m & s3 & [= <- <-] & E2). destruct (fds s !! fd) as [i|] eqn:Ei; [|done].
        apply bind_inv in E2 as (w & s3 & [= <- <-] & E2). apply bind_inv in E2 as (? & s3 & [= _ <-] & [= _ <-]).
        cbn. split; [|split; [done|intros; apply lookup_delete_eq]]. intros fd' ifd Hv E3. cbn in *.
        apply lookup_delete_Some in E3 as [_ E3]. by apply Ha.
      + injection E2 as _ <-. split_and!; [done..|]. intros _. by destruct (fds s !! fd).
    - injection E1 as <- <-. destruct (bool_decide _); injection E2 as _ <-; done. }
  unfold call in E. pose proof (fl_close fd (kern s2)) as Hc. destruct (k_close fd (kern s2)) as [[??]?].
  injection E as _ <-. split; [|done]. intros fd' ifd Hv E Hnb. cbn in *. rewrite Hc.
  rewrite lookup_delete_ne; [by eapply Ha2|]. intros <-. by rewrite Hn in E.
Qed.

Lemma keeps_hooked_in fd raw : (forall k, kflags (raw k).2 = kflags k) -> keeps P (hooked_in fd raw).
Proof.
  intros Hr. pose proof keeps_falls_through. pose proof keeps_event_poll.
  assert (keeps P (call_in raw)) by by apply inert_hooked, inert_call_in.
  unfold hooked_in. walk.
Qed.

Lemma keeps_drain raw fuel : (forall bs k, kflags (raw bs k).2 = kflags k) ->
  forall buf n len, keeps P (drain fuel raw buf n len).
Proof.
  intros Hr. assert (forall bs, keeps P (call (raw bs))) by (intros; by apply inert_hooked, inert_call).
  induction fuel; intros buf n len; cbn [drain]; walk.
Qed.

Lemma keeps_hooked_out fd raw fuel buf : (forall bs k, kflags (raw bs k).2 = kflags k) ->
  keeps P (hooked_out fuel fd raw buf).
Proof.
  intros Hr. pose proof keeps_falls_through. pose proof keeps_event_poll.
  assert (forall bs, keeps P (call (raw bs))) by (intros; by apply inert_hooked, inert_call).
  assert (forall len n, keeps P (output_loop fuel raw fd buf n len)) as Ho.
  { induction fuel as [|f IH]; intros len n; cbn [output_loop]; [walk|].
    apply keeps_bind; [by apply keeps_drain|]. walk. }
  unfold hooked_out. walk.
Qed.
End never_block.

(** The calls of a task whose hook is on. *)
Inductive hook_op :=
  | Fcntl (fd : Z) (cmd : fcntl_cmd) (arg : Z) | Socket (domain type protocol : Z)
  | Listen (fd backlog : Z) | Connect (fd address : Z) | Accept (fd : Z) | Close (fd : Z)
  | Read (fd n : Z) | Write (fuel : nat) (fd : Z) (bs : list Z).

Definition run_hook {K} `{!Kernel K} (op : hook_op) : M K Z :=
  match op with
  | Fcntl fd cmd arg => fcntl fd cmd arg
  | Socket d t p => socket d t p
  | Listen fd b => listen fd b
  | Connect fd a => connect fd a
  | Accept fd => accept fd
  | Close fd => close fd
  | Read fd n => x <- read fd n;; ret x.1
  | Write fuel fd bs => write fuel fd bs
  end.

Fixpoint run_hooks {K} `{!Kernel K} (ops : list hook_op) : M K unit :=
  match ops with
  | [] => ret tt
  | op :: ops => run_hook op;; run_hooks ops
  end.

(** C8. After any sequence of hooked calls, a call that does not fall through to the raw
    function works on a descriptor that is open and non-blocking in the kernel: it can wait
    without blocking the thread. *)
Theorem hooks_never_block (K : Type) `{HK : Kernel K} (kflags : K -> gmap Z Z) `{HF : !FlagLaws K kflags}
    (ops : list hook_op) (s s' s'' : thread K) (fd : Z) :
  (forall s, agree kflags s -> agree kflags (k_sleep s)) ->
  agree kflags s -> hook s = true -> run_hooks ops s = Some (tt, s') ->
  is_fd_valid fd = true -> falls_through fd s' = Some (false, s'') ->
  exists v, kflags (kern s') !! fd = Some v /\ has v O_NONBLOCK = true.
Proof.
  intros Hs Ha Hh E Hv Ef. assert (keeps (hooked kflags) (run_hooks ops)) as Hk.
  { clear E. induction ops as [|op ops IH]; cbn [run_hooks]; [walk|]. apply keeps_bind; [|done].
    destruct op; cbn [run_hook].
    - by apply keeps_fcntl.
    - by apply keeps_socket.
    - by apply keeps_listen.
    - by apply keeps_connect.
    - by apply keeps_accept.
    - by apply keeps_close.
    - apply keeps_bind; [apply keeps_hooked_in; auto using fl_read|walk].
    - apply keeps_hooked_out; auto using fl_write. }
  destruct (Hk s tt s' (conj Ha Hh) E) as [Ha' Hh'].
  unfold falls_through, bind, get, get_inner_fd in Ef. rewrite Hh', Hv in Ef. cbn in Ef. injection Ef as Ef _.
  destruct (fds s' !! fd) as [ifd|] eqn:Ei; [|done]. apply (Ha' fd ifd); [done..|].
  by destruct (has (flags ifd) O_NONBLOCK).
Qed.

#[export] Instance toy_flag_laws : FlagLaws toy t_flags.
Proof.
  assert (opens t_flags toy_open) as Ho.
  { intros k. unfold toy_open. case_bool_decide as Hn; [|by left]. right. cbn. split; [done|by eexists]. }
  constructor; intros; cbn; try done.
  - unfold toy_ctl. destruct op; by case_bool_decide.
  - unfold toy_read. by destruct (t_in k) as [|[]].
  - unfold toy_write. destruct (t_out k); [done|]. by destruct (bool_decide _).
  - unfold toy_fcntl. destruct (t_flags k !! fd); [|by left]. right. by exists v.
  - intros k. left. cbn. unfold toy_fcntl. destruct (t_flags k !! fd); [|done]. by destruct H as [->| ->].
  - unfold toy_fcntl. destruct (t_flags k !! fd); [|done]. by destruct cmd.
Qed.

Lemma toy_sleep_agree s : agree t_flags s -> agree t_flags (toy_sleep s).
Proof.
  intros Ha fd ifd Hv. cbn. rewrite map_lookup_imap. destruct (fds s !! fd) as [i|] eqn:Ei; [|done].
  cbn. intros [= <-] Hnb. apply (Ha fd i Hv Ei). by destruct (decide _).
Qed.

Definition toy_calls : list hook_op :=
  [Socket 2 1 0; Fcntl 3 F_SETFL 2; Accept 3; Close 4; Socket 2 1 0; Read 4 10; Write 10 4 [1; 2]].

Lemma hooks_never_block_witness :
  exists s', run_hooks toy_calls (toy_thread (mk_toy ∅ ∅ 3 [None; Some [7]] [0; 1] [] (IEREAD + IEWRITE) [])) = Some (tt, s') /\
    exists v, t_flags (kern s') !! 4 = Some v /\ has v O_NONBLOCK = true.
Proof.
  pose (s0 := toy_thread (mk_toy ∅ ∅ 3 [None; Some [7]] [0; 1] [] (IEREAD + IEWRITE) [])).
  assert (defined (run_hooks toy_calls s0) = true) as E0 by (vm_compute; reflexivity).
  pose proof (defined_default (tt, s0) _ E0) as E. clear E0.
  assert (fst <$> falls_through 4 (default (tt, s0) (run_hooks toy_calls s0)).2 = Some false) as Ef by (by vm_compute).
  destruct (default _ _) as [[] s']. cbn [snd] in Ef. exists s'. split; [exact E|].
  destruct (falls_through 4 s') as [[b s'']|] eqn:Eft; [|done]. cbn in Ef. injection Ef as ->.
  refine (hooks_never_block toy t_flags toy_calls s0 s' s'' 4 toy_sleep_agree _ eq_refl E eq_refl Eft).
  intros fd ifd _ Hl. cbn in Hl. by rewrite lookup_empty in Hl.
Defined.

(** A descriptor closed with the hook off leaves its entry behind: the next one of that
    number is taken for non-blocking, and stays blocking in the kernel. *)
Example stale_entry_blocks :
  let run := socket 2 1 0;; co_disable_hook;; close 3;; co_enable_hook;; socket 2 1 0;; falls_through 3 in
  (fun x => (x.1, t_flags (kern x.2) !! 3)) <$> run (toy_thread toy0) = Some (false, Some 2).
Proof. by vm_compute. Qed.

(** A duplicate of a non-blocking descriptor is registered with no flags: its calls are
    raw ones, which fail with [EAGAIN] where the task should wait. *)
Lemma dup_not_hooked (K : Type) fd (s s' : thread K) ifd :
  new_inner_fd fd s = Some (ifd, s') -> has (flags ifd) O_NONBLOCK = false.
Proof. unfold new_inner_fd. destruct (is_fd_valid fd); by intros [= <- _]. Qed.

(** Other commands are answered -1 without a call. *)
Lemma fcntl_other (K : Type) `{!Kernel K} fd cmd a (s s' : thread K) r :
  fcntl fd (F_OTHER cmd) a s = Some (r, s') -> r = -1 /\ kern s' = kern s.
Proof.
  unfold fcntl, bind, get, ret, set_errno, put, get_inner_fd.
  destruct (bool_decide (fd < 0)); [by intros [= <- <-]|]. destruct (is_fd_valid fd); by intros [= <- <-].
Qed.

(** Clearing [O_NONBLOCK] on a descriptor that is not registered dereferences NULL. *)
Lemma setfl_null (K : Type) `{!Kernel K} fd v (s : thread K) :
  is_fd_valid fd = true -> hook s = true -> fds s !! fd = None -> has v O_NONBLOCK = false ->
  fcntl fd F_SETFL v s = None.
Proof.
  intros Hv Hh E Hnb. unfold fcntl. pose proof Hv as Hv'. unfold is_fd_valid, INVALID_FD in Hv'.
  apply andb_true_iff in Hv' as [H0%bool_decide_eq_true_1 _]. rewrite bool_decide_eq_false_2 by lia.
  unfold get_inner_fd. rewrite Hv. unfold bind, get, ret, fcntl_setfl. rewrite E, Hh, Hnb. done.
Qed.

(** ** Closing everything *)
Section close_all.
Context {K : Type} `{!Kernel K}.

(** The entries from [i] on are under their own descriptors. *)
Definition entries_from (i : Z) (s : thread K) : Prop :=
  hook s = true /\ forall fd ifd, fds s !! fd = Some ifd -> ifd_fd ifd = fd /\ i <= fd < MAX_FD_NUM.

Lemma runs_close_entry fd ifd (s : thread K) :
  hook s = true -> is_fd_valid fd = true -> fds s !! fd = Some ifd ->
  runs (close fd) s (fun _ s' => hook s' = true /\ fds s' = delete fd (fds s)).
Proof.
  intros Hh Hv E. unfold close. apply runs_get. rewrite Hh. cbn [negb]. apply runs_get_inner_fd; [done|].
  rewrite E. unfold delete_inner_fd. rewrite Hv. cbn [bool_decide].
  eapply runs_bind with (Q := fun _ s1 => hook s1 = true /\ fds s1 = delete fd (fds s)).
  { rewrite bool_decide_eq_true_2 by done. apply runs_get. rewrite E. apply runs_get, runs_put, runs_put_end. done. }
  intros _ s1 [Hh1 E1]. cbn beta. unfold runs, call. destruct (k_close fd (kern s1)) as [[r e] k].
  eexists _, _. split; [done|]. done.
Qed.

Lemma runs_close_inner_fds n : forall i (s : thread K),
  0 <= i -> i + Z.of_nat n = MAX_FD_NUM -> entries_from i s ->
  runs (close_inner_fds n i) s (fun _ s' => fds s' = ∅).
Proof.
  induction n as [|n IH]; intros i s Hi Hn [Hh He]; cbn [close_inner_fds].
  { apply runs_ret. apply map_empty. intros fd. destruct (fds s !! fd) as [ifd|] eqn:E; [|done].
    destruct (He fd ifd E) as [_ ?]. lia. }
  apply runs_get. destruct (fds s !! i) as [ifd|] eqn:E.
  - destruct (He i ifd E) as [-> Hlt].
    apply runs_assoc. eapply runs_bind; [apply (runs_close_entry i ifd); try done|].
    { unfold is_fd_valid, INVALID_FD. rewrite !bool_decide_eq_true_2 by lia. done. }
    intros _ s1 [Hh1 E1]. cbn beta. eapply runs_bind; [by apply runs_ret with (Q := fun _ s2 => s2 = s1)|].
    intros _ ? ->. apply IH; [lia|lia|]. split; [done|]. intros fd ifd'. rewrite E1, lookup_delete_Some.
    intros [Hne E']. destruct (He fd ifd' E') as [? ?]. split; [done|lia].
  - eapply runs_bind; [by apply runs_ret with (Q := fun _ s1 => s1 = s)|]. intros _ ? ->.
    apply IH; [lia|lia|]. split; [done|]. intros fd ifd' E'. destruct (He fd ifd' E') as [? ?]. split; [done|].
    assert (fd <> i) by congruence. lia.
Qed.

(** With the hook on no entry is left. *)
Lemma close_all_clears (s : thread K) :
  entries_from 0 s -> exists s', close_all_inner_fd s = Some (tt, s') /\ fds s' = ∅.
Proof.
  intros He. destruct (runs_close_inner_fds (Z.to_nat MAX_FD_NUM) 0 s) as ([] & s' & ? & ?); [lia| |done|by eauto].
  rewrite Z2Nat.id; unfold MAX_FD_NUM; lia.
Qed.
End close_all.
