(* ===== verification/SysHelper.v ===== *)
(** * timer.c, sys_helper.c and the hooks that call it: timers, sleeping, polling

    Built on the hooked calls of SysHook.v. [co_poll] waits for several descriptors and
    then packs the ready ones at the front of the caller's array; the array is a list
    updated by index. The resolver behind [gethostbyname_r] is a parameter. *)
From S2P Require Import Prelude TimeWheel Event SysHook.
Local Open Scope Z_scope.
Local Open Scope monad_scope.

Section timer.
Context {K : Type} `{!Kernel K}.

(** ** timer.c *)
Definition __set_timer (timerfd ms : Z) : M K Z :=
  if bool_decide (timerfd <= 0) then ret (-1)
  else call (k_timerfd_settime timerfd (Z.quot ms 1000) (Z.rem ms 1000 * 1000000)).

Definition timer_entry (ifd : inner_fd) : inner_fd :=
  mk_ifd (ifd_fd ifd) (Z.lor (flags ifd) O_NONBLOCK) (user_flags ifd) (ifd_task ifd) (-1) IENONE.

Definition open_timer : M K Z :=
  timerfd <- call k_timerfd_create;;
  if bool_decide (timerfd <= 0) then ret (-1)
  else
    o <- get_inner_fd timerfd;;
    (if bool_decide (o = None) then new_inner_fd timerfd;; ret tt else ret tt);;
    update_ifd timerfd timer_entry;;
    ret timerfd.

Definition set_timer (timerfd ms : Z) : M K Z :=
  res <- __set_timer timerfd ms;;
  if bool_decide (res < 0) then ret res
  else
    me <- get self;;
    update_ifd timerfd (fun ifd => set_error IENONE (set_waiter me ifd));;
    add_events timerfd (Z.lor EPOLLIN EPOLLET);;
    ret 0.

Definition cancel_timer (timerfd : Z) : M K Z :=
  __set_timer timerfd 0;;
  delete_events timerfd 0;;
  ret 0.

Definition handle_timer (timerfd : Z) : M K Z :=
  res <- read timerfd 8;; ret res.1.

Definition wait_timer (timerfd ms : Z) : M K Z :=
  res <- set_timer timerfd ms;;
  if bool_decide (res <> 0) then ret res else handle_timer timerfd.

Definition is_timeout_timer (timerfd : Z) : M K bool :=
  if bool_decide (timerfd <= 0) then ret false
  else
    o <- get_inner_fd timerfd;;
    match o with
    | Some ifd => ret (has (error ifd) IEREAD)
    | None => panic
    end.

Definition close_timer (timerfd : Z) : M K Z := close timerfd.

(** ** Sleeping *)
(** A failing wait keeps the timer open. *)
Definition co_sleep (mseconds : Z) : M K Z :=
  if bool_decide (mseconds = 0) then ret 0
  else
    timerfd <- open_timer;;
    if bool_decide (timerfd < 0) then panic
    else
      res <- wait_timer timerfd (i64 mseconds);;
      if bool_decide (res < 0) then ret (-1)
      else close_timer timerfd;; ret 0.

(** [raw] is the libc [sleep]. The product is in [unsigned int]. *)
Definition sleep (raw : Z -> K -> Z * Z * K) (seconds : Z) : M K Z :=
  h <- get hook;;
  if negb h then call (raw seconds)
  else r <- co_sleep (u32 (seconds * 1000));; ret (u32 r).

(** ** Polling *)
Record pollfd := mk_pollfd { pfd : Z; events : Z; revents : Z }.

Fixpoint poll_arm (use_timeout : bool) (arr : list pollfd) : M K unit :=
  match arr with
  | [] => ret tt
  | p :: arr =>
      o <- get_inner_fd (pfd p);;
      match o with
      | None => panic
      | Some ifd =>
          me <- get self;;
          update_ifd (pfd p) (fun ifd => set_error IENONE (set_waiter me ifd));;
          add_events (ifd_fd ifd) (events p);;
          (if negb use_timeout then arm (pfd p) else ret tt);;
          poll_arm use_timeout arr
      end
  end.

Definition error_to_events (error : Z) : Z :=
  let events := 0 in
  let events := if has error IEREAD then Z.lor events EPOLLIN else events in
  let events := if has error IEWRITE then Z.lor events EPOLLOUT else events in
  let events := if has error IEERR then Z.lor events EPOLLERR else events in
  let events := if has error IERDHUP then Z.lor events EPOLLRDHUP else events in
  if has error IEHUP then Z.lor events EPOLLHUP else events.

Definition set_revents (v : Z) (p : pollfd) : pollfd := mk_pollfd (pfd p) (events p) v.

(** The second loop, [count] rounds from index [i] on; [j] entries are packed. *)
Fixpoint poll_collect (use_timeout timeout_event : bool) (count i j : nat) (arr : list pollfd) :
    M K (nat * list pollfd) :=
  match count with
  | O => ret (j, arr)
  | S count =>
      match arr !! i with
      | None => panic
      | Some p =>
          o <- get_inner_fd (pfd p);;
          match o with
          | None => panic
          | Some ifd =>
              (if negb use_timeout then disarm (pfd p) else ret tt);;
              delete_events (ifd_fd ifd) 0;;
              let arr := <[i := set_revents 0 p]> arr in
              if bool_decide (error ifd = IENONE) then
                (if use_timeout && timeout_event then update_ifd (pfd p) (set_error IETIMEOUT) else ret tt);;
                poll_collect use_timeout timeout_event count (S i) j arr
              else
                let p := set_revents (error_to_events (error ifd)) p in
                poll_collect use_timeout timeout_event count (S i) (S j) (<[j := p]> (<[i := p]> arr))
          end
      end
  end.

Definition co_poll (arr : list pollfd) (timeout : Z) : M K (Z * list pollfd) :=
  let use_timeout := negb (bool_decide (timeout = 0)) && negb (bool_decide (timeout = -1)) in
  poll_arm use_timeout arr;;
  timerfd <- (if use_timeout then
                timerfd <- open_timer;;
                set_timer timerfd timeout;;
                ret timerfd
              else ret (-1));;
  co_io_yield;;
  timeout_event <- (if use_timeout then
                      b <- is_timeout_timer timerfd;;
                      close_timer timerfd;;
                      ret b
                    else ret false);;
  r <- poll_collect use_timeout timeout_event (length arr) 0 0 arr;;
  ret (Z.of_nat r.1, r.2).

(** The hook of [__poll]; [raw] is the libc call. *)
Definition __poll (raw : list pollfd -> Z -> K -> Z * list pollfd * Z * K) (arr : list pollfd) (timeout : Z) :
    M K (Z * list pollfd) :=
  h <- get hook;;
  if negb h then call_in (raw arr timeout) else co_poll arr timeout.

Definition in_events : Z := Z.lor EPOLLIN (Z.lor EPOLLRDHUP EPOLLERR).
Definition write_events : Z := Z.lor EPOLLOUT (Z.lor EPOLLRDHUP EPOLLERR).

(** The early returns leave the hook off. *)
Definition co_read_till (fd buf_len timeout_ms : Z) : M K (Z * list Z) :=
  if bool_decide (fd < 0) || bool_decide (buf_len <= 0) then ret (-1, [])
  else
    co_disable_hook;;
    x <- read fd buf_len;;
    e <- get errno;;
    if bool_decide (x.1 = -1) && again e then
      r <- co_poll [mk_pollfd fd in_events 0] (i32 timeout_ms);;
      if bool_decide (r.1 < 0) then ret (-1, [])
      else if bool_decide (r.1 = 0) then ret (0, [])
      else
        x <- read fd buf_len;;
        co_enable_hook;;
        ret x
    else
      co_enable_hook;;
      ret x.

Definition co_write_till (fuel : nat) (fd : Z) (buf : list Z) (timeout_ms : Z) : M K Z :=
  if bool_decide (fd < 0) || bool_decide (buf = []) then ret (-1)
  else
    co_disable_hook;;
    x <- write fuel fd buf;;
    e <- get errno;;
    if bool_decide (x < 0) && again e then
      r <- co_poll [mk_pollfd fd write_events 0] (i32 timeout_ms);;
      if bool_decide (r.1 < 0) then ret (-1)
      else if bool_decide (r.1 = 0) then ret 0
      else
        x <- write fuel fd buf;;
        co_enable_hook;;
        ret x
    else
      co_enable_hook;;
      ret x.
End timer.

(** ** Resolving names *)
Definition HOST_NOT_FOUND : Z := 1.
Definition TRY_AGAIN : Z := 2.
Definition NO_RECOVERY : Z := 3.
Definition NO_DATA : Z := 4.

Section resolve.
Context {S : Type} (resolve : S -> Z * Z * S).

(** The loop, with the result and the [h_errno] of each call to [gethostbyname_r]; the
    case [TRY_AGAIN] has no [break] and runs into the default. *)
Fixpoint resolve_loop (fuel : nat) (retry r : Z) (s : S) : option (Z * S) :=
  match fuel with
  | O => None
  | Datatypes.S fuel =>
      if bool_decide (retry = 0) then Some (r, s)
      else
        let '(r, herrno, s) := resolve s in
        if bool_decide (herrno = HOST_NOT_FOUND) then resolve_loop fuel 0 (-1) s
        else if bool_decide (herrno = NO_DATA) then resolve_loop fuel 0 (-1) s
        else if bool_decide (herrno = NO_RECOVERY) then resolve_loop fuel 0 (-1) s
        else if bool_decide (herrno = TRY_AGAIN) then
          let retry := retry - 1 in
          let r := if bool_decide (retry = 0) then -1 else r in
          resolve_loop fuel 0 r s
        else resolve_loop fuel 0 r s
  end.

(** Whether [co_gethostbyname] returns the host. *)
Definition co_gethostbyname (s : S) : option (bool * S) :=
  x ← resolve_loop 4 3 0 s;
  Some (bool_decide (x.1 = 0), x.2).
End resolve.

(** ** What [co_poll] reports *)
Definition poll_entry {K} (s : thread K) (p : pollfd) : Prop :=
  is_fd_valid (pfd p) = true /\ exists ifd, fds s !! pfd p = Some ifd /\ ifd_fd ifd = pfd p.

(** What the caller should see of an entry: nothing without events. *)
Definition report {K} (s : thread K) (p : pollfd) : option pollfd :=
  ifd ← fds s !! pfd p;
  if bool_decide (error ifd = IENONE) then None
  else Some (set_revents (error_to_events (error ifd)) p).

Section collect.
Context {K : Type} (interest : K -> gset Z) (R : K -> K -> Prop) `{HL : EpollLaws K interest R}.
Implicit Types s : thread K.

(** [s'] is [s] with the descriptors [ps] no longer waited for. *)
Record released (ut : bool) (ps : list pollfd) s s' : Prop := {
  rel_interest : interest (kern s') ⊆ interest (kern s) /\ forall p, p ∈ ps -> pfd p ∉ interest (kern s');
  rel_wheel : ut = false -> forall p, p ∈ ps -> gone (Z.to_nat (pfd p)) (wheel_of s');
  rel_gone e : gone e (wheel_of s) -> gone e (wheel_of s');
  rel_fds fd : fd ∉ pfd <$> ps -> fds s' !! fd = fds s !! fd;
  rel_hook : hook s' = hook s
}.

Lemma released_nil ut s : released ut [] s s.
Proof. constructor; [set_solver|set_solver|done|done|done]. Qed.

Lemma released_cons ut p ps s s1 s' :
  released ut [p] s s1 -> released ut ps s1 s' -> released ut (p :: ps) s s'.
Proof.
  intros [[I1 N1] W1 G1 F1 H1] [[I2 N2] W2 G2 F2 H2]. constructor; [|intros Hu| |intros fd Hfd|congruence].
  - split; [by etrans|]. intros q [->|Hq]%elem_of_cons; [|by apply N2].
    specialize (N1 p ltac:(by left)). set_solver.
  - intros q [->|Hq]%elem_of_cons; [|by apply W2]. apply G2, W1; [done|by left].
  - intros e He. by apply G2, G1.
  - rewrite F2, F1; set_solver.
Qed.

Lemma gone_other e f w : gone e w -> gone e (wheel_delete_element f w).
Proof.
  intros Hg i ls. cbn. rewrite list_lookup_fmap. destruct (wheel w !! i) eqn:E; cbn; [|done].
  intros [= <-]. rewrite list_elem_of_filter. intros [_ Hin]. by eapply Hg.
Qed.

(** One entry: disarm, stop watching. *)
Lemma release_runs (ut : bool) p s :
  poll_entry s p ->
  runs (bind (if negb ut then disarm (pfd p) else ret tt) (fun _ => delete_events (pfd p) 0)) s
    (fun _ s1 => released ut [p] s s1 /\ fds s1 = fds s).
Proof.
  intros (Hv & i & E & Hid).
  eapply runs_bind with (Q := fun _ s1 => fds s1 = fds s /\ kern s1 = kern s /\ hook s1 = hook s /\
    (ut = false -> gone (Z.to_nat (pfd p)) (wheel_of s1)) /\ forall e, gone e (wheel_of s) -> gone e (wheel_of s1)).
  - destruct ut; cbn [negb]; [by apply runs_ret|]. unfold disarm. do 2 apply runs_get. rewrite E.
    apply runs_put_end. cbn. split_and!; [done..|intros; apply gone_delete|intros; by apply gone_other].
  - intros _ s1 (Ef & Ek & Eh & Hg & Hgo). cbn beta.
    eapply runs_conseq; [by apply (delete_events_runs interest R)|].
    intros r s2 ([Ef2 Ew2 Eh2 _ _] & _ & Hi). split; [|congruence]. rewrite Ek in Hi.
    constructor; rewrite ?Ew2, ?Hi; [set_solver| |done|intros; congruence|congruence].
    intros Hu q ->%list_elem_of_singleton. by apply Hg.
Qed.

Lemma report_same s s' p : fds s' !! pfd p = fds s !! pfd p -> report s' p = report s p.
Proof. unfold report. by intros ->. Qed.

Lemma poll_entry_same s s' p : fds s' !! pfd p = fds s !! pfd p -> poll_entry s p -> poll_entry s' p.
Proof. unfold poll_entry. by intros ->. Qed.

Lemma runs_group {A B C} (m : M K A) (f : A -> M K B) (g : B -> M K C) s Q :
  runs (bind (bind m f) g) s Q -> runs (bind m (fun x => bind (f x) g)) s Q.
Proof.
  intros (x & s' & E & HQ). exists x, s'. split; [|done]. revert E. unfold bind.
  by destruct (m s) as [[??]|].
Qed.

Lemma mark_runs (b : bool) ut p s s1 :
  poll_entry s1 p -> released ut [p] s s1 ->
  runs (if b then update_ifd (pfd p) (set_error IETIMEOUT) else ret tt) s1 (fun _ s2 => released ut [p] s s2).
Proof.
  intros (Hv & i & E & _) [I W G F H1]. destruct b; [|by apply runs_ret].
  unfold update_ifd. apply runs_get. rewrite E. apply runs_put_end. constructor; [done..| |done].
  intros fd Hfd. cbn. rewrite lookup_insert_ne by set_solver. by apply F.
Qed.

Lemma pack_take (arr : list pollfd) i j p q :
  (j <= i)%nat -> (i < length arr)%nat -> take (S j) (<[j := p]> (<[i := q]> arr)) = take j arr ++ [p].
Proof.
  intros Hj Hi. rewrite (take_S_r _ _ p) by (rewrite list_lookup_insert_eq; [done|rewrite length_insert; lia]).
  by rewrite !take_insert_ge by lia.
Qed.

Lemma poll_collect_runs ut te rest : forall i j arr s,
  drop i arr = rest -> (j <= i)%nat -> NoDup (pfd <$> rest) -> (forall p, p ∈ rest -> poll_entry s p) ->
  runs (poll_collect ut te (length rest) i j arr) s (fun r s' =>
    r.1 = (j + length (omap (report s) rest))%nat /\ length r.2 = length arr /\
    take r.1 r.2 = take j arr ++ omap (report s) rest /\ released ut rest s s').
Proof.
  induction rest as [|p rest IH]; intros i j arr s Hd Hj Hnd He; cbn [length poll_collect].
  { apply runs_ret. cbn. rewrite Nat.add_0_r, app_nil_r. split_and!; try done. apply released_nil. }
  assert (i < length arr)%nat as Hi.
  { apply (f_equal length) in Hd. rewrite length_drop in Hd. cbn in Hd. lia. }
  assert (arr !! i = Some p) as ->.
  { rewrite <- (Nat.add_0_r i), <- lookup_drop, Hd. done. }
  assert (drop (S i) arr = rest) as Hd'.
  { rewrite <- Nat.add_1_r, <- drop_drop, Hd. done. }
  pose proof (He p ltac:(by left)) as Hp. pose proof Hp as (Hv & ifd & E & Hid).
  apply NoDup_cons in Hnd as [Hn Hnd]. fold (fmap (M := list) pfd rest) in *.
  apply runs_get_inner_fd; [done|]. rewrite E. rewrite Hid. apply runs_group.
  eapply runs_bind; [by apply release_runs|]. intros _ s1 [Hr1 Ef1]. cbn beta zeta.
  assert (forall s2, released ut [p] s s2 -> forall q, q ∈ rest -> fds s2 !! pfd q = fds s !! pfd q) as Hsame.
  { intros s2 Hr q Hq. apply (rel_fds _ _ _ _ Hr). intros Hin%list_elem_of_singleton.
    apply Hn. change (p.(pfd)) with (pfd p). rewrite <- Hin. by apply list_elem_of_fmap_2. }
  assert (forall s2, released ut [p] s s2 -> omap (report s2) rest = omap (report s) rest) as Hrep.
  { intros s2 Hr. apply list_omap_ext, Forall_Forall2_diag, Forall_forall. intros q Hq.
    by apply report_same, Hsame. }
  assert (forall s2, released ut [p] s s2 -> forall q, q ∈ rest -> poll_entry s2 q) as Hent.
  { intros s2 Hr q Hq. apply (poll_entry_same s); [by apply Hsame|]. apply He. by right. }
  assert (report s p = if bool_decide (error ifd = IENONE) then None
          else Some (set_revents (error_to_events (error ifd)) p)) as Hrp by (unfold report; by rewrite E).
  cbn [omap list_omap]. rewrite Hrp. case_bool_decide as H0.
  - eapply runs_bind; [apply mark_runs; [by eapply poll_entry_same; [|exact Hp]; rewrite Ef1|exact Hr1]|].
    intros [] s2 Hr2. cbn beta. rewrite <- (Hrep _ Hr2).
    eapply runs_conseq; [apply IH; [by rewrite drop_insert_lt by lia|lia|done|by apply Hent]|].
    intros r s3 (E1 & E2 & E3 & Hr3). rewrite E1, length_insert in *. split_and!; [done|done| |by eapply released_cons].
    by rewrite E3, take_insert_ge by lia.
  - rewrite <- (Hrep _ Hr1). eapply runs_conseq; [apply IH; [by rewrite !drop_insert_lt by lia|lia|done|by apply Hent]|].
    intros r s3 (E1 & E2 & E3 & Hr3). rewrite !length_insert in E2. cbn [length].
    split_and!; [lia|done| |by eapply released_cons]. rewrite E3, pack_take, take_insert_ge by (rewrite ?length_insert; lia).
    by rewrite <- app_assoc.
Qed.
End collect.


Definition toy_poll_fds : gmap Z inner_fd :=
  {[5 := mk_ifd 5 O_NONBLOCK 2 None 3 IENONE; 6 := mk_ifd 6 O_NONBLOCK 2 None 3 (IEREAD + IERDHUP)]}.
Definition toy_poll_arr : list pollfd := [mk_pollfd 5 EPOLLIN 0; mk_pollfd 6 EPOLLIN 0].


(** The entries that had no events are lost from the array, unlike with [poll]. *)
Example co_poll_overwrites :
  (fun x => x.1.2) <$> poll_collect false false 2 0 0 toy_poll_arr
      (mk_thread toy0 toy_poll_fds (new_time_wheel 60 1) 0 [] true 1%nat) =
    Some [mk_pollfd 6 EPOLLIN (EPOLLIN + EPOLLRDHUP); mk_pollfd 6 EPOLLIN (EPOLLIN + EPOLLRDHUP)].
Proof. by vm_compute. Qed.

(** Polling without waiting is not possible: a timeout of 0 waits like -1. *)
Lemma co_poll_zero_waits (K : Type) `{!Kernel K} arr : co_poll (K := K) arr 0 = co_poll arr (-1).
Proof. done. Qed.

(** The events that the kernel reports for a descriptor and those that [co_poll] hands
    on through the [error] word are the same, bit by bit, of the five that are known. *)
Theorem events_round_trip (ev bit : Z) :
  bit ∈ [EPOLLIN; EPOLLOUT; EPOLLERR; EPOLLRDHUP; EPOLLHUP] ->
  has (error_to_events (events_to_error ev)) bit = has ev bit.
Proof.
  intros Hb. unfold events_to_error.
  destruct (has ev EPOLLIN) eqn:E1, (has ev EPOLLOUT) eqn:E2, (has ev EPOLLERR) eqn:E3,
    (has ev EPOLLRDHUP) eqn:E4, (has ev EPOLLHUP) eqn:E5;
  repeat (apply elem_of_cons in Hb as [->|Hb]; [rewrite ?E1, ?E2, ?E3, ?E4, ?E5; by vm_compute|]);
  by apply elem_of_nil in Hb.
Qed.

Lemma events_round_trip_witness : has (error_to_events (events_to_error (EPOLLIN + EPOLLHUP))) EPOLLHUP = true.
Proof. rewrite events_round_trip; [by vm_compute|]. do 4 right. by left. Defined.

(** ** Calls leave the hook as it is *)
Definition hook_is {K} (b : bool) (s : thread K) : Prop := hook s = b.

Section hook_kept.
Context {K : Type} `{!Kernel K} (b : bool).
Local Abbreviation keepsb := (keeps (K := K) (hook_is b)).

Lemma kept_put (f : thread K -> thread K) : (forall s, hook (f s) = hook s) -> keepsb (put f).
Proof. intros Hf s x s' Hs [= _ <-]. unfold hook_is. by rewrite Hf. Qed.
Lemma kept_call f : keepsb (call f).
Proof. intros s x s' Hs. unfold call. destruct (f (kern s)) as [[??]?]. by intros [= _ <-]. Qed.
Lemma kept_call_in {A} (f : K -> Z * A * Z * K) : keepsb (call_in f).
Proof. intros s x s' Hs. unfold call_in. destruct (f (kern s)) as [[[??]?]?]. by intros [= _ <-]. Qed.

#[local] Hint Resolve kept_call kept_call_in : nattan.
#[local] Hint Extern 1 (keeps _ (put _)) => by apply kept_put : nattan.
#[local] Hint Extern 1 (keeps _ (set_errno _)) => by apply kept_put : nattan.
#[local] Hint Extern 1 (keeps _ (set_fds _)) => by apply kept_put : nattan.
#[local] Hint Extern 1 (keeps _ (set_wheel _)) => by apply kept_put : nattan.
#[local] Hint Extern 1 (keeps _ co_io_yield) => by apply kept_put : nattan.

Lemma kept_new_inner_fd fd : keepsb (new_inner_fd fd).
Proof. unfold new_inner_fd. walk. Qed.
Lemma kept_get_inner_fd fd : keepsb (get_inner_fd fd).
Proof. unfold get_inner_fd. walk. Qed.
Lemma kept_update_ifd fd g : keepsb (update_ifd fd g).
Proof. unfold update_ifd. walk. Qed.
Lemma kept_add_events fd ev : keepsb (add_events fd ev).
Proof. unfold add_events, cntl_events. walk. Qed.
Lemma kept_delete_events fd ev : keepsb (delete_events fd ev).
Proof. unfold delete_events, cntl_events. walk. Qed.
Lemma kept_arm fd : keepsb (arm fd).
Proof. unfold arm. walk. Qed.
Lemma kept_disarm fd : keepsb (disarm fd).
Proof. unfold disarm. walk. Qed.

#[local] Hint Resolve kept_new_inner_fd kept_get_inner_fd kept_update_ifd kept_add_events
  kept_delete_events kept_arm kept_disarm : nattan.

Lemma kept_open_timer : keepsb open_timer.
Proof. unfold open_timer. walk. Qed.
Lemma kept_set_timer fd ms : keepsb (set_timer fd ms).
Proof. unfold set_timer, __set_timer. walk. Qed.
Lemma kept_is_timeout_timer fd : keepsb (is_timeout_timer fd).
Proof. unfold is_timeout_timer. walk. Qed.
Lemma kept_close_timer fd : keepsb (close_timer fd).
Proof. unfold close_timer, close, delete_inner_fd. walk. Qed.
Lemma kept_poll_arm ut arr : keepsb (poll_arm ut arr).
Proof. induction arr; cbn [poll_arm]; walk. Qed.
Lemma kept_poll_collect ut te count : forall i j arr, keepsb (poll_collect ut te count i j arr).
Proof. induction count; intros i j arr; cbn [poll_collect]; walk. Qed.

#[local] Hint Resolve kept_open_timer kept_set_timer kept_is_timeout_timer kept_close_timer
  kept_poll_arm kept_poll_collect : nattan.

Lemma kept_co_poll arr timeout : keepsb (co_poll arr timeout).
Proof. unfold co_poll. walk. Qed.
End hook_kept.

(** A read with a timeout that finds nothing before it expires returns 0 and leaves
    the hook of the task off: its later calls block the whole thread. *)
Theorem co_read_till_unhooks (K : Type) `{!Kernel K} (fd n ms : Z) (s s' : thread K) (arr : list pollfd)
    (bs : list Z) (e : Z) (k : K) :
  0 <= fd -> 0 < n -> k_read fd n (kern s) = (-1, bs, e, k) -> again e = true ->
  co_poll [mk_pollfd fd in_events 0] (i32 ms)
    (mk_thread k (fds s) (wheel_of s) e (woken s) false (self s)) = Some ((0, arr), s') ->
  co_read_till fd n ms s = Some ((0, []), s') /\ hook s' = false.
Proof.
  intros Hfd Hn Er Ha Ep. split.
  - unfold co_read_till. rewrite !bool_decide_eq_false_2 by lia. cbn [orb].
    unfold read, hooked_in, falls_through, co_disable_hook, set_hook, bind, get, put, call_in, ret.
    cbn [hook kern negb]. rewrite Er. unfold after. cbn [errno kern fst snd fds wheel_of woken self hook].
    rewrite !(bool_decide_eq_true_2 (-1 < 0)), Ha, bool_decide_eq_true_2 by done. cbn [andb]. by rewrite Ep.
  - by apply (kept_co_poll false) in Ep.
Qed.

Lemma co_read_till_unhooks_witness :
  exists s', co_read_till 5 10 20 (mk_thread (mk_toy ∅ ∅ 7 [None] [] [] IENONE []) toy_poll_fds (new_time_wheel 60 1)
      0 [] true 1%nat) = Some ((0, []), s') /\ hook s' = false.
Proof.
  set (s0 := mk_thread (mk_toy ∅ ∅ 7 [] [] [] IENONE []) toy_poll_fds (new_time_wheel 60 1) EAGAIN [] false 1%nat).
  assert ((fst <$> co_poll [mk_pollfd 5 in_events 0] 20 s0) = Some (0, [mk_pollfd 5 in_events 0])) as E0
    by (vm_compute; reflexivity).
  destruct (co_poll [mk_pollfd 5 in_events 0] 20 s0) as [[x s']|] eqn:Ep; [|discriminate E0].
  cbn in E0. exists s'. destruct x as [r arr]. injection E0 as -> ->.
  apply (co_read_till_unhooks toy 5 10 20 _ s' [mk_pollfd 5 in_events 0] [] EAGAIN (mk_toy ∅ ∅ 7 [] [] [] IENONE [])); done.
Defined.

(** One question, whatever the answer. *)
Lemma asks_once (S : Type) (resolve : S -> Z * Z * S) (s : S) :
  co_gethostbyname resolve s =
    let '(r, herrno, s') := resolve s in
    Some (bool_decide (r = 0) && bool_decide (herrno ∉ [HOST_NOT_FOUND; NO_DATA; NO_RECOVERY]), s').
Proof.
  unfold co_gethostbyname. cbn [resolve_loop]. rewrite bool_decide_eq_false_2 by done.
  destruct (resolve s) as [[r h] s'].
  destruct (decide (h = HOST_NOT_FOUND)) as [->|H1]; [cbn; by rewrite andb_false_r|].
  rewrite bool_decide_eq_false_2 by done.
  destruct (decide (h = NO_DATA)) as [->|H2]; [cbn; by rewrite andb_false_r|].
  rewrite bool_decide_eq_false_2 by done.
  destruct (decide (h = NO_RECOVERY)) as [->|H3]; [cbn; by rewrite andb_false_r|].
  rewrite bool_decide_eq_false_2 by done. rewrite (bool_decide_eq_true_2 (h ∉ _)) by set_solver.
  rewrite andb_true_r. by destruct (bool_decide (h = TRY_AGAIN)).
Qed.

(** [co_gethostbyname] asks the resolver exactly once, whatever the answer: the retry
    for [TRY_AGAIN] never happens, and such an answer counts as success when the call
    returned 0. *)
Theorem co_gethostbyname_once (S : Type) (resolve : S -> Z * Z * S) (s : S) :
  co_gethostbyname resolve s =
    let '(r, herrno, s') := resolve s in
    Some (bool_decide (r = 0) && bool_decide (herrno ∉ [HOST_NOT_FOUND; NO_DATA; NO_RECOVERY]), s').
Proof. apply asks_once. Qed.
