(* ===== verification/Log.v ===== *)
(** * log.c, Logger.h and Logger.cpp: messages and the buffers they pass through

    Characters are numbers. [format] is what the [printf] family does of the conversions that the code and
    its callers use; the bounded forms store what fits and return the whole length. The clock
    and the local time are parameters. The result of a call is the bytes given to [write]; [None] is
    an access outside a buffer. *)
From stdpp Require Import strings.
From S2P Require Import Prelude Bytes.
Local Open Scope Z_scope.

(** ** Formatting *)
Inductive arg := AStr (s : list Z) | AInt (z : Z).

Fixpoint digits (fuel : nat) (z : Z) : list Z :=
  match fuel with
  | O => []
  | S fuel => (if bool_decide (z < 10) then [] else digits fuel (z / 10)) ++ [48 + z mod 10]
  end.
(** Twenty digits are enough for 64 bits. *)
Definition print_int (z : Z) : list Z := if bool_decide (z < 0) then 45 :: digits 20 (- z) else digits 20 z.

(** [%s], [%d], [%lu], [%ld] and [%%]; [None]: another conversion, or an argument that is missing or of the
    wrong kind. *)
Fixpoint format (f : list Z) (args : list arg) : option (list Z) :=
  match f with
  | [] => Some []
  | c :: f =>
      if bool_decide (c <> 37) then (fun t => c :: t) <$> format f args
      else
        match f, args with
        | 37 :: f, _ => (fun t => 37 :: t) <$> format f args
        | 115 :: f, AStr s :: args => (fun t => s ++ t) <$> format f args
        | 100 :: f, AInt z :: args => (fun t => print_int z ++ t) <$> format f args
        | 108 :: (117 | 100) :: f, AInt z :: args => (fun t => print_int z ++ t) <$> format f args
        | _, _ => None
        end
  end.

(** [vsnprintf] into a buffer of [size] bytes: what is stored, with its terminator, and the result. *)
Definition snprintf (size : Z) (f : list Z) (args : list arg) : option (list Z * Z) :=
  t ← format f args; Some (take (Z.to_nat (size - 1)) t ++ [0], Z.of_nat (length t)).

(** The string in a buffer; [None]: it does not end there. *)
Fixpoint cstr (buf : list Z) : option (list Z) :=
  match buf with
  | [] => None
  | c :: buf => if bool_decide (c = 0) then Some [] else (fun s => c :: s) <$> cstr buf
  end.

(** ** log.c *)
Definition LOG_BUFFER_SIZE : Z := 4096.
Definition FMT_SIZE : Z := 1024.
Definition TIME_BUFFER_SIZE : Z := 20.
Definition TIME_STR_LEN : Z := 25.

Inductive log_level := LOG_DEBUG | LOG_INFO | LOG_ERROR.
Definition _log_levels (l : log_level) : list Z := text (match l with LOG_DEBUG => "D" | LOG_INFO => "I" | LOG_ERROR => "E" end).
Definition _log_fmt : list Z := text "[%s]>%s<[%d-%d-%lu] %s".

(** What identifies the caller: [getpid], [tid] and [getcid]. *)
Record who := mk_who { pid : Z; tid : Z; cid : Z }.

Section log.
(** [strftime] of [%T] on the local time of a second. *)
Context (hms : Z -> list Z).

(** [_time_strf] and [_old_time]. *)
Record time_cache := mk_cache { _time_strf : list Z; _old_time : Z }.
Definition no_time : time_cache := mk_cache (replicate 20 0) 0.

Definition get_time_str (sec usec : Z) (c : time_cache) : option (list Z * time_cache) :=
  c ← (if bool_decide (_old_time c = sec) then Some c
       else b ← mwrite (_time_strf c) 0 (take (Z.to_nat (TIME_STR_LEN - 1)) (hms sec) ++ [0]); Some (mk_cache b sec));
  x ← snprintf (TIME_STR_LEN - 8) (text ".%ld") [AInt usec];
  b ← mwrite (_time_strf c) 8 x.1;
  s ← cstr b;
  Some (s, mk_cache b (_old_time c)).

(** [log_printf]: the bytes for [write]. The format is made first, with the header in front; the buffer has 4096
    bytes, whether it is the thread's or the task's. *)
Definition log_header (w : who) (level : log_level) (time fmt : list Z) : option (list Z) :=
  format _log_fmt [AStr (_log_levels level); AStr time; AInt (pid w); AInt (tid w); AInt (cid w); AStr fmt].

Definition log_printf (w : who) (level : log_level) (time fmt : list Z) (args : list arg) : option (list Z) :=
  x ← snprintf FMT_SIZE _log_fmt [AStr (_log_levels level); AStr time; AInt (pid w); AInt (tid w); AInt (cid w); AStr fmt];
  if bool_decide (x.2 < FMT_SIZE) then
    new_fmt ← cstr x.1;
    y ← snprintf LOG_BUFFER_SIZE new_fmt args;
    if bool_decide (y.2 <= LOG_BUFFER_SIZE) then Some (take (Z.to_nat y.2) y.1) else None
  else None.

(** ** Logger *)
Inductive LOGGER_LEVEL := LOGGER_ERROR | LOGGER_INFO | LOGGER_DEBUG.
Definition level_num (l : LOGGER_LEVEL) : Z := match l with LOGGER_ERROR => 0 | LOGGER_INFO => 1 | LOGGER_DEBUG => 2 end.

Record Logger := mk_logger { fd : Z; level : LOGGER_LEVEL }.
Definition Logger_new (logfd : Z) : Logger := mk_logger logfd LOGGER_INFO.
Definition setLevel (l : LOGGER_LEVEL) (g : Logger) : Logger := mk_logger (fd g) l.

(** The body that the four functions share: the buffer starts as zeros. *)
Definition logger_write (w : who) (l : log_level) (time fmt : list Z) (args : list arg) : option (list Z) :=
  x ← snprintf LOG_BUFFER_SIZE fmt args;
  let buffer := x.1 ++ replicate (Z.to_nat LOG_BUFFER_SIZE - length x.1) 0 in
  let buffer := if bool_decide (0 < x.2) && bool_decide (x.2 < LOG_BUFFER_SIZE) then <[Z.to_nat x.2 := 10]> buffer else buffer in
  s ← cstr buffer;
  log_printf w l time (text "%s") [AStr s].

(** [Some None]: nothing is written at this level. *)
Definition logger_at (min : LOGGER_LEVEL) (l : log_level) (g : Logger) (w : who) (time fmt : list Z) (args : list arg) :
    option (option (list Z)) :=
  if bool_decide (level_num (level g) < level_num min) then Some None else Some <$> logger_write w l time fmt args.
Definition debug : Logger -> who -> list Z -> list Z -> list arg -> option (option (list Z)) := logger_at LOGGER_DEBUG LOG_DEBUG.
Definition info : Logger -> who -> list Z -> list Z -> list arg -> option (option (list Z)) := logger_at LOGGER_INFO LOG_INFO.
Definition error : Logger -> who -> list Z -> list Z -> list arg -> option (option (list Z)) := logger_at LOGGER_ERROR LOG_ERROR.
(** [printf] has no test. *)
Definition printf (w : who) (time fmt : list Z) (args : list arg) : option (list Z) := logger_write w LOG_INFO time fmt args.
End log.

Definition demo_who : who := mk_who 100 101 7.
Example info_line :
  info (Logger_new 1) demo_who (text "12:00:01.5") (text "took %d ms") [AInt 42] =
    Some (Some (text "[I]>12:00:01.5<[100-101-7] took 42 ms" ++ [10])).
Proof. by vm_compute. Qed.
Example debug_off : debug (Logger_new 1) demo_who [] (text "x") [] = Some None.
Proof. done. Qed.

(** A message of 4095 characters: the line feed takes the place of the terminator. *)
Example newline_over_nul : logger_write demo_who LOG_INFO [] (replicate 4095 120) [] = None.
Proof. by vm_compute. Qed.

(** ** Lemmas *)
Lemma format_literal s f args : (37 ∉ s) -> format (s ++ f) args = (fun t => s ++ t) <$> format f args.
Proof.
  induction s as [|c s IH]; intros Hs; cbn [app]; [by destruct (format f args)|]. rewrite not_elem_of_cons in Hs. cbn [format].
  rewrite bool_decide_eq_true_2 by naive_solver. rewrite IH by naive_solver. by destruct (format f args).
Qed.

Lemma cstr_app s rest : (0 ∉ s) -> cstr (s ++ 0 :: rest) = Some s.
Proof.
  induction s as [|c s IH]; intros Hs; cbn; [done|]. rewrite not_elem_of_cons in Hs.
  rewrite bool_decide_eq_false_2 by naive_solver. by rewrite IH by naive_solver.
Qed.
Lemma cstr_none s : (0 ∉ s) -> cstr s = None.
Proof.
  induction s as [|c s IH]; intros Hs; cbn; [done|]. rewrite not_elem_of_cons in Hs.
  rewrite bool_decide_eq_false_2 by naive_solver. by rewrite IH by naive_solver.
Qed.

Lemma digits_range fuel : forall z c, 0 <= z -> c ∈ digits fuel z -> 48 <= c <= 57.
Proof.
  induction fuel as [|fuel IH]; intros z c Hz; cbn; [by intros ?%elem_of_nil|]. rewrite elem_of_app, list_elem_of_singleton.
  pose proof (Z.mod_pos_bound z 10). intros [Hc| ->]; [|lia]. case_bool_decide; [by apply elem_of_nil in Hc|].
  apply (IH (z / 10)); [apply Z.div_pos; lia|done].
Qed.
Lemma digits_length fuel : forall z, (length (digits fuel z) <= fuel)%nat.
Proof.
  induction fuel as [|fuel IH]; intros z; cbn; [done|]. rewrite length_app. cbn. case_bool_decide; cbn; [lia|].
  specialize (IH (z / 10)). lia.
Qed.
Lemma div10_range z P : 0 <= z < 10 * P -> 0 <= z / 10 < P.
Proof. intros. split; [apply Z.div_pos|apply Z.div_lt_upper_bound]; lia. Qed.
Lemma digits_bound k fuel : forall z, 0 <= z < 10 ^ Z.of_nat k -> (0 < k)%nat -> (length (digits fuel z) <= k)%nat.
Proof.
  revert fuel. induction k as [|k IH]; intros fuel z Hz Hk; [lia|]. destruct fuel as [|fuel]; cbn; [lia|]. rewrite length_app. cbn.
  case_bool_decide; cbn; [lia|]. destruct k as [|k]; [cbn in Hz; lia|].
  rewrite Nat2Z.inj_succ, Z.pow_succ_r in Hz by lia. 
  pose proof (IH fuel (z / 10) ltac:(by apply div10_range) ltac:(lia)) as Hl. clear IH Hz. lia.
Qed.
(** The digits of a number that has no more of them than the fuel give the number. *)
Lemma digits_value fuel : forall z, 0 <= z < 10 ^ Z.of_nat fuel -> foldl (fun n c => n * 10 + (c - 48)) 0 (digits fuel z) = z.
Proof.
  induction fuel as [|fuel IH]; intros z Hz; [cbn in *; lia|]. cbn [digits]. rewrite foldl_app. cbn [foldl].
  rewrite Nat2Z.inj_succ, Z.pow_succ_r in Hz by lia. pose proof (Z.div_mod z 10 ltac:(lia)).
  case_bool_decide; [cbn; rewrite Z.mod_small by lia; lia|].
  rewrite IH by by apply div10_range. lia.
Qed.

Lemma print_int_chars z c : c ∈ print_int z -> c = 45 \/ 48 <= c <= 57.
Proof.
  unfold print_int. case_bool_decide; [rewrite elem_of_cons; intros [->|Hc]; [by left|]|intros Hc]; right; eapply digits_range; [|exact Hc| |exact Hc]; lia.
Qed.
Lemma print_int_length z : (length (print_int z) <= 21)%nat.
Proof. unfold print_int. case_bool_decide; cbn [length]; [pose proof (digits_length 20 (- z))|pose proof (digits_length 20 z)]; lia. Qed.

(** The header in front of every message. *)
Definition header (w : who) (l : log_level) (time : list Z) : list Z :=
  text "[" ++ _log_levels l ++ text "]>" ++ time ++ text "<[" ++ print_int (pid w) ++ text "-" ++ print_int (tid w) ++ text "-" ++
  print_int (cid w) ++ text "] ".
Lemma format_s s f args : format (37 :: 115 :: f) (AStr s :: args) = (fun t => s ++ t) <$> format f args.
Proof. done. Qed.
Lemma format_d z f args : format (37 :: 100 :: f) (AInt z :: args) = (fun t => print_int z ++ t) <$> format f args.
Proof. done. Qed.
Lemma format_lu z f args : format (37 :: 108 :: 117 :: f) (AInt z :: args) = (fun t => print_int z ++ t) <$> format f args.
Proof. done. Qed.

Lemma log_header_eq w l time fmt : log_header w l time fmt = Some (header w l time ++ fmt).
Proof.
  unfold log_header, header.
  assert (_log_fmt = text "[" ++ 37 :: 115 :: text "]>" ++ 37 :: 115 :: text "<[" ++ 37 :: 100 :: text "-" ++
    37 :: 100 :: text "-" ++ 37 :: 108 :: 117 :: text "] " ++ [37; 115]) as -> by done.
  assert (forall s : list Z, bool_decide (37 ∉ s) = true -> (37 ∉ s)) as Hno by (intros s; apply bool_decide_eq_true_1).
  rewrite format_literal by by apply Hno. rewrite format_s, format_literal by by apply Hno.
  rewrite format_s, format_literal by by apply Hno. rewrite format_d, format_literal by by apply Hno.
  rewrite format_d, format_literal by by apply Hno. rewrite format_lu, format_literal by by apply Hno.
  rewrite format_s. cbn [format fmap option_fmap option_map]. by rewrite app_nil_r, <- !app_assoc.
Qed.

Lemma header_without c w l time :
  (c ∉ time) -> c <> 45 -> ~ (48 <= c <= 57) -> bool_decide (c ∉ text "[DIE]><- ") = true -> (c ∉ header w l time).
Proof.
  intros Ht H45 Hd Hc. apply bool_decide_eq_true_1 in Hc. unfold header, _log_levels. rewrite !not_elem_of_app.
  assert (forall z, (c ∉ print_int z)) as Hp by (intros z [?|?]%print_int_chars; lia).
  assert (forall s : list Z, (forall x, x ∈ s -> x ∈ text "[DIE]><- ") -> (c ∉ s)) as Hsub by naive_solver.
  assert (forall s : list Z, bool_decide (Forall (fun x => x ∈ text "[DIE]><- ") s) = true -> (c ∉ s)) as Hlit.
  { intros s Hs%bool_decide_eq_true_1. apply Hsub. by apply Forall_forall. }
  split_and!; try done; try apply Hp; apply Hlit; try done. by destruct l.
Qed.

Lemma header_length w l time : (length time + 10 <= length (header w l time) <= length time + 73)%nat.
Proof.
  pose proof (print_int_length (pid w)). pose proof (print_int_length (tid w)). pose proof (print_int_length (cid w)).
  assert (length (_log_levels l) = 1%nat) by by destruct l. unfold header. rewrite !length_app.
  change (length (text "[")) with 1%nat. change (length (text "]>")) with 2%nat. change (length (text "<[")) with 2%nat.
  change (length (text "-")) with 1%nat. change (length (text "] ")) with 2%nat. lia.
Qed.

(** A time that may stand in a format. *)
Definition plain_time (time : list Z) : Prop := (37 ∉ time) /\ (0 ∉ time) /\ (length time <= 900)%nat.

(** The message of a format ["%s"] behind its header, cut at the end of the buffer. *)
Lemma log_printf_s w l time s :
  plain_time time -> (0 ∉ s) ->
  log_printf w l time (text "%s") [AStr s] =
    let m := header w l time ++ s in
    if bool_decide (Z.of_nat (length m) < 4096) then Some m
    else if bool_decide (Z.of_nat (length m) = 4096) then Some (take 4095 m ++ [0]) else None.
Proof.
  intros (H37 & H0 & Hl) Hs. pose proof (header_length w l time) as Hlen.
  pose proof (header_without 37 w l time H37 ltac:(lia) ltac:(lia) eq_refl) as Hh37.
  pose proof (header_without 0 w l time H0 ltac:(lia) ltac:(lia) eq_refl) as Hh0.
  unfold log_printf, snprintf. pose proof (log_header_eq w l time (text "%s")) as E. unfold log_header in E. rewrite E. clear E.
  change (text "%s") with [37; 115]. cbn [mbind option_bind fst snd]. rewrite length_app. cbn [length].
  rewrite bool_decide_eq_true_2 by (unfold FMT_SIZE; lia).
  change (Z.to_nat (FMT_SIZE - 1)) with 1023%nat. rewrite take_ge by (rewrite length_app; cbn [length]; lia). rewrite <- app_assoc.
  rewrite (app_assoc _ [37; 115] [0]), cstr_app by (rewrite not_elem_of_app; split; [done|by apply (bool_decide_eq_true_1 (0 ∉ [37; 115]))]). cbn [mbind option_bind].
  rewrite format_literal, format_s by done. cbn [format fmap option_fmap option_map mbind option_bind fst snd]. rewrite app_nil_r. cbn zeta.
  set (m := header w l time ++ s). change LOG_BUFFER_SIZE with 4096. change (Z.to_nat (4096 - 1)) with 4095%nat.
  case_bool_decide as Hm; [|rewrite !bool_decide_eq_false_2 by lia; done].
  rewrite Nat2Z.id. case_bool_decide as Hm2.
  - rewrite take_app_le by (rewrite length_take; lia). rewrite !take_ge by (rewrite ?length_take; lia). done.
  - rewrite bool_decide_eq_true_2 by lia. rewrite take_ge by (rewrite length_app, length_take; cbn [length]; lia). done.
Qed.

Lemma cstr_buffer (t : list Z) k : (0 ∉ t) -> cstr (t ++ [0] ++ replicate k 0) = Some t.
Proof. apply cstr_app. Qed.

(** The buffer of [Logger] after a message of [n] characters: the string that is read from it. *)
Definition logger_string (t : list Z) : option (list Z) :=
  if bool_decide (t = []) then Some []
  else if bool_decide (Z.of_nat (length t) < 4095) then Some (t ++ [10])
  else if bool_decide (Z.of_nat (length t) = 4095) then None
  else Some (take 4095 t).

Lemma logger_write_string w l time fmt args t :
  format fmt args = Some t -> (0 ∉ t) ->
  logger_write w l time fmt args = (s ← logger_string t; log_printf w l time (text "%s") [AStr s]).
Proof.
  intros E H0. unfold logger_write, snprintf. rewrite E. cbn [mbind option_bind fst snd].
  change LOG_BUFFER_SIZE with 4096. change (Z.to_nat (4096 - 1)) with 4095%nat. change (Z.to_nat 4096) with 4096%nat.
  rewrite <- app_assoc. unfold logger_string. rewrite Nat2Z.id. f_equal.
  destruct (decide (t = [])) as [->|Hn]; [done|]. rewrite (bool_decide_eq_false_2 (t = [])) by done.
  assert (0 < length t)%nat by (destruct t; [done|cbn; lia]). rewrite (bool_decide_eq_true_2 (0 < _)) by lia. cbn [andb].
  destruct (decide (Z.of_nat (length t) < 4096)) as [Hlt|Hlt]; [rewrite (bool_decide_eq_true_2 (_ < 4096)) by done|
    rewrite (bool_decide_eq_false_2 (_ < 4096)) by done].
  - rewrite take_ge by lia. rewrite list_insert_split by (rewrite !length_app; cbn [length]; lia).
    rewrite take_app_length, drop_app_ge by lia. replace (S (length t) - length t)%nat with 1%nat by lia. cbn [app drop].
    rewrite length_app. cbn [length]. case_bool_decide as H5.
    + replace (4096 - (length t + 1))%nat with (S (4094 - length t)) by lia. cbn [replicate].
      rewrite (cons_middle 10), app_assoc. apply cstr_app. rewrite not_elem_of_app. split; [done|].
      by apply (bool_decide_eq_true_1 (0 ∉ [10])).
    + rewrite bool_decide_eq_true_2 by lia. replace (4096 - (length t + 1))%nat with 0%nat by lia. cbn [replicate].
      apply cstr_none. rewrite not_elem_of_app. split; [done|]. by apply (bool_decide_eq_true_1 (0 ∉ [10])).
  - rewrite !bool_decide_eq_false_2 by lia. apply cstr_app. intros (i & Hi & _)%elem_of_take. by apply list_elem_of_lookup_2 in Hi.
Qed.

(** [_time_strf] holds the time of [_old_time]. *)
Definition cache_ok (hms : Z -> list Z) (c : time_cache) : Prop :=
  length (_time_strf c) = 20%nat /\ (_old_time c = 0 \/ take 8 (_time_strf c) = hms (_old_time c)).

(** ** Properties *)
(** The time is printed within its buffer, whatever the order of the calls, and is that of the call although it is formatted
    once in a second only: the eight characters of the second, a point, and the microseconds. *)
Theorem time_str_exact hms sec usec c :
  (forall s, length (hms s) = 8%nat /\ (0 ∉ hms s)) -> cache_ok hms c -> sec <> 0 -> 0 <= usec < 1000000 ->
  exists c', get_time_str hms sec usec c = Some (hms sec ++ 46 :: print_int usec, c') /\ cache_ok hms c'.
Proof.
  intros Hh [Hl Hc] Hs Hu. destruct (Hh sec) as [H8 H0]. unfold get_time_str.
  assert (exists c1, (if bool_decide (_old_time c = sec) then Some c
       else b ← mwrite (_time_strf c) 0 (take (Z.to_nat (TIME_STR_LEN - 1)) (hms sec) ++ [0]); Some (mk_cache b sec)) = Some c1 /\
     length (_time_strf c1) = 20%nat /\ _old_time c1 = sec /\ take 8 (_time_strf c1) = hms sec) as (c1 & -> & Hl1 & Ho1 & Ht1).
  { case_bool_decide as Hsec; [exists c; split_and!; try done; destruct Hc as [Hc|Hc]; congruence|].
    change (Z.to_nat (TIME_STR_LEN - 1)) with 24%nat. rewrite (take_ge (hms sec)) by lia. unfold mwrite, vsize.
    rewrite bool_decide_eq_true_2 by (rewrite length_app; cbn [length]; lia). cbn [mbind option_bind]. eexists. split; [done|].
    cbn [_time_strf _old_time take app]. split_and!; [|done|].
    - rewrite !length_app, length_drop, length_take, Hl. cbn [length]. lia.
    - rewrite take_0, <- app_assoc. cbn [app]. rewrite take_app_le, take_ge by lia. done. }
  assert (length (print_int usec) <= 6)%nat as Hp.
  { unfold print_int. rewrite bool_decide_eq_false_2 by lia. apply digits_bound; [|lia]. change (10 ^ Z.of_nat 6) with 1000000. lia. }
  assert (0 ∉ print_int usec) as Hp0 by (intros [?|?]%print_int_chars; lia).
  assert (snprintf (TIME_STR_LEN - 8) (text ".%ld") [AInt usec] =
    Some (take 16 (46 :: print_int usec) ++ [0], Z.of_nat (length (46 :: print_int usec)))) as ->
    by (unfold snprintf; cbn -[print_int take]; by rewrite app_nil_r).
  cbn [mbind option_bind fst snd]. rewrite take_ge by (cbn [length]; lia). unfold mwrite, vsize.
  rewrite bool_decide_eq_true_2 by (rewrite length_app, Hl1; cbn [length]; lia). cbn [mbind option_bind]. change (Z.to_nat 8) with 8%nat. rewrite Ht1.
  set (rest := drop _ _). assert (length rest = 12 - length ((46%Z :: print_int usec) ++ [0%Z]))%nat as Hrest
    by (unfold rest; rewrite length_drop; lia).
  replace (hms sec ++ ((46 :: print_int usec) ++ [0]) ++ rest) with ((hms sec ++ 46 :: print_int usec) ++ 0 :: rest)
    by (by rewrite <- !app_assoc).
  rewrite cstr_app by (rewrite not_elem_of_app, not_elem_of_cons; done). eexists. split; [done|]. split; cbn [_time_strf _old_time].
  - rewrite !length_app in *. cbn [length] in *. lia.
  - right. rewrite Ho1, <- app_assoc, take_app_le, take_ge by lia. done.
Qed.

Definition demo_hms (sec : Z) : list Z := text "12:00:00".
Definition demo_cache : time_cache := mk_cache (text "12:00:00.25" ++ replicate 9 0) 77.
Lemma time_str_exact_witness :
  exists c', get_time_str demo_hms 77 999999 demo_cache = Some (text "12:00:00.999999", c') /\ cache_ok demo_hms c'.
Proof.
  apply (time_str_exact demo_hms 77 999999 demo_cache).
  - intros s. split; [done|]. by apply (bool_decide_eq_true_1 (0 ∉ text "12:00:00")).
  - split; [done|]. by right.
  - lia.
  - lia.
Defined.

(** The microseconds are not padded: 5 of them and half a second read alike in front. *)
Example usec_not_padded :
  (fst <$> get_time_str demo_hms 77 5 demo_cache, fst <$> get_time_str demo_hms 77 500000 demo_cache) =
  (Some (text "12:00:00.5"), Some (text "12:00:00.500000")).
Proof. by vm_compute. Qed.

(** C39. A message of a logger is its header, its text and a line feed, as long as that makes less than 4096 bytes; at 4096 a
    zero takes the place of the line feed, and any longer message makes [write] read past the buffer, or the string of the
    logger run past its own. *)
Theorem logger_exact w l time fmt args t :
  plain_time time -> format fmt args = Some t -> (0 ∉ t) -> t <> [] ->
  let m := header w l time ++ t ++ [10] in
  logger_write w l time fmt args =
    if bool_decide (Z.of_nat (length m) < 4096) then Some m
    else if bool_decide (Z.of_nat (length m) = 4096) then Some (header w l time ++ t ++ [0]) else None.
Proof.
  intros Ht E H0 Hn m. pose proof (header_length w l time) as Hlen. rewrite (logger_write_string w l time fmt args t) by done.
  unfold logger_string. rewrite (bool_decide_eq_false_2 (t = [])) by done.
  assert (length m = length (header w l time) + length t + 1)%nat as Hm by (unfold m; rewrite !length_app; cbn [length]; lia).
  assert (forall s, (0 ∉ s) -> (4096 < Z.of_nat (length (header w l time ++ s))) -> log_printf w l time (text "%s") [AStr s] = None) as Hover.
  { intros s Hs Hl. rewrite log_printf_s by done. cbn zeta. by rewrite !bool_decide_eq_false_2 by lia. }
  case_bool_decide as H5.
  - cbn [mbind option_bind]. rewrite log_printf_s; [|done|rewrite not_elem_of_app; split; [done|by apply (bool_decide_eq_true_1 (0 ∉ [10]))]].
    cbn zeta. fold m. case_bool_decide as Hlt; [done|]. case_bool_decide as Heq; [|done]. f_equal.
    unfold m. rewrite !app_assoc, take_app_le, take_ge by (rewrite length_app; lia). done.
  - rewrite !(bool_decide_eq_false_2 (Z.of_nat (length m) < _)), (bool_decide_eq_false_2 (Z.of_nat (length m) = _)) by lia.
    case_bool_decide; [done|]. cbn [mbind option_bind]. apply Hover; [intros (i & Hi & _)%elem_of_take; by apply list_elem_of_lookup_2 in Hi|].
    rewrite length_app, length_take. lia.
Qed.

Lemma logger_exact_witness :
  logger_write demo_who LOG_ERROR (text "12:00:00.5") (text "lost %d of %s") [AInt 3; AStr (text "x")] =
    Some (header demo_who LOG_ERROR (text "12:00:00.5") ++ text "lost 3 of x" ++ [10]).
Proof.
  assert (bool_decide (Z.of_nat (length (header demo_who LOG_ERROR (text "12:00:00.5") ++ text "lost 3 of x" ++ [10])) < 4096) = true)
    as Hb by (by vm_compute).
  rewrite (logger_exact demo_who LOG_ERROR (text "12:00:00.5") (text "lost %d of %s") [AInt 3; AStr (text "x")] (text "lost 3 of x")).
  - by rewrite Hb.
  - split_and!; [by apply (bool_decide_eq_true_1 (37 ∉ text "12:00:00.5"))|by apply (bool_decide_eq_true_1 (0 ∉ text "12:00:00.5"))|
      by apply (bool_decide_eq_true_1 (length (text "12:00:00.5") <= 900)%nat)].
  - by vm_compute.
  - by apply (bool_decide_eq_true_1 (0 ∉ text "lost 3 of x")).
  - done.
Defined.

(** A format that makes more than 1023 bytes with its header: the terminator is put past the array. *)
Example format_too_long : log_printf demo_who LOG_INFO (text "12:00:00.5") (replicate 1000 120) [] = None.
Proof. by vm_compute. Qed.

(** A text of 4080 characters: [write] is given more bytes than there are. *)
Example write_past_end : logger_write demo_who LOG_INFO (text "12:00:00.5") (replicate 4080 120) [] = None.
Proof. by vm_compute. Qed.
