(* ===== verification/Timer.v ===== *)
(** * sync/Timer.h: the timer object over timer.c

    Each operation forwards to timer.c (SysHelper.v); the object keeps the descriptor, [-1]
    when there is none. *)
From S2P Require Import Prelude TimeWheel Event SysHook SysHelper.
Local Open Scope Z_scope.
Local Open Scope monad_scope.

Record Timer := mk_timer { fTimerFd : Z }.
Definition Timer_new : Timer := mk_timer (-1).

Section timer.
Context {K : Type} `{!Kernel K}.

(** The answer is 0 also when no timer could be opened. *)
Definition timer_open (t : Timer) : M K (Z * Timer) :=
  if bool_decide (fTimerFd t < 0) then fd <- open_timer;; ret (0, mk_timer fd) else ret (0, t).

(** [gettimeofday] gives the seconds and microseconds. *)
Definition CurrentTimeMs (tv_sec tv_usec : Z) : Z := i64 (i64 (tv_sec * 1000) + Z.quot tv_usec 1000).

Definition timer_set (t : Timer) (ms : Z) : M K bool := r <- set_timer (fTimerFd t) ms;; ret (bool_decide (0 <= r)).
Definition timer_cancel (t : Timer) : M K bool := r <- cancel_timer (fTimerFd t);; ret (bool_decide (0 <= r)).
Definition timer_wait (t : Timer) (ms : Z) : M K bool := r <- wait_timer (fTimerFd t) ms;; ret (bool_decide (0 <= r)).
Definition timer_timeout (t : Timer) : M K bool := is_timeout_timer (fTimerFd t).
Definition timer_handle (t : Timer) : M K unit := handle_timer (fTimerFd t);; ret tt.
Definition timer_close (t : Timer) : M K Timer := close_timer (fTimerFd t);; ret (mk_timer (-1)).
Definition Timer_delete (t : Timer) : M K unit :=
  if bool_decide (0 < fTimerFd t) then timer_close t;; ret tt else ret tt.

(** The descriptor of an object is [-1] or one that [open_timer] gave. *)
Lemma timer_open_fd (t t' : Timer) r s s' :
  (fTimerFd t = -1 \/ 0 < fTimerFd t) -> timer_open t s = Some (r, t', s') ->
  r = 0 /\ (fTimerFd t' = -1 \/ 0 < fTimerFd t') /\ (0 < fTimerFd t -> t' = t /\ s' = s).
Proof.
  intros Ht. unfold timer_open. case_bool_decide as Hn; [|unfold ret; intros [= <- <- <-]; split_and!; [done|lia|done]].
  intros (fd & s1 & Ho & E)%bind_inv. unfold ret in E. injection E as <- <- <-. split_and!; [done| |lia].
  unfold open_timer in Ho. apply bind_inv in Ho as (x & s2 & _ & Ho). case_bool_decide.
  - unfold ret in Ho. injection Ho as <- <-. by left.
  - apply bind_inv in Ho as (o & s3 & _ & Ho). apply bind_inv in Ho as (? & s4 & _ & Ho). apply bind_inv in Ho as (? & s5 & _ & Ho).
    unfold ret in Ho. injection Ho as <- <-. cbn. lia.
Qed.

(** Setting or waiting on an object without a descriptor fails and changes nothing. *)
Lemma timer_unopened ms s :
  timer_set Timer_new ms s = Some (false, s) /\ timer_wait Timer_new ms s = Some (false, s) /\
  timer_timeout Timer_new s = Some (false, s) /\ Timer_delete Timer_new s = Some (tt, s).
Proof. split_and!; reflexivity. Qed.
End timer.
