(* ===== verification/SharedMemory.v ===== *)
(** * core/SharedMemoryData.h: memory shared under a name, or anonymous

    [open] rounds the size up to whole pages, opens the object, gives it that size and maps
    it. The calls are parameters over the state of SysHook.v; [::close] is the hooked one. Addresses
    are numbers, 0 is [NULL]; names are lists of bytes. *)
From S2P Require Import Prelude TimeWheel Event SysHook.
Local Open Scope Z_scope.
Local Open Scope monad_scope.

(** The results are negative when a call fails, [MAP_FAILED] included. *)
Class ShmKernel (K : Type) := {
  getpagesize : Z;
  k_shm_open : list Z -> K -> Z * Z * K;
  k_ftruncate : Z -> Z -> K -> Z * Z * K;
  k_mmap : Z -> Z -> Z -> K -> Z * Z * K;          (* size, flags, descriptor *)
  k_munmap : Z -> Z -> K -> Z * Z * K;
  k_shm_unlink : list Z -> K -> Z * Z * K
}.

Record SharedMemoryData := mk_shm {
  fFileName : list Z; fSize : Z; fAnonymous : bool; fHandle : Z; fPersist : bool }.

Definition shm_anonymous (size : Z) : SharedMemoryData := mk_shm [] size true 0 false.
Definition shm_named (filename : list Z) (size : Z) : SharedMemoryData := mk_shm filename size false 0 false.
Definition shm_full (filename : list Z) (size : Z) (persist anony : bool) : SharedMemoryData :=
  mk_shm filename size anony 0 persist.

Definition MAP_SHARED : Z := 1.
Definition MAP_ANONYMOUS : Z := 32.

(** [page_size] is an [int], the rest [size_t]. *)
Definition page_round (page_size size : Z) : Z :=
  if bool_decide (size mod u64 page_size = 0) then size
  else u64 (u64 page_size * u64 (size / u64 page_size + 1)).

Section shm.
Context {K : Type} `{!Kernel K, !ShmKernel K}.

(** Whether a file of that name exists is asked but not used. *)
Definition shm_data_open (d : SharedMemoryData) : M K (Z * SharedMemoryData) :=
  let size := page_round getpagesize (fSize d) in
  let d := mk_shm (fFileName d) size (fAnonymous d) (fHandle d) (fPersist d) in
  let map fd flags :=
    h <- call (k_mmap size (Z.lor flags MAP_SHARED) fd);;
    let h := if bool_decide (h < 0) then 0 else h in
    close fd;;
    ret (h, mk_shm (fFileName d) size (fAnonymous d) h (fPersist d)) in
  if fAnonymous d then map (-1) MAP_ANONYMOUS
  else
    fd <- call (k_shm_open (fFileName d));;
    if bool_decide (fd < 0) then ret (0, d)
    else call (k_ftruncate fd size);; map fd 0.

Definition shm_data_delete (d : SharedMemoryData) : M K unit :=
  call (k_munmap (fHandle d) (fSize d));;
  if negb (fAnonymous d) && negb (fPersist d) then call (k_shm_unlink (fFileName d));; ret tt else ret tt.
End shm.

(** ** Properties *)
(** The size is rounded up to the next multiple of the page size, exactly, and once: opening again
    keeps it. It wraps to 0 for the last, incomplete, page of the address space. *)
Theorem page_round_exact page size :
  0 < page < 2 ^ 31 -> (page | 2 ^ 64) -> 0 <= size < 2 ^ 64 ->
  let r := page_round page size in
  (page | r) /\ page_round page r = r /\ 0 <= r < 2 ^ 64 /\
  (size + page <= 2 ^ 64 -> size <= r < size + page) /\ (2 ^ 64 < size + page -> r = 0).
Proof.
  intros Hp [n Hn] Hs r. assert (u64 page = page) as Eu by (apply u64_small; lia).
  pose proof (Z.div_mod size page ltac:(lia)) as Hd. pose proof (Z.mod_pos_bound size page ltac:(lia)) as Hm.
  assert (0 <= size / page) as Hq by (apply Z.div_pos; lia).
  assert (size / page < n) as Hqn by (apply Z.div_lt_upper_bound; lia).
  assert (r = if decide (size mod page = 0) then size else (page * (size / page + 1)) mod 2 ^ 64) as Er.
  { subst r. unfold page_round. rewrite Eu. case_bool_decide; [by rewrite decide_True|]. rewrite decide_False by done.
    rewrite (u64_small (_ + 1)) by nia. done. }
  assert ((page | r) /\ 0 <= r < 2 ^ 64 /\ (size + page <= 2 ^ 64 -> size <= r < size + page) /\ (2 ^ 64 < size + page -> r = 0))
    as (Hr & Hb & H1 & H2).
  { clearbody r. case_decide as E.
    - rewrite Er. split_and!; [by apply Z.mod_divide; lia|lia|lia|lia|]. intros H2. nia.
    - destruct (decide (size / page + 1 = n)) as [En|En].
      + rewrite En, Z.mul_comm, <- Hn, Z.mod_same in Er by lia. rewrite Er. split_and!; [by exists 0|lia|lia|nia|done].
      + rewrite Z.mod_small in Er by nia. rewrite Er. split_and!; [by exists (size / page + 1); lia|nia|nia|nia|]. nia. }
  split_and!; try done; try lia. unfold page_round. rewrite Eu, bool_decide_eq_true_2; [done|]. apply Z.mod_divide; [lia|done].
Qed.

Lemma page_round_exact_witness :
  page_round 4096 5000 = 8192 /\ (4096 | page_round 4096 5000) /\ page_round 4096 (2 ^ 64 - 1) = 0.
Proof.
  split; [by vm_compute|]. destruct (page_round_exact 4096 5000) as (H1 & _); [lia|by exists (2 ^ 52)|lia|].
  split; [exact H1|]. by vm_compute.
Defined.

(** When the object cannot be opened nothing is mapped and the handle stays; [open] returns
    [NULL] but a handle from before is kept and unmapped by the destructor. Memory that cannot be mapped leaves
    [NULL], with the object closed but still there under its name. *)
Theorem shm_open_outcome (K : Type) `{!Kernel K, !ShmKernel K} (d d' : SharedMemoryData) (a : Z) (s s' : thread K) :
  shm_data_open d s = Some (a, d', s') ->
  fSize d' = page_round getpagesize (fSize d) /\ fFileName d' = fFileName d /\ 0 <= a /\
  (fHandle d' = a \/
   (a = 0 /\ fAnonymous d = false /\ fHandle d' = fHandle d /\
    exists fd, fd < 0 /\ call (k_shm_open (fFileName d)) s = Some (fd, s'))).
Proof.
  set (size := page_round getpagesize (fSize d)).
  assert (forall fd fl s1, (
    h <- call (k_mmap size (Z.lor fl MAP_SHARED) fd);;
    let h := if bool_decide (h < 0) then 0 else h in
    close fd;; ret (h, mk_shm (fFileName d) size (fAnonymous d) h (fPersist d))) s1 = Some (a, d', s') ->
    fSize d' = size /\ fFileName d' = fFileName d /\ 0 <= a /\ fHandle d' = a) as Hmap.
  { intros fd fl s1 (h & s2 & _ & H)%bind_inv. cbn zeta in H. apply bind_inv in H as (r & s3 & _ & H).
    unfold ret in H. injection H as <- <- <-. cbn. split_and!; try done. case_bool_decide; lia. }
  intros Ho. unfold shm_data_open in Ho. fold size in Ho. cbn [fAnonymous fFileName fHandle fPersist] in Ho.
  destruct (fAnonymous d) eqn:Ea.
  - apply Hmap in Ho as (? & ? & ? & ?). split_and!; try done. by left.
  - apply bind_inv in Ho as (fd & s1 & E & Ho). case_bool_decide as Hfd.
    + unfold ret in Ho. injection Ho as <- <- <-. cbn. split_and!; try done. right. split_and!; eauto.
    + apply bind_inv in Ho as (r & s2 & _ & Ho). apply Hmap in Ho as (? & ? & ? & ?). split_and!; try done. by left.
Qed.
