(* ===== verification/Socket.v ===== *)
(** * net/Address.h, Socket.h, SocketHelper.h, Unhook.h: sockets and how they are opened

    Built on the hooked calls of SysHook.v and SysHelper.v. The tables of addresses and of
    TLS handlers are indexed by descriptor; an access outside them is [None], like every
    crash. An [Address] on the heap has a number, so that leaks and dangling pointers can be
    stated. Outside are the further system calls ([SocketKernel]), OpenSSL ([SSL]) and the
    conversion of dotted addresses ([Inet]). *)
From S2P Require Import Prelude Buffer TimeWheel Event SysHook SysHelper.
Local Open Scope Z_scope.

(** ** Address.h *)
Definition AF_INET : Z := 2.
Definition SOCK_STREAM : Z := 1.
Definition ADDRESS_INET_ANY : list Z := [48; 46; 48; 46; 48; 46; 48].

Record Address := mk_address {
  domain : Z; type_ : Z; family : Z; address : list Z; port : Z }.

Record sockaddr_in := mk_sockaddr { sin_family : Z; sin_port : Z; s_addr : Z }.

(** [htons] and [ntohs] on x86-64; the argument is converted to 16 bits. *)
Definition htons (v : Z) : Z :=
  let v := uwrap 16 v in Z.lor (Z.shiftl (Z.land v 255) 8) (Z.shiftr v 8).

(** [inet_addr] and [inet_ntop] for [AF_INET], on addresses in network order. *)
Class Inet := {
  inet_addr : list Z -> Z;
  inet_ntop : Z -> list Z
}.

Section address.
Context `{!Inet}.

Definition Address_new (addr : list Z) (p : Z) : Address :=
  mk_address AF_INET SOCK_STREAM AF_INET addr (i32 p).

Definition Address_of (sock_addr : sockaddr_in) (fam : Z) : Address :=
  mk_address AF_INET SOCK_STREAM fam (inet_ntop (s_addr sock_addr)) (htons (sin_port sock_addr)).

Definition toSockAddr (a : Address) : sockaddr_in :=
  mk_sockaddr (uwrap 16 (family a)) (htons (port a))
    (if bool_decide (address a = ADDRESS_INET_ANY) then 0 else inet_addr (address a)).
End address.

(** The structure as the number that its bytes make. *)
Definition sockaddr_bits (sa : sockaddr_in) : Z :=
  sin_family sa + Z.shiftl (sin_port sa) 16 + Z.shiftl (s_addr sa) 32.

(** ** The world of a thread with sockets *)
Definition INVALID_SOCKET : Z := -1.
Definition SOCKET_MAX_NUMBER : Z := 65536.
Definition EINVAL : Z := 22.
Definition FD_CLOEXEC : Z := 1.

Inductive sockopt := SO_REUSEADDR | SO_REUSEPORT | SO_KEEPALIVE | TCP_NODELAY | TCP_CORK.

(** The result of a call, the [errno] when it fails, the next state; [k_getsockopt_error] also
    hands over the pending error, [k_peer] is the address that [accept] stored for a
    descriptor it returned, [k_pipe2] hands over the two ends. *)
Class SocketKernel (K : Type) := {
  k_getsockopt_error : Z -> K -> Z * Z * Z * K;
  k_setsockopt : Z -> sockopt -> Z -> K -> Z * Z * K;
  k_bind : Z -> Z -> K -> Z * Z * K;
  k_peer : Z -> K -> sockaddr_in;
  k_pipe2 : K -> Z * (Z * Z) * Z * K;
  k_splice : Z -> Z -> Z -> K -> Z * Z * K
}.

(** What [SSLHandler] forwards to OpenSSL, for handler [h]. *)
Class SSL (K : Type) := {
  ssl_read : nat -> Z -> M K (Z * list Z);
  ssl_write : nat -> list Z -> M K Z;
  ssl_close : nat -> M K unit;
  ssl_getErrno : nat -> M K Z;
  ssl_getSocket : nat -> K -> Z
}.

Record world (K : Type) := mk_world {
  thr : thread K;
  g_sock_address : gmap Z nat;
  addrs : gmap nat Address;          (* the heap of addresses *)
  g_sock_ssl_handler : gmap Z nat;
  handlers : gset nat                (* the live handlers *)
}.
Arguments mk_world {K}. Arguments thr {K}. Arguments g_sock_address {K}. Arguments addrs {K}.
Arguments g_sock_ssl_handler {K}. Arguments handlers {K}.

(** State and failure over the world. *)
Definition W (K A : Type) : Type := world K -> option (A * world K).
#[export] Instance W_ret K : MRet (W K) := fun A x w => Some (x, w).
#[export] Instance W_bind K : MBind (W K) := fun A B f m w =>
  match m w with Some (x, w) => f x w | None => None end.

Section socket.
Context {K : Type} `{!Kernel K, !SocketKernel K, !SSL K, !Inet}.

Definition wret {A} (x : A) : W K A := mret x.
Definition wpanic {A} : W K A := fun _ => None.
Definition lift {A} (m : M K A) : W K A := fun w =>
  match m (thr w) with
  | Some (x, s) => Some (x, mk_world s (g_sock_address w) (addrs w) (g_sock_ssl_handler w) (handlers w))
  | None => None
  end.
Definition wget {A} (f : world K -> A) : W K A := fun w => Some (f w, w).
Definition set_addresses (t : gmap Z nat) (h : gmap nat Address) : W K unit := fun w =>
  Some (tt, mk_world (thr w) t h (g_sock_ssl_handler w) (handlers w)).
Definition set_handlers (t : gmap Z nat) (h : gset nat) : W K unit := fun w =>
  Some (tt, mk_world (thr w) (g_sock_address w) (addrs w) t h).

(** The slot of [fd]: both tables have [SOCKET_MAX_NUMBER] entries. *)
Definition slot (fd : Z) : W K unit :=
  if bool_decide (0 <= fd < SOCKET_MAX_NUMBER) then wret tt else wpanic.

(** ** Socket.h *)
Record Socket := mk_socket { fSockFd : Z; fTimeout : Z }.

Definition Socket_new (fd : Z) : Socket := mk_socket fd 0.
Definition attach (sock : Z) (s : Socket) : Socket := mk_socket sock (fTimeout s).
Definition detach (s : Socket) : Z * Socket := (fSockFd s, mk_socket INVALID_SOCKET (fTimeout s)).

Definition valid (sockfd : Z) : W K bool :=
  if bool_decide (sockfd <= INVALID_SOCKET) then wret false
  else
    r ← lift (call_in (k_getsockopt_error sockfd));
    if bool_decide (r.1 <> 0) then wret false
    else if bool_decide (r.2 <> 0) then wret false
    else wret true.

Definition setopt (sockfd : Z) (o : sockopt) (v : Z) : W K bool :=
  b ← valid sockfd;
  if negb b then wret false
  else r ← lift (call (k_setsockopt sockfd o v)); wret (bool_decide (r = 0)).

Definition setReuseAddress (s : Socket) : W K bool := setopt (fSockFd s) SO_REUSEADDR 1.
Definition setReusePort (s : Socket) : W K bool := setopt (fSockFd s) SO_REUSEPORT 1.

Definition setCloseOnExec (s : Socket) : W K bool :=
  b ← valid (fSockFd s);
  if negb b then wret false
  else
    flags ← lift (fcntl (fSockFd s) F_GETFD 0);
    lift (fcntl (fSockFd s) F_SETFD (Z.lor flags FD_CLOEXEC));;
    wret true.

Definition getAddress (s : Socket) : W K (option nat) :=
  b ← valid (fSockFd s);
  if negb b then wret None
  else slot (fSockFd s);; t ← wget g_sock_address; wret (t !! fSockFd s).

Definition setTimeout (tm : Z) (s : Socket) : W K Socket :=
  lift (set_inner_fd_timeout (fSockFd s) tm);;
  wret (mk_socket (fSockFd s) tm).

Definition GetSSLHandler (sockfd : Z) : W K (option nat) :=
  if bool_decide (sockfd < 0) then wret None
  else slot sockfd;; t ← wget g_sock_ssl_handler; wret (t !! sockfd).

Definition sock_read (s : Socket) (buf_len : Z) : W K (Z * list Z) :=
  if bool_decide (fSockFd s < 0) then wret (-1, [])
  else
    h ← GetSSLHandler (fSockFd s);
    match h with
    | Some h => lift (ssl_read h buf_len)
    | None => lift (read (fSockFd s) buf_len)
    end.

Definition sock_write (fuel : nat) (s : Socket) (buf : list Z) : W K Z :=
  if bool_decide (fSockFd s < 0) then wret (-1)
  else
    h ← GetSSLHandler (fSockFd s);
    match h with
    | Some h => lift (ssl_write h buf)
    | None => lift (write fuel (fSockFd s) buf)
    end.

(** The timed calls pass a TLS handler by. *)
Definition readTill (s : Socket) (buf_len ms : Z) : W K (Z * list Z) :=
  lift (co_read_till (fSockFd s) (u32 buf_len) ms).
Definition writeTill (fuel : nat) (s : Socket) (buf : list Z) (ms : Z) : W K Z :=
  lift (co_write_till fuel (fSockFd s) buf ms).

Definition setSSLHandler (ssl : option nat) (s : Socket) : W K bool :=
  if bool_decide (fSockFd s < 0) then wret false
  else
    slot (fSockFd s);;
    t ← wget g_sock_ssl_handler;
    h ← wget handlers;
    set_handlers (partial_alter (fun _ => ssl) (fSockFd s) t) h;;
    wret true.

Definition sock_close (s : Socket) : W K (Z * Socket) :=
  if bool_decide (fSockFd s < 0) then wret (-1, s)
  else
    slot (fSockFd s);;
    t ← wget g_sock_address;
    a ← wget addrs;
    match t !! fSockFd s with
    | Some p => set_addresses (delete (fSockFd s) t) (delete p a)
    | None => wret tt
    end;;
    h ← GetSSLHandler (fSockFd s);
    match h with
    | Some p =>
        t ← wget g_sock_ssl_handler;
        live ← wget handlers;
        set_handlers (delete (fSockFd s) t) live;;
        lift (ssl_close p);;
        t ← wget g_sock_ssl_handler;
        live ← wget handlers;
        set_handlers t (live ∖ {[p]})
    | None => wret tt
    end;;
    rs ← lift (close (fSockFd s));
    wret (rs, mk_socket INVALID_SOCKET (fTimeout s)).

(** ** SocketHelper.h *)
(** [setupSockAddress]: the new [Address] replaces what the slot held. *)
Definition setupSockAddress (sockfd : Z) (addr : Address) : W K unit :=
  slot sockfd;;
  t ← wget g_sock_address;
  a ← wget addrs;
  let p := fresh (dom a) in
  set_addresses (<[sockfd := p]> t) (<[p := addr]> a).

(** [cleanupSockAddress]; [delete] of a null pointer does nothing. *)
Definition cleanupSockAddress (sockfd : Z) : W K unit :=
  slot sockfd;;
  t ← wget g_sock_address;
  a ← wget addrs;
  set_addresses (delete sockfd t) (match t !! sockfd with Some p => delete p a | None => a end).

Definition TcpSetNoDelay (sockfd : Z) (on : bool) : W K bool :=
  setopt sockfd TCP_NODELAY (if on then 1 else 0).
Definition TcpSetCork (sockfd : Z) (on : bool) : W K bool :=
  setopt sockfd TCP_CORK (if on then 1 else 0).
Definition TcpSetKeepalive (sockfd : Z) (on : bool) : W K bool :=
  setopt sockfd SO_KEEPALIVE (if on then 1 else 0).

(** What follows a successful connection. *)
Definition established (sockfd : Z) (addr : Address) : W K Z :=
  setupSockAddress sockfd addr;;
  TcpSetKeepalive sockfd true;;
  TcpSetNoDelay sockfd true;;
  setCloseOnExec (Socket_new sockfd);;
  wret sockfd.

(** What follows a failed one. *)
Definition refused (sockfd : Z) : W K Z := sock_close (Socket_new sockfd);; wret INVALID_SOCKET.

(** A socket that is not valid is not closed. *)
Definition TcpConnect (addr : Address) : W K Z :=
  sockfd ← lift (socket (domain addr) (type_ addr) 0);
  b ← valid sockfd;
  if negb b then wret INVALID_SOCKET
  else
    n ← lift (connect sockfd (sockaddr_bits (toSockAddr addr)));
    if bool_decide (n < 0) then refused sockfd else established sockfd addr.

Definition get_connect_error (fd : Z) : W K Z :=
  r ← lift (call_in (k_getsockopt_error fd));
  wret (if bool_decide (r.1 < 0) then 0 else r.2).

(** Inside the scope of an [Unhook]. *)
Definition unhooked {A} (m : W K A) : W K A :=
  lift co_disable_hook;;
  x ← m;
  lift co_enable_hook;;
  wret x.

(** Poller.h: a call on a [Poller], which lives for that call. *)
Definition Poller_call (pfds : list pollfd) (ms : Z) : W K (Z * list pollfd) := unhooked (lift (co_poll pfds (i32 ms))).

Definition TcpConnectTill (addr : Address) (ms : Z) : W K Z :=
  sockfd ← lift (socket (domain addr) (type_ addr) 0);
  unhooked (
    b ← valid sockfd;
    if negb b then wret INVALID_SOCKET
    else
      r ← lift (connect sockfd (sockaddr_bits (toSockAddr addr)));
      e ← wget (fun w => errno (thr w));
      if bool_decide (r = -1) then
        if bool_decide (e = EALREADY) || bool_decide (e = EINPROGRESS) then
          p ← lift (co_poll [mk_pollfd sockfd write_events 0] (i32 ms));
          if bool_decide (p.1 = 1) && has (default 0 (revents <$> p.2 !! 0%nat)) EPOLLOUT then
            c ← get_connect_error sockfd;
            if bool_decide (c = 0) then established sockfd addr else refused sockfd
          else refused sockfd
        else refused sockfd
      else established sockfd addr).

(** The number of a socket that failed is returned although it was closed. *)
Definition TcpListen (addr : Address) : W K Z :=
  sockfd ← lift (socket (domain addr) (type_ addr) 0);
  let sock := Socket_new sockfd in
  failed ← (
    b ← valid sockfd;
    if negb b then wret true
    else
      setReuseAddress sock;;
      setReusePort sock;;
      n ← lift (call (k_bind sockfd (sockaddr_bits (toSockAddr addr))));
      if bool_decide (n < 0) then wret true
      else
        n ← lift (listen sockfd 10);
        if bool_decide (n < 0) then wret true
        else setupSockAddress sockfd addr;; wret false);
  if (failed : bool) then sock_close sock;; wret sockfd else wret sockfd.

Definition TcpAccept (sockfd : Z) : W K Z :=
  client ← lift (accept sockfd);
  b ← valid client;
  if negb b then sock_close (Socket_new client);; wret INVALID_SOCKET
  else
    k ← wget (fun w => kern (thr w));
    setupSockAddress client (Address_of (k_peer client k) AF_INET);;
    wret client.

Definition WaitForSocketEvent (sockfd event timeout_ms : Z) : W K Z :=
  r ← lift (co_poll [mk_pollfd sockfd (Z.lor event (Z.lor EPOLLRDHUP EPOLLERR)) 0] (i32 timeout_ms));
  wret r.1.
Definition WaitForSocketReadable (sockfd timeout_ms : Z) : W K Z := WaitForSocketEvent sockfd EPOLLIN timeout_ms.
Definition WaitForSocketWritable (sockfd timeout_ms : Z) : W K Z := WaitForSocketEvent sockfd EPOLLOUT timeout_ms.

(** The loop that moves data from a socket into the pipe: [inl] the value to return, [inr]
    the bytes in the pipe. *)
Fixpoint splice_in (fuel : nat) (from fd_in max_len timeout_ms : Z) : W K (Z + Z) :=
  match fuel with
  | O => wpanic
  | S fuel =>
      r ← lift (call (k_splice from fd_in max_len));
      e ← wget (fun w => errno (thr w));
      if bool_decide (i32 r < 0) then
        if again e then
          res ← WaitForSocketReadable from timeout_ms;
          if bool_decide (res <= 0) then wret (inl (-1))
          else splice_in fuel from fd_in max_len timeout_ms
        else wret (inl (-1))
      else if bool_decide (i32 r <= 0) then splice_in fuel from fd_in max_len timeout_ms
      else wret (inr (i32 r))
  end.

Fixpoint splice_out (fuel : nat) (fd_out to recv_len data_len timeout_ms : Z) : W K Z :=
  match fuel with
  | O => wpanic
  | S fuel =>
      if bool_decide (0 < recv_len) then
        r ← lift (call (k_splice fd_out to recv_len));
        e ← wget (fun w => errno (thr w));
        if bool_decide (i32 r < 0) then
          if again e then
            res ← WaitForSocketWritable to timeout_ms;
            if bool_decide (res <= 0) then wret (-1)
            else splice_out fuel fd_out to recv_len data_len timeout_ms
          else wret (-1)
        else splice_out fuel fd_out to (recv_len - i32 r) data_len timeout_ms
      else wret data_len
  end.

(** [pipefds[0]], the end to read from, is taken for the one to write to. *)
Definition SpliceSocketData (fuel : nat) (from to max_len timeout_ms : Z) : W K Z :=
  r ← lift (call_in k_pipe2);
  if bool_decide (r.1 < 0) then wret (-1)
  else
    let fd_in := r.2.1 in
    let fd_out := r.2.2 in
    let len := 32 * 1024 in
    let max_len := if bool_decide (max_len < 0) then len else Z.min max_len len in
    x ← splice_in fuel from fd_in max_len timeout_ms;
    match x with
    | inl r => wret r
    | inr n => splice_out fuel fd_out to n n timeout_ms
    end.

Definition SSL_ERROR_WANT_READ : Z := 2.
Definition SSL_ERROR_WANT_WRITE : Z := 3.

(** After a failed read or write: the result of the wait, or [-1]. Both loops wait for the
    descriptor data comes from. *)
Definition ssl_wait (h : nat) (fd timeout_ms : Z) : W K Z :=
  e ← wget (fun w => errno (thr w));
  if again e then
    c ← lift (ssl_getErrno h);
    if bool_decide (c = SSL_ERROR_WANT_WRITE) then WaitForSocketWritable fd timeout_ms
    else
      c ← lift (ssl_getErrno h);
      if bool_decide (c = SSL_ERROR_WANT_READ) then WaitForSocketReadable fd timeout_ms
      else wret (-1)
  else wret (-1).

(** [buf.fill(recvn)] of what [read] put behind the content; a negative count makes
    [vector::resize] throw. *)
Definition received_into (buf : Buffer) (recvn : Z) (bs : list Z) : option Buffer :=
  if bool_decide (recvn < 0) then None
  else
    let at_ := Z.to_nat (fWriteIdx buf) in
    let v := take at_ (fData buf) ++ bs ++ drop (at_ + List.length bs) (fData buf) in
    snd <$> Buffer.fill (mk_Buffer v (fReadIdx buf) (fWriteIdx buf)) None recvn.

Fixpoint ssl_send (fuel : nat) (to : nat) (from_fd : Z) (buf : Buffer) (data_tunnel timeout_ms : Z) : W K Z :=
  match fuel with
  | O => wpanic
  | S fuel =>
      if bool_decide (0 < Buffer.length buf) then
        match Buffer.peek buf (Buffer.length buf) with
        | None => wpanic
        | Some (_, bs) =>
            sendn ← lift (ssl_write to bs);
            if bool_decide (sendn <= 0) then
              res ← ssl_wait to from_fd timeout_ms;
              if bool_decide (res <= 0) then wret (-1)
              else ssl_send fuel to from_fd buf data_tunnel timeout_ms
            else
              match Buffer.shrink buf sendn with
              | None => wpanic
              | Some (_, buf) => ssl_send fuel to from_fd buf data_tunnel timeout_ms
              end
        end
      else wret data_tunnel
  end.

(** The condition [recv < 0] is about the function [recv]: the loop never reads again. *)
Definition SpliceSSLData (fuel : nat) (from to : option nat) (max timeout_ms : Z) : W K Z :=
  match from, to with
  | Some from, Some to =>
      from_fd ← wget (fun w => ssl_getSocket from (kern (thr w)));
      unhooked (
        let buf := Buffer_new (Z.max max (10 * 1024)) in
        r ← lift (ssl_read from (right buf));
        let recvn := r.1 in
        go_on ← (if bool_decide (recvn <= 0) then
                   res ← ssl_wait from from_fd timeout_ms; wret (negb (bool_decide (res <= 0)))
                 else wret true);
        if negb go_on then wret (-1)
        else
          match received_into buf recvn r.2 with
          | None => wpanic
          | Some buf => ssl_send fuel to from_fd buf recvn timeout_ms
          end)
  | _, _ => wret (-1)
  end.

(** Both entries of the array are the client's. *)
Fixpoint tunnel_loop (fuel : nat) (csock ssock : Z) (use_ssl : bool) (pfds : list pollfd) (timeout_ms : Z) :
    W K Z :=
  match fuel with
  | O => wpanic
  | S fuel' =>
      n ← lift (co_poll pfds (i32 timeout_ms));
      if bool_decide (n.1 = 0) then wret n.1
      else if bool_decide (n.1 < 0) then wret n.1
      else
        match n.2 !! 0%nat with
        | None => wpanic
        | Some p =>
            let from := pfd p in
            let to := if bool_decide (from = csock) then ssock else csock in
            r ← (if use_ssl then
                   h1 ← GetSSLHandler from;
                   h2 ← GetSSLHandler to;
                   SpliceSSLData fuel h1 h2 (1024 * 10) timeout_ms
                 else SpliceSocketData fuel from to (1024 * 10) timeout_ms);
            if bool_decide (r < 0) then wret (-1)
            else tunnel_loop fuel' csock ssock use_ssl n.2 timeout_ms
        end
  end.

Definition tunnel (fuel : nat) (csock ssock timeout_ms : Z) : W K Z :=
  b1 ← valid csock;
  if negb b1 then wret (-1)
  else
    b2 ← valid ssock;
    if negb b2 then wret (-1)
    else
      h1 ← GetSSLHandler csock;
      use_ssl ← (match h1 with
                 | None => wret false
                 | Some _ => h2 ← GetSSLHandler ssock; wret (bool_decide (h2 <> None))
                 end);
      let p := mk_pollfd csock in_events 0 in
      tunnel_loop fuel csock ssock use_ssl [p; p] timeout_ms.
End socket.

(** ** Laws of the further calls *)
(** [kflags] are the flags of the open descriptors, as in SysHook.v: the calls on a socket
    open and close none, a new descriptor was not open before. While a task waits nobody
    closes descriptors. *)
Class SocketLaws (K : Type) `{!Kernel K, !SocketKernel K, !SSL K} (kflags : K -> gmap Z Z) := {
  sl_getsockopt fd k : kflags (k_getsockopt_error fd k).2 = kflags k;
  sl_setsockopt fd o v k : kflags (k_setsockopt fd o v k).2 = kflags k;
  sl_bind fd a k : kflags (k_bind fd a k).2 = kflags k;
  sl_timer : opens kflags k_timerfd_create;
  sl_timer_new k : 0 <= (k_timerfd_create k).1.1 -> kflags k !! (k_timerfd_create k).1.1 = None;
  sl_settime fd s n k : kflags (k_timerfd_settime fd s n k).2 = kflags k;
  sl_socket d t p k : 0 <= (k_socket d t p k).1.1 ->
    kflags k !! (k_socket d t p k).1.1 = None /\ is_Some (kflags (k_socket d t p k).2 !! (k_socket d t p k).1.1);
  sl_accept fd k : 0 <= (k_accept fd k).1.1 ->
    kflags k !! (k_accept fd k).1.1 = None /\ is_Some (kflags (k_accept fd k).2 !! (k_accept fd k).1.1);
  sl_sleep s : dom (kflags (kern s)) ⊆ dom (kflags (kern (k_sleep s)));
  sl_ssl_read h n s x s' : ssl_read h n s = Some (x, s') -> kflags (kern s') = kflags (kern s);
  sl_ssl_write h bs s x s' : ssl_write h bs s = Some (x, s') -> kflags (kern s') = kflags (kern s);
  sl_ssl_close h s x s' : ssl_close h s = Some (x, s') -> kflags (kern s') = kflags (kern s)
}.

(** *** Descriptors stay open *)
Section open.
Context {K : Type} `{!Kernel K, !SocketKernel K, !SSL K} (kflags : K -> gmap Z Z).
Context `{HF : !FlagLaws K kflags, HS : !SocketLaws K kflags}.

(** The descriptors [D] are open. *)
Definition open (D : gset Z) (s : thread K) : Prop := D ⊆ dom (kflags (kern s)).

Context (D : gset Z).
Local Abbreviation P := (open D).

Lemma open_put f : (forall s, kern (f s) = kern s) -> keeps P (put f).
Proof. intros Hf s x s' Hs [= _ <-]. unfold open. by rewrite Hf. Qed.
Lemma open_call f : (forall k, dom (kflags k) ⊆ dom (kflags (f k).2)) -> keeps P (call f).
Proof.
  intros Hf s x s' Hs. unfold call. specialize (Hf (kern s)). destruct (f (kern s)) as [[??]?].
  intros [= _ <-]. unfold open in *. cbn in *. set_solver.
Qed.
Lemma open_call_in {A} (f : K -> Z * A * Z * K) :
  (forall k, dom (kflags k) ⊆ dom (kflags (f k).2)) -> keeps P (call_in f).
Proof.
  intros Hf s x s' Hs. unfold call_in. specialize (Hf (kern s)). destruct (f (kern s)) as [[[??]?]?].
  intros [= _ <-]. unfold open in *. cbn in *. set_solver.
Qed.
Lemma open_opens f k : opens kflags f -> dom (kflags k) ⊆ dom (kflags (f k).2).
Proof. intros Hf. destruct (Hf k) as [->|(_ & v & ->)]; [done|]. rewrite dom_insert. set_solver. Qed.
Lemma open_yield : keeps P (co_io_yield (K := K)).
Proof. intros s x s' Hs [= _ <-]. unfold open in *. cbn. pose proof (sl_sleep s). set_solver. Qed.

#[local] Hint Resolve open_yield : nattan.
#[local] Hint Extern 1 (keeps _ (put _)) => by apply open_put : nattan.
#[local] Hint Extern 1 (keeps _ (set_errno _)) => by apply open_put : nattan.
#[local] Hint Extern 1 (keeps _ (set_fds _)) => by apply open_put : nattan.
#[local] Hint Extern 1 (keeps _ (set_wheel _)) => by apply open_put : nattan.
#[local] Hint Extern 1 (keeps _ co_enable_hook) => by apply open_put : nattan.
#[local] Hint Extern 1 (keeps _ co_disable_hook) => by apply open_put : nattan.

(** The raw calls, one by one. *)
Ltac same_flags l := apply open_call || apply open_call_in; intros; by rewrite l.
Lemma open_epoll op fd ev : keeps P (call (k_epoll_ctl op fd ev)).
Proof. same_flags fl_epoll. Qed.
Lemma open_fcntl_call fd cmd a : keeps P (call (k_fcntl fd cmd a)).
Proof.
  apply open_call. intros k. destruct (decide (cmd = F_SETFL)) as [->|].
  - destruct (fl_setfl fd a k) as [[_ ->]|(v & -> & _)]; [done|]. rewrite dom_insert. set_solver.
  - destruct (decide (cmd = F_DUPFD)) as [->|]; [by apply open_opens, fl_dup; left|].
    destruct (decide (cmd = F_DUPFD_CLOEXEC)) as [->|]; [by apply open_opens, fl_dup; right|].
    by rewrite fl_fcntl.
Qed.
Lemma open_socket_call d t p : keeps P (call (k_socket d t p)).
Proof. apply open_call. intros. apply open_opens, fl_socket. Qed.
Lemma open_accept_call fd : keeps P (call (k_accept fd)).
Proof. apply open_call. intros. apply open_opens, fl_accept. Qed.
Lemma open_timer_call : keeps P (call k_timerfd_create).
Proof. apply open_call. intros. apply open_opens, sl_timer. Qed.
Lemma open_settime fd a b : keeps P (call (k_timerfd_settime fd a b)).
Proof. same_flags sl_settime. Qed.
Lemma open_connect_call fd a : keeps P (call (k_connect fd a)).
Proof. same_flags fl_connect. Qed.
Lemma open_listen_call fd b : keeps P (call (k_listen fd b)).
Proof. same_flags fl_listen. Qed.
Lemma open_bind fd a : keeps P (call (k_bind fd a)).
Proof. same_flags sl_bind. Qed.
Lemma open_setsockopt fd o v : keeps P (call (k_setsockopt fd o v)).
Proof. same_flags sl_setsockopt. Qed.
Lemma open_getsockopt fd : keeps P (call_in (k_getsockopt_error fd)).
Proof. same_flags sl_getsockopt. Qed.
Lemma open_read fd n : keeps P (call_in (k_read fd n)).
Proof. same_flags fl_read. Qed.
Lemma open_write fd bs : keeps P (call (k_write fd bs)).
Proof. same_flags fl_write. Qed.

#[local] Hint Resolve open_epoll open_fcntl_call open_socket_call open_accept_call open_timer_call
  open_settime open_connect_call open_listen_call open_bind open_setsockopt open_getsockopt open_read
  open_write : nattan.

Lemma open_new_inner_fd fd : keeps P (new_inner_fd fd).
Proof. unfold new_inner_fd. walk. Qed.
Lemma open_get_inner_fd fd : keeps P (get_inner_fd fd).
Proof. unfold get_inner_fd. walk. Qed.
Lemma open_update_ifd fd g : keeps P (update_ifd fd g).
Proof. unfold update_ifd. walk. Qed.
Lemma open_delete_inner_fd fd : keeps P (delete_inner_fd fd).
Proof. unfold delete_inner_fd. walk. Qed.

#[local] Hint Resolve open_new_inner_fd open_get_inner_fd open_update_ifd open_delete_inner_fd : nattan.

Lemma open_cntl op fd ev : keeps P (cntl_events op fd ev).
Proof. unfold cntl_events. walk. Qed.
Lemma open_add_events fd ev : keeps P (add_events fd ev).
Proof. pose proof open_cntl. unfold add_events. walk. Qed.
Lemma open_delete_events fd ev : keeps P (delete_events fd ev).
Proof. pose proof open_cntl. unfold delete_events. walk. Qed.
Lemma open_arm fd : keeps P (arm fd).
Proof. unfold arm. walk. Qed.
Lemma open_disarm fd : keeps P (disarm fd).
Proof. unfold disarm. walk. Qed.

#[local] Hint Resolve open_add_events open_delete_events open_arm open_disarm : nattan.

Lemma open_event_poll fd ev : keeps P (event_poll fd ev).
Proof. unfold event_poll. walk. Qed.
Lemma open_falls_through fd : keeps P (falls_through (K := K) fd).
Proof. unfold falls_through. walk. Qed.
Lemma open_fcntl fd cmd a : keeps P (fcntl fd cmd a).
Proof. unfold fcntl, fcntl_setfl. walk. Qed.

#[local] Hint Resolve open_event_poll open_falls_through open_fcntl : nattan.

Lemma open_set_nonblock fd : keeps P (in_set_nonblock fd).
Proof. unfold in_set_nonblock. walk. Qed.
Lemma open_listen fd b : keeps P (listen fd b).
Proof. unfold listen. walk. Qed.
Lemma open_connect fd a : keeps P (connect fd a).
Proof. unfold connect. walk. Qed.
Lemma open_set_timer fd ms : keeps P (set_timer fd ms).
Proof. unfold set_timer, __set_timer. walk. Qed.
Lemma open_is_timeout_timer fd : keeps P (is_timeout_timer fd).
Proof. unfold is_timeout_timer. walk. Qed.
Lemma open_poll_arm ut arr : keeps P (poll_arm ut arr).
Proof. induction arr; cbn [poll_arm]; walk. Qed.
Lemma open_poll_collect ut te count : forall i j arr, keeps P (poll_collect ut te count i j arr).
Proof. induction count; intros i j arr; cbn [poll_collect]; walk. Qed.
Lemma open_hooked_in fd n : keeps P (read fd n).
Proof. unfold read, hooked_in. walk. Qed.
Lemma open_drain fuel fd : forall buf n len, keeps P (drain fuel (k_write fd) buf n len).
Proof. induction fuel; intros buf n len; cbn [drain]; walk. Qed.
Lemma open_hooked_out fuel fd buf : keeps P (write fuel fd buf).
Proof.
  pose proof (fun f => open_drain f fd) as Hd.
  assert (forall len n, keeps P (output_loop fuel (k_write fd) fd buf n len)).
  { induction fuel; intros len n; cbn [output_loop]; walk. }
  unfold write, hooked_out. walk.
Qed.

(** Closing another descriptor. *)
Lemma open_close fd : fd ∉ D -> keeps P (close fd).
Proof.
  intros Hn. assert (keeps P (call (k_close fd))).
  { intros s x s' Hs. unfold call. pose proof (fl_close fd (kern s)) as Hc.
    destruct (k_close fd (kern s)) as [[??]?]. intros [= _ <-]. unfold open in *. cbn in *.
    rewrite Hc, dom_delete. set_solver. }
  unfold close. walk.
Qed.

(** [m] keeps [D] open and gives something that satisfies [Q]. *)
Definition gives {A} (m : M K A) (Q : A -> Prop) : Prop :=
  forall s x s', P s -> m s = Some (x, s') -> P s' /\ Q x.

Lemma keeps_gives {A B} (m : M K A) Q (f : A -> M K B) :
  gives m Q -> (forall x, Q x -> keeps P (f x)) -> keeps P (bind m f).
Proof.
  intros Hm Hf s x s' Hs (y & s1 & E1 & E2)%bind_inv. destruct (Hm s y s1 Hs E1). by eapply (Hf y).
Qed.

Lemma gives_keeps {A} (m : M K A) (Q : A -> Prop) : keeps P m -> (forall x, Q x) -> gives m Q.
Proof. intros Hm HQ s x s' Hs E. split; [by eapply Hm|done]. Qed.

Lemma gives_bind {A B} (m : M K A) (f : A -> M K B) (Q : B -> Prop) :
  keeps P m -> (forall x, gives (f x) Q) -> gives (bind m f) Q.
Proof. intros Hm Hf s x s' Hs (y & s1 & E1 & E2)%bind_inv. eapply (Hf y); [by eapply Hm|done]. Qed.

Lemma gives_gives {A B} (m : M K A) (f : A -> M K B) (Q : A -> Prop) (R : B -> Prop) :
  gives m Q -> (forall x, Q x -> gives (f x) R) -> gives (bind m f) R.
Proof.
  intros Hm Hf s x s' Hs (y & s1 & E1 & E2)%bind_inv. destruct (Hm s y s1 Hs E1).
  by eapply (Hf y).
Qed.

Context (Hpos : forall fd, fd ∈ D -> 0 <= fd).

Lemma gives_timer : gives (call k_timerfd_create) (fun fd => fd ∉ D).
Proof.
  intros s x s' Hs E. split; [by eapply open_timer_call|]. unfold call in E.
  pose proof (sl_timer_new (kern s)) as Hn. destruct (k_timerfd_create (kern s)) as [[r e] k].
  cbn in Hn. injection E as -> _. intros Hin. pose proof (Hpos _ Hin) as H0. apply Hn in H0.
  unfold open in Hs. apply Hs, elem_of_dom in Hin. rewrite H0 in Hin. by destruct Hin.
Qed.

Lemma gives_ret {A} (x : A) (Q : A -> Prop) : Q x -> gives (ret x) Q.
Proof. by intros HQ s y s' Hs [= <- <-]. Qed.

Lemma gives_open_timer : gives open_timer (fun fd => fd ∉ D).
Proof.
  unfold open_timer. eapply gives_gives; [apply gives_timer|]. intros fd Hn.
  destruct (bool_decide (fd <= 0)); [apply gives_ret; intros Hin; by apply Hpos in Hin|].
  repeat (apply gives_bind; [walk|]; intros ?). by apply gives_ret.
Qed.

Lemma open_co_poll arr timeout : keeps P (co_poll arr timeout).
Proof.
  pose proof open_set_timer. pose proof open_is_timeout_timer. pose proof open_poll_collect.
  unfold co_poll. apply keeps_bind; [apply open_poll_arm|]. intros _.
  eapply (keeps_gives _ (fun fd => fd ∉ D)).
  - case_match; [|apply gives_ret; intros Hin; by apply Hpos in Hin].
    eapply gives_gives; [apply gives_open_timer|]. intros fd Hn.
    apply gives_bind; [walk|]. intros _. by apply gives_ret.
  - intros fd Hn. pose proof (open_close fd Hn). unfold close_timer. walk.
Qed.
End open.

(** *** The tables *)
(** Triples of partial correctness over the world. *)
Definition hoare {K A} (P : world K -> Prop) (m : W K A) (Q : A -> world K -> Prop) : Prop :=
  forall w x w', P w -> m w = Some (x, w') -> Q x w'.

Lemma h_bind {K A B} P (m : W K A) (f : A -> W K B) R Q :
  hoare P m R -> (forall x, hoare (R x) (f x) Q) -> hoare P (m ≫= f) Q.
Proof.
  intros Hm Hf w y w' HP E. unfold mbind, W_bind in E. destruct (m w) as [[x w1]|] eqn:E1; [|done].
  eapply (Hf x); [by eapply Hm|exact E].
Qed.

Lemma h_ret {K A} (P : world K -> Prop) (x : A) (Q : A -> world K -> Prop) :
  (forall w, P w -> Q x w) -> hoare P (wret x) Q.
Proof. by intros HQ w y w' HP [= <- <-]; apply HQ. Qed.

Lemma h_panic {K A} (P : world K -> Prop) (Q : A -> world K -> Prop) : hoare P wpanic Q.
Proof. by intros w x w' _. Qed.

Lemma h_get {K A B} (P : world K -> Prop) (g : world K -> A) (f : A -> W K B) Q :
  (forall x, hoare (fun w => P w /\ g w = x) (f x) Q) -> hoare P (wget g ≫= f) Q.
Proof. intros Hf w y w' HP E. by apply (Hf (g w) w y w'). Qed.

Lemma h_conseq {K A} (P P' : world K -> Prop) (m : W K A) (Q Q' : A -> world K -> Prop) :
  hoare P m Q -> (forall w, P' w -> P w) -> (forall x w, Q x w -> Q' x w) -> hoare P' m Q'.
Proof. intros Hm HP HQ w x w' H' E. by eapply HQ, Hm, E; apply HP. Qed.

Lemma h_pre {K A} (P P' : world K -> Prop) (m : W K A) (Q : A -> world K -> Prop) :
  hoare P m Q -> (forall w, P' w -> P w) -> hoare P' m Q.
Proof. intros Hm HP. by eapply h_conseq. Qed.

Lemma h_pure {K A} (P : world K -> Prop) (p : Prop) (m : W K A) (Q : A -> world K -> Prop) :
  (p -> hoare P m Q) -> hoare (fun w => P w /\ p) m Q.
Proof. intros Hm w x w' [HP Hp]. by apply Hm. Qed.

Section tables.
Context {K : Type} `{!Kernel K, !SocketKernel K, !SSL K, !Inet} (kflags : K -> gmap Z Z).
Context `{HF : !FlagLaws K kflags, HS : !SocketLaws K kflags}.

Definition slots (w : world K) : gset Z := dom (g_sock_address w) ∪ dom (g_sock_ssl_handler w).

(** Addresses and slots correspond one to one; a slot of a handler holds a live one of its
    own; slots, and the further descriptors [F], are open. *)
Record owned (F : gset Z) (w : world K) : Prop := {
  addr_inj fd fd' p : g_sock_address w !! fd = Some p -> g_sock_address w !! fd' = Some p -> fd = fd';
  addr_live fd p : g_sock_address w !! fd = Some p -> is_Some (addrs w !! p);
  addr_owned p : is_Some (addrs w !! p) -> exists fd, g_sock_address w !! fd = Some p;
  ssl_inj fd fd' p : g_sock_ssl_handler w !! fd = Some p -> g_sock_ssl_handler w !! fd' = Some p -> fd = fd';
  ssl_live fd p : g_sock_ssl_handler w !! fd = Some p -> p ∈ handlers w;
  slots_open : open kflags (slots w ∪ F) (thr w);
  slots_pos fd : fd ∈ slots w ∪ F -> 0 <= fd;
  slots_fresh : slots w ## F
}.

Lemma owned_weaken F F' w : F' ⊆ F -> owned F w -> owned F' w.
Proof.
  intros Hs []. constructor; try done; [unfold open in *; set_solver|set_solver|set_solver].
Qed.

(** The address of [fd]. *)
Definition has_address (fd : Z) (a : Address) (w : world K) : Prop :=
  exists p, g_sock_address w !! fd = Some p /\ addrs w !! p = Some a.

(** [holds F G]: [owned], and [G] of the tables. *)
Definition holds (F : gset Z) (G : gmap Z nat -> gmap nat Address -> Prop) (w : world K) : Prop :=
  owned F w /\ G (g_sock_address w) (addrs w).

Definition anything (t : gmap Z nat) (h : gmap nat Address) : Prop := True.

Lemma h_lift {A} F G (m : M K A) (Q : A -> Prop) :
  (forall D, (forall fd, fd ∈ D -> 0 <= fd) -> gives kflags D m Q) ->
  hoare (holds F G) (lift m) (fun x w => holds F G w /\ Q x).
Proof.
  intros Hm w x w' [Ho HG] E. unfold lift in E. destruct (m (thr w)) as [[y s]|] eqn:Em; [|done].
  injection E as <- <-.
  destruct (Hm (slots w ∪ F) (slots_pos _ _ Ho) _ _ _ (slots_open _ _ Ho) Em) as [Ho' HQ].
  split; [|done]. split; [|done]. destruct Ho. by constructor.
Qed.

Lemma h_keep {A} F G (m : M K A) :
  (forall D, (forall fd, fd ∈ D -> 0 <= fd) -> keeps (open kflags D) m) ->
  hoare (holds F G) (lift m) (fun _ => holds F G).
Proof.
  intros Hm. eapply h_conseq; [apply (h_lift F G m (fun _ => True))|done|by intros x w [? _]].
  intros D HD. apply gives_keeps; [by apply Hm|done].
Qed.

(** A descriptor that was not open before. *)
Definition newfd (r : Z) : gset Z := if decide (0 <= r) then {[r]} else ∅.

Lemma h_new G (m : M K Z) :
  (forall D s r s', (forall fd, fd ∈ D -> 0 <= fd) -> open kflags D s -> m s = Some (r, s') ->
     open kflags (D ∪ newfd r) s' /\ (r ∉ D \/ r < 0)) ->
  hoare (holds ∅ G) (lift m) (fun r => holds (newfd r) G).
Proof.
  intros Hm w r w' [Ho HG] E. unfold lift in E. destruct (m (thr w)) as [[y s]|] eqn:Em; [|done].
  injection E as -> <-. pose proof (slots_pos _ _ Ho) as Hpos. pose proof (slots_open _ _ Ho) as Hop.
  rewrite union_empty_r_L in Hpos, Hop. destruct (Hm _ _ _ _ Hpos Hop Em) as [Ho' Hn].
  split; [|done]. destruct Ho. constructor; try done; unfold newfd in *; cbn; case_decide; set_solver by lia.
Qed.

(** *** Fresh descriptors *)
Definition ends {A} (m : M K A) (Q : A -> Prop) : Prop := forall s x s', m s = Some (x, s') -> Q x.

Lemma ends_bind {A B} (m : M K A) (f : A -> M K B) Q : (forall x, ends (f x) Q) -> ends (bind m f) Q.
Proof. intros Hf s x s' (y & s1 & _ & E)%bind_inv. by eapply Hf. Qed.

Lemma ends_ret {A} (x : A) (Q : A -> Prop) : Q x -> ends (ret x) Q.
Proof. by intros HQ s y s' [= <- _]. Qed.

Lemma event_poll_ends fd ev : ends (event_poll fd ev) (fun r => r = 0 \/ r = -1).
Proof.
  unfold event_poll.
  repeat first [ by intros ? | by apply ends_ret; auto | apply ends_bind; intros ? | case_match ].
Qed.

Lemma open_union D E s : open kflags (D ∪ E) s <-> open kflags D s /\ open kflags E s.
Proof. unfold open. set_solver. Qed.

(** A raw call that opens one, [f], followed by a body that keeps what is open. *)
Lemma fresh_call f D s r s' :
  (forall k, dom (kflags k) ⊆ dom (kflags (f k).2)) ->
  (forall k, 0 <= (f k).1.1 -> kflags k !! (f k).1.1 = None /\ is_Some (kflags (f k).2 !! (f k).1.1)) ->
  open kflags D s -> call f s = Some (r, s') -> open kflags (D ∪ newfd r) s' /\ (r ∉ D \/ r < 0).
Proof.
  intros Hk Hn Ho E. unfold call in E. specialize (Hk (kern s)). specialize (Hn (kern s)).
  destruct (f (kern s)) as [[r0 e] k]. cbn in *. injection E as -> <-. unfold newfd, open in *. cbn.
  case_decide as Hr; [|split; [set_solver|right; lia]]. destruct (Hn Hr) as [H0 H1].
  apply elem_of_dom in H1. split; [set_solver|]. left. intros Hin%Ho%elem_of_dom. rewrite H0 in Hin.
  by destruct Hin.
Qed.

Lemma socket_new d t p D s r s' :
  (forall fd, fd ∈ D -> 0 <= fd) -> open kflags D s -> socket d t p s = Some (r, s') ->
  open kflags (D ∪ newfd r) s' /\ (r ∉ D \/ r < 0).
Proof.
  intros _ Ho E. unfold socket in E. apply bind_inv in E as (fd & s1 & E1 & E).
  destruct (fresh_call (k_socket d t p) D s fd s1) as [Ho1 Hn]; [intros; apply (open_opens kflags), fl_socket
    |intros; by apply (sl_socket (kflags := kflags))|done|done|].
  apply bind_inv in E as (h & s2 & [= <- <-] & E). destruct (_ || _).
  - by injection E as <- <-.
  - apply bind_inv in E as (y & s3 & E3 & [= <- <-]). split; [|done].
    by eapply (open_set_nonblock kflags (D ∪ newfd fd)).
Qed.

Lemma accept_new fd D s r s' :
  (forall fd, fd ∈ D -> 0 <= fd) -> open kflags D s -> accept fd s = Some (r, s') ->
  open kflags (D ∪ newfd r) s' /\ (r ∉ D \/ r < 0).
Proof.
  intros Hpos Ho E. unfold accept in E.
  assert (forall s r s1, open kflags D s -> call (k_accept fd) s = Some (r, s1) ->
    open kflags (D ∪ newfd r) s1 /\ (r ∉ D \/ r < 0)) as Hcall.
  { intros s0 r0 s1 Ho0 E0. eapply (fresh_call (k_accept fd)); try done; intros;
      [apply (open_opens kflags), fl_accept|by apply (sl_accept (kflags := kflags))]. }
  apply bind_inv in E as (b & s1 & E1 & E). apply (open_falls_through kflags D) in E1; [|done].
  destruct b; [by eapply Hcall|].
  apply bind_inv in E as (r1 & s2 & E2 & E). destruct (Hcall _ _ _ E1 E2) as [Ho2 Hn2].
  assert (forall r0 s0 x s3, r0 = r0 -> open kflags (D ∪ newfd r0) s0 -> (r0 ∉ D \/ r0 < 0) ->
    bind (in_set_nonblock r0) (fun _ => ret r0) s0 = Some (x, s3) ->
    open kflags (D ∪ newfd x) s3 /\ (x ∉ D \/ x < 0)) as Hset.
  { intros r0 s0 x s3 _ Ho0 Hn0 E0. apply bind_inv in E0 as (y & s4 & E4 & [= <- <-]). split; [|done].
    by eapply (open_set_nonblock kflags (D ∪ newfd r0)). }
  apply bind_inv in E as (e & s3 & [= <- <-] & E). case_bool_decide as Hr; [|by eapply Hset].
  destruct (negb _ && negb _); [by injection E as <- <-|].
  apply open_union in Ho2 as [Ho2 _].
  apply bind_inv in E as (p & s4 & E4 & E). pose proof (event_poll_ends _ _ _ _ _ E4) as Hp.
  apply (open_event_poll kflags D) in E4; [|done].
  case_bool_decide as Hp0.
  { injection E as <- <-. assert (p = -1) as -> by (destruct Hp as [E0|]; [by rewrite E0 in Hp0|done]). 
    replace (newfd (-1)) with (∅ : gset Z) by done. rewrite union_empty_r_L. split; [done|by right]. }
  apply bind_inv in E as (r2 & s5 & E5 & E). destruct (Hcall _ _ _ E4 E5) as [Ho5 Hn5].
  case_bool_decide; [by injection E as <- <-|by eapply Hset].
Qed.

(** *** The operations *)
Lemma h_weaken {A} F F' G (m : W K A) Q :
  F ⊆ F' -> hoare (holds F G) m Q -> hoare (holds F' G) m Q.
Proof. intros HF' Hm. eapply h_conseq; [exact Hm| |done]. intros w [Ho HG]. split; [by eapply owned_weaken|done]. Qed.

Lemma h_valid F G fd : hoare (holds F G) (valid fd) (fun b w => holds F G w /\ (b = true -> 0 <= fd)).
Proof.
  unfold valid. case_bool_decide as Hfd; [by apply h_ret|].
  eapply h_bind; [apply (h_keep F G); intros; by apply (open_getsockopt kflags)|].
  intros r. unfold INVALID_SOCKET in Hfd.
  case_bool_decide; [by apply h_ret|]. case_bool_decide; [by apply h_ret|].
  apply h_ret. intros w Hw. split; [done|lia].
Qed.

Lemma h_setopt F G fd o v : hoare (holds F G) (setopt fd o v) (fun _ => holds F G).
Proof.
  unfold setopt. eapply h_bind; [apply h_valid|]. intros b.
  eapply (h_pre (holds F G)); [|by intros w [? _]].
  destruct b; cbn [negb]; [|by apply h_ret].
  eapply h_bind; [apply (h_keep F G); intros; by apply (open_setsockopt kflags)|]. intros r. by apply h_ret.
Qed.

Lemma h_cloexec F G s : hoare (holds F G) (setCloseOnExec s) (fun _ => holds F G).
Proof.
  unfold setCloseOnExec. eapply h_bind; [apply h_valid|]. intros b.
  eapply (h_pre (holds F G)); [|by intros w [? _]].
  destruct b; cbn [negb]; [|by apply h_ret].
  do 2 (eapply h_bind; [apply (h_keep F G); intros; by apply (open_fcntl kflags)|]; intros ?).
  by apply h_ret.
Qed.

(** The new address takes the slot of a descriptor that had none. *)
Lemma h_setup fd a :
  hoare (holds {[fd]} anything) (setupSockAddress fd a)
    (fun _ => holds ∅ (fun t h => exists p, t !! fd = Some p /\ h !! p = Some a)).
Proof.
  intros w x w' [Ho _] E. unfold setupSockAddress, slot in E. cbn in E.
  case_bool_decide; [|done]. cbn in E. injection E as _ <-.
  pose proof Ho as [Hi Hl Hw Hsi Hsl Hop Hpos Hf].
  assert (g_sock_address w !! fd = None) as Hn.
  { apply not_elem_of_dom. unfold slots in Hf. set_solver. }
  set (p := fresh (dom (addrs w))). assert (addrs w !! p = None) as Hp by apply not_elem_of_dom, is_fresh.
  assert (forall fd', g_sock_address w !! fd' <> Some p) as Hnp.
  { intros fd' E'. destruct (Hl _ _ E') as [? E2]. congruence. }
  split; [|cbn; exists p; by rewrite !lookup_insert_eq].
  constructor; cbn; try done.
  - intros f1 f2 q. rewrite !lookup_insert_Some. naive_solver.
  - intros f1 q. rewrite lookup_insert_Some. intros [[<- <-]|[_ Hq]]; [by rewrite lookup_insert_eq|].
    destruct (decide (q = p)) as [->|]; [by rewrite lookup_insert_eq|].
    rewrite lookup_insert_ne by done. by eapply Hl.
  - intros q. destruct (decide (q = p)) as [->|]; [exists fd; by rewrite lookup_insert_eq|].
    rewrite lookup_insert_ne by done. intros (f1 & Hq)%Hw. exists f1.
    rewrite lookup_insert_ne; [done|congruence].
  - unfold slots in *; cbn. rewrite dom_insert_L. unfold open in *. set_solver.
  - unfold slots in *; cbn. rewrite dom_insert_L. intros fd'. specialize (Hpos fd'). set_solver.
Qed.

(** Emptying a slot. *)
Lemma owned_free_address F fd p w :
  owned F w -> g_sock_address w !! fd = Some p ->
  owned F (mk_world (thr w) (delete fd (g_sock_address w)) (delete p (addrs w))
             (g_sock_ssl_handler w) (handlers w)).
Proof.
  intros [Hi Hl Hw Hsi Hsl Hop Hpos Hf] Hp. constructor; cbn; try done.
  - intros f1 f2 q. rewrite !lookup_delete_Some. naive_solver.
  - intros f1 q. rewrite lookup_delete_Some. intros [Hne Hq]. rewrite lookup_delete_ne; [by eapply Hl|].
    intros ->. by apply Hne, (Hi _ _ q).
  - intros q. destruct (decide (q = p)) as [->|]; [rewrite lookup_delete_eq; by intros []|].
    rewrite lookup_delete_ne by done. intros (f1 & Hq)%Hw. exists f1.
    rewrite lookup_delete_ne; [done|congruence].
  - unfold slots, open in *; cbn. rewrite dom_delete_L. set_solver.
  - unfold slots in *; cbn. rewrite dom_delete_L. intros fd' Hin. apply Hpos. set_solver.
  - unfold slots in *; cbn. rewrite dom_delete_L. set_solver.
Qed.

Lemma cleanup_owned F fd w x w' :
  owned F w -> cleanupSockAddress fd w = Some (x, w') -> owned F w' /\ g_sock_address w' !! fd = None.
Proof.
  intros Ho. unfold cleanupSockAddress, slot, mbind, W_bind, wget, set_addresses. case_bool_decide; [|done]. cbn.
  intros [= _ <-]. cbn. rewrite lookup_delete_eq. split; [|done].
  destruct (g_sock_address w !! fd) as [p|] eqn:E; [by apply owned_free_address|].
  rewrite delete_id by done. by destruct w.
Qed.

Lemma owned_free_handler F fd w :
  owned F w ->
  owned F (mk_world (thr w) (g_sock_address w) (addrs w) (delete fd (g_sock_ssl_handler w)) (handlers w)).
Proof.
  intros [Hi Hl Hw Hsi Hsl Hop Hpos Hf]. constructor; cbn; try done.
  - intros f1 f2 q. rewrite !lookup_delete_Some. naive_solver.
  - intros f1 q. rewrite lookup_delete_Some. intros [_ Hq]. by eapply Hsl.
  - unfold slots, open in *; cbn. rewrite dom_delete_L. set_solver.
  - unfold slots in *; cbn. rewrite dom_delete_L. intros fd' Hin. apply Hpos. set_solver.
  - unfold slots in *; cbn. rewrite dom_delete_L. set_solver.
Qed.

Lemma owned_kill F p w :
  owned F w -> (forall fd, g_sock_ssl_handler w !! fd <> Some p) ->
  owned F (mk_world (thr w) (g_sock_address w) (addrs w) (g_sock_ssl_handler w) (handlers w ∖ {[p]})).
Proof.
  intros [Hi Hl Hw Hsi Hsl Hop Hpos Hf] Hp. constructor; cbn; try done.
  intros f1 q Hq. apply elem_of_difference. split; [by eapply Hsl|].
  rewrite elem_of_singleton. intros ->. by eapply Hp.
Qed.

Lemma owned_thr F w s :
  owned F w -> open kflags (slots w ∪ F) s ->
  owned F (mk_world s (g_sock_address w) (addrs w) (g_sock_ssl_handler w) (handlers w)).
Proof. intros [] Ho. by constructor. Qed.

Lemma wbind_inv {A B} (m : W K A) (f : A -> W K B) w y w' :
  (m ≫= f) w = Some (y, w') -> exists x w1, m w = Some (x, w1) /\ f x w1 = Some (y, w').
Proof. unfold mbind, W_bind. destruct (m w) as [[x w1]|]; [|done]. eauto. Qed.

(** The handler's slot and the handler itself. *)
Lemma free_handler F fd h :
  hoare (fun w => owned F w /\ g_sock_address w !! fd = None /\ g_sock_ssl_handler w !! fd = h)
    (match h with
     | Some p =>
         t ← wget g_sock_ssl_handler;
         live ← wget handlers;
         set_handlers (delete fd t) live;;
         lift (ssl_close p);;
         t ← wget g_sock_ssl_handler;
         live ← wget handlers;
         set_handlers t (live ∖ {[p]})
     | None => wret tt
     end)
    (fun _ w => owned F w /\ g_sock_address w !! fd = None /\ g_sock_ssl_handler w !! fd = None).
Proof.
  intros w x w' (Ho & Ha & Hh) E. destruct h as [p|]; [|by injection E as _ <-].
  apply wbind_inv in E as (t & w1 & [= <- <-] & E). apply wbind_inv in E as (l & w1 & [= <- <-] & E).
  apply wbind_inv in E as (? & w1 & [= _ <-] & E). apply wbind_inv in E as (y & w2 & E2 & E).
  pose proof (owned_free_handler F fd w Ho) as Ho1. revert E2 E. unfold lift; cbn.
  destruct (ssl_close p (thr w)) as [[z s]|] eqn:Es; [|done]. intros [= _ <-] E. cbn in E.
  injection E as _ <-. apply (sl_ssl_close (kflags := kflags)) in Es.
  assert (open kflags (slots (mk_world (thr w) (g_sock_address w) (addrs w)
    (delete fd (g_sock_ssl_handler w)) (handlers w)) ∪ F) s) as Hop.
  { pose proof (slots_open _ _ Ho1) as Ho2. unfold open in *. cbn in *. by rewrite Es. }
  pose proof (owned_kill F p _ (owned_thr F _ s Ho1 Hop)) as Ho3. cbn in Ho3. split_and!; cbn.
  - apply Ho3. intros f1. rewrite lookup_delete_Some. intros [Hne Hq]. by apply Hne, (ssl_inj _ _ Ho _ _ p).
  - done.
  - by rewrite lookup_delete_eq.
Qed.

Lemma close_closed fd s r s' : close fd s = Some (r, s') -> kflags (kern s') !! fd = None.
Proof.
  assert (forall s r s', call (k_close fd) s = Some (r, s') -> kflags (kern s') !! fd = None) as Hc.
  { intros s0 r0 s1. unfold call. pose proof (fl_close fd (kern s0)) as Hk.
    destruct (k_close fd (kern s0)) as [[? ?] k]. intros [= _ <-]. cbn in *. by rewrite Hk, lookup_delete_eq. }
  unfold close. intros (h & s1 & _ & E)%bind_inv. destruct (negb h); [by eapply Hc|].
  apply bind_inv in E as (o & s2 & _ & E). apply bind_inv in E as (? & s3 & _ & E). by eapply Hc.
Qed.

(** Closing a descriptor empties its slots and frees what they held. *)
Lemma h_close F s :
  hoare (holds F anything) (sock_close s) (fun r w => holds (F ∖ {[fSockFd s]}) anything w /\
    (0 <= fSockFd s -> kflags (kern (thr w)) !! fSockFd s = None)).
Proof.
  set (fd := fSockFd s). intros w r w' [Ho _] E. unfold sock_close in E. fold fd in E.
  apply (owned_weaken F (F ∖ {[fd]})) in Ho; [|set_solver].
  case_bool_decide as Hfd; [injection E as _ <-; split; [done|lia]|].
  apply wbind_inv in E as (? & w1 & E1 & E). unfold slot in E1. case_bool_decide; [|done].
  injection E1 as _ <-.
  apply wbind_inv in E as (t & w1 & [= <- <-] & E). apply wbind_inv in E as (a & w1 & [= <- <-] & E).
  apply wbind_inv in E as (? & w1 & E1 & E).
  assert (owned (F ∖ {[fd]}) w1 /\ g_sock_address w1 !! fd = None) as [Ho1 Ha1].
  { destruct (g_sock_address w !! fd) as [p|] eqn:Ep; injection E1 as _ <-; [|done].
    cbn. rewrite lookup_delete_eq. split; [by apply owned_free_address|done]. }
  apply wbind_inv in E as (h & w2 & E2 & E).
  assert (w2 = w1 /\ g_sock_ssl_handler w1 !! fd = h) as [-> Hh].
  { unfold GetSSLHandler, slot in E2. rewrite bool_decide_eq_false_2, bool_decide_eq_true_2 in E2 by lia.
    by injection E2 as <- <-. }
  apply wbind_inv in E as (? & w3 & E3 & E).
  destruct (free_handler (F ∖ {[fd]}) fd h w1 _ w3 (conj Ho1 (conj Ha1 Hh)) E3) as (Ho3 & Ha3 & Hs3).
  apply wbind_inv in E as (rs & w4 & E4 & [= _ <-]).
  unfold lift in E4. destruct (close fd (thr w3)) as [[z s1]|] eqn:Ec; [|done]. injection E4 as _ <-.
  split; [split; [|done]|intros _; by eapply close_closed].
  apply owned_thr; [done|]. eapply (open_close kflags); [|by apply Ho3|exact Ec].
  unfold slots. rewrite <- not_elem_of_dom in Ha3, Hs3. set_solver.
Qed.

Definition reached (fd : Z) (a : Address) (t : gmap Z nat) (h : gmap nat Address) : Prop :=
  exists p, t !! fd = Some p /\ h !! p = Some a.

(** What the functions that open sockets give: [INVALID_SOCKET], or a descriptor with the
    address [a] on record. *)
Definition opened (a : Address) (r : Z) (w : world K) : Prop :=
  owned ∅ w /\ (r = INVALID_SOCKET \/ has_address r a w).

Lemma h_established fd a : hoare (holds {[fd]} anything) (established fd a) (opened a).
Proof.
  unfold established. eapply h_bind; [apply h_setup|]. intros ?.
  do 2 (eapply h_bind; [apply h_setopt|]; intros ?).
  eapply h_bind; [apply h_cloexec|]. intros ?. apply h_ret. intros w [Ho Hr]. split; [done|by right].
Qed.

Lemma h_refused fd a : hoare (holds {[fd]} anything) (refused fd) (opened a).
Proof.
  unfold refused. eapply h_bind; [apply h_close|]. intros r. apply h_ret. intros w [[Ho _] _].
  split; [eapply owned_weaken; [|exact Ho]; set_solver|by left].
Qed.

Lemma holds_lost F w : holds F anything w -> owned ∅ w.
Proof. intros [Ho _]. eapply owned_weaken; [|exact Ho]. set_solver. Qed.

(** After [valid] on a new descriptor. *)
Lemma h_new_valid fd (f : bool -> W K Z) Q :
  (forall w, owned ∅ w -> Q INVALID_SOCKET w) ->
  f false = wret INVALID_SOCKET ->
  (0 <= fd -> hoare (holds {[fd]} anything) (f true) Q) ->
  hoare (holds (newfd fd) anything) (valid fd ≫= f) Q.
Proof.
  intros Hinv Hf Ht. eapply h_bind; [apply h_valid|]. intros [].
  - intros w x w' [Hw H0]. specialize (H0 eq_refl). revert Hw. unfold newfd. rewrite decide_True by done.
    by apply Ht.
  - rewrite Hf. apply h_ret. intros w [Hw _]. by apply Hinv, (holds_lost (newfd fd)).
Qed.

Lemma h_socket d t p : hoare (holds ∅ anything) (lift (socket d t p)) (fun r => holds (newfd r) anything).
Proof. apply h_new. intros D s r s'. apply socket_new. Qed.

Lemma h_unhook F (b : bool) : hoare (holds F anything) (lift (set_hook b)) (fun _ => holds F anything).
Proof. apply h_keep. intros D HD. by apply (open_put kflags). Qed.

Lemma h_unhooked {A} F (m : W K A) (Q : A -> world K -> Prop) :
  hoare (holds F anything) m Q ->
  (forall x w s, kern s = kern (thr w) -> Q x w ->
     Q x (mk_world s (g_sock_address w) (addrs w) (g_sock_ssl_handler w) (handlers w))) ->
  hoare (holds F anything) (unhooked m) Q.
Proof.
  intros Hm HQ. unfold unhooked. eapply h_bind; [apply (h_unhook F false)|]. intros ?.
  eapply h_bind; [exact Hm|]. intros y.
  eapply h_bind with (R := fun _ => Q y); [|intros ?; by apply h_ret].
  intros w z w' Hw [= <- <-]. by apply HQ.
Qed.

Lemma opened_thr a x w s : kern s = kern (thr w) -> opened a x w ->
  opened a x (mk_world s (g_sock_address w) (addrs w) (g_sock_ssl_handler w) (handlers w)).
Proof.
  intros Ek [Ho Ha]. split; [|done]. apply owned_thr; [done|]. unfold open. rewrite Ek. apply Ho.
Qed.

Lemma h_TcpConnect a : hoare (holds ∅ anything) (TcpConnect a) (opened a).
Proof.
  unfold TcpConnect. eapply h_bind; [apply h_socket|]. intros fd.
  apply h_new_valid; [intros w Hw; split; [done|by left]|done|]. intros Hfd. cbn [negb].
  eapply h_bind; [apply h_keep; intros D HD; by apply (open_connect kflags)|]. intros n.
  case_bool_decide; [apply h_refused|apply h_established].
Qed.

Lemma h_TcpConnectTill a ms : hoare (holds ∅ anything) (TcpConnectTill a ms) (opened a).
Proof.
  unfold TcpConnectTill. eapply h_bind; [apply h_socket|]. intros fd.
  apply h_unhooked; [|intros; by apply opened_thr].
  apply h_new_valid; [intros w Hw; split; [done|by left]|done|]. intros Hfd. cbn [negb].
  eapply h_bind; [apply h_keep; intros D HD; by apply (open_connect kflags)|]. intros n.
  apply h_get. intros e. eapply (h_pre (holds {[fd]} anything)); [|by intros w [? _]].
  case_bool_decide; [|apply h_established]. destruct (_ || _); [|apply h_refused].
  eapply h_bind; [apply h_keep; intros D HD; by apply (open_co_poll kflags)|]. intros p.
  destruct (_ && _); [|apply h_refused].
  eapply h_bind with (R := fun _ => holds {[fd]} anything).
  - unfold get_connect_error. eapply h_bind; [apply h_keep; intros; by apply (open_getsockopt kflags)|].
    intros r. by apply h_ret.
  - intros c. case_bool_decide; [apply h_established|apply h_refused].
Qed.

(** Whatever the outcome, no slot is left over; the result is closed when the call failed. *)
Lemma h_TcpListen a : hoare (holds ∅ anything) (TcpListen a) (fun r w => owned ∅ w /\
  (0 <= r -> has_address r a w \/ kflags (kern (thr w)) !! r = None)).
Proof.
  unfold TcpListen. eapply h_bind; [apply h_socket|]. intros fd.
  eapply h_bind with (R := fun b w => if b : bool then holds (newfd fd) anything w else holds ∅ (reached fd a) w).
  - eapply h_bind; [apply h_valid|]. intros [].
    + cbn [negb]. apply h_pure. intros H0. specialize (H0 eq_refl).
      unfold newfd. rewrite decide_True by done.
      do 2 (eapply h_bind; [apply h_setopt|]; intros ?).
      eapply h_bind; [apply h_keep; intros; by apply (open_bind kflags)|]. intros n.
      case_bool_decide; [by apply h_ret|].
      eapply h_bind; [apply h_keep; intros; by apply (open_listen kflags)|]. intros m.
      case_bool_decide; [by apply h_ret|].
      eapply h_bind; [apply h_setup|]. intros ?. by apply h_ret.
    + cbn [negb]. apply h_ret. by intros w [Hw _].
  - intros [].
    + eapply h_bind; [apply h_close|]. intros r. apply h_ret. intros w [Hw Hc].
      split; [by eapply holds_lost|]. intros H0. right. by apply Hc.
    + apply h_ret. intros w [Ho Hr]. split; [done|]. intros _. by left.
Qed.

Lemma h_TcpAccept fd :
  hoare (holds ∅ anything) (TcpAccept fd) (fun r w => owned ∅ w /\
    (r = INVALID_SOCKET \/ exists k, has_address r (Address_of (k_peer r k) AF_INET) w)).
Proof.
  unfold TcpAccept.
  eapply h_bind; [apply h_new; intros D s r s'; apply (accept_new fd)|]. intros client.
  eapply h_bind; [apply h_valid|]. intros [].
  - cbn [negb]. apply h_pure. intros H0. specialize (H0 eq_refl).
    unfold newfd. rewrite decide_True by done. apply h_get. intros k.
    eapply (h_pre (holds {[client]} anything)); [|by intros w [? _]].
    eapply h_bind; [apply h_setup|]. intros ?. apply h_ret. intros w [Ho Hr]. split; [done|]. right. by exists k.
  - cbn [negb]. eapply (h_pre (holds (newfd client) anything)); [|by intros w [? _]].
    eapply h_bind; [apply h_close|]. intros r. apply h_ret. intros w [Hw _]. split; [by eapply holds_lost|by left].
Qed.

Lemma h_SetHandler s h :
  hoare (fun w => owned ∅ w /\ h ∈ handlers w /\ fSockFd s ∈ slots w /\
      forall fd, g_sock_ssl_handler w !! fd <> Some h)
    (setSSLHandler (Some h) s) (fun _ => owned ∅).
Proof.
  intros w x w' (Ho & Hh & Hfd & Hn) E. unfold setSSLHandler in E.
  case_bool_decide; [by injection E as _ <-|].
  apply wbind_inv in E as (? & w1 & E1 & E). unfold slot in E1. case_bool_decide; [|done].
  injection E1 as _ <-. cbn in E. injection E as _ <-.
  destruct Ho as [Hi Hl Hw Hsi Hsl Hop Hpos Hf].
  change (partial_alter (fun _ => Some h) (fSockFd s) (g_sock_ssl_handler w))
    with (<[fSockFd s := h]> (g_sock_ssl_handler w)).
  constructor; cbn; try done.
  - intros f1 f2 q. rewrite !lookup_insert_Some. naive_solver.
  - intros f1 q. rewrite lookup_insert_Some. intros [[_ <-]|[_ Hq]]; [done|by eapply Hsl].
  - unfold slots, open in *; cbn. rewrite dom_insert_L. set_solver.
  - unfold slots in *; cbn. rewrite dom_insert_L. intros fd' Hin. apply Hpos. set_solver.
Qed.
End tables.

(** ** Sequences of operations *)
Section ops.
Context {K : Type} `{!Kernel K, !SocketKernel K, !SSL K, !Inet}.

Inductive sock_op :=
  | OpConnect (a : Address) | OpConnectTill (a : Address) (ms : Z) | OpListen (a : Address)
  | OpAccept (fd : Z) | OpClose (fd : Z) | OpTLS (fd : Z)
  | OpRead (fd n : Z) | OpWrite (fuel : nat) (fd : Z) (bs : list Z).

(** A new handler for a socket with an address. *)
Definition start_tls (fd : Z) : W K Z :=
  t ← wget g_sock_address;
  if bool_decide (is_Some (t !! fd)) then
    live ← wget handlers;
    s ← wget g_sock_ssl_handler;
    let h := fresh live in
    set_handlers s (live ∪ {[h]});;
    setSSLHandler (Some h) (Socket_new fd);;
    wret 0
  else wret (-1).

Definition run_op (op : sock_op) : W K Z :=
  match op with
  | OpConnect a => TcpConnect a
  | OpConnectTill a ms => TcpConnectTill a ms
  | OpListen a => TcpListen a
  | OpAccept fd => TcpAccept fd
  | OpClose fd => r ← sock_close (Socket_new fd); wret r.1
  | OpTLS fd => start_tls fd
  | OpRead fd n => r ← sock_read (Socket_new fd) n; wret r.1
  | OpWrite fuel fd bs => sock_write fuel (Socket_new fd) bs
  end.

Fixpoint run_ops (ops : list sock_op) : W K unit :=
  match ops with
  | [] => wret tt
  | op :: ops => run_op op;; run_ops ops
  end.
End ops.

Section run_ops.
Context {K : Type} `{!Kernel K, !SocketKernel K, !SSL K, !Inet} (kflags : K -> gmap Z Z).
Context `{HF : !FlagLaws K kflags, HS : !SocketLaws K kflags}.
Local Abbreviation holds := (holds kflags).
Local Abbreviation owned := (owned kflags).

Lemma h_GetSSLHandler F fd : hoare (holds F anything) (GetSSLHandler fd) (fun _ => holds F anything).
Proof.
  intros w h w' Hw E. unfold GetSSLHandler, slot in E. case_bool_decide; [by injection E as _ <-|].
  case_bool_decide; [by injection E as _ <-|done].
Qed.

(** Calls on a live handler leave the descriptors open. *)
Lemma open_ssl {A} D (m : M K A) :
  (forall s x s', m s = Some (x, s') -> kflags (kern s') = kflags (kern s)) -> keeps (open kflags D) m.
Proof. intros Hm s x s' Ho E. unfold open. by rewrite (Hm _ _ _ E). Qed.

Lemma h_sock_read F s n : hoare (holds F anything) (sock_read s n) (fun _ => holds F anything).
Proof.
  unfold sock_read. case_bool_decide; [by apply h_ret|].
  eapply h_bind; [apply h_GetSSLHandler|]. intros [h|].
  - apply (h_keep kflags). intros D HD. apply open_ssl. intros s0 x s'. apply (sl_ssl_read (kflags := kflags)).
  - apply (h_keep kflags). intros D HD. by apply (open_hooked_in kflags).
Qed.

Lemma h_sock_write F fuel s bs : hoare (holds F anything) (sock_write fuel s bs) (fun _ => holds F anything).
Proof.
  unfold sock_write. case_bool_decide; [by apply h_ret|].
  eapply h_bind; [apply h_GetSSLHandler|]. intros [h|].
  - apply (h_keep kflags). intros D HD. apply open_ssl. intros s0 x s'. apply (sl_ssl_write (kflags := kflags)).
  - apply (h_keep kflags). intros D HD. by apply (open_hooked_out kflags).
Qed.

Lemma h_start_tls fd : hoare (owned ∅) (start_tls fd) (fun _ => owned ∅).
Proof.
  intros w x w' Ho E. unfold start_tls in E.
  apply wbind_inv in E as (t & w1 & [= <- <-] & E). case_bool_decide as Ht; [|by injection E as _ <-].
  apply wbind_inv in E as (live & w1 & [= <- <-] & E). apply wbind_inv in E as (sl & w1 & [= <- <-] & E).
  apply wbind_inv in E as (? & w1 & [= _ <-] & E). apply wbind_inv in E as (b & w2 & E2 & [= _ <-]).
  eapply (h_SetHandler kflags); [|exact E2]. cbn. split_and!.
  - destruct Ho. constructor; cbn; try done. intros f1 q Hq. apply elem_of_union_l. eauto.
  - set_solver.
  - unfold slots; cbn. apply elem_of_union_l, elem_of_dom. done.
  - intros f1 Hq. apply (ssl_live _ _ _ Ho) in Hq. by apply is_fresh in Hq.
Qed.

Lemma h_run_op op : hoare (owned ∅) (run_op op) (fun _ => owned ∅).
Proof.
  assert (forall w, owned ∅ w -> holds ∅ anything w) as Hin by done.
  destruct op; cbn [run_op]; try (eapply h_pre; [|exact Hin]).
  - eapply h_conseq; [apply (h_TcpConnect kflags)|done|by intros x w [? _]].
  - eapply h_conseq; [apply (h_TcpConnectTill kflags)|done|by intros x w [? _]].
  - eapply h_conseq; [apply (h_TcpListen kflags)|done|by intros x w [? _]].
  - eapply h_conseq; [apply (h_TcpAccept kflags)|done|by intros x w [? _]].
  - eapply h_bind; [apply (h_close kflags)|]. intros r. apply h_ret. intros w [Hw _]. by eapply holds_lost.
  - eapply h_pre; [apply h_start_tls|by intros w [? _]].
  - eapply h_bind; [apply h_sock_read|]. intros r. apply h_ret. by intros w [? _].
  - eapply h_conseq; [apply h_sock_write|done|by intros x w [? _]].
Qed.

Lemma h_run_ops ops : hoare (owned ∅) (run_ops ops) (fun _ => owned ∅).
Proof.
  induction ops as [|op ops IH]; cbn [run_ops]; [by apply h_ret|].
  eapply h_bind; [apply h_run_op|]. intros ?. exact IH.
Qed.
End run_ops.

(** ** Dotted addresses *)
Class InetLaws `{!Inet} := {
  inet_round x : 0 <= x < 2 ^ 32 -> inet_addr (inet_ntop x) = x;
  inet_any : inet_ntop 0 = ADDRESS_INET_ANY
}.

Lemma htons_bytes h l : 0 <= h < 256 -> 0 <= l < 256 -> htons (h * 256 + l) = l * 256 + h.
Proof.
  intros Hh Hl. unfold htons, uwrap. rewrite Z.mod_small by lia.
  rewrite Z.shiftl_mul_pow2, Z.shiftr_div_pow2 by lia. change 255 with (Z.ones 8).
  rewrite Z.land_ones by lia. change (2 ^ 8) with 256.
  replace ((h * 256 + l) mod 256) with l by (apply (Z.mod_unique _ _ h); lia).
  replace ((h * 256 + l) / 256) with h by (apply (Z.div_unique _ _ _ l); lia).
  apply (Z_lor_fields l h 8); lia.
Qed.

Lemma htons_htons v : 0 <= v < 65536 -> htons (htons v) = v.
Proof.
  intros Hv. pose proof (Z.div_mod v 256). pose proof (Z.mod_pos_bound v 256).
  assert (0 <= v / 256 < 256) by (split; [apply Z.div_pos|apply Z.div_lt_upper_bound]; lia).
  replace v with (v / 256 * 256 + v mod 256) at 1 by lia.
  rewrite !htons_bytes by lia. lia.
Qed.

(** The dotted-decimal notation; the first byte in network order is the lowest. *)
Module Dotted.
Definition decimal (b : Z) : list Z :=
  (if bool_decide (100 <= b) then [48 + b / 100] else []) ++
  (if bool_decide (10 <= b) then [48 + b / 10 mod 10] else []) ++ [48 + b mod 10].

Definition print (x : Z) : list Z :=
  decimal (x mod 256) ++ 46 :: decimal (x / 256 mod 256) ++ 46 :: decimal (x / 65536 mod 256) ++
  46 :: decimal (x / 16777216).

Fixpoint parse (l : list Z) (place cur : Z) : Z :=
  match l with
  | [] => place * cur
  | c :: l => if bool_decide (c = 46) then place * cur + parse l (place * 256) 0
              else parse l place (cur * 10 + (c - 48))
  end.

#[export] Instance inet : Inet := {| inet_addr := fun l => parse l 1 0; inet_ntop := print |}.

Lemma parse_digits ds rest place : forall cur, 46 ∉ ds ->
  parse (ds ++ rest) place cur = parse rest place (fold_left (fun n c => n * 10 + (c - 48)) ds cur).
Proof.
  induction ds as [|d ds IH]; intros cur Hd; [done|]. cbn [app parse fold_left].
  rewrite bool_decide_eq_false_2 by set_solver. apply IH. set_solver.
Qed.

Lemma parse_decimal b rest place : 0 <= b < 256 -> parse (decimal b ++ rest) place 0 = parse rest place b.
Proof.
  intros Hb. pose proof (Z.div_mod b 10 ltac:(lia)). pose proof (Z.mod_pos_bound b 10 ltac:(lia)).
  assert (0 <= b / 10) by (apply Z.div_pos; lia).
  pose proof (Z.div_mod (b / 10) 10 ltac:(lia)). pose proof (Z.mod_pos_bound (b / 10) 10 ltac:(lia)).
  assert (b / 10 / 10 = b / 100) by (by rewrite Z.div_div by lia).
  assert (0 <= b / 100) by (apply Z.div_pos; lia).
  rewrite parse_digits; [f_equal|]; unfold decimal; repeat case_bool_decide; cbn;
    rewrite ?elem_of_cons, ?elem_of_nil; lia.
Qed.

#[export] Instance inet_laws : InetLaws.
Proof.
  constructor; [|reflexivity]. intros x Hx. cbn [inet_addr inet_ntop inet].
  assert (0 <= x / 16777216 < 256) by (split; [apply Z.div_pos|apply Z.div_lt_upper_bound]; lia).
  unfold print. rewrite parse_decimal by (apply Z.mod_pos_bound; lia). cbn [parse].
  rewrite bool_decide_eq_true_2, parse_decimal by (done || apply Z.mod_pos_bound; lia). cbn [parse].
  rewrite bool_decide_eq_true_2, parse_decimal by (done || apply Z.mod_pos_bound; lia). cbn [parse].
  rewrite bool_decide_eq_true_2 by done.
  rewrite <- (app_nil_r (decimal (x / _))), parse_decimal by lia. cbn [parse].
  pose proof (Z.div_mod x 256). pose proof (Z.div_mod (x / 256) 256). pose proof (Z.div_mod (x / 65536) 256).
  assert (x / 256 / 256 = x / 65536) by (by rewrite Z.div_div by lia).
  assert (x / 65536 / 256 = x / 16777216) by (by rewrite Z.div_div by lia). lia.
Qed.
End Dotted.
#[export] Existing Instance Dotted.inet.
#[export] Existing Instance Dotted.inet_laws.

(** ** A kernel, a library and a thread to run the code on *)
Definition EACCES : Z := 13.
Definition O_ACCMODE : Z := 3.
Definition O_RDONLY : Z := 0.

(** Ports below 1024 are refused; [toy_pipe] opens an end to read from and one to write to. *)
Definition toy_bind (_ a : Z) (k : toy) : Z * Z * toy :=
  if bool_decide (htons (uwrap 16 (Z.shiftr a 16)) < 1024) then (-1, EACCES, k) else (0, 0, k).

Definition toy_pipe (k : toy) : Z * (Z * Z) * Z * toy :=
  let '(a, _, k) := toy_open k in
  let '(b, _, k) := toy_open k in
  if bool_decide (a < 0) || bool_decide (b < 0) then (-1, (0, 0), EBADF, k)
  else (0, (a, b), 0, toy_flags (<[a := 0]> (<[b := 1]> (t_flags k))) k).

(** A descriptor that can be written to. *)
Definition writable (fl : option Z) : bool :=
  match fl with Some v => negb (bool_decide (Z.land v O_ACCMODE = O_RDONLY)) | None => false end.

Definition toy_splice (_ to n : Z) (k : toy) : Z * Z * toy :=
  if writable (t_flags k !! to) then (n, 0, k) else (-1, EBADF, k).

#[export] Instance toy_sockets : SocketKernel toy := {|
  k_getsockopt_error := fun fd k =>
    if bool_decide (is_Some (t_flags k !! fd)) then (0, 0, 0, k) else (-1, 0, EBADF, k);
  k_setsockopt := fun _ _ _ k => (0, 0, k);
  k_bind := toy_bind;
  k_peer := fun _ _ => mk_sockaddr AF_INET (htons 4000) 16777343;
  k_pipe2 := toy_pipe;
  k_splice := toy_splice
|}.

#[export] Instance toy_ssl : SSL toy := {|
  ssl_read := fun _ _ => ret (0, []);
  ssl_write := fun _ bs => ret (Z.of_nat (List.length bs));
  ssl_close := fun _ => ret tt;
  ssl_getErrno := fun _ => ret 0;
  ssl_getSocket := fun _ _ => 3
|}.

Lemma toy_open_new k : 0 <= (toy_open k).1.1 ->
  t_flags k !! (toy_open k).1.1 = None /\ is_Some (t_flags (toy_open k).2 !! (toy_open k).1.1).
Proof.
  unfold toy_open. case_bool_decide; cbn; [|lia]. intros _. by rewrite lookup_insert_eq.
Qed.

#[export] Instance toy_socket_laws : SocketLaws toy t_flags.
Proof.
  constructor; cbn; try done; intros.
  - by case_bool_decide.
  - unfold toy_bind. by case_bool_decide.
  - intros k. unfold toy_open. case_bool_decide as Hn; [|by left]. right. cbn. split; [done|by eexists].
  - by apply toy_open_new.
  - by apply toy_open_new.
  - by apply toy_open_new.
  - by injection H as _ <-.
  - by injection H as _ <-.
  - by injection H as _ <-.
Qed.

Definition toy_world (k : toy) : world toy := mk_world (toy_thread k) ∅ ∅ ∅ ∅.

(** ** Properties *)
Section pipes.
Context {K : Type} `{!Kernel K, !SocketKernel K, !SSL K, !Inet} (kflags : K -> gmap Z Z).

(** The first end that [pipe2] hands over can only be read from, and [splice] refuses to move
    anything to such a descriptor. *)
Class PipeLaws := {
  pl_pipe k : 0 <= (k_pipe2 k).1.1.1 -> writable (kflags (k_pipe2 k).2 !! (k_pipe2 k).1.1.2.1) = false;
  pl_splice from to n k : 0 < n -> writable (kflags k !! to) = false -> k_splice from to n k = (-1, EBADF, k)
}.
Context `{!PipeLaws}.

(** Every transfer through a pipe fails at its first [splice]; both ends stay open. *)
Theorem splice_never_moves from to max_len timeout_ms w :
  max_len <> 0 ->
  exists w', (forall fuel, SpliceSocketData (S fuel) from to max_len timeout_ms w = Some (-1, w')) /\
    kern (thr w') = (k_pipe2 (kern (thr w))).2.
Proof.
  intros Hn. unfold SpliceSocketData. pose proof (pl_pipe (kern (thr w))) as Hp.
  unfold mbind, W_bind, lift, call_in, after.
  destruct (k_pipe2 (kern (thr w))) as [[[r [a b]] e] k]. cbn -[Z.mul Z.min splice_in] in *.
  case_bool_decide as Hr; [by eexists|]. specialize (Hp ltac:(lia)).
  set (n := if bool_decide (max_len < 0) then 32 * 1024 else Z.min max_len (32 * 1024)).
  assert (0 < n) as Hn0 by (unfold n; case_bool_decide; lia).
  unfold splice_in, mbind, W_bind, lift, call, after. cbn [thr kern].
  rewrite (pl_splice _ _ _ _ Hn0 Hp). by eexists.
Qed.

(** So [tunnel] without TLS ends the first time that data arrives, and never reports a
    transfer. *)
Theorem tunnel_never_forwards fuel csock ssock pfds timeout_ms w :
  tunnel_loop (S fuel) csock ssock false pfds timeout_ms w = tunnel_loop 1 csock ssock false pfds timeout_ms w /\
  forall r w', tunnel_loop (S fuel) csock ssock false pfds timeout_ms w = Some (r, w') -> r <= 0.
Proof.
  cbn [tunnel_loop]. unfold mbind, W_bind.
  destruct (lift _ w) as [[[n arr] w1]|]; [|done]. cbn [fst snd].
  case_bool_decide; [split; [done|intros r w' [= <- _]; lia]|].
  case_bool_decide; [split; [done|intros r w' [= <- _]; lia]|].
  destruct (arr !! 0%nat) as [p|]; [|done].
  set (to := if bool_decide _ then _ else _).
  destruct (splice_never_moves (pfd p) to (1024 * 10) timeout_ms w1 ltac:(done)) as (w2 & E & _).
  rewrite !E. split; [done|]. by intros r w' [= <- _].
Qed.
End pipes.

#[export] Instance toy_pipes : PipeLaws t_flags.
Proof.
  constructor; [|intros from to n k _ Hw; cbn; unfold toy_splice; by rewrite Hw].
  intros k. cbn. unfold toy_pipe. destruct (toy_open k) as [[a ?] k1].
  destruct (toy_open k1) as [[b ?] k2]. destruct (_ || _); cbn; [lia|]. intros _. by rewrite lookup_insert_eq.
Qed.

Section sound.
Context {K : Type} `{!Kernel K, !SocketKernel K, !SSL K, !Inet} (kflags : K -> gmap Z Z).
Context `{HF : !FlagLaws K kflags, HS : !SocketLaws K kflags}.


(** Both ways to connect give [INVALID_SOCKET], or an open descriptor with the address it
    was connected to on record. *)
Theorem tcp_connect_outcome addr ms w r w' :
  owned kflags ∅ w -> TcpConnect addr w = Some (r, w') \/ TcpConnectTill addr ms w = Some (r, w') ->
  r = INVALID_SOCKET \/
  (0 <= r /\ is_Some (kflags (kern (thr w')) !! r) /\ has_address r addr w').
Proof.
  intros Hw E. assert (opened kflags addr r w') as [Ho Hr].
  { destruct E as [E|E]; [by eapply (h_TcpConnect kflags), E|by eapply (h_TcpConnectTill kflags), E]. }
  destruct Hr as [|(p & Hp & Ha)]; [by left|]. right.
  assert (r ∈ slots w' ∪ ∅) as Hin by (unfold slots; rewrite union_empty_r_L; apply elem_of_union_l, elem_of_dom; eauto).
  split_and!; [by eapply slots_pos|by apply elem_of_dom, (slots_open _ _ _ Ho)|by exists p].
Qed.

(** A socket to listen on has its address on record; one that failed is closed, although
    its number is returned. *)
Theorem tcp_listen_outcome addr w r w' :
  owned kflags ∅ w -> TcpListen addr w = Some (r, w') -> 0 <= r ->
  owned kflags ∅ w' /\ (has_address r addr w' \/ kflags (kern (thr w')) !! r = None).
Proof. intros Hw E H0. destruct (h_TcpListen kflags addr w r w' (conj Hw I) E) as [Ho Hr]. split; [done|by apply Hr]. Qed.
End sound.

(** An address read from a socket address gives that socket address back. *)
Theorem address_round_trip `{!Inet, !InetLaws} sa :
  sin_family sa = AF_INET -> 0 <= sin_port sa < 65536 -> 0 <= s_addr sa < 2 ^ 32 ->
  toSockAddr (Address_of sa AF_INET) = sa.
Proof.
  destruct sa as [f p a]. cbn -[Z.pow]. intros -> Hp Ha. unfold toSockAddr. cbn -[Z.pow htons].
  rewrite htons_htons by done. f_equal. case_bool_decide as Hany; [|by apply inet_round].
  rewrite <- inet_any in Hany. apply (f_equal inet_addr) in Hany. by rewrite !inet_round in Hany by lia.
Qed.

Lemma address_round_trip_witness :
  toSockAddr (Address_of (mk_sockaddr AF_INET (htons 8080) 16777343) AF_INET) =
    mk_sockaddr AF_INET (htons 8080) 16777343 /\
  Address_of (mk_sockaddr AF_INET (htons 8080) 16777343) AF_INET =
    Address_new [49; 50; 55; 46; 48; 46; 48; 46; 49] 8080.
Proof.
  split; [|by vm_compute].
  apply (address_round_trip (mk_sockaddr AF_INET (htons 8080) 16777343)); [done|vm_compute; split; [discriminate|done]..].
Defined.

(** The demonstrations. *)
Definition demo_address : Address := Address_new [49; 50; 55; 46; 48; 46; 48; 46; 49] 8080.
Definition demo_low : Address := Address_new ADDRESS_INET_ANY 80.
Definition demo_world : world toy := toy_world (mk_toy ∅ ∅ 3 [Some [7]; None; Some [8]] [1] [] (IEREAD + IEWRITE) []).
Definition demo_ops : list sock_op :=
  [OpListen demo_address; OpAccept 3; OpConnect demo_address; OpTLS 4; OpListen demo_low; OpRead 5 10;
   OpConnectTill demo_address 100; OpWrite 5 5 [1; 2]; OpClose 4; OpClose 4; OpRead 4 1; OpConnect demo_address].

Lemma demo_owned k : owned t_flags ∅ (toy_world k).
Proof. constructor; unfold slots, open; cbn; try set_solver; intros *; by try rewrite lookup_empty; try intros []. Qed.


Lemma tcp_connect_outcome_witness :
  exists r w', TcpConnect demo_address demo_world = Some (r, w') /\ r = 3 /\
    (r = INVALID_SOCKET \/ (0 <= r /\ is_Some (t_flags (kern (thr w')) !! r) /\ has_address r demo_address w')).
Proof.
  assert (defined (TcpConnect demo_address demo_world) = true) as E by (vm_compute; reflexivity).
  pose proof (defined_default (0, demo_world) _ E) as Ed. clear E.
  assert ((default (0, demo_world) (TcpConnect demo_address demo_world)).1 = 3) as E3 by (by vm_compute).
  destruct (default _ _) as [r w']. exists r, w'. split; [exact Ed|]. split; [exact E3|].
  exact (tcp_connect_outcome t_flags demo_address 0 demo_world r w' (demo_owned _) (or_introl Ed)).
Defined.

Lemma tcp_listen_outcome_witness :
  exists r w', TcpListen demo_low demo_world = Some (r, w') /\ r = 3 /\
    (has_address r demo_low w' \/ t_flags (kern (thr w')) !! r = None).
Proof.
  assert (defined (TcpListen demo_low demo_world) = true) as E by (vm_compute; reflexivity).
  pose proof (defined_default (0, demo_world) _ E) as Ed. clear E.
  assert ((default (0, demo_world) (TcpListen demo_low demo_world)).1 = 3) as E3 by (by vm_compute).
  destruct (default _ _) as [r w']. exists r, w'. split; [exact Ed|]. split; [exact E3|].
  cbn in E3. subst r.
  exact (proj2 (tcp_listen_outcome t_flags demo_low demo_world 3 w' (demo_owned _) Ed ltac:(lia))).
Defined.

(** A port that may not be used: the number comes back, of a descriptor closed already. *)
Example listen_returns_closed :
  (fun x => (x.1, t_flags (kern (thr x.2)) !! x.1)) <$> TcpListen demo_low demo_world = Some (3, None).
Proof. by vm_compute. Qed.

(** [tunnel] between two connected sockets, with data waiting. *)
Example tunnel_ends :
  fst <$> (TcpConnect demo_address;; TcpConnect demo_address;; tunnel 5 3 4 100) demo_world = Some (-1).
Proof. by vm_compute. Qed.

(** Descriptors are valid up to [MAX_FD_NUM], more than the tables have entries. *)
Example tables_too_small :
  is_fd_valid 70000 = true /\
  TcpConnect demo_address (toy_world (mk_toy ∅ ∅ 70000 [] [] [] (IEREAD + IEWRITE) [])) = None.
Proof. by vm_compute. Qed.
