(* ===== verification/Dns.v ===== *)
(** * proto/dns/DNS.h: name queries by c-ares, polled by a task

    [query] hands c-ares its descriptors as they become ready, waiting for them with
    [co_poll] of SysHelper.v. c-ares is a parameter, the class [Ares]: a channel is a value,
    and the callbacks that a call makes are the replies it returns, in order. *)
From S2P Require Import Prelude TimeWheel Event SysHook SysHelper Socket.
Local Open Scope Z_scope.
Local Open Scope monad_scope.

(** A reply is a status and an answer. The results of [ares_parse_a_reply] are a status
    and at most as many pairs of an address and its time to live as there is room for. *)
Class Ares (K A : Type) := {
  ares_init_options : M K (Z * A);
  ares_query : list Z -> A -> M K (A * list (Z * list Z));
  ares_fds : A -> Z * gset Z * gset Z;
  ares_process : gset Z -> gset Z -> A -> M K (A * list (Z * list Z));
  ares_destroy : A -> M K (list (Z * list Z));
  ares_library_cleanup : M K unit;
  ares_parse_a_reply : list Z -> Z -> Z * list (Z * Z)
}.

Definition ARES_SUCCESS : Z := 0.

(** [fChannel]: [None] when there is none, or it has been destroyed. *)
Record DNS (A : Type) := mk_dns { bInited : bool; fChannel : option A; fResults : list (list Z * Z) }.
Arguments mk_dns {A}. Arguments bInited {A}. Arguments fChannel {A}. Arguments fResults {A}.

Definition DNS_new {A} : DNS A := mk_dns false None [].
Definition getPreferIP {A} (d : DNS A) : option (list Z) := fst <$> head (fResults d).
Definition getResolvedResult {A} (d : DNS A) : list (list Z * Z) := fResults d.

(** The descriptors that [query] polls: numbered from 1 on. *)
Definition dns_fds (nfds : Z) : list Z := seqZ 1 (nfds - 1).
Definition dns_pollfds (nfds : Z) (read_fds write_fds : gset Z) : list pollfd :=
  omap (fun fd =>
    if bool_decide (fd ∈ read_fds) || bool_decide (fd ∈ write_fds) then
      Some (mk_pollfd fd (Z.lor (if bool_decide (fd ∈ read_fds) then EPOLLIN else 0)
                                (if bool_decide (fd ∈ write_fds) then EPOLLOUT else 0)) 0)
    else None) (dns_fds nfds).

(** What the first [n] entries report; [None]: there are not so many. *)
Fixpoint dns_ready (n : nat) (arr : list pollfd) : option (gset Z * gset Z) :=
  match n with
  | O => Some (∅, ∅)
  | S n =>
      match arr with
      | [] => None
      | p :: arr =>
          '(r, w) ← dns_ready n arr;
          Some (if has (revents p) EPOLLIN then {[pfd p]} ∪ r else r,
                if has (revents p) EPOLLOUT then {[pfd p]} ∪ w else w)
      end
  end.

Section dns.
Context {K A : Type} `{!Kernel K, !Ares K A, !Inet}.

(** [__dns_callback]: the answer is parsed with room for ten addresses. *)
Definition __dns_callback (reply : Z * list Z) (results : list (list Z * Z)) : list (list Z * Z) :=
  let '(status, abuf) := reply in
  if negb (bool_decide (status = ARES_SUCCESS)) then results
  else
    let '(s, addrttls) := ares_parse_a_reply abuf 10 in
    if negb (bool_decide (s = ARES_SUCCESS)) then results
    else results ++ ((fun a => (inet_ntop a.1, a.2)) <$> addrttls).

Definition dns_callbacks (replies : list (Z * list Z)) (results : list (list Z * Z)) : list (list Z * Z) :=
  foldl (fun rs r => __dns_callback r rs) results replies.

(** [ares_destroy] makes callbacks too. [bInited] stays as it is. *)
Definition destroy (d : DNS A) : M K (DNS A) :=
  if negb (bInited d) then ret d
  else
    match fChannel d with
    | None => panic
    | Some c =>
        replies <- ares_destroy c;;
        ares_library_cleanup;;
        ret (mk_dns (bInited d) None (dns_callbacks replies (fResults d)))
    end.

Definition init (d : DNS A) : M K (bool * DNS A) :=
  d <- (if bInited d then destroy d else ret d);;
  r <- ares_init_options;;
  if negb (bool_decide (r.1 = ARES_SUCCESS)) then ret (false, d)
  else ret (true, mk_dns true (Some r.2) (fResults d)).

(** The loop, at most [fuel] rounds of it. *)
Fixpoint query_loop (fuel : nat) (c : A) (results : list (list Z * Z)) : M K (A * list (list Z * Z)) :=
  match fuel with
  | O => panic
  | S fuel =>
      let '(nfds, read_fds, write_fds) := ares_fds c in
      if bool_decide (nfds = 0) then ret (c, results)
      else
        r <- co_poll (dns_pollfds nfds read_fds write_fds) 1000;;
        if bool_decide (r.1 = 0) then ret (c, results)
        else
          match dns_ready (Z.to_nat r.1) r.2 with
          | None => panic
          | Some (read_fds, write_fds) =>
              x <- ares_process read_fds write_fds c;;
              query_loop fuel x.1 (dns_callbacks x.2 results)
          end
  end.

Definition query (fuel : nat) (hostname : list Z) (d : DNS A) : M K (bool * DNS A) :=
  match fChannel d with
  | None => panic
  | Some c =>
      x <- ares_query hostname c;;
      y <- query_loop fuel x.1 (dns_callbacks x.2 (fResults d));;
      ret (negb (bool_decide (y.2 = [])), mk_dns (bInited d) (Some y.1) y.2)
  end.

Definition resolve (fuel : nat) (hostname : list Z) (d : DNS A) : M K (bool * DNS A) :=
  x <- init d;;
  if negb x.1 then ret (false, x.2) else query fuel hostname x.2.

(** The destructor. *)
Definition DNS_delete (d : DNS A) : M K unit := destroy d;; ret tt.

(** ** Lemmas *)
Lemma dns_callbacks_prefix replies : forall results, results `prefix_of` dns_callbacks replies results.
Proof.
  induction replies as [|[st ab] replies IH]; intros results; [done|]. cbn. etrans; [|apply IH]. cbn.
  case_bool_decide; [|done]. cbn. destruct (ares_parse_a_reply ab 10) as [s ts]. case_bool_decide; [|done]. cbn.
  by apply prefix_app_r.
Qed.

Lemma query_loop_prefix fuel : forall c results s c' results' s',
  query_loop fuel c results s = Some ((c', results'), s') -> results `prefix_of` results'.
Proof.
  induction fuel as [|fuel IH]; intros c results s c' results' s'; [done|]. cbn [query_loop].
  destruct (ares_fds c) as [[nfds rd] wr]. case_bool_decide; [unfold ret; by intros [= <- <- <-]|].
  intros (r & s1 & _ & Hr)%bind_inv. case_bool_decide; [unfold ret in Hr; by injection Hr as <- <- <-|].
  destruct (dns_ready _ _) as [[rd' wr']|]; [|done]. apply bind_inv in Hr as (x & s2 & _ & Hr).
  apply IH in Hr. etrans; [apply dns_callbacks_prefix|done].
Qed.

Lemma destroy_inv d s d' s' :
  destroy d s = Some (d', s') ->
  bInited d' = bInited d /\ fResults d `prefix_of` fResults d' /\ (bInited d = true -> fChannel d' = None).
Proof.
  unfold destroy. destruct (bInited d) eqn:Hb; cbn [negb]; [|unfold ret; by intros [= <- <-]].
  destruct (fChannel d) as [c|]; [|done]. intros (rs & s1 & _ & (? & s2 & _ & E)%bind_inv)%bind_inv.
  unfold ret in E. injection E as <- <-. cbn. split_and!; [done|apply dns_callbacks_prefix|done].
Qed.
End dns.

Lemma dns_fds_elem nfds fd : fd ∈ dns_fds nfds <-> 1 <= fd < nfds.
Proof. unfold dns_fds. rewrite elem_of_seqZ. lia. Qed.

Lemma dns_pollfds_pfd nfds rd wr :
  pfd <$> dns_pollfds nfds rd wr = filter (fun fd => fd ∈ rd \/ fd ∈ wr) (dns_fds nfds).
Proof.
  unfold dns_pollfds. induction (dns_fds nfds) as [|fd l IH]; [done|]. cbn [omap list_omap].
  destruct (decide (fd ∈ rd \/ fd ∈ wr)) as [Hd|Hd].
  - rewrite filter_cons_True by done. rewrite <- IH.
    destruct Hd as [Hd|Hd]; rewrite (bool_decide_eq_true_2 _ Hd), ?orb_true_r; done.
  - rewrite filter_cons_False by done. rewrite <- IH.
    rewrite !bool_decide_eq_false_2 by tauto. done.
Qed.

Lemma error_to_events_in e : has (error_to_events e) EPOLLIN = has e IEREAD.
Proof.
  unfold error_to_events.
  by destruct (has e IEREAD), (has e IEWRITE), (has e IEERR), (has e IERDHUP), (has e IEHUP).
Qed.
Lemma error_to_events_out e : has (error_to_events e) EPOLLOUT = has e IEWRITE.
Proof.
  unfold error_to_events.
  by destruct (has e IEREAD), (has e IEWRITE), (has e IEERR), (has e IERDHUP), (has e IEHUP).
Qed.

(** The sets that are made of the first [n] entries. *)
Lemma dns_ready_spec n : forall arr, (n <= length arr)%nat ->
  exists r w, dns_ready n arr = Some (r, w) /\
    (forall fd, fd ∈ r <-> exists p, p ∈ take n arr /\ pfd p = fd /\ has (revents p) EPOLLIN = true) /\
    (forall fd, fd ∈ w <-> exists p, p ∈ take n arr /\ pfd p = fd /\ has (revents p) EPOLLOUT = true).
Proof.
  induction n as [|n IH]; intros arr Hn.
  { exists ∅, ∅. split_and!; [done| |]; intros fd; split; try set_solver; intros (p & Hp%elem_of_nil & _); done. }
  destruct arr as [|p arr]; cbn in Hn; [lia|]. destruct (IH arr) as (r & w & E & Hr & Hw); [lia|].
  cbn [dns_ready]. rewrite E. cbn. eexists _, _. split; [done|].
  split; intros fd; setoid_rewrite elem_of_cons.
  - destruct (has (revents p) EPOLLIN) eqn:Hp; rewrite ?elem_of_union, ?elem_of_singleton, Hr; naive_solver congruence.
  - destruct (has (revents p) EPOLLOUT) eqn:Hp; rewrite ?elem_of_union, ?elem_of_singleton, Hw; naive_solver congruence.
Qed.

(** Entries with events, as [co_poll] reports them. *)
Lemma report_elem {K} (s : thread K) (arr : list pollfd) fd (bit ebit : Z) :
  (forall e, has (error_to_events e) bit = has e ebit) ->
  (exists p, p ∈ omap (report s) arr /\ pfd p = fd /\ has (revents p) bit = true) <->
  (fd ∈ pfd <$> arr /\ exists ifd, fds s !! fd = Some ifd /\ has (error ifd) ebit = true).
Proof.
  intros Hb. split.
  - intros (p & (q & Hq & Hr)%list_elem_of_omap & <- & He). unfold report in Hr.
    destruct (fds s !! pfd q) as [ifd|] eqn:E; [|done]. cbn in Hr. case_bool_decide as Hn; [done|]. injection Hr as <-.
    cbn in *. split; [by apply list_elem_of_fmap_2|]. exists ifd. by rewrite <- Hb.
  - intros ((p & -> & Hp)%list_elem_of_fmap & ifd & E & He). exists (set_revents (error_to_events (error ifd)) p).
    split; [|split; [done|cbn; by rewrite Hb]]. apply list_elem_of_omap. exists p. split; [done|]. unfold report.
    rewrite E. cbn. rewrite bool_decide_eq_false_2; [done|]. intros Hn. rewrite Hn in He. by destruct ebit.
Qed.



(** *** Runs *)
(** c-ares with what it knows already: a query is answered at once with the address [1] for an hour, or, for an empty
    name, not at all. It cannot be initialised while [errno] is set. *)
#[export] Instance toy_ares : Ares toy unit := {|
  ares_init_options := fun s => Some (if bool_decide (errno s = 0) then (0, tt) else (1, tt), s);
  ares_query := fun name c s => Some ((c, if bool_decide (name = []) then [(4, [])] else [(0, name)]), s);
  ares_fds := fun _ => (0, ∅, ∅);
  ares_process := fun _ _ c s => Some ((c, []), s);
  ares_destroy := fun _ s => Some ([], s);
  ares_library_cleanup := fun s => Some (tt, s);
  ares_parse_a_reply := fun _ n => (0, [(1, 3600)])
|}.
Definition dns_thread (e : Z) : thread toy := mk_thread toy0 ∅ (new_time_wheel 60 1) e [] true 1%nat.
Definition dns_once : DNS unit := mk_dns true (Some tt) [(inet_ntop 1, 3600)].


(** Two sockets of a query, of which the second is ready to read. *)
Definition dns_poll_thread : thread toy := mk_thread toy0 toy_poll_fds (new_time_wheel 60 1) 0 [] true 1%nat.

(** A query whose only socket is descriptor 0 polls nothing. *)
Example dns_fd_zero : dns_pollfds 1 {[0]} ∅ = [].
Proof. by vm_compute. Qed.
