(* ===== verification/Ciphers.v ===== *)
(** * net/ssl/Ciphers.h: the tables of cipher suites

    The initialisers entry by entry, in parts; a [std::map] made from a list keeps the
    first entry of a key, as [list_to_map] does. *)
From stdpp Require Import strings.
From S2P Require Import Prelude.
Local Open Scope Z_scope.

Definition ssl_ciphers_1 : list (Z * string) := [
  (0x0000, "TLS_NULL_WITH_NULL_NULL"%string);
  (0x0001, "TLS_RSA_WITH_NULL_MD5"%string);
  (0x0002, "TLS_RSA_WITH_NULL_SHA"%string);
  (0x0003, "TLS_RSA_EXPORT_WITH_RC4_40_MD5"%string);
  (0x0004, "TLS_RSA_WITH_RC4_128_MD5"%string);
  (0x0005, "TLS_RSA_WITH_RC4_128_SHA"%string);
  (0x0006, "TLS_RSA_EXPORT_WITH_RC2_CBC_40_MD5"%string);
  (0x0007, "TLS_RSA_WITH_IDEA_CBC_SHA"%string);
  (0x0008, "TLS_RSA_EXPORT_WITH_DES40_CBC_SHA"%string);
  (0x0009, "TLS_RSA_WITH_DES_CBC_SHA"%string);
  (0x000A, "TLS_RSA_WITH_3DES_EDE_CBC_SHA"%string);
  (0x000B, "TLS_DH_DSS_EXPORT_WITH_DES40_CBC_SHA"%string);
  (0x000C, "TLS_DH_DSS_WITH_DES_CBC_SHA"%string);
  (0x000D, "TLS_DH_DSS_WITH_3DES_EDE_CBC_SHA"%string);
  (0x000E, "TLS_DH_RSA_EXPORT_WITH_DES40_CBC_SHA"%string);
  (0x000F, "TLS_DH_RSA_WITH_DES_CBC_SHA"%string);
  (0x0010, "TLS_DH_RSA_WITH_3DES_EDE_CBC_SHA"%string);
  (0x0011, "TLS_DHE_DSS_EXPORT_WITH_DES40_CBC_SHA"%string);
  (0x0012, "TLS_DHE_DSS_WITH_DES_CBC_SHA"%string);
  (0x0013, "TLS_DHE_DSS_WITH_3DES_EDE_CBC_SHA"%string);
  (0x0014, "TLS_DHE_RSA_EXPORT_WITH_DES40_CBC_SHA"%string);
  (0x0015, "TLS_DHE_RSA_WITH_DES_CBC_SHA"%string);
  (0x0016, "TLS_DHE_RSA_WITH_3DES_EDE_CBC_SHA"%string);
  (0x0017, "TLS_DH_anon_EXPORT_WITH_RC4_40_MD5"%string);
  (0x0018, "TLS_DH_anon_WITH_RC4_128_MD5"%string);
  (0x0019, "TLS_DH_anon_EXPORT_WITH_DES40_CBC_SHA"%string);
  (0x001A, "TLS_DH_anon_WITH_DES_CBC_SHA"%string);
  (0x001B, "TLS_DH_anon_WITH_3DES_EDE_CBC_SHA"%string);
  (0x001D, "SSL_FORTEZZA_KEA_WITH_FORTEZZA_CBC_SHA"%string);
  (0x001E, "SSL_FORTEZZA_KEA_WITH_RC4_128_SHA"%string);
  (0x001F, "TLS_KRB5_WITH_3DES_EDE_CBC_SHA"%string);
  (0x0020, "TLS_KRB5_WITH_RC4_128_SHA"%string);
  (0x0021, "TLS_KRB5_WITH_IDEA_CBC_SHA"%string);
  (0x0022, "TLS_KRB5_WITH_DES_CBC_MD5"%string);
  (0x0023, "TLS_KRB5_WITH_3DES_EDE_CBC_MD5"%string);
  (0x0024, "TLS_KRB5_WITH_RC4_128_MD5"%string);
  (0x0025, "TLS_KRB5_WITH_IDEA_CBC_MD5"%string);
  (0x0026, "TLS_KRB5_EXPORT_WITH_DES_CBC_40_SHA"%string);
  (0x0027, "TLS_KRB5_EXPORT_WITH_RC2_CBC_40_SHA"%string);
  (0x0028, "TLS_KRB5_EXPORT_WITH_RC4_40_SHA"%string);
  (0x0029, "TLS_KRB5_EXPORT_WITH_DES_CBC_40_MD5"%string);
  (0x002A, "TLS_KRB5_EXPORT_WITH_RC2_CBC_40_MD5"%string);
  (0x002B, "TLS_KRB5_EXPORT_WITH_RC4_40_MD5"%string);
  (0x002C, "TLS_PSK_WITH_NULL_SHA"%string);
  (0x002D, "TLS_DHE_PSK_WITH_NULL_SHA"%string);
  (0x002E, "TLS_RSA_PSK_WITH_NULL_SHA"%string);
  (0x002F, "TLS_RSA_WITH_AES_128_CBC_SHA"%string);
  (0x0030, "TLS_DH_DSS_WITH_AES_128_CBC_SHA"%string);
  (0x0031, "TLS_DH_RSA_WITH_AES_128_CBC_SHA"%string);
  (0x0032, "TLS_DHE_DSS_WITH_AES_128_CBC_SHA"%string);
  (0x0033, "TLS_DHE_RSA_WITH_AES_128_CBC_SHA"%string);
  (0x0034, "TLS_DH_anon_WITH_AES_128_CBC_SHA"%string);
  (0x0035, "TLS_RSA_WITH_AES_256_CBC_SHA"%string);
  (0x0036, "TLS_DH_DSS_WITH_AES_256_CBC_SHA"%string);
  (0x0037, "TLS_DH_RSA_WITH_AES_256_CBC_SHA"%string);
  (0x0038, "TLS_DHE_DSS_WITH_AES_256_CBC_SHA"%string);
  (0x0039, "TLS_DHE_RSA_WITH_AES_256_CBC_SHA"%string);
  (0x003A, "TLS_DH_anon_WITH_AES_256_CBC_SHA"%string);
  (0x003B, "TLS_RSA_WITH_NULL_SHA256"%string);
  (0x003C, "TLS_RSA_WITH_AES_128_CBC_SHA256"%string);
  (0x003D, "TLS_RSA_WITH_AES_256_CBC_SHA256"%string);
  (0x003E, "TLS_DH_DSS_WITH_AES_128_CBC_SHA256"%string);
  (0x003F, "TLS_DH_RSA_WITH_AES_128_CBC_SHA256"%string);
  (0x0040, "TLS_DHE_DSS_WITH_AES_128_CBC_SHA256"%string);
  (0x0041, "TLS_RSA_WITH_CAMELLIA_128_CBC_SHA"%string);
  (0x0042, "TLS_DH_DSS_WITH_CAMELLIA_128_CBC_SHA"%string);
  (0x0043, "TLS_DH_RSA_WITH_CAMELLIA_128_CBC_SHA"%string);
  (0x0044, "TLS_DHE_DSS_WITH_CAMELLIA_128_CBC_SHA"%string);
  (0x0045, "TLS_DHE_RSA_WITH_CAMELLIA_128_CBC_SHA"%string);
  (0x0046, "TLS_DH_anon_WITH_CAMELLIA_128_CBC_SHA"%string);
  (0x0067, "TLS_DHE_RSA_WITH_AES_128_CBC_SHA256"%string);
  (0x0068, "TLS_DH_DSS_WITH_AES_256_CBC_SHA256"%string);
  (0x0069, "TLS_DH_RSA_WITH_AES_256_CBC_SHA256"%string);
  (0x006A, "TLS_DHE_DSS_WITH_AES_256_CBC_SHA256"%string);
  (0x006B, "TLS_DHE_RSA_WITH_AES_256_CBC_SHA256"%string);
  (0x006C, "TLS_DH_anon_WITH_AES_128_CBC_SHA256"%string);
  (0x006D, "TLS_DH_anon_WITH_AES_256_CBC_SHA256"%string);
  (0x0081, "TLS_GOSTR341001_WITH_28147_CNT_IMIT"%string);
  (0x0083, "TLS_GOSTR341001_WITH_NULL_GOSTR3411"%string);
  (0x0084, "TLS_RSA_WITH_CAMELLIA_256_CBC_SHA"%string);
  (0x0085, "TLS_DH_DSS_WITH_CAMELLIA_256_CBC_SHA"%string);
  (0x0086, "TLS_DH_RSA_WITH_CAMELLIA_256_CBC_SHA"%string);
  (0x0087, "TLS_DHE_DSS_WITH_CAMELLIA_256_CBC_SHA"%string);
  (0x0088, "TLS_DHE_RSA_WITH_CAMELLIA_256_CBC_SHA"%string);
  (0x0089, "TLS_DH_anon_WITH_CAMELLIA_256_CBC_SHA"%string);
  (0x008A, "TLS_PSK_WITH_RC4_128_SHA"%string);
  (0x008B, "TLS_PSK_WITH_3DES_EDE_CBC_SHA"%string);
  (0x008C, "TLS_PSK_WITH_AES_128_CBC_SHA"%string);
  (0x008D, "TLS_PSK_WITH_AES_256_CBC_SHA"%string);
  (0x008E, "TLS_DHE_PSK_WITH_RC4_128_SHA"%string);
  (0x008F, "TLS_DHE_PSK_WITH_3DES_EDE_CBC_SHA"%string);
  (0x0090, "TLS_DHE_PSK_WITH_AES_128_CBC_SHA"%string);
  (0x0091, "TLS_DHE_PSK_WITH_AES_256_CBC_SHA"%string);
  (0x0092, "TLS_RSA_PSK_WITH_RC4_128_SHA"%string);
  (0x0093, "TLS_RSA_PSK_WITH_3DES_EDE_CBC_SHA"%string);
  (0x0094, "TLS_RSA_PSK_WITH_AES_128_CBC_SHA"%string);
  (0x0095, "TLS_RSA_PSK_WITH_AES_256_CBC_SHA"%string);
  (0x0096, "TLS_RSA_WITH_SEED_CBC_SHA"%string);
  (0x0097, "TLS_DH_DSS_WITH_SEED_CBC_SHA"%string);
  (0x0098, "TLS_DH_RSA_WITH_SEED_CBC_SHA"%string);
  (0x0099, "TLS_DHE_DSS_WITH_SEED_CBC_SHA"%string);
  (0x009A, "TLS_DHE_RSA_WITH_SEED_CBC_SHA"%string);
  (0x009B, "TLS_DH_anon_WITH_SEED_CBC_SHA"%string);
  (0x009C, "TLS_RSA_WITH_AES_128_GCM_SHA256"%string);
  (0x009D, "TLS_RSA_WITH_AES_256_GCM_SHA384"%string);
  (0x009E, "TLS_DHE_RSA_WITH_AES_128_GCM_SHA256"%string);
  (0x009F, "TLS_DHE_RSA_WITH_AES_256_GCM_SHA384"%string);
  (0x00A0, "TLS_DH_RSA_WITH_AES_128_GCM_SHA256"%string);
  (0x00A1, "TLS_DH_RSA_WITH_AES_256_GCM_SHA384"%string);
  (0x00A2, "TLS_DHE_DSS_WITH_AES_128_GCM_SHA256"%string);
  (0x00A3, "TLS_DHE_DSS_WITH_AES_256_GCM_SHA384"%string);
  (0x00A4, "TLS_DH_DSS_WITH_AES_128_GCM_SHA256"%string);
  (0x00A5, "TLS_DH_DSS_WITH_AES_256_GCM_SHA384"%string)].

Definition ssl_ciphers_2 : list (Z * string) := [
  (0x00A6, "TLS_DH_anon_WITH_AES_128_GCM_SHA256"%string);
  (0x00A7, "TLS_DH_anon_WITH_AES_256_GCM_SHA384"%string);
  (0x00A8, "TLS_PSK_WITH_AES_128_GCM_SHA256"%string);
  (0x00A9, "TLS_PSK_WITH_AES_256_GCM_SHA384"%string);
  (0x00AA, "TLS_DHE_PSK_WITH_AES_128_GCM_SHA256"%string);
  (0x00AB, "TLS_DHE_PSK_WITH_AES_256_GCM_SHA384"%string);
  (0x00AC, "TLS_RSA_PSK_WITH_AES_128_GCM_SHA256"%string);
  (0x00AD, "TLS_RSA_PSK_WITH_AES_256_GCM_SHA384"%string);
  (0x00AE, "TLS_PSK_WITH_AES_128_CBC_SHA256"%string);
  (0x00AF, "TLS_PSK_WITH_AES_256_CBC_SHA384"%string);
  (0x00B0, "TLS_PSK_WITH_NULL_SHA256"%string);
  (0x00B1, "TLS_PSK_WITH_NULL_SHA384"%string);
  (0x00B2, "TLS_DHE_PSK_WITH_AES_128_CBC_SHA256"%string);
  (0x00B3, "TLS_DHE_PSK_WITH_AES_256_CBC_SHA384"%string);
  (0x00B4, "TLS_DHE_PSK_WITH_NULL_SHA256"%string);
  (0x00B5, "TLS_DHE_PSK_WITH_NULL_SHA384"%string);
  (0x00B6, "TLS_RSA_PSK_WITH_AES_128_CBC_SHA256"%string);
  (0x00B7, "TLS_RSA_PSK_WITH_AES_256_CBC_SHA384"%string);
  (0x00B8, "TLS_RSA_PSK_WITH_NULL_SHA256"%string);
  (0x00B9, "TLS_RSA_PSK_WITH_NULL_SHA384"%string);
  (0x00BA, "TLS_RSA_WITH_CAMELLIA_128_CBC_SHA256"%string);
  (0x00BB, "TLS_DH_DSS_WITH_CAMELLIA_128_CBC_SHA256"%string);
  (0x00BC, "TLS_DH_RSA_WITH_CAMELLIA_128_CBC_SHA256"%string);
  (0x00BD, "TLS_DHE_DSS_WITH_CAMELLIA_128_CBC_SHA256"%string);
  (0x00BE, "TLS_DHE_RSA_WITH_CAMELLIA_128_CBC_SHA256"%string);
  (0x00BF, "TLS_DH_anon_WITH_CAMELLIA_128_CBC_SHA256"%string);
  (0x00C0, "TLS_RSA_WITH_CAMELLIA_256_CBC_SHA256"%string);
  (0x00C1, "TLS_DH_DSS_WITH_CAMELLIA_256_CBC_SHA256"%string);
  (0x00C2, "TLS_DH_RSA_WITH_CAMELLIA_256_CBC_SHA256"%string);
  (0x00C3, "TLS_DHE_DSS_WITH_CAMELLIA_256_CBC_SHA256"%string);
  (0x00C4, "TLS_DHE_RSA_WITH_CAMELLIA_256_CBC_SHA256"%string);
  (0x00C5, "TLS_DH_anon_WITH_CAMELLIA_256_CBC_SHA256"%string);
  (0x00FF, "TLS_EMPTY_RENEGOTIATION_INFO_SCSV"%string);
  (0x5600, "TLS_FALLBACK_SCSV"%string);
  (0xC001, "TLS_ECDH_ECDSA_WITH_NULL_SHA"%string);
  (0xC002, "TLS_ECDH_ECDSA_WITH_RC4_128_SHA"%string);
  (0xC003, "TLS_ECDH_ECDSA_WITH_3DES_EDE_CBC_SHA"%string);
  (0xC004, "TLS_ECDH_ECDSA_WITH_AES_128_CBC_SHA"%string);
  (0xC005, "TLS_ECDH_ECDSA_WITH_AES_256_CBC_SHA"%string);
  (0xC006, "TLS_ECDHE_ECDSA_WITH_NULL_SHA"%string);
  (0xC007, "TLS_ECDHE_ECDSA_WITH_RC4_128_SHA"%string);
  (0xC008, "TLS_ECDHE_ECDSA_WITH_3DES_EDE_CBC_SHA"%string);
  (0xC009, "TLS_ECDHE_ECDSA_WITH_AES_128_CBC_SHA"%string);
  (0xC00A, "TLS_ECDHE_ECDSA_WITH_AES_256_CBC_SHA"%string);
  (0xC00B, "TLS_ECDH_RSA_WITH_NULL_SHA"%string);
  (0xC00C, "TLS_ECDH_RSA_WITH_RC4_128_SHA"%string);
  (0xC00D, "TLS_ECDH_RSA_WITH_3DES_EDE_CBC_SHA"%string);
  (0xC00E, "TLS_ECDH_RSA_WITH_AES_128_CBC_SHA"%string);
  (0xC00F, "TLS_ECDH_RSA_WITH_AES_256_CBC_SHA"%string);
  (0xC010, "TLS_ECDHE_RSA_WITH_NULL_SHA"%string);
  (0xC011, "TLS_ECDHE_RSA_WITH_RC4_128_SHA"%string);
  (0xC012, "TLS_ECDHE_RSA_WITH_3DES_EDE_CBC_SHA"%string);
  (0xC013, "TLS_ECDHE_RSA_WITH_AES_128_CBC_SHA"%string);
  (0xC014, "TLS_ECDHE_RSA_WITH_AES_256_CBC_SHA"%string);
  (0xC015, "TLS_ECDH_anon_WITH_NULL_SHA"%string);
  (0xC016, "TLS_ECDH_anon_WITH_RC4_128_SHA"%string);
  (0xC017, "TLS_ECDH_anon_WITH_3DES_EDE_CBC_SHA"%string);
  (0xC018, "TLS_ECDH_anon_WITH_AES_128_CBC_SHA"%string);
  (0xC019, "TLS_ECDH_anon_WITH_AES_256_CBC_SHA"%string);
  (0xC01A, "TLS_SRP_SHA_WITH_3DES_EDE_CBC_SHA"%string);
  (0xC01B, "TLS_SRP_SHA_RSA_WITH_3DES_EDE_CBC_SHA"%string);
  (0xC01C, "TLS_SRP_SHA_DSS_WITH_3DES_EDE_CBC_SHA"%string);
  (0xC01D, "TLS_SRP_SHA_WITH_AES_128_CBC_SHA"%string);
  (0xC01E, "TLS_SRP_SHA_RSA_WITH_AES_128_CBC_SHA"%string);
  (0xC01F, "TLS_SRP_SHA_DSS_WITH_AES_128_CBC_SHA"%string);
  (0xC020, "TLS_SRP_SHA_WITH_AES_256_CBC_SHA"%string);
  (0xC021, "TLS_SRP_SHA_RSA_WITH_AES_256_CBC_SHA"%string);
  (0xC022, "TLS_SRP_SHA_DSS_WITH_AES_256_CBC_SHA"%string);
  (0xC023, "TLS_ECDHE_ECDSA_WITH_AES_128_CBC_SHA256"%string);
  (0xC024, "TLS_ECDHE_ECDSA_WITH_AES_256_CBC_SHA384"%string);
  (0xC025, "TLS_ECDH_ECDSA_WITH_AES_128_CBC_SHA256"%string);
  (0xC026, "TLS_ECDH_ECDSA_WITH_AES_256_CBC_SHA384"%string);
  (0xC027, "TLS_ECDHE_RSA_WITH_AES_128_CBC_SHA256"%string);
  (0xC028, "TLS_ECDHE_RSA_WITH_AES_256_CBC_SHA384"%string);
  (0xC029, "TLS_ECDH_RSA_WITH_AES_128_CBC_SHA256"%string);
  (0xC02A, "TLS_ECDH_RSA_WITH_AES_256_CBC_SHA384"%string);
  (0xC02B, "TLS_ECDHE_ECDSA_WITH_AES_128_GCM_SHA256"%string);
  (0xC02C, "TLS_ECDHE_ECDSA_WITH_AES_256_GCM_SHA384"%string);
  (0xC02D, "TLS_ECDH_ECDSA_WITH_AES_128_GCM_SHA256"%string);
  (0xC02E, "TLS_ECDH_ECDSA_WITH_AES_256_GCM_SHA384"%string);
  (0xC02F, "TLS_ECDHE_RSA_WITH_AES_128_GCM_SHA256"%string);
  (0xC030, "TLS_ECDHE_RSA_WITH_AES_256_GCM_SHA384"%string);
  (0xC031, "TLS_ECDH_RSA_WITH_AES_128_GCM_SHA256"%string);
  (0xC032, "TLS_ECDH_RSA_WITH_AES_256_GCM_SHA384"%string);
  (0xC033, "TLS_ECDHE_PSK_WITH_RC4_128_SHA"%string);
  (0xC034, "TLS_ECDHE_PSK_WITH_3DES_EDE_CBC_SHA"%string);
  (0xC035, "TLS_ECDHE_PSK_WITH_AES_128_CBC_SHA"%string);
  (0xC036, "TLS_ECDHE_PSK_WITH_AES_256_CBC_SHA"%string);
  (0xC037, "TLS_ECDHE_PSK_WITH_AES_128_CBC_SHA256"%string);
  (0xC038, "TLS_ECDHE_PSK_WITH_AES_256_CBC_SHA384"%string);
  (0xC039, "TLS_ECDHE_PSK_WITH_NULL_SHA"%string);
  (0xC03A, "TLS_ECDHE_PSK_WITH_NULL_SHA256"%string);
  (0xC03B, "TLS_ECDHE_PSK_WITH_NULL_SHA384"%string);
  (0xC03C, "TLS_RSA_WITH_ARIA_128_CBC_SHA256"%string);
  (0xC03D, "TLS_RSA_WITH_ARIA_256_CBC_SHA384"%string);
  (0xC03E, "TLS_DH_DSS_WITH_ARIA_128_CBC_SHA256"%string);
  (0xC03F, "TLS_DH_DSS_WITH_ARIA_256_CBC_SHA384"%string);
  (0xC040, "TLS_DH_RSA_WITH_ARIA_128_CBC_SHA256"%string);
  (0xC041, "TLS_DH_RSA_WITH_ARIA_256_CBC_SHA384"%string);
  (0xC042, "TLS_DHE_DSS_WITH_ARIA_128_CBC_SHA256"%string);
  (0xC043, "TLS_DHE_DSS_WITH_ARIA_256_CBC_SHA384"%string);
  (0xC044, "TLS_DHE_RSA_WITH_ARIA_128_CBC_SHA256"%string);
  (0xC045, "TLS_DHE_RSA_WITH_ARIA_256_CBC_SHA384"%string);
  (0xC046, "TLS_DH_anon_WITH_ARIA_128_CBC_SHA256"%string);
  (0xC047, "TLS_DH_anon_WITH_ARIA_256_CBC_SHA384"%string);
  (0xC048, "TLS_ECDHE_ECDSA_WITH_ARIA_128_CBC_SHA256"%string);
  (0xC049, "TLS_ECDHE_ECDSA_WITH_ARIA_256_CBC_SHA384"%string);
  (0xC04A, "TLS_ECDH_ECDSA_WITH_ARIA_128_CBC_SHA256"%string);
  (0xC04B, "TLS_ECDH_ECDSA_WITH_ARIA_256_CBC_SHA384"%string);
  (0xC04C, "TLS_ECDHE_RSA_WITH_ARIA_128_CBC_SHA256"%string);
  (0xC04D, "TLS_ECDHE_RSA_WITH_ARIA_256_CBC_SHA384"%string);
  (0xC04E, "TLS_ECDH_RSA_WITH_ARIA_128_CBC_SHA256"%string);
  (0xC04F, "TLS_ECDH_RSA_WITH_ARIA_256_CBC_SHA384"%string)].

Definition ssl_ciphers_3 : list (Z * string) := [
  (0xC050, "TLS_RSA_WITH_ARIA_128_GCM_SHA256"%string);
  (0xC051, "TLS_RSA_WITH_ARIA_256_GCM_SHA384"%string);
  (0xC052, "TLS_DHE_RSA_WITH_ARIA_128_GCM_SHA256"%string);
  (0xC053, "TLS_DHE_RSA_WITH_ARIA_256_GCM_SHA384"%string);
  (0xC054, "TLS_DH_RSA_WITH_ARIA_128_GCM_SHA256"%string);
  (0xC055, "TLS_DH_RSA_WITH_ARIA_256_GCM_SHA384"%string);
  (0xC056, "TLS_DHE_DSS_WITH_ARIA_128_GCM_SHA256"%string);
  (0xC057, "TLS_DHE_DSS_WITH_ARIA_256_GCM_SHA384"%string);
  (0xC058, "TLS_DH_DSS_WITH_ARIA_128_GCM_SHA256"%string);
  (0xC059, "TLS_DH_DSS_WITH_ARIA_256_GCM_SHA384"%string);
  (0xC05A, "TLS_DH_anon_WITH_ARIA_128_GCM_SHA256"%string);
  (0xC05B, "TLS_DH_anon_WITH_ARIA_256_GCM_SHA384"%string);
  (0xC05C, "TLS_ECDHE_ECDSA_WITH_ARIA_128_GCM_SHA256"%string);
  (0xC05D, "TLS_ECDHE_ECDSA_WITH_ARIA_256_GCM_SHA384"%string);
  (0xC05E, "TLS_ECDH_ECDSA_WITH_ARIA_128_GCM_SHA256"%string);
  (0xC05F, "TLS_ECDH_ECDSA_WITH_ARIA_256_GCM_SHA384"%string);
  (0xC060, "TLS_ECDHE_RSA_WITH_ARIA_128_GCM_SHA256"%string);
  (0xC061, "TLS_ECDHE_RSA_WITH_ARIA_256_GCM_SHA384"%string);
  (0xC062, "TLS_ECDH_RSA_WITH_ARIA_128_GCM_SHA256"%string);
  (0xC063, "TLS_ECDH_RSA_WITH_ARIA_256_GCM_SHA384"%string);
  (0xC064, "TLS_PSK_WITH_ARIA_128_CBC_SHA256"%string);
  (0xC065, "TLS_PSK_WITH_ARIA_256_CBC_SHA384"%string);
  (0xC066, "TLS_DHE_PSK_WITH_ARIA_128_CBC_SHA256"%string);
  (0xC067, "TLS_DHE_PSK_WITH_ARIA_256_CBC_SHA384"%string);
  (0xC068, "TLS_RSA_PSK_WITH_ARIA_128_CBC_SHA256"%string);
  (0xC069, "TLS_RSA_PSK_WITH_ARIA_256_CBC_SHA384"%string);
  (0xC06A, "TLS_PSK_WITH_ARIA_128_GCM_SHA256"%string);
  (0xC06B, "TLS_PSK_WITH_ARIA_256_GCM_SHA384"%string);
  (0xC06C, "TLS_DHE_PSK_WITH_ARIA_128_GCM_SHA256"%string);
  (0xC06D, "TLS_DHE_PSK_WITH_ARIA_256_GCM_SHA384"%string);
  (0xC06E, "TLS_RSA_PSK_WITH_ARIA_128_GCM_SHA256"%string);
  (0xC06F, "TLS_RSA_PSK_WITH_ARIA_256_GCM_SHA384"%string);
  (0xC070, "TLS_ECDHE_PSK_WITH_ARIA_128_CBC_SHA256"%string);
  (0xC071, "TLS_ECDHE_PSK_WITH_ARIA_256_CBC_SHA384"%string);
  (0xC072, "TLS_ECDHE_ECDSA_WITH_CAMELLIA_128_CBC_SHA256"%string);
  (0xC073, "TLS_ECDHE_ECDSA_WITH_CAMELLIA_256_CBC_SHA384"%string);
  (0xC074, "TLS_ECDH_ECDSA_WITH_CAMELLIA_128_CBC_SHA256"%string);
  (0xC075, "TLS_ECDH_ECDSA_WITH_CAMELLIA_256_CBC_SHA384"%string);
  (0xC076, "TLS_ECDHE_RSA_WITH_CAMELLIA_128_CBC_SHA256"%string);
  (0xC077, "TLS_ECDHE_RSA_WITH_CAMELLIA_256_CBC_SHA384"%string);
  (0xC078, "TLS_ECDH_RSA_WITH_CAMELLIA_128_CBC_SHA256"%string);
  (0xC079, "TLS_ECDH_RSA_WITH_CAMELLIA_256_CBC_SHA384"%string);
  (0xC07A, "TLS_RSA_WITH_CAMELLIA_128_GCM_SHA256"%string);
  (0xC07B, "TLS_RSA_WITH_CAMELLIA_256_GCM_SHA384"%string);
  (0xC07C, "TLS_DHE_RSA_WITH_CAMELLIA_128_GCM_SHA256"%string);
  (0xC07D, "TLS_DHE_RSA_WITH_CAMELLIA_256_GCM_SHA384"%string);
  (0xC07E, "TLS_DH_RSA_WITH_CAMELLIA_128_GCM_SHA256"%string);
  (0xC07F, "TLS_DH_RSA_WITH_CAMELLIA_256_GCM_SHA384"%string);
  (0xC080, "TLS_DHE_DSS_WITH_CAMELLIA_128_GCM_SHA256"%string);
  (0xC081, "TLS_DHE_DSS_WITH_CAMELLIA_256_GCM_SHA384"%string);
  (0xC082, "TLS_DH_DSS_WITH_CAMELLIA_128_GCM_SHA256"%string);
  (0xC083, "TLS_DH_DSS_WITH_CAMELLIA_256_GCM_SHA384"%string);
  (0xC084, "TLS_DH_anon_WITH_CAMELLIA_128_GCM_SHA256"%string);
  (0xC085, "TLS_DH_anon_WITH_CAMELLIA_256_GCM_SHA384"%string);
  (0xC086, "TLS_ECDHE_ECDSA_WITH_CAMELLIA_128_GCM_SHA256"%string);
  (0xC087, "TLS_ECDHE_ECDSA_WITH_CAMELLIA_256_GCM_SHA384"%string);
  (0xC088, "TLS_ECDH_ECDSA_WITH_CAMELLIA_128_GCM_SHA256"%string);
  (0xC089, "TLS_ECDH_ECDSA_WITH_CAMELLIA_256_GCM_SHA384"%string);
  (0xC08A, "TLS_ECDHE_RSA_WITH_CAMELLIA_128_GCM_SHA256"%string);
  (0xC08B, "TLS_ECDHE_RSA_WITH_CAMELLIA_256_GCM_SHA384"%string);
  (0xC08C, "TLS_ECDH_RSA_WITH_CAMELLIA_128_GCM_SHA256"%string);
  (0xC08D, "TLS_ECDH_RSA_WITH_CAMELLIA_256_GCM_SHA384"%string);
  (0xC08E, "TLS_PSK_WITH_CAMELLIA_128_GCM_SHA256"%string);
  (0xC08F, "TLS_PSK_WITH_CAMELLIA_256_GCM_SHA384"%string);
  (0xC090, "TLS_DHE_PSK_WITH_CAMELLIA_128_GCM_SHA256"%string);
  (0xC091, "TLS_DHE_PSK_WITH_CAMELLIA_256_GCM_SHA384"%string);
  (0xC092, "TLS_RSA_PSK_WITH_CAMELLIA_128_GCM_SHA256"%string);
  (0xC093, "TLS_RSA_PSK_WITH_CAMELLIA_256_GCM_SHA384"%string);
  (0xC094, "TLS_PSK_WITH_CAMELLIA_128_CBC_SHA256"%string);
  (0xC095, "TLS_PSK_WITH_CAMELLIA_256_CBC_SHA384"%string);
  (0xC096, "TLS_DHE_PSK_WITH_CAMELLIA_128_CBC_SHA256"%string);
  (0xC097, "TLS_DHE_PSK_WITH_CAMELLIA_256_CBC_SHA384"%string);
  (0xC098, "TLS_RSA_PSK_WITH_CAMELLIA_128_CBC_SHA256"%string);
  (0xC099, "TLS_RSA_PSK_WITH_CAMELLIA_256_CBC_SHA384"%string);
  (0xC09A, "TLS_ECDHE_PSK_WITH_CAMELLIA_128_CBC_SHA256"%string);
  (0xC09B, "TLS_ECDHE_PSK_WITH_CAMELLIA_256_CBC_SHA384"%string);
  (0xC09C, "TLS_RSA_WITH_AES_128_CCM"%string);
  (0xC09D, "TLS_RSA_WITH_AES_256_CCM"%string);
  (0xC09E, "TLS_DHE_RSA_WITH_AES_128_CCM"%string);
  (0xC09F, "TLS_DHE_RSA_WITH_AES_256_CCM"%string);
  (0xC0A0, "TLS_RSA_WITH_AES_128_CCM_8"%string);
  (0xC0A1, "TLS_RSA_WITH_AES_256_CCM_8"%string);
  (0xC0A2, "TLS_DHE_RSA_WITH_AES_128_CCM_8"%string);
  (0xC0A3, "TLS_DHE_RSA_WITH_AES_256_CCM_8"%string);
  (0xC0A4, "TLS_PSK_WITH_AES_128_CCM"%string);
  (0xC0A5, "TLS_PSK_WITH_AES_256_CCM"%string);
  (0xC0A6, "TLS_DHE_PSK_WITH_AES_128_CCM"%string);
  (0xC0A7, "TLS_DHE_PSK_WITH_AES_256_CCM"%string);
  (0xC0A8, "TLS_PSK_WITH_AES_128_CCM_8"%string);
  (0xC0A9, "TLS_PSK_WITH_AES_256_CCM_8"%string);
  (0xC0AA, "TLS_PSK_DHE_WITH_AES_128_CCM_8"%string);
  (0xC0AB, "TLS_PSK_DHE_WITH_AES_256_CCM_8"%string);
  (0xC0AC, "TLS_ECDHE_ECDSA_WITH_AES_128_CCM"%string);
  (0xC0AD, "TLS_ECDHE_ECDSA_WITH_AES_256_CCM"%string);
  (0xC0AE, "TLS_ECDHE_ECDSA_WITH_AES_128_CCM_8"%string);
  (0xC0AF, "TLS_ECDHE_ECDSA_WITH_AES_256_CCM_8"%string);
  (0xCCA8, "TLS_ECDHE_RSA_WITH_CHACHA20_POLY1305_SHA256"%string);
  (0xCCA9, "TLS_ECDHE_ECDSA_WITH_CHACHA20_POLY1305_SHA256"%string);
  (0xCCAA, "TLS_DHE_RSA_WITH_CHACHA20_POLY1305_SHA256"%string);
  (0xCCAB, "TLS_PSK_WITH_CHACHA20_POLY1305_SHA256"%string);
  (0xCCAC, "TLS_ECDHE_PSK_WITH_CHACHA20_POLY1305_SHA256"%string);
  (0xCCAD, "TLS_DHE_PSK_WITH_CHACHA20_POLY1305_SHA256"%string);
  (0xCCAE, "TLS_RSA_PSK_WITH_CHACHA20_POLY1305_SHA256"%string);
  (0x1301, "TLS_AES_128_GCM_SHA256"%string);
  (0x1302, "TLS_AES_256_GCM_SHA384"%string);
  (0x1303, "TLS_CHACHA20_POLY1305_SHA256"%string);
  (0x1304, "TLS_AES_128_CCM_SHA256"%string);
  (0x1305, "TLS_AES_128_CCM_8_SHA256"%string);
  (0xFEFE, "SSL_RSA_FIPS_WITH_DES_CBC_SHA"%string);
  (0xFEFF, "SSL_RSA_FIPS_WITH_3DES_EDE_CBC_SHA"%string);
  (0xFF85, "GOST2012-GOST8912-GOST8912"%string);
  (0xFF87, "GOST2012-NULL-GOST12"%string)].

Definition ssl_cipher_list : list (Z * string) := ssl_ciphers_1 ++ ssl_ciphers_2 ++ ssl_ciphers_3.
Definition g_ssl_ciphers : gmap Z string := list_to_map ssl_cipher_list.

Definition openssl_ciphers_1 : list (string * string) := [
  ("SSL_DH_DSS_WITH_3DES_EDE_CBC_SHA"%string, "DH-DSS-DES-CBC3-SHA"%string);
  ("SSL_DH_RSA_WITH_3DES_EDE_CBC_SHA"%string, "DH-RSA-DES-CBC3-SHA"%string);
  ("SSL_DHE_DSS_WITH_3DES_EDE_CBC_SHA"%string, "DHE-DSS-DES-CBC3-SHA"%string);
  ("SSL_DHE_RSA_WITH_3DES_EDE_CBC_SHA"%string, "DHE-RSA-DES-CBC3-SHA"%string);
  ("SSL_DH_anon_WITH_RC4_128_MD5"%string, "ADH-RC4-MD5"%string);
  ("SSL_DH_anon_WITH_3DES_EDE_CBC_SHA"%string, "ADH-DES-CBC3-SHA"%string);
  ("TLS_RSA_WITH_NULL_MD5"%string, "NULL-MD5"%string);
  ("TLS_RSA_WITH_NULL_SHA"%string, "NULL-SHA"%string);
  ("TLS_RSA_WITH_RC4_128_MD5"%string, "RC4-MD5"%string);
  ("TLS_RSA_WITH_RC4_128_SHA"%string, "RC4-SHA"%string);
  ("TLS_RSA_WITH_IDEA_CBC_SHA"%string, "IDEA-CBC-SHA"%string);
  ("TLS_RSA_WITH_DES_CBC_SHA"%string, "DES-CBC-SHA"%string);
  ("TLS_RSA_WITH_3DES_EDE_CBC_SHA"%string, "DES-CBC3-SHA"%string);
  ("TLS_DH_DSS_WITH_DES_CBC_SHA"%string, "DH-DSS-DES-CBC-SHA"%string);
  ("TLS_DH_RSA_WITH_DES_CBC_SHA"%string, "DH-RSA-DES-CBC-SHA"%string);
  ("TLS_DH_DSS_WITH_3DES_EDE_CBC_SHA"%string, "DH-DSS-DES-CBC3-SHA"%string);
  ("TLS_DH_RSA_WITH_3DES_EDE_CBC_SHA"%string, "DH-RSA-DES-CBC3-SHA"%string);
  ("TLS_DHE_DSS_WITH_DES_CBC_SHA"%string, "EDH-DSS-DES-CBC-SHA"%string);
  ("TLS_DHE_RSA_WITH_DES_CBC_SHA"%string, "EDH-RSA-DES-CBC-SHA"%string);
  ("TLS_DHE_DSS_WITH_3DES_EDE_CBC_SHA"%string, "DHE-DSS-DES-CBC3-SHA"%string);
  ("TLS_DHE_RSA_WITH_3DES_EDE_CBC_SHA"%string, "DHE-RSA-DES-CBC3-SHA"%string);
  ("TLS_DH_anon_WITH_RC4_128_MD5"%string, "ADH-RC4-MD5"%string);
  ("TLS_DH_anon_WITH_DES_CBC_SHA"%string, "ADH-DES-CBC-SHA"%string);
  ("TLS_DH_anon_WITH_3DES_EDE_CBC_SHA"%string, "ADH-DES-CBC3-SHA"%string);
  ("TLS_RSA_WITH_AES_128_CBC_SHA"%string, "AES128-SHA"%string);
  ("TLS_RSA_WITH_AES_256_CBC_SHA"%string, "AES256-SHA"%string);
  ("TLS_DH_DSS_WITH_AES_128_CBC_SHA"%string, "DH-DSS-AES128-SHA"%string);
  ("TLS_DH_DSS_WITH_AES_256_CBC_SHA"%string, "DH-DSS-AES256-SHA"%string);
  ("TLS_DH_RSA_WITH_AES_128_CBC_SHA"%string, "DH-RSA-AES128-SHA"%string);
  ("TLS_DH_RSA_WITH_AES_256_CBC_SHA"%string, "DH-RSA-AES256-SHA"%string);
  ("TLS_DHE_DSS_WITH_AES_128_CBC_SHA"%string, "DHE-DSS-AES128-SHA"%string);
  ("TLS_DHE_DSS_WITH_AES_256_CBC_SHA"%string, "DHE-DSS-AES256-SHA"%string);
  ("TLS_DHE_RSA_WITH_AES_128_CBC_SHA"%string, "DHE-RSA-AES128-SHA"%string);
  ("TLS_DHE_RSA_WITH_AES_256_CBC_SHA"%string, "DHE-RSA-AES256-SHA"%string);
  ("TLS_DH_anon_WITH_AES_128_CBC_SHA"%string, "ADH-AES128-SHA"%string);
  ("TLS_DH_anon_WITH_AES_256_CBC_SHA"%string, "ADH-AES256-SHA"%string);
  ("TLS_RSA_WITH_CAMELLIA_128_CBC_SHA"%string, "CAMELLIA128-SHA"%string);
  ("TLS_RSA_WITH_CAMELLIA_256_CBC_SHA"%string, "CAMELLIA256-SHA"%string);
  ("TLS_DH_DSS_WITH_CAMELLIA_128_CBC_SHA"%string, "DH-DSS-CAMELLIA128-SHA"%string);
  ("TLS_DH_DSS_WITH_CAMELLIA_256_CBC_SHA"%string, "DH-DSS-CAMELLIA256-SHA"%string);
  ("TLS_DH_RSA_WITH_CAMELLIA_128_CBC_SHA"%string, "DH-RSA-CAMELLIA128-SHA"%string);
  ("TLS_DH_RSA_WITH_CAMELLIA_256_CBC_SHA"%string, "DH-RSA-CAMELLIA256-SHA"%string);
  ("TLS_DHE_DSS_WITH_CAMELLIA_128_CBC_SHA"%string, "DHE-DSS-CAMELLIA128-SHA"%string);
  ("TLS_DHE_DSS_WITH_CAMELLIA_256_CBC_SHA"%string, "DHE-DSS-CAMELLIA256-SHA"%string);
  ("TLS_DHE_RSA_WITH_CAMELLIA_128_CBC_SHA"%string, "DHE-RSA-CAMELLIA128-SHA"%string);
  ("TLS_DHE_RSA_WITH_CAMELLIA_256_CBC_SHA"%string, "DHE-RSA-CAMELLIA256-SHA"%string);
  ("TLS_DH_anon_WITH_CAMELLIA_128_CBC_SHA"%string, "ADH-CAMELLIA128-SHA"%string);
  ("TLS_DH_anon_WITH_CAMELLIA_256_CBC_SHA"%string, "ADH-CAMELLIA256-SHA"%string);
  ("TLS_RSA_WITH_SEED_CBC_SHA"%string, "SEED-SHA"%string);
  ("TLS_DH_DSS_WITH_SEED_CBC_SHA"%string, "DH-DSS-SEED-SHA"%string);
  ("TLS_DH_RSA_WITH_SEED_CBC_SHA"%string, "DH-RSA-SEED-SHA"%string);
  ("TLS_DHE_DSS_WITH_SEED_CBC_SHA"%string, "DHE-DSS-SEED-SHA"%string);
  ("TLS_DHE_RSA_WITH_SEED_CBC_SHA"%string, "DHE-RSA-SEED-SHA"%string);
  ("TLS_DH_anon_WITH_SEED_CBC_SHA"%string, "ADH-SEED-SHA"%string);
  ("TLS_GOSTR341094_WITH_28147_CNT_IMIT"%string, "GOST94-GOST89-GOST89"%string);
  ("TLS_GOSTR341001_WITH_28147_CNT_IMIT"%string, "GOST2001-GOST89-GOST89"%string);
  ("TLS_GOSTR341094_WITH_NULL_GOSTR3411"%string, "GOST94-NULL-GOST94"%string);
  ("TLS_GOSTR341001_WITH_NULL_GOSTR3411"%string, "GOST2001-NULL-GOST94"%string);
  ("TLS_DHE_DSS_WITH_RC4_128_SHA"%string, "DHE-DSS-RC4-SHA"%string);
  ("TLS_ECDH_RSA_WITH_NULL_SHA"%string, "ECDH-RSA-NULL-SHA"%string);
  ("TLS_ECDH_RSA_WITH_RC4_128_SHA"%string, "ECDH-RSA-RC4-SHA"%string);
  ("TLS_ECDH_RSA_WITH_3DES_EDE_CBC_SHA"%string, "ECDH-RSA-DES-CBC3-SHA"%string);
  ("TLS_ECDH_RSA_WITH_AES_128_CBC_SHA"%string, "ECDH-RSA-AES128-SHA"%string);
  ("TLS_ECDH_RSA_WITH_AES_256_CBC_SHA"%string, "ECDH-RSA-AES256-SHA"%string);
  ("TLS_ECDH_ECDSA_WITH_NULL_SHA"%string, "ECDH-ECDSA-NULL-SHA"%string);
  ("TLS_ECDH_ECDSA_WITH_RC4_128_SHA"%string, "ECDH-ECDSA-RC4-SHA"%string);
  ("TLS_ECDH_ECDSA_WITH_3DES_EDE_CBC_SHA"%string, "ECDH-ECDSA-DES-CBC3-SHA"%string);
  ("TLS_ECDH_ECDSA_WITH_AES_128_CBC_SHA"%string, "ECDH-ECDSA-AES128-SHA"%string);
  ("TLS_ECDH_ECDSA_WITH_AES_256_CBC_SHA"%string, "ECDH-ECDSA-AES256-SHA"%string);
  ("TLS_ECDHE_RSA_WITH_NULL_SHA"%string, "ECDHE-RSA-NULL-SHA"%string);
  ("TLS_ECDHE_RSA_WITH_RC4_128_SHA"%string, "ECDHE-RSA-RC4-SHA"%string);
  ("TLS_ECDHE_RSA_WITH_3DES_EDE_CBC_SHA"%string, "ECDHE-RSA-DES-CBC3-SHA"%string);
  ("TLS_ECDHE_RSA_WITH_AES_128_CBC_SHA"%string, "ECDHE-RSA-AES128-SHA"%string);
  ("TLS_ECDHE_RSA_WITH_AES_256_CBC_SHA"%string, "ECDHE-RSA-AES256-SHA"%string);
  ("TLS_ECDHE_ECDSA_WITH_NULL_SHA"%string, "ECDHE-ECDSA-NULL-SHA"%string);
  ("TLS_ECDHE_ECDSA_WITH_RC4_128_SHA"%string, "ECDHE-ECDSA-RC4-SHA"%string);
  ("TLS_ECDHE_ECDSA_WITH_3DES_EDE_CBC_SHA"%string, "ECDHE-ECDSA-DES-CBC3-SHA"%string);
  ("TLS_ECDHE_ECDSA_WITH_AES_128_CBC_SHA"%string, "ECDHE-ECDSA-AES128-SHA"%string);
  ("TLS_ECDHE_ECDSA_WITH_AES_256_CBC_SHA"%string, "ECDHE-ECDSA-AES256-SHA"%string);
  ("TLS_ECDH_anon_WITH_NULL_SHA"%string, "AECDH-NULL-SHA"%string);
  ("TLS_ECDH_anon_WITH_RC4_128_SHA"%string, "AECDH-RC4-SHA"%string);
  ("TLS_ECDH_anon_WITH_3DES_EDE_CBC_SHA"%string, "AECDH-DES-CBC3-SHA"%string);
  ("TLS_ECDH_anon_WITH_AES_128_CBC_SHA"%string, "AECDH-AES128-SHA"%string);
  ("TLS_ECDH_anon_WITH_AES_256_CBC_SHA"%string, "AECDH-AES256-SHA"%string);
  ("TLS_RSA_WITH_NULL_SHA256"%string, "NULL-SHA256"%string);
  ("TLS_RSA_WITH_AES_128_CBC_SHA256"%string, "AES128-SHA256"%string);
  ("TLS_RSA_WITH_AES_256_CBC_SHA256"%string, "AES256-SHA256"%string);
  ("TLS_RSA_WITH_AES_128_GCM_SHA256"%string, "AES128-GCM-SHA256"%string);
  ("TLS_RSA_WITH_AES_256_GCM_SHA384"%string, "AES256-GCM-SHA384"%string);
  ("TLS_DH_RSA_WITH_AES_128_CBC_SHA256"%string, "DH-RSA-AES128-SHA256"%string);
  ("TLS_DH_RSA_WITH_AES_256_CBC_SHA256"%string, "DH-RSA-AES256-SHA256"%string);
  ("TLS_DH_RSA_WITH_AES_128_GCM_SHA256"%string, "DH-RSA-AES128-GCM-SHA256"%string);
  ("TLS_DH_RSA_WITH_AES_256_GCM_SHA384"%string, "DH-RSA-AES256-GCM-SHA384"%string);
  ("TLS_DH_DSS_WITH_AES_128_CBC_SHA256"%string, "DH-DSS-AES128-SHA256"%string);
  ("TLS_DH_DSS_WITH_AES_256_CBC_SHA256"%string, "DH-DSS-AES256-SHA256"%string);
  ("TLS_DH_DSS_WITH_AES_128_GCM_SHA256"%string, "DH-DSS-AES128-GCM-SHA256"%string);
  ("TLS_DH_DSS_WITH_AES_256_GCM_SHA384"%string, "DH-DSS-AES256-GCM-SHA384"%string);
  ("TLS_DHE_RSA_WITH_AES_128_CBC_SHA256"%string, "DHE-RSA-AES128-SHA256"%string);
  ("TLS_DHE_RSA_WITH_AES_256_CBC_SHA256"%string, "DHE-RSA-AES256-SHA256"%string);
  ("TLS_DHE_RSA_WITH_AES_128_GCM_SHA256"%string, "DHE-RSA-AES128-GCM-SHA256"%string);
  ("TLS_DHE_RSA_WITH_AES_256_GCM_SHA384"%string, "DHE-RSA-AES256-GCM-SHA384"%string);
  ("TLS_DHE_DSS_WITH_AES_128_CBC_SHA256"%string, "DHE-DSS-AES128-SHA256"%string);
  ("TLS_DHE_DSS_WITH_AES_256_CBC_SHA256"%string, "DHE-DSS-AES256-SHA256"%string);
  ("TLS_DHE_DSS_WITH_AES_128_GCM_SHA256"%string, "DHE-DSS-AES128-GCM-SHA256"%string);
  ("TLS_DHE_DSS_WITH_AES_256_GCM_SHA384"%string, "DHE-DSS-AES256-GCM-SHA384"%string);
  ("TLS_ECDH_RSA_WITH_AES_128_CBC_SHA256"%string, "ECDH-RSA-AES128-SHA256"%string);
  ("TLS_ECDH_RSA_WITH_AES_256_CBC_SHA384"%string, "ECDH-RSA-AES256-SHA384"%string);
  ("TLS_ECDH_RSA_WITH_AES_128_GCM_SHA256"%string, "ECDH-RSA-AES128-GCM-SHA256"%string);
  ("TLS_ECDH_RSA_WITH_AES_256_GCM_SHA384"%string, "ECDH-RSA-AES256-GCM-SHA384"%string);
  ("TLS_ECDH_ECDSA_WITH_AES_128_CBC_SHA256"%string, "ECDH-ECDSA-AES128-SHA256"%string);
  ("TLS_ECDH_ECDSA_WITH_AES_256_CBC_SHA384"%string, "ECDH-ECDSA-AES256-SHA384"%string);
  ("TLS_ECDH_ECDSA_WITH_AES_128_GCM_SHA256"%string, "ECDH-ECDSA-AES128-GCM-SHA256"%string);
  ("TLS_ECDH_ECDSA_WITH_AES_256_GCM_SHA384"%string, "ECDH-ECDSA-AES256-GCM-SHA384"%string);
  ("TLS_ECDHE_RSA_WITH_AES_128_CBC_SHA256"%string, "ECDHE-RSA-AES128-SHA256"%string);
  ("TLS_ECDHE_RSA_WITH_AES_256_CBC_SHA384"%string, "ECDHE-RSA-AES256-SHA384"%string);
  ("TLS_ECDHE_RSA_WITH_AES_128_GCM_SHA256"%string, "ECDHE-RSA-AES128-GCM-SHA256"%string);
  ("TLS_ECDHE_RSA_WITH_AES_256_GCM_SHA384"%string, "ECDHE-RSA-AES256-GCM-SHA384"%string);
  ("TLS_ECDHE_ECDSA_WITH_AES_128_CBC_SHA256"%string, "ECDHE-ECDSA-AES128-SHA256"%string);
  ("TLS_ECDHE_ECDSA_WITH_AES_256_CBC_SHA384"%string, "ECDHE-ECDSA-AES256-SHA384"%string);
  ("TLS_ECDHE_ECDSA_WITH_AES_128_GCM_SHA256"%string, "ECDHE-ECDSA-AES128-GCM-SHA256"%string);
  ("TLS_ECDHE_ECDSA_WITH_AES_256_GCM_SHA384"%string, "ECDHE-ECDSA-AES256-GCM-SHA384"%string)].

Definition openssl_ciphers_2 : list (string * string) := [
  ("TLS_DH_anon_WITH_AES_128_CBC_SHA256"%string, "ADH-AES128-SHA256"%string);
  ("TLS_DH_anon_WITH_AES_256_CBC_SHA256"%string, "ADH-AES256-SHA256"%string);
  ("TLS_DH_anon_WITH_AES_128_GCM_SHA256"%string, "ADH-AES128-GCM-SHA256"%string);
  ("TLS_DH_anon_WITH_AES_256_GCM_SHA384"%string, "ADH-AES256-GCM-SHA384"%string);
  ("TLS_RSA_WITH_AES_128_CCM"%string, "AES128-CCM"%string);
  ("TLS_RSA_WITH_AES_256_CCM"%string, "AES256-CCM"%string);
  ("TLS_DHE_RSA_WITH_AES_128_CCM"%string, "DHE-RSA-AES128-CCM"%string);
  ("TLS_DHE_RSA_WITH_AES_256_CCM"%string, "DHE-RSA-AES256-CCM"%string);
  ("TLS_RSA_WITH_AES_128_CCM_8"%string, "AES128-CCM8"%string);
  ("TLS_RSA_WITH_AES_256_CCM_8"%string, "AES256-CCM8"%string);
  ("TLS_DHE_RSA_WITH_AES_128_CCM_8"%string, "DHE-RSA-AES128-CCM8"%string);
  ("TLS_DHE_RSA_WITH_AES_256_CCM_8"%string, "DHE-RSA-AES256-CCM8"%string);
  ("TLS_ECDHE_ECDSA_WITH_AES_128_CCM"%string, "ECDHE-ECDSA-AES128-CCM"%string);
  ("TLS_ECDHE_ECDSA_WITH_AES_256_CCM"%string, "ECDHE-ECDSA-AES256-CCM"%string);
  ("TLS_ECDHE_ECDSA_WITH_AES_128_CCM_8"%string, "ECDHE-ECDSA-AES128-CCM8"%string);
  ("TLS_ECDHE_ECDSA_WITH_AES_256_CCM_8"%string, "ECDHE-ECDSA-AES256-CCM8"%string);
  ("TLS_ECDHE_ECDSA_WITH_CAMELLIA_128_CBC_SHA256"%string, "ECDHE-ECDSA-CAMELLIA128-SHA256"%string);
  ("TLS_ECDHE_ECDSA_WITH_CAMELLIA_256_CBC_SHA384"%string, "ECDHE-ECDSA-CAMELLIA256-SHA384"%string);
  ("TLS_ECDH_ECDSA_WITH_CAMELLIA_128_CBC_SHA256"%string, "ECDH-ECDSA-CAMELLIA128-SHA256"%string);
  ("TLS_ECDH_ECDSA_WITH_CAMELLIA_256_CBC_SHA384"%string, "ECDH-ECDSA-CAMELLIA256-SHA384"%string);
  ("TLS_ECDHE_RSA_WITH_CAMELLIA_128_CBC_SHA256"%string, "ECDHE-RSA-CAMELLIA128-SHA256"%string);
  ("TLS_ECDHE_RSA_WITH_CAMELLIA_256_CBC_SHA384"%string, "ECDHE-RSA-CAMELLIA256-SHA384"%string);
  ("TLS_ECDH_RSA_WITH_CAMELLIA_128_CBC_SHA256"%string, "ECDH-RSA-CAMELLIA128-SHA256"%string);
  ("TLS_ECDH_RSA_WITH_CAMELLIA_256_CBC_SHA384"%string, "ECDH-RSA-CAMELLIA256-SHA384"%string);
  ("TLS_PSK_WITH_NULL_SHA"%string, "PSK-NULL-SHA"%string);
  ("TLS_DHE_PSK_WITH_NULL_SHA"%string, "DHE-PSK-NULL-SHA"%string);
  ("TLS_RSA_PSK_WITH_NULL_SHA"%string, "RSA-PSK-NULL-SHA"%string);
  ("TLS_PSK_WITH_RC4_128_SHA"%string, "PSK-RC4-SHA"%string);
  ("TLS_PSK_WITH_3DES_EDE_CBC_SHA"%string, "PSK-3DES-EDE-CBC-SHA"%string);
  ("TLS_PSK_WITH_AES_128_CBC_SHA"%string, "PSK-AES128-CBC-SHA"%string);
  ("TLS_PSK_WITH_AES_256_CBC_SHA"%string, "PSK-AES256-CBC-SHA"%string);
  ("TLS_DHE_PSK_WITH_RC4_128_SHA"%string, "DHE-PSK-RC4-SHA"%string);
  ("TLS_DHE_PSK_WITH_3DES_EDE_CBC_SHA"%string, "DHE-PSK-3DES-EDE-CBC-SHA"%string);
  ("TLS_DHE_PSK_WITH_AES_128_CBC_SHA"%string, "DHE-PSK-AES128-CBC-SHA"%string);
  ("TLS_DHE_PSK_WITH_AES_256_CBC_SHA"%string, "DHE-PSK-AES256-CBC-SHA"%string);
  ("TLS_RSA_PSK_WITH_RC4_128_SHA"%string, "RSA-PSK-RC4-SHA"%string);
  ("TLS_RSA_PSK_WITH_3DES_EDE_CBC_SHA"%string, "RSA-PSK-3DES-EDE-CBC-SHA"%string);
  ("TLS_RSA_PSK_WITH_AES_128_CBC_SHA"%string, "RSA-PSK-AES128-CBC-SHA"%string);
  ("TLS_RSA_PSK_WITH_AES_256_CBC_SHA"%string, "RSA-PSK-AES256-CBC-SHA"%string);
  ("TLS_PSK_WITH_AES_128_GCM_SHA256"%string, "PSK-AES128-GCM-SHA256"%string);
  ("TLS_PSK_WITH_AES_256_GCM_SHA384"%string, "PSK-AES256-GCM-SHA384"%string);
  ("TLS_DHE_PSK_WITH_AES_128_GCM_SHA256"%string, "DHE-PSK-AES128-GCM-SHA256"%string);
  ("TLS_DHE_PSK_WITH_AES_256_GCM_SHA384"%string, "DHE-PSK-AES256-GCM-SHA384"%string);
  ("TLS_RSA_PSK_WITH_AES_128_GCM_SHA256"%string, "RSA-PSK-AES128-GCM-SHA256"%string);
  ("TLS_RSA_PSK_WITH_AES_256_GCM_SHA384"%string, "RSA-PSK-AES256-GCM-SHA384"%string);
  ("TLS_PSK_WITH_AES_128_CBC_SHA256"%string, "PSK-AES128-CBC-SHA256"%string);
  ("TLS_PSK_WITH_AES_256_CBC_SHA384"%string, "PSK-AES256-CBC-SHA384"%string);
  ("TLS_PSK_WITH_NULL_SHA256"%string, "PSK-NULL-SHA256"%string);
  ("TLS_PSK_WITH_NULL_SHA384"%string, "PSK-NULL-SHA384"%string);
  ("TLS_DHE_PSK_WITH_AES_128_CBC_SHA256"%string, "DHE-PSK-AES128-CBC-SHA256"%string);
  ("TLS_DHE_PSK_WITH_AES_256_CBC_SHA384"%string, "DHE-PSK-AES256-CBC-SHA384"%string);
  ("TLS_DHE_PSK_WITH_NULL_SHA256"%string, "DHE-PSK-NULL-SHA256"%string);
  ("TLS_DHE_PSK_WITH_NULL_SHA384"%string, "DHE-PSK-NULL-SHA384"%string);
  ("TLS_RSA_PSK_WITH_AES_128_CBC_SHA256"%string, "RSA-PSK-AES128-CBC-SHA256"%string);
  ("TLS_RSA_PSK_WITH_AES_256_CBC_SHA384"%string, "RSA-PSK-AES256-CBC-SHA384"%string);
  ("TLS_RSA_PSK_WITH_NULL_SHA256"%string, "RSA-PSK-NULL-SHA256"%string);
  ("TLS_RSA_PSK_WITH_NULL_SHA384"%string, "RSA-PSK-NULL-SHA384"%string);
  ("TLS_ECDHE_PSK_WITH_RC4_128_SHA"%string, "ECDHE-PSK-RC4-SHA"%string);
  ("TLS_ECDHE_PSK_WITH_3DES_EDE_CBC_SHA"%string, "ECDHE-PSK-3DES-EDE-CBC-SHA"%string);
  ("TLS_ECDHE_PSK_WITH_AES_128_CBC_SHA"%string, "ECDHE-PSK-AES128-CBC-SHA"%string);
  ("TLS_ECDHE_PSK_WITH_AES_256_CBC_SHA"%string, "ECDHE-PSK-AES256-CBC-SHA"%string);
  ("TLS_ECDHE_PSK_WITH_AES_128_CBC_SHA256"%string, "ECDHE-PSK-AES128-CBC-SHA256"%string);
  ("TLS_ECDHE_PSK_WITH_AES_256_CBC_SHA384"%string, "ECDHE-PSK-AES256-CBC-SHA384"%string);
  ("TLS_ECDHE_PSK_WITH_NULL_SHA"%string, "ECDHE-PSK-NULL-SHA"%string);
  ("TLS_ECDHE_PSK_WITH_NULL_SHA256"%string, "ECDHE-PSK-NULL-SHA256"%string);
  ("TLS_ECDHE_PSK_WITH_NULL_SHA384"%string, "ECDHE-PSK-NULL-SHA384"%string);
  ("TLS_PSK_WITH_CAMELLIA_128_CBC_SHA256"%string, "PSK-CAMELLIA128-SHA256"%string);
  ("TLS_PSK_WITH_CAMELLIA_256_CBC_SHA384"%string, "PSK-CAMELLIA256-SHA384"%string);
  ("TLS_DHE_PSK_WITH_CAMELLIA_128_CBC_SHA256"%string, "DHE-PSK-CAMELLIA128-SHA256"%string);
  ("TLS_DHE_PSK_WITH_CAMELLIA_256_CBC_SHA384"%string, "DHE-PSK-CAMELLIA256-SHA384"%string);
  ("TLS_RSA_PSK_WITH_CAMELLIA_128_CBC_SHA256"%string, "RSA-PSK-CAMELLIA128-SHA256"%string);
  ("TLS_RSA_PSK_WITH_CAMELLIA_256_CBC_SHA384"%string, "RSA-PSK-CAMELLIA256-SHA384"%string);
  ("TLS_ECDHE_PSK_WITH_CAMELLIA_128_CBC_SHA256"%string, "ECDHE-PSK-CAMELLIA128-SHA256"%string);
  ("TLS_ECDHE_PSK_WITH_CAMELLIA_256_CBC_SHA384"%string, "ECDHE-PSK-CAMELLIA256-SHA384"%string);
  ("TLS_PSK_WITH_AES_128_CCM"%string, "PSK-AES128-CCM"%string);
  ("TLS_PSK_WITH_AES_256_CCM"%string, "PSK-AES256-CCM"%string);
  ("TLS_DHE_PSK_WITH_AES_128_CCM"%string, "DHE-PSK-AES128-CCM"%string);
  ("TLS_DHE_PSK_WITH_AES_256_CCM"%string, "DHE-PSK-AES256-CCM"%string);
  ("TLS_PSK_WITH_AES_128_CCM_8"%string, "PSK-AES128-CCM8"%string);
  ("TLS_PSK_WITH_AES_256_CCM_8"%string, "PSK-AES256-CCM8"%string);
  ("TLS_DHE_PSK_WITH_AES_128_CCM_8"%string, "DHE-PSK-AES128-CCM8"%string);
  ("TLS_DHE_PSK_WITH_AES_256_CCM_8"%string, "DHE-PSK-AES256-CCM8"%string);
  ("TLS_RSA_EXPORT_WITH_RC4_40_MD5"%string, "EXP-RC4-MD5"%string);
  ("TLS_RSA_EXPORT_WITH_RC2_CBC_40_MD5"%string, "EXP-RC2-CBC-MD5"%string);
  ("TLS_RSA_EXPORT_WITH_DES40_CBC_SHA"%string, "EXP-DES-CBC-SHA"%string);
  ("TLS_DH_anon_EXPORT_WITH_DES40_CBC_SHA"%string, "EXP-ADH-DES-CBC-SHA"%string);
  ("TLS_DH_anon_EXPORT_WITH_RC4_40_MD5"%string, "EXP-ADH-RC4-MD5"%string);
  ("TLS_DHE_RSA_EXPORT_WITH_DES40_CBC_SHA"%string, "EXP-EDH-RSA-DES-CBC-SHA"%string);
  ("TLS_DHE_DSS_EXPORT_WITH_DES40_CBC_SHA"%string, "EXP-EDH-DSS-DES-CBC-SHA"%string);
  ("TLS_DH_DSS_EXPORT_WITH_DES40_CBC_SHA"%string, "EXP-DH-DSS-DES-CBC-SHA"%string);
  ("TLS_DH_RSA_EXPORT_WITH_DES40_CBC_SHA"%string, "EXP-DH-RSA-DES-CBC-SHA"%string);
  ("TLS_KRB5_WITH_DES_CBC_SHA"%string, "KRB5-DES-CBC-SHA"%string);
  ("TLS_KRB5_WITH_3DES_EDE_CBC_SHA"%string, "KRB5-DES-CBC3-SHA"%string);
  ("TLS_KRB5_WITH_RC4_128_SHA"%string, "KRB5-RC4-SHA"%string);
  ("TLS_KRB5_WITH_IDEA_CBC_SHA"%string, "KRB5-IDEA-CBC-SHA"%string);
  ("TLS_KRB5_WITH_DES_CBC_MD5"%string, "KRB5-DES-CBC-MD5"%string);
  ("TLS_KRB5_WITH_3DES_EDE_CBC_MD5"%string, "KRB5-DES-CBC3-MD5"%string);
  ("TLS_KRB5_WITH_RC4_128_MD5"%string, "KRB5-RC4-MD5"%string);
  ("TLS_KRB5_WITH_IDEA_CBC_MD5"%string, "KRB5-IDEA-CBC-MD5"%string);
  ("TLS_KRB5_EXPORT_WITH_DES_CBC_40_SHA"%string, "EXP-KRB5-DES-CBC-SHA"%string);
  ("TLS_KRB5_EXPORT_WITH_RC2_CBC_40_SHA"%string, "EXP-KRB5-RC2-CBC-SHA"%string);
  ("TLS_KRB5_EXPORT_WITH_RC4_40_SHA"%string, "EXP-KRB5-RC4-SHA"%string);
  ("TLS_KRB5_EXPORT_WITH_DES_CBC_40_MD5"%string, "EXP-KRB5-DES-CBC-MD5"%string);
  ("TLS_KRB5_EXPORT_WITH_RC2_CBC_40_MD5"%string, "EXP-KRB5-RC2-CBC-MD5"%string);
  ("TLS_KRB5_EXPORT_WITH_RC4_40_MD5"%string, "EXP-KRB5-RC4-MD5"%string);
  ("TLS_SRP_SHA_WITH_3DES_EDE_CBC_SHA"%string, "SRP-3DES-EDE-CBC-SHA"%string);
  ("TLS_SRP_SHA_RSA_WITH_3DES_EDE_CBC_SHA"%string, "SRP-RSA-3DES-EDE-CBC-SHA"%string);
  ("TLS_SRP_SHA_DSS_WITH_3DES_EDE_CBC_SHA"%string, "SRP-DSS-3DES-EDE-CBC-SHA"%string);
  ("TLS_SRP_SHA_WITH_AES_128_CBC_SHA"%string, "SRP-AES-128-CBC-SHA"%string);
  ("TLS_SRP_SHA_RSA_WITH_AES_128_CBC_SHA"%string, "SRP-RSA-AES-128-CBC-SHA"%string);
  ("TLS_SRP_SHA_DSS_WITH_AES_128_CBC_SHA"%string, "SRP-DSS-AES-128-CBC-SHA"%string);
  ("TLS_SRP_SHA_WITH_AES_256_CBC_SHA"%string, "SRP-AES-256-CBC-SHA"%string);
  ("TLS_SRP_SHA_RSA_WITH_AES_256_CBC_SHA"%string, "SRP-RSA-AES-256-CBC-SHA"%string);
  ("TLS_SRP_SHA_DSS_WITH_AES_256_CBC_SHA"%string, "SRP-DSS-AES-256-CBC-SHA"%string);
  ("TLS_ECDHE_RSA_WITH_CHACHA20_POLY1305_SHA256"%string, "ECDHE-RSA-CHACHA20-POLY1305"%string);
  ("TLS_ECDHE_ECDSA_WITH_CHACHA20_POLY1305_SHA256"%string, "ECDHE-ECDSA-CHACHA20-POLY1305"%string);
  ("TLS_DHE_RSA_WITH_CHACHA20_POLY1305_SHA256"%string, "DHE-RSA-CHACHA20-POLY1305"%string);
  ("TLS_PSK_WITH_CHACHA20_POLY1305_SHA256"%string, "PSK-CHACHA20-POLY1305"%string);
  ("TLS_ECDHE_PSK_WITH_CHACHA20_POLY1305_SHA256"%string, "ECDHE-PSK-CHACHA20-POLY1305"%string);
  ("TLS_DHE_PSK_WITH_CHACHA20_POLY1305_SHA256"%string, "DHE-PSK-CHACHA20-POLY1305"%string);
  ("TLS_RSA_PSK_WITH_CHACHA20_POLY1305_SHA256"%string, "RSA-PSK-CHACHA20-POLY1305"%string)].

Definition openssl_cipher_list : list (string * string) := openssl_ciphers_1 ++ openssl_ciphers_2.
Definition g_standard_openssl_ciphers_map : gmap string string := list_to_map openssl_cipher_list.

(** The value of a key is the one of the first entry of that key. *)
Lemma first_entry {A B} `{Countable A} (l : list (A * B)) k :
  (list_to_map l : gmap A B) !! k = snd <$> find (fun e => bool_decide (e.1 = k)) l.
Proof.
  induction l as [|[a b] l IH]; cbn; [by rewrite lookup_empty|]. case_bool_decide as Ha.
  - subst. by rewrite lookup_insert_eq.
  - by rewrite lookup_insert_ne.
Qed.

(** No key appears twice, so no entry is lost. *)
Lemma ssl_keys : NoDup (fst <$> ssl_cipher_list).
Proof. apply (bool_decide_eq_true_1 _). by vm_compute. Qed.
Lemma openssl_keys : NoDup (fst <$> openssl_cipher_list).
Proof. apply (bool_decide_eq_true_1 _). by vm_compute. Qed.
