(* ===== verification/Tls.v ===== *)
(** * net/ssl/LibSSL.h, SSLHandler.h, SSLHelper.h: the code around OpenSSL

    OpenSSL is a class of calls on its own state; objects it allocates have numbers, so that
    what is freed, leaked or freed twice can be stated. Code that hands OpenSSL a null object
    it dereferences, or that leaves an array, is [None]. *)
From Stdlib Require Import Ascii.
From stdpp Require Import strings.
From S2P Require Import Prelude Ciphers.
Local Open Scope Z_scope.

(** ** Names of ciphers *)
Definition GetCipherByHexCode (hexcode : Z) : option string :=
  std_name ← g_ssl_ciphers !! hexcode;
  g_standard_openssl_ciphers_map !! std_name.

Definition append_cipher (cipher_strs s : string) : string :=
  match cipher_strs with
  | EmptyString => s
  | _ => (cipher_strs +:+ ":" +:+ s)%string
  end.

(** The strings that [setCipherListInteger] and [setCipherListString] hand to OpenSSL. *)
Definition cipher_list_of_codes (ciphers : list Z) : string :=
  fold_left (fun acc c => match GetCipherByHexCode c with Some s => append_cipher acc s | None => acc end)
    ciphers EmptyString.
Definition cipher_list_of_names (ciphers : list string) : string :=
  fold_left append_cipher ciphers EmptyString.

(** ** Contexts *)
Definition NATTAN_SSLV3 : Z := 0x0300.
Definition NATTAN_TLS10 : Z := 0x0301.
Definition NATTAN_TLS11 : Z := 0x0302.
Definition NATTAN_TLS12 : Z := 0x0303.
Definition NATTAN_SSL_ANY : Z := 0x0004.

Inductive ssl_method := SSLv3 | TLSv1 | TLSv1_1 | TLSv1_2 | SSLv23.
Inductive SSLType := SSL_CLIENT | SSL_SERVER.

#[export] Instance SSLType_eq_dec : EqDecision SSLType.
Proof. solve_decision. Defined.

(** The calls to OpenSSL; [SSL_CTX_setup] stands for the calls that set up a new context. *)
Class OpenSSL (L : Type) := {
  SSL_CTX_new : SSLType -> ssl_method -> L -> option nat * L;
  SSL_CTX_setup : SSLType -> option nat -> L -> L;
  SSL_new : option nat -> L -> option nat * L;
  SSL_set_fd : nat -> Z -> L -> Z * L;
  SSL_get_fd : nat -> L -> Z;
  SSL_set_tlsext_host_name : nat -> string -> L -> Z * L;
  SSL_set_cipher_list : nat -> string -> L -> Z * L;
  SSL_read : nat -> Z -> L -> Z * list Z * L;
  SSL_write : nat -> list Z -> L -> Z * L;
  SSL_use_certificate : nat -> nat -> L -> Z * L;
  SSL_use_PrivateKey : nat -> nat -> L -> Z * L;
  SSL_get_error : nat -> L -> Z;
  SSL_accept : nat -> L -> Z * L;
  SSL_connect : nat -> L -> Z * L;
  SSL_shutdown : nat -> L -> L;
  SSL_free : nat -> L -> L
}.

(** State and failure. *)
Definition O (S A : Type) : Type := S -> option (A * S).
#[export] Instance O_ret S : MRet (O S) := fun A x s => Some (x, s).
#[export] Instance O_bind S : MBind (O S) := fun A B f m s =>
  match m s with Some (x, s) => f x s | None => None end.

(** The two tables of contexts. *)
Record libssl (L : Type) := mk_libssl {
  lib : L;
  g_client_ssl_ctx_list : list (option nat);
  g_server_ssl_ctx_list : list (option nat)
}.
Arguments mk_libssl {L}. Arguments lib {L}. Arguments g_client_ssl_ctx_list {L}.
Arguments g_server_ssl_ctx_list {L}.

Section tls.
Context {L : Type} `{!OpenSSL L}.
Abbreviation T := (O (libssl L)).

Definition crash {A} : T A := fun _ => None.
Definition tget {A} (f : libssl L -> A) : T A := fun s => Some (f s, s).
Definition run {A} (f : L -> A * L) : T A := fun s =>
  let '(x, l) := f (lib s) in
  Some (x, mk_libssl l (g_client_ssl_ctx_list s) (g_server_ssl_ctx_list s)).
Definition run_ (f : L -> L) : T unit := run (fun l => (tt, f l)).
(** A call on an object that must not be null. *)
Definition on {A} (p : option nat) (f : nat -> T A) : T A :=
  match p with Some p => f p | None => crash end.

Definition ctx_list (sd : SSLType) (s : libssl L) : list (option nat) :=
  match sd with SSL_CLIENT => g_client_ssl_ctx_list s | SSL_SERVER => g_server_ssl_ctx_list s end.
Definition with_list (sd : SSLType) (l : list (option nat)) (s : libssl L) : libssl L :=
  match sd with
  | SSL_CLIENT => mk_libssl (lib s) l (g_server_ssl_ctx_list s)
  | SSL_SERVER => mk_libssl (lib s) (g_client_ssl_ctx_list s) l
  end.
Definition set_ctx_list (sd : SSLType) (l : list (option nat)) : T unit := fun s => Some (tt, with_list sd l s).

Definition libssl_init (l : L) : libssl L := mk_libssl l (replicate 5 None) (replicate 5 None).

Definition version_method (version : Z) : ssl_method :=
  if bool_decide (version = NATTAN_SSLV3) then SSLv3
  else if bool_decide (version = NATTAN_TLS10) then TLSv1
  else if bool_decide (version = NATTAN_TLS11) then TLSv1_1
  else if bool_decide (version = NATTAN_TLS12) then TLSv1_2
  else SSLv23.

Definition NewSSLCtx (sd : SSLType) (version : Z) : T (option nat) :=
  ctx ← run (SSL_CTX_new sd (version_method version));
  match sd, ctx with
  | SSL_SERVER, None => crash
  | _, _ => run_ (SSL_CTX_setup sd ctx);; mret ctx
  end.
Definition NewClientSSLCtx : Z -> T (option nat) := NewSSLCtx SSL_CLIENT.
Definition NewServerSSLCtx : Z -> T (option nat) := NewSSLCtx SSL_SERVER.

Definition GetSSLCtx (sd : SSLType) (version : Z) : T (option nat) :=
  let idx := Z.to_nat (Z.land version 0x000F) in
  l ← tget (ctx_list sd);
  match l !! idx with
  | None => crash
  | Some ctx =>
      ctx ← (match ctx with Some _ => mret ctx | None => NewSSLCtx sd version end);
      l ← tget (ctx_list sd);
      set_ctx_list sd (<[idx := ctx]> l);;
      mret ctx
  end.
Definition GetClientSSLCtx : Z -> T (option nat) := GetSSLCtx SSL_CLIENT.
Definition GetServerSSLCtx : Z -> T (option nat) := GetSSLCtx SSL_SERVER.

(** ** SSLHandler *)
Record SSLHandler := mk_handler { fssl : option nat }.

Definition SSLHandler_new : SSLHandler := mk_handler None.

(** The fields [fcert] and [fpkey] are never set, so that freeing them does nothing. *)
Definition freeResources (h : SSLHandler) : T SSLHandler :=
  match fssl h with
  | Some p => run_ (SSL_free p);; mret (mk_handler None)
  | None => mret h
  end.

Definition handler_open (type : SSLType) (sockfd version : Z) (h : SSLHandler) : T (Z * SSLHandler) :=
  if bool_decide (sockfd <= 0) then mret (-1, h)
  else
    ctx ← (match type with
           | SSL_CLIENT => GetClientSSLCtx version
           | SSL_SERVER => GetServerSSLCtx version
           end);
    p ← run (SSL_new ctx);
    let h := mk_handler p in
    match p with
    | None => mret (-1, h)
    | Some p =>
        res ← run (SSL_set_fd p sockfd);
        if bool_decide (res <> 1) then mret (-1, h) else mret (0, h)
    end.

Definition handler_getSocket (h : SSLHandler) : T Z := on (fssl h) (fun p => tget (fun s => SSL_get_fd p (lib s))).

Definition setServerName (serverName : option string) (h : SSLHandler) : T Z :=
  match serverName with
  | None => mret (-1)
  | Some n =>
      res ← on (fssl h) (fun p => run (SSL_set_tlsext_host_name p n));
      mret (if bool_decide (res <> 1) then -1 else 0)
  end.

Definition setCipherListInteger (ciphers : list Z) (h : SSLHandler) : T bool :=
  res ← on (fssl h) (fun p => run (SSL_set_cipher_list p (cipher_list_of_codes ciphers)));
  mret (bool_decide (res = 1)).
Definition setCipherListString (ciphers : list string) (h : SSLHandler) : T bool :=
  res ← on (fssl h) (fun p => run (SSL_set_cipher_list p (cipher_list_of_names ciphers)));
  mret (bool_decide (res = 1)).

Definition handler_read (buf_len : Z) (h : SSLHandler) : T (Z * list Z) :=
  on (fssl h) (fun p => run (SSL_read p (i32 buf_len))).
Definition handler_write (buf : list Z) (h : SSLHandler) : T Z := on (fssl h) (fun p => run (SSL_write p buf)).

Definition setupCertPkey (cert pkey : nat) (h : SSLHandler) : T Z :=
  res ← on (fssl h) (fun p => run (SSL_use_certificate p cert));
  if bool_decide (res <> 1) then mret (-1)
  else
    res ← on (fssl h) (fun p => run (SSL_use_PrivateKey p pkey));
    mret (if bool_decide (res <> 1) then -1 else 0).

Definition handler_getErrno (h : SSLHandler) : T Z :=
  match fssl h with None => mret 0 | Some p => tget (fun s => SSL_get_error p (lib s)) end.

Definition handler_close (h : SSLHandler) : T (Z * SSLHandler) :=
  match fssl h with Some p => run_ (SSL_shutdown p) | None => mret tt end;;
  h ← freeResources h;
  mret (0, h).

(** The destructor; it closes only what is closed already. *)
Definition handler_destroy (h : SSLHandler) : T unit :=
  match fssl h with
  | None => handler_close h;; mret tt
  | Some _ => mret tt
  end.

(** ** SSLHelper: handlers *)
Definition CreateSSLHandler (type : SSLType) (sockfd version : Z) : T (option SSLHandler) :=
  r ← handler_open type sockfd version SSLHandler_new;
  if bool_decide (r.1 <> 0) then handler_destroy r.2;; mret None else mret (Some r.2).
Definition CreateServerSSLHandler : Z -> Z -> T (option SSLHandler) := CreateSSLHandler SSL_SERVER.
Definition CreateClientSSLHandler : Z -> Z -> T (option SSLHandler) := CreateSSLHandler SSL_CLIENT.

Definition ssl_handshake (f : nat -> L -> Z * L) (ssl : option SSLHandler) : T Z :=
  match ssl with
  | None => mret (-1)
  | Some h =>
      res ← on (fssl h) (fun p => run (f p));
      mret (if bool_decide (res <> 1) then -1 else 0)
  end.
Definition Accept : option SSLHandler -> T Z := ssl_handshake SSL_accept.
Definition Connect : option SSLHandler -> T Z := ssl_handshake SSL_connect.
End tls.

(** ** The list of names that OpenSSL reads *)
Fixpoint split_colon (s : string) : list string :=
  match s with
  | EmptyString => [EmptyString]
  | String c s =>
      if bool_decide (c = ":"%char) then EmptyString :: split_colon s
      else match split_colon s with w :: ws => String c w :: ws | [] => [] end
  end.
Definition cipher_names (s : string) : list string :=
  match s with EmptyString => [] | _ => split_colon s end.

(** A name: not empty, no colon. *)
Fixpoint no_colon (s : string) : bool :=
  match s with EmptyString => true | String c s => negb (bool_decide (c = ":"%char)) && no_colon s end.
Definition plain (s : string) : bool := negb (bool_decide (s = EmptyString)) && no_colon s.

Lemma split_no_colon s : no_colon s = true -> split_colon s = [s].
Proof.
  induction s as [|c s IH]; [done|]. cbn. intros [Hc Hs]%andb_true_iff.
  destruct (bool_decide (c = _)); [done|]. by rewrite IH.
Qed.

Lemma split_append a b : no_colon b = true -> split_colon (a +:+ ":" +:+ b)%string = split_colon a ++ [b].
Proof.
  intros Hb. induction a as [|c a IH].
  - change (split_colon (String ":" b) = [EmptyString; b]). cbn. by rewrite split_no_colon.
  - change (split_colon (String c (a +:+ ":" +:+ b)%string) = split_colon (String c a) ++ [b]).
    cbn [split_colon]. rewrite IH. destruct (bool_decide (c = _)); [done|].
    assert (exists w ws, split_colon a = w :: ws) as (w & ws & ->); [|done].
    clear. induction a as [|d a (w & ws & IH)]; cbn; [by eexists _, _|]. rewrite IH.
    destruct (bool_decide _); by eexists _, _.
Qed.

(** Appending plain names one by one. *)
Lemma names_append l : forall acc, Forall (fun s => plain s = true) l ->
  cipher_names (fold_left append_cipher l acc) = cipher_names acc ++ l.
Proof.
  induction l as [|s l IH]; intros acc Hl; cbn [fold_left]; [by rewrite app_nil_r|].
  apply Forall_cons in Hl as [[Hs Hn]%andb_true_iff Hl]. rewrite IH by done.
  rewrite cons_middle, app_assoc. f_equal.
  destruct acc as [|c acc].
  - cbn. destruct s; [done|]. by apply split_no_colon.
  - change (split_colon (String c acc +:+ ":" +:+ s)%string = split_colon (String c acc) ++ [s]).
    by apply split_append.
Qed.

Lemma cipher_fold ciphers : forall acc,
  fold_left (fun acc c => match GetCipherByHexCode c with Some s => append_cipher acc s | None => acc end)
    ciphers acc = fold_left append_cipher (omap GetCipherByHexCode ciphers) acc.
Proof.
  induction ciphers as [|c ciphers IH]; intros acc; cbn; [done|].
  destruct (GetCipherByHexCode c); cbn; by rewrite IH.
Qed.

(** Every name in the table of OpenSSL's names is plain. *)
Lemma openssl_names_plain : forallb (fun e => plain e.2) openssl_cipher_list = true.
Proof. by vm_compute. Qed.

Lemma cipher_plain c s : GetCipherByHexCode c = Some s -> plain s = true.
Proof.
  unfold GetCipherByHexCode. intros (n & _ & E)%bind_Some. apply elem_of_list_to_map_2 in E.
  pose proof openssl_names_plain as Hp. rewrite forallb_forall in Hp.
  apply (Hp (n, s)). by apply list_elem_of_In.
Qed.

(** ** Laws of the calls *)
(** [made] records what each context was made with, [live] the connection objects that are
    allocated. *)
Class OpenSSLLaws (L : Type) `{!OpenSSL L} (made : L -> gmap nat (SSLType * ssl_method)) (live : L -> gset nat) := {
  law_ctx_new sd m l c l' : SSL_CTX_new sd m l = (c, l') -> live l' = live l /\
    match c with
    | Some c => made l !! c = None /\ made l' = <[c := (sd, m)]> (made l)
    | None => made l' = made l
    end;
  law_ctx_setup sd c l : live (SSL_CTX_setup sd c l) = live l /\ made (SSL_CTX_setup sd c l) = made l;
  law_new c l p l' : SSL_new c l = (p, l') -> made l' = made l /\
    match p with
    | Some p => (p ∉ live l) /\ live l' = {[p]} ∪ live l
    | None => live l' = live l
    end;
  law_set_fd p fd l : live (SSL_set_fd p fd l).2 = live l;
  law_host p n l : live (SSL_set_tlsext_host_name p n l).2 = live l;
  law_ciphers p n l : live (SSL_set_cipher_list p n l).2 = live l;
  law_read p n l : live (SSL_read p n l).2 = live l;
  law_write p bs l : live (SSL_write p bs l).2 = live l;
  law_cert p c l : live (SSL_use_certificate p c l).2 = live l;
  law_key p k l : live (SSL_use_PrivateKey p k l).2 = live l;
  law_accept p l : live (SSL_accept p l).2 = live l;
  law_connect p l : live (SSL_connect p l).2 = live l;
  law_shutdown p l : live (SSL_shutdown p l) = live l;
  law_free p l : live (SSL_free p l) = live l ∖ {[p]}
}.

Section contexts.
Context {L : Type} `{!OpenSSL L}.
Context (made : L -> gmap nat (SSLType * ssl_method)) (live : L -> gset nat).
Context `{HL : !OpenSSLLaws L made live}.

(** The versions that have a name. *)
Definition known (v : Z) : bool :=
  bool_decide (v ∈ [NATTAN_SSLV3; NATTAN_TLS10; NATTAN_TLS11; NATTAN_TLS12; NATTAN_SSL_ANY]).

Definition slot_of (v : Z) : nat := Z.to_nat (Z.land v 0x000F).
Definition slot_method (i : nat) : ssl_method :=
  match i with 0 => SSLv3 | 1 => TLSv1 | 2 => TLSv1_1 | 3 => TLSv1_2 | _ => SSLv23 end%nat.

Lemma known_slot v : known v = true -> (slot_of v < 5)%nat /\ version_method v = slot_method (slot_of v).
Proof.
  unfold known. rewrite bool_decide_eq_true, !elem_of_cons, elem_of_nil.
  intros [->|[->|[->|[->|[->|[]]]]]]; by split; [vm_compute; lia|vm_compute].
Qed.

(** Five slots each; a context in a slot was made with the method of the slot. *)
Definition ctx_inv (s : libssl L) : Prop := forall sd,
  length (ctx_list sd s) = 5%nat /\
  forall i c, ctx_list sd s !! i = Some (Some c) -> made (lib s) !! c = Some (sd, slot_method i).

(** What is in a slot stays there, and so does what a context was made with. *)
Definition ctx_later (s s' : libssl L) : Prop := forall sd,
  (forall i c, ctx_list sd s !! i = Some (Some c) -> ctx_list sd s' !! i = Some (Some c)) /\
  (forall c m, made (lib s) !! c = Some m -> made (lib s') !! c = Some m).

#[local] Instance ctx_later_preorder : PreOrder ctx_later.
Proof. split; [by intros s sd|]. intros s1 s2 s3 H1 H2 sd. destruct (H1 sd), (H2 sd). split; eauto. Qed.

Context (Hctx : forall sd m (l : L), is_Some (SSL_CTX_new sd m l).1).

Lemma with_list_lists sd sd' x (s : libssl L) :
  ctx_list sd' (with_list sd x s) = if bool_decide (sd' = sd) then x else ctx_list sd' s.
Proof. by destruct sd, sd'. Qed.
Lemma with_list_lib sd x (s : libssl L) : lib (with_list sd x s) = lib s.
Proof. by destruct sd. Qed.
Lemma with_list_same sd (s : libssl L) : with_list sd (ctx_list sd s) s = s.
Proof. by destruct sd, s. Qed.

(** A new context in an empty slot. *)
Lemma ctx_inv_fill sd i c l s :
  ctx_inv s -> ctx_list sd s !! i = Some None -> made (lib s) !! c = None ->
  made l = <[c := (sd, slot_method i)]> (made (lib s)) ->
  let s' := with_list sd (<[i := Some c]> (ctx_list sd s))
              (mk_libssl l (g_client_ssl_ctx_list s) (g_server_ssl_ctx_list s)) in
  ctx_inv s' /\ ctx_later s s' /\ ctx_list sd s' !! i = Some (Some c).
Proof.
  intros Hi E Hn Hm. cbn zeta. set (s1 := mk_libssl l _ _).
  assert (forall sd', ctx_list sd' s1 = ctx_list sd' s) as El by (by intros []).
  assert (lib s1 = l) as Elib by done.
  assert (forall c m, made (lib s) !! c = Some m -> made l !! c = Some m) as Hkeep.
  { intros c0 m0 H0. rewrite Hm, lookup_insert_ne; [done|congruence]. }
  assert (i < length (ctx_list sd s))%nat as Hlt by by eapply lookup_lt_Some.
  split_and!.
  - intros sd'. destruct (Hi sd') as [Hl Hc]. rewrite with_list_lists, with_list_lib, Elib. case_bool_decide as Hsd.
    + subst sd'. rewrite length_insert. split; [done|]. intros j c0. rewrite list_lookup_insert_Some.
      intros [(-> & [= <-] & _)|[_ H0]]; [by rewrite Hm, lookup_insert_eq|by apply Hkeep, Hc].
    + rewrite El. split; [done|]. intros j c0 H0. by apply Hkeep, Hc.
  - intros sd'. rewrite with_list_lists, with_list_lib, Elib. split; [|done]. intros j c0 H0. case_bool_decide as Hsd.
    + subst sd'. rewrite list_lookup_insert_ne; [done|]. intros ->. congruence.
    + by rewrite El.
  - rewrite with_list_lists, bool_decide_eq_true_2 by done. by apply list_lookup_insert_eq.
Qed.

Lemma get_ctx sd v s : ctx_inv s -> known v = true -> exists c s',
  GetSSLCtx sd v s = Some (Some c, s') /\ ctx_inv s' /\ ctx_later s s' /\
  ctx_list sd s' !! slot_of v = Some (Some c).
Proof.
  intros Hi Hv. destruct (known_slot v Hv) as [Hs Hm]. destruct (Hi sd) as [Hl Hc].
  unfold GetSSLCtx. fold (slot_of v). unfold mbind, O_bind, tget.
  destruct (lookup_lt_is_Some_2 (ctx_list sd s) (slot_of v) ltac:(lia)) as [[c|] E]; rewrite E.
  - exists c, s. cbn. unfold set_ctx_list. rewrite list_insert_id by done. by rewrite with_list_same.
  - unfold NewSSLCtx, mbind, O_bind, run. destruct (SSL_CTX_new sd (version_method v) (lib s)) as [c l1] eqn:En.
    pose proof (Hctx sd (version_method v) (lib s)) as [c' Ec]. rewrite En in Ec. cbn in Ec. subst c.
    destruct (law_ctx_new _ _ _ _ _ En) as (_ & Hn & Hmade).
    destruct (law_ctx_setup sd (Some c') l1) as [_ Hset]. rewrite Hmade, Hm in Hset.
    destruct (ctx_inv_fill sd (slot_of v) c' _ s Hi E Hn Hset) as (H1 & H2 & H3).
    eexists c', _. split; [|by split_and!; [exact H1|exact H2|exact H3]]. destruct sd; reflexivity.
Qed.

(** A sequence of requests. *)
Fixpoint request (rs : list (SSLType * Z)) : O (libssl L) (list (option nat)) :=
  match rs with
  | [] => mret []
  | r :: rs =>
      c ← (match r.1 with SSL_CLIENT => GetClientSSLCtx r.2 | SSL_SERVER => GetServerSSLCtx r.2 end);
      cs ← request rs;
      mret (c :: cs)
  end.

(** What a request gets, once all are served. *)
Definition served (s : libssl L) (r : SSLType * Z) (c : option nat) : Prop :=
  exists p, c = Some p /\ ctx_list r.1 s !! slot_of r.2 = Some c /\
    made (lib s) !! p = Some (r.1, version_method r.2).

Lemma request_served rs : forall s, ctx_inv s -> Forall (fun r => known r.2 = true) rs ->
  exists cs s', request rs s = Some (cs, s') /\ ctx_inv s' /\ ctx_later s s' /\ Forall2 (served s') rs cs.
Proof.
  induction rs as [|[sd v] rs IH]; intros s Hi Hk; cbn [request].
  - exists [], s. by split_and!; [| |reflexivity|constructor].
  - apply Forall_cons in Hk as [Hv Hk]. cbn in Hv.
    destruct (get_ctx sd v s Hi Hv) as (c & s1 & E & Hi1 & Hl1 & Hc).
    destruct (IH s1 Hi1 Hk) as (cs & s2 & E2 & Hi2 & Hl2 & Hcs).
    exists (Some c :: cs), s2. split_and!.
    + unfold mbind, O_bind. cbn [fst snd]. unfold GetClientSSLCtx, GetServerSSLCtx.
      destruct sd; rewrite E, E2; reflexivity.
    + done.
    + by etrans.
    + constructor; [|done]. exists c. split; [done|]. cbn. destruct (Hl2 sd) as [Hs _].
      apply Hs in Hc. split; [done|]. destruct (Hi2 sd) as [_ Hm].
      destruct (known_slot v Hv) as [_ ->]. by apply Hm.
Qed.
End contexts.

(** ** The life of a connection object *)
Section life.
Context {L : Type} `{!OpenSSL L}.

Inductive handler_op :=
  | HServerName (n : option string) | HCodes (cs : list Z) | HNames (ns : list string)
  | HRead (n : Z) | HWrite (bs : list Z) | HCertPkey (cert pkey : nat) | HErrno | HAccept | HConnect.

Definition handler_do (h : SSLHandler) (op : handler_op) : O (libssl L) unit :=
  match op with
  | HServerName n => setServerName n h;; mret tt
  | HCodes cs => setCipherListInteger cs h;; mret tt
  | HNames ns => setCipherListString ns h;; mret tt
  | HRead n => handler_read n h;; mret tt
  | HWrite bs => handler_write bs h;; mret tt
  | HCertPkey c k => setupCertPkey c k h;; mret tt
  | HErrno => handler_getErrno h;; mret tt
  | HAccept => Accept (Some h);; mret tt
  | HConnect => Connect (Some h);; mret tt
  end.

Fixpoint handler_use (h : SSLHandler) (ops : list handler_op) : O (libssl L) unit :=
  match ops with [] => mret tt | op :: ops => handler_do h op;; handler_use h ops end.

(** What [Socket::close] does with a handler. *)
Definition discard (h : SSLHandler) : O (libssl L) unit :=
  r ← handler_close h; handler_destroy r.2.

Context (made : L -> gmap nat (SSLType * ssl_method)) (live : L -> gset nat).
Context `{HL : !OpenSSLLaws L made live}.

(** [m] allocates and frees no connection object. *)
Definition quiet {A} (m : O (libssl L) A) : Prop :=
  forall s x s', m s = Some (x, s') -> live (lib s') = live (lib s).

Lemma q_bind {A B} (m : O (libssl L) A) (f : A -> O (libssl L) B) :
  quiet m -> (forall x, quiet (f x)) -> quiet (m ≫= f).
Proof.
  intros Hm Hf s y s'. unfold mbind, O_bind. destruct (m s) as [[x s1]|] eqn:E; [|done].
  intros E2. by rewrite (Hf x s1 y s' E2), (Hm s x s1 E).
Qed.
Lemma q_ret {A} (x : A) : quiet (mret x).
Proof. by intros s y s' [= _ <-]. Qed.
Lemma q_get {A} (f : libssl L -> A) : quiet (tget f).
Proof. by intros s y s' [= _ <-]. Qed.
Lemma q_run {A} (f : L -> A * L) : (forall l, live (f l).2 = live l) -> quiet (run f).
Proof.
  intros Hf s y s'. unfold run. specialize (Hf (lib s)). destruct (f (lib s)). by intros [= _ <-].
Qed.
Lemma q_on {A} p (f : nat -> O (libssl L) A) : (forall p, quiet (f p)) -> quiet (on p f).
Proof. intros Hf. by destruct p; [apply Hf|]. Qed.
Lemma q_set_list sd l : quiet (set_ctx_list sd l).
Proof. intros s y s' [= _ <-]. by destruct sd. Qed.

#[local] Hint Resolve q_ret q_get q_set_list : nattan.
Ltac quietly :=
  repeat first [ progress eauto with nattan | by intros ? ? ? ?
    | apply q_bind; [|intros ?] | apply q_on; intros ? | apply q_run; intros ? | case_match ].

Lemma get_ctx_quiet sd v : quiet (GetSSLCtx sd v).
Proof.
  assert (quiet (NewSSLCtx (L := L) sd v)) as Hn.
  { unfold NewSSLCtx, run_, crash. quietly.
    - destruct (SSL_CTX_new sd (version_method v) l) eqn:E. by destruct (law_ctx_new _ _ _ _ _ E).
    - apply (law_ctx_setup (made := made)).
    - apply (law_ctx_setup (made := made)). }
  unfold GetSSLCtx, crash. quietly.
Qed.

Lemma handler_do_quiet h op : quiet (handler_do h op).
Proof.
  pose proof (law_host (made := made) (live := live)). pose proof (law_ciphers (made := made) (live := live)).
  pose proof (law_read (made := made) (live := live)). pose proof (law_write (made := made) (live := live)).
  pose proof (law_cert (made := made) (live := live)). pose proof (law_key (made := made) (live := live)).
  pose proof (law_accept (made := made) (live := live)). pose proof (law_connect (made := made) (live := live)).
  destruct op; cbn [handler_do];
    unfold setServerName, setCipherListInteger, setCipherListString, handler_read, handler_write, setupCertPkey,
      handler_getErrno, Accept, Connect, ssl_handshake; quietly.
Qed.

Lemma handler_use_quiet h ops : quiet (handler_use h ops).
Proof. induction ops as [|op ops IH]; cbn [handler_use]; [apply q_ret|apply q_bind; [apply handler_do_quiet|done]]. Qed.

(** What creating a handler gives: a new object, or nothing, with at most one object leaked. *)
Lemma create_outcome type sockfd v s r s' :
  CreateSSLHandler type sockfd v s = Some (r, s') ->
  match r with
  | Some h => exists p, fssl h = Some p /\ (p ∉ live (lib s)) /\ live (lib s') = {[p]} ∪ live (lib s)
  | None => live (lib s') = live (lib s) \/
      exists p, (p ∉ live (lib s)) /\ live (lib s') = {[p]} ∪ live (lib s)
  end.
Proof.
  unfold CreateSSLHandler, handler_open. unfold mbind at 1, O_bind at 1.
  destruct (bool_decide (sockfd <= 0)); [intros [= <- <-]; by left|].
  pose proof (get_ctx_quiet type v) as Hq. unfold mbind at 1, O_bind at 1.
  replace (match type with SSL_CLIENT => GetClientSSLCtx v | SSL_SERVER => GetServerSSLCtx v end)
    with (GetSSLCtx (L := L) type v) by (by destruct type).
  destruct (GetSSLCtx type v s) as [[ctx s1]|] eqn:E1; [|done]. apply Hq in E1. rewrite <- E1.
  unfold mbind at 1, O_bind at 1, run at 1. destruct (SSL_new ctx (lib s1)) as [p l] eqn:En.
  destruct (law_new _ _ _ _ En) as [_ Hp]. destruct p as [p|].
  - destruct Hp as [Hn Hp]. unfold mbind at 1, O_bind at 1, run at 1. cbn [lib].
    pose proof (law_set_fd (made := made) p sockfd l) as Hf. destruct (SSL_set_fd p sockfd l) as [res l2].
    cbn in Hf. destruct (bool_decide (res <> 1)); cbn; intros [= <- <-]; cbn; rewrite Hf, Hp; eauto.
  - cbn. intros [= <- <-]. cbn. by left.
Qed.

Lemma discard_frees h p s x s' :
  fssl h = Some p -> discard h s = Some (x, s') -> live (lib s') = live (lib s) ∖ {[p]}.
Proof.
  unfold discard, handler_close, freeResources. intros ->. cbn.
  intros [= _ <-]. cbn. rewrite (law_free (made := made)). by rewrite (law_shutdown (made := made)).
Qed.
End life.

Lemma omap_injective {A B} (f : A -> option B) l c d s :
  NoDup (omap f l) -> c ∈ l -> d ∈ l -> f c = Some s -> f d = Some s -> c = d.
Proof.
  assert (forall x l, x ∈ l -> f x = Some s -> s ∈ omap f l) as Hin
    by (intros x k Hx E; apply list_elem_of_omap; eauto).
  induction l as [|x l IH]; [by intros _ ?%elem_of_nil|]. cbn. rewrite !elem_of_cons.
  intros Hnd Hc Hd Ec Ed. destruct Hc as [->|Hc], Hd as [->|Hd]; try done.
  - rewrite Ec in Hnd. apply NoDup_cons in Hnd as [Hn _]. by destruct Hn; eapply Hin.
  - rewrite Ed in Hnd. apply NoDup_cons in Hnd as [Hn _]. by destruct Hn; eapply Hin.
  - apply IH; try done. destruct (f x); [by apply NoDup_cons in Hnd as [_ ?]|done].
Qed.

Lemma known_names_distinct : NoDup (omap GetCipherByHexCode (fst <$> ssl_cipher_list)).
Proof. apply (bool_decide_eq_true_1 _). by vm_compute. Qed.

Lemma named_listed c s : GetCipherByHexCode c = Some s -> c ∈ fst <$> ssl_cipher_list.
Proof.
  unfold GetCipherByHexCode. intros (n & E & _)%bind_Some. apply elem_of_list_to_map_2 in E.
  apply list_elem_of_fmap. by exists (c, n).
Qed.

(** ** Properties *)
(** The string that is handed to OpenSSL names exactly the ciphers of the given codes that
    have an OpenSSL name, in their order. *)
Theorem cipher_list_exact ciphers :
  cipher_names (cipher_list_of_codes ciphers) = omap GetCipherByHexCode ciphers.
Proof.
  unfold cipher_list_of_codes. rewrite cipher_fold, names_append; [done|].
  apply Forall_forall. intros s Hs. apply list_elem_of_omap in Hs as (c & _ & E). by eapply cipher_plain.
Qed.

(** Codes that have an OpenSSL name have different ones. *)
Theorem cipher_codes_injective c d s :
  GetCipherByHexCode c = Some s -> GetCipherByHexCode d = Some s -> c = d.
Proof.
  intros Hc Hd. apply (omap_injective GetCipherByHexCode (fst <$> ssl_cipher_list) c d s); try done.
  - apply known_names_distinct.
  - by eapply named_listed.
  - by eapply named_listed.
Qed.

Lemma cipher_codes_injective_witness :
  GetCipherByHexCode 0xC02F = Some "ECDHE-RSA-AES128-GCM-SHA256"%string /\
  forall d, GetCipherByHexCode d = Some "ECDHE-RSA-AES128-GCM-SHA256"%string -> 0xC02F = d.
Proof.
  assert (GetCipherByHexCode 0xC02F = Some "ECDHE-RSA-AES128-GCM-SHA256"%string) as E by (by vm_compute).
  split; [exact E|]. intros d Hd. exact (cipher_codes_injective 0xC02F d _ E Hd).
Defined.

(** Codes without an OpenSSL name, those of TLS 1.3 among them, are left out. *)
Example cipher_strings :
  cipher_list_of_codes [0xC02F; 0x1301; 0x0A0A; 0x002F] = "ECDHE-RSA-AES128-GCM-SHA256:AES128-SHA"%string.
Proof. by vm_compute. Qed.

Section properties.
Context {L : Type} `{!OpenSSL L} (made : L -> gmap nat (SSLType * ssl_method)) (live : L -> gset nat).
Context `{HL : !OpenSSLLaws L made live}.

(** Requests for contexts of the named versions never leave the tables, and each gets a
    context that was made for its side and version; equal requests get the same one. *)
Theorem ssl_contexts_served (rs : list (SSLType * Z)) l :
  (forall sd m (l : L), is_Some (SSL_CTX_new sd m l).1) -> Forall (fun r => known r.2 = true) rs ->
  exists cs s', request rs (libssl_init l) = Some (cs, s') /\ Forall2 (served made s') rs cs /\
    forall i j r c d, rs !! i = Some r -> rs !! j = Some r -> cs !! i = Some c -> cs !! j = Some d -> c = d.
Proof.
  intros Hctx Hk. assert (ctx_inv made (libssl_init l)) as Hi.
  { intros []; (split; [done|]); intros i c; cbn -[replicate];
      intros E%lookup_replicate; by destruct E. }
  destruct (request_served made live Hctx rs _ Hi Hk) as (cs & s' & E & _ & _ & Hs).
  exists cs, s'. split_and!; [done..|]. intros i j r c d Ei Ej Ec Ed.
  destruct (Forall2_lookup_lr _ _ _ _ _ _ Hs Ei Ec) as (p & -> & Hp & _).
  destruct (Forall2_lookup_lr _ _ _ _ _ _ Hs Ej Ed) as (q & -> & Hq & _). congruence.
Qed.

(** The tables are left exactly by the versions whose last hexadecimal digit is above 4. *)
Theorem ssl_context_bounds sd v s :
  length (ctx_list sd s) = 5%nat -> (forall m l, is_Some (SSL_CTX_new sd m l).1) ->
  GetSSLCtx sd v s = None <-> 4 < Z.land v 0x000F.
Proof.
  intros Hl Hctx. assert (0 <= Z.land v 15) as H0 by (apply Z.land_nonneg; lia).
  unfold GetSSLCtx. unfold mbind at 1, O_bind at 1, tget at 1.
  destruct (ctx_list sd s !! Z.to_nat (Z.land v 15)) as [c|] eqn:E.
  - apply lookup_lt_Some in E. split; [|lia]. intros En. exfalso. revert En.
    destruct c as [c|]; [by cbn|]. unfold mbind, O_bind, NewSSLCtx, run, mbind, O_bind.
    pose proof (Hctx (version_method v) (lib s)) as [c Hc].
    destruct (SSL_CTX_new sd (version_method v) (lib s)) as [? l]. cbn in Hc. subst. by destruct sd.
  - apply lookup_ge_None in E. split; [lia|done].
Qed.

(** C27. A handler that was created, used and closed as [Socket::close] does it leaves nothing
    behind; its object is its own, and still there when it is freed. *)
Theorem handler_lifecycle type sockfd v ops s h s1 s2 s3 :
  CreateSSLHandler type sockfd v s = Some (Some h, s1) ->
  handler_use h ops s1 = Some (tt, s2) -> discard h s2 = Some (tt, s3) ->
  exists p, fssl h = Some p /\ (p ∉ live (lib s)) /\ p ∈ live (lib s2) /\ live (lib s3) = live (lib s).
Proof.
  intros Hc Hu Hd. destruct (create_outcome made live _ _ _ _ _ _ Hc) as (p & Hp & Hn & Hl).
  apply (handler_use_quiet made live h ops) in Hu. apply (discard_frees made live h p _ _ _ Hp) in Hd.
  exists p. rewrite Hd, Hu, Hl. split_and!; set_solver.
Qed.

(** A handler that is deleted without [close] keeps its object: the condition of the
    destructor is the wrong way round. *)
Theorem destructor_leaks h p s : fssl h = Some p -> handler_destroy h s = Some (tt, s).
Proof. unfold handler_destroy. by intros ->. Qed.
End properties.

(** ** A library to run the code on *)
(** Contexts and objects are numbered in order; [t_fd] is the answer of [SSL_set_fd]. *)
Record toy_lib := mk_lib { t_made : gmap nat (SSLType * ssl_method); t_live : gset nat; t_fd : Z }.

#[export] Instance toy_openssl : OpenSSL toy_lib := {|
  SSL_CTX_new := fun sd m l =>
    let c := fresh (dom (t_made l)) in (Some c, mk_lib (<[c := (sd, m)]> (t_made l)) (t_live l) (t_fd l));
  SSL_CTX_setup := fun _ _ l => l;
  SSL_new := fun _ l => let p := fresh (t_live l) in (Some p, mk_lib (t_made l) ({[p]} ∪ t_live l) (t_fd l));
  SSL_set_fd := fun _ _ l => (t_fd l, l);
  SSL_get_fd := fun _ _ => 3;
  SSL_set_tlsext_host_name := fun _ _ l => (1, l);
  SSL_set_cipher_list := fun _ s l => (if plain s then 1 else 0, l);
  SSL_read := fun _ _ l => (0, [], l);
  SSL_write := fun _ bs l => (Z.of_nat (List.length bs), l);
  SSL_use_certificate := fun _ _ l => (1, l);
  SSL_use_PrivateKey := fun _ _ l => (1, l);
  SSL_get_error := fun _ _ => 0;
  SSL_accept := fun _ l => (1, l);
  SSL_connect := fun _ l => (1, l);
  SSL_shutdown := fun _ l => l;
  SSL_free := fun p l => mk_lib (t_made l) (t_live l ∖ {[p]}) (t_fd l)
|}.

#[export] Instance toy_openssl_laws : OpenSSLLaws toy_lib t_made t_live.
Proof.
  constructor; cbn; try done.
  - intros sd m l c l' [= <- <-]. cbn. split_and!; [done| |done]. apply not_elem_of_dom, is_fresh.
  - intros c l p l' [= <- <-]. cbn. split_and!; [done|apply is_fresh|done].
Qed.

Definition demo_lib : toy_lib := mk_lib ∅ ∅ 1.
Definition demo_requests : list (SSLType * Z) :=
  [(SSL_CLIENT, NATTAN_TLS12); (SSL_SERVER, NATTAN_SSL_ANY); (SSL_CLIENT, NATTAN_TLS12)].

Lemma ssl_contexts_served_witness :
  exists cs s', request demo_requests (libssl_init demo_lib) = Some (cs, s') /\
    Forall2 (served t_made s') demo_requests cs /\
    forall i j r c d, demo_requests !! i = Some r -> demo_requests !! j = Some r ->
      cs !! i = Some c -> cs !! j = Some d -> c = d.
Proof.
  apply (ssl_contexts_served t_made t_live demo_requests demo_lib).
  - intros sd m l. by eexists.
  - by repeat constructor.
Defined.

Lemma ssl_context_bounds_witness :
  GetSSLCtx SSL_CLIENT 0x0305 (libssl_init demo_lib) = None <-> 4 < Z.land 0x0305 0x000F.
Proof. apply (ssl_context_bounds SSL_CLIENT 0x0305 (libssl_init demo_lib)); [reflexivity|intros m l; by eexists]. Defined.

(** A version without a name can take the slot of one with a name: the next request for
    TLS 1.2 gets the context of any version. *)
Example slot_taken :
  (fun x => (fun c => t_made (lib x.2) !! c) <$> (x.1 !! 1%nat ≫= id)) <$>
    request [(SSL_CLIENT, 0x0013); (SSL_CLIENT, NATTAN_TLS12)] (libssl_init demo_lib) =
  Some (Some (Some (SSL_CLIENT, SSLv23))).
Proof. by vm_compute. Qed.

Definition demo_use : list handler_op := [HServerName (Some "host"%string); HCodes [0xC02F]; HConnect; HWrite [1; 2]; HErrno].
Definition demo_created := default (None, libssl_init demo_lib) (CreateClientSSLHandler 5 NATTAN_SSL_ANY (libssl_init demo_lib)).
Definition demo_handler : SSLHandler := default SSLHandler_new demo_created.1.
Definition demo_used := default (tt, libssl_init demo_lib) (handler_use demo_handler demo_use demo_created.2).
Definition demo_gone := default (tt, libssl_init demo_lib) (discard demo_handler demo_used.2).

Lemma handler_lifecycle_witness :
  exists p, fssl demo_handler = Some p /\ (p ∉ t_live demo_lib) /\ p ∈ t_live (lib demo_used.2) /\
    t_live (lib demo_gone.2) = t_live demo_lib.
Proof.
  apply (handler_lifecycle t_made t_live SSL_CLIENT 5 NATTAN_SSL_ANY demo_use (libssl_init demo_lib) demo_handler
    demo_created.2 demo_used.2 demo_gone.2); vm_compute; reflexivity.
Defined.

Lemma destructor_leaks_witness : handler_destroy demo_handler demo_used.2 = Some (tt, demo_used.2).
Proof. apply (destructor_leaks demo_handler 0%nat demo_used.2). vm_compute. reflexivity. Defined.

(** When [SSL_set_fd] fails, the object of the handler that is thrown away stays. *)
Example create_leaks :
  (fun x => (x.1, t_live (lib x.2))) <$>
    CreateServerSSLHandler 5 NATTAN_SSL_ANY (libssl_init (mk_lib ∅ ∅ 0)) = Some (None, {[0%nat]}).
Proof. by vm_compute. Qed.
