(* ===== verification/Certs.v ===== *)
(** * net/ssl/SSLHelper.h: serial numbers and certificates signed on the fly

    C strings are lists of bytes without their zero. OpenSSL's functions on certificates are
    a class of calls on its state; objects have numbers. A write outside a buffer and the use
    of an array that nothing was stored in are [None]. *)
From S2P Require Import Prelude Tls.
Local Open Scope Z_scope.

(** ** Text *)
Definition hex_digit (d : Z) : Z := if bool_decide (d < 10) then 48 + d else 87 + d.
(** [%02x] and [%2.2hx] of a byte. *)
Definition hex2 (b : Z) : list Z := [hex_digit (b / 16); hex_digit (b mod 16)].
Definition hex (bs : list Z) : list Z := concat (hex2 <$> bs).

(** [snprintf] of the text [s] into [size] bytes. *)
Definition snprintf (size : nat) (s : list Z) : list Z := take (size - 1) s.

Definition dot : list Z := [46].
Definition tigerso : list Z := [46; 116; 105; 103; 101; 114; 115; 111].

Section serial.
(** The digest, 16 bytes, that the three calls to OpenSSL give. *)
Context (md5 : list Z -> list Z).

(** The result and what is stored in [output]. *)
Definition MD5 (input output : option (list Z)) (len : Z) : option (Z * option (list Z)) :=
  match input, output with
  | Some input, Some _ =>
      if bool_decide (len < 0) then Some (1, output)
      else if bool_decide (len = 0) then None
      else
        let message := snprintf 1023 input in
        let buf := hex (md5 message) in
        Some (0, Some (take (Z.to_nat (len - 1)) buf))
  | _, _ => Some (1, output)
  end.

Definition genSerialNumber (issuer commonName serial : option (list Z)) (len : Z) : option (bool * list Z) :=
  match issuer, commonName, serial with
  | Some i, Some c, Some s =>
      if bool_decide (len < 0) then Some (false, [])
      else
        let buf := snprintf 1924 (i ++ dot ++ s ++ dot ++ c ++ tigerso) in
        '(_, md5value) ← MD5 (Some buf) (Some []) 128;
        Some (true, snprintf (Z.to_nat len) ([48; 120] ++ default [] md5value))
  | _, _, _ => Some (false, [])
  end.
End serial.

(** The loop of [signCert] that fills [serialStr], an array of 64 bytes. *)
Fixpoint serial_string (i : nat) (data : list Z) : option (list Z) :=
  match data with
  | [] => Some []
  | b :: data =>
      if bool_decide (2 * i + 2 < 64)%nat then s ← serial_string (S i) data; Some (hex2 b ++ s) else None
  end.

(** ** Certificates *)
Inductive setter := SetPubkey | SetSubject | SetVersion | SetIssuer | SetNotBefore | SetNotAfter | SetSerial.

Class X509Lib (L : Type) := {
  xmd5 : list Z -> list Z;
  issuer_oneline : nat -> L -> list Z;           (* at most 255 bytes *)
  common_name : nat -> L -> option (list Z);     (* at most 511; [None]: none, nothing is stored *)
  serial_data : nat -> L -> list Z;
  ext_names : nat -> L -> list (list Z);
  s2i_ASN1_INTEGER : list Z -> L -> option nat * L;
  RSA_new : L -> nat * L;
  BN_new : L -> nat * L;
  BN_set_word : nat -> Z -> L -> Z * L;
  RSA_generate_key_ex : nat -> Z -> nat -> L -> Z * L;
  EVP_PKEY_new : L -> option nat * L;
  EVP_PKEY_set1_RSA : nat -> nat -> L -> Z * L;
  X509_new : L -> option nat * L;
  X509_add_ext : nat -> nat -> L -> Z * L;       (* the extension by its place *)
  X509_set : setter -> nat -> nat -> nat -> nat -> nat -> L -> Z * L;
  X509_sign : nat -> nat -> L -> Z * L;
  obj_free : nat -> L -> L                       (* every [..._free] *)
}.

Definition subjectAltName : list Z := [115; 117; 98; 106; 101; 99; 116; 65; 108; 116; 78; 97; 109; 101].

Section certs.
Context {L : Type} `{!X509Lib L}.
Abbreviation T := (O L).

Definition cget {A} (f : L -> A) : T A := fun l => Some (f l, l).
Definition ccall {A} (f : L -> A * L) : T A := fun l => Some (f l).
Definition cfree (p : nat) : T unit := ccall (fun l => (tt, obj_free p l)).
Definition need {A} (x : option A) : T A := fun l => match x with Some x => Some (x, l) | None => None end.

(** The exponent [bn] is not freed when the key is made. *)
Definition genRSA (key_length : Z) : T (option nat) :=
  rsa ← ccall RSA_new;
  bn ← ccall BN_new;
  failed ← (r ← ccall (BN_set_word bn 0x10001);
            if bool_decide (r <= 0) then mret true
            else r ← ccall (RSA_generate_key_ex rsa key_length bn); mret (bool_decide (r <= 0)));
  if (failed : bool) then cfree bn;; cfree rsa;; mret None else mret (Some rsa).

Definition setters : list setter :=
  [SetPubkey; SetSubject; SetVersion; SetIssuer; SetNotBefore; SetNotAfter; SetSerial].

(** The chain of [||]: whether a setter failed. *)
Fixpoint set_failed (ss : list setter) (cert pkey org_cert ca_cert serial : nat) : T bool :=
  match ss with
  | [] => mret false
  | x :: ss =>
      r ← ccall (X509_set x cert pkey org_cert ca_cert serial);
      if bool_decide (r <= 0) then mret true else set_failed ss cert pkey org_cert ca_cert serial
  end.

(** From the certificate that is new on: [serial] and [pkey] are still to be freed. *)
Definition fill_cert (ca_cert ca_pkey org_cert serial pkey : nat) : T (bool * (option nat * option nat)) :=
  names ← cget (ext_names org_cert);
  cert ← ccall X509_new;
  match cert with
  | None => cfree serial;; cfree pkey;; mret (false, (None, None))
  | Some cert =>
      match list_find (eq subjectAltName) names with
      | Some (i, _) => ccall (X509_add_ext cert i);; mret tt
      | None => mret tt
      end;;
      failed ← set_failed setters cert pkey org_cert ca_cert serial;
      if (failed : bool) then cfree serial;; cfree pkey;; cfree cert;; mret (false, (None, None))
      else
        cfree serial;;
        r ← ccall (X509_sign cert ca_pkey);
        if bool_decide (r <= 0) then cfree pkey;; cfree cert;; mret (false, (None, None))
        else mret (true, (Some cert, Some pkey))
  end.

(** [out] is what the two output parameters hold before. *)
Definition signCert (ca_cert ca_pkey : option nat) (key_length : Z) (org_cert : nat)
    (out : option nat * option nat) : T (bool * (option nat * option nat)) :=
  match ca_cert, ca_pkey with
  | Some ca_cert, Some ca_pkey =>
      issuer ← cget (issuer_oneline org_cert);
      cn ← cget (common_name org_cert);
      commonName ← need cn;
      data ← cget (serial_data org_cert);
      serialStr ← need (serial_string 0 data);
      sn ← need (genSerialNumber xmd5 (Some issuer) (Some commonName) (Some serialStr) 128);
      serial ← ccall (s2i_ASN1_INTEGER sn.2);
      match serial with
      | None => mret (false, (None, None))
      | Some serial =>
          rsa ← genRSA key_length;
          match rsa with
          | None => cfree serial;; mret (false, (None, None))
          | Some rsa =>
              pkey ← ccall EVP_PKEY_new;
              match pkey with
              | None => cfree rsa;; cfree serial;; mret (false, (None, None))
              | Some pkey =>
                  r ← ccall (EVP_PKEY_set1_RSA pkey rsa);
                  if bool_decide (r < 0) then
                    cfree pkey;; cfree rsa;; cfree serial;; mret (false, (None, Some pkey))
                  else cfree rsa;; fill_cert ca_cert ca_pkey org_cert serial pkey
              end
          end
      end
  | _, _ => mret (false, out)
  end.
End certs.

(** ** What is allocated *)
Section live.
Context {L : Type} `{!X509Lib L} (live : L -> gset nat).

Definition allocates (f : L -> option nat * L) : Prop := forall l,
  match (f l).1 with
  | Some p => (p ∉ live l) /\ live (f l).2 = {[p]} ∪ live l
  | None => live (f l).2 = live l
  end.

Class X509Laws := {
  x_s2i s : allocates (s2i_ASN1_INTEGER s);
  x_rsa : allocates (fun l => let '(p, l) := RSA_new l in (Some p, l));
  x_bn : allocates (fun l => let '(p, l) := BN_new l in (Some p, l));
  x_pkey : allocates EVP_PKEY_new;
  x_cert : allocates X509_new;
  x_word b w l : live (BN_set_word b w l).2 = live l;
  x_generate r n b l : live (RSA_generate_key_ex r n b l).2 = live l;
  x_set1 p r l : live (EVP_PKEY_set1_RSA p r l).2 = live l;
  x_ext c i l : live (X509_add_ext c i l).2 = live l;
  x_set x c p o ca s l : live (X509_set x c p o ca s l).2 = live l;
  x_sign c p l : live (X509_sign c p l).2 = live l;
  x_free p l : live (obj_free p l) = live l ∖ {[p]}
}.
Context `{HL : !X509Laws}.

(** Triples on the set of live objects. *)
Definition triple {A} (X : gset nat) (m : O L A) (Q : A -> gset nat -> Prop) : Prop :=
  forall l x l', live l = X -> m l = Some (x, l') -> Q x (live l').

Lemma t_bind {A B} X (m : O L A) (f : A -> O L B) R Q :
  triple X m R -> (forall x Y, R x Y -> triple Y (f x) Q) -> triple X (m ≫= f) Q.
Proof.
  intros Hm Hf l y l' HX. unfold mbind, O_bind. destruct (m l) as [[x l1]|] eqn:E; [|done].
  intros E2. by eapply (Hf x (live l1)), E2; [eapply Hm, E|].
Qed.
Lemma t_ret {A} X (x : A) (Q : A -> gset nat -> Prop) : Q x X -> triple X (mret x) Q.
Proof. by intros HQ l y l' <- [= <- <-]. Qed.
Lemma t_get {A B} X (g : L -> A) (f : A -> O L B) Q : (forall x, triple X (f x) Q) -> triple X (cget g ≫= f) Q.
Proof. intros Hf l y l' HX. unfold mbind, O_bind, cget. by apply Hf. Qed.
Lemma t_need {A B} X (o : option A) (f : A -> O L B) Q : (forall x, triple X (f x) Q) -> triple X (need o ≫= f) Q.
Proof. intros Hf l y l' HX. unfold mbind, O_bind, need. destruct o; [by apply Hf|done]. Qed.
Lemma t_call {A B} X (g : L -> A * L) (f : A -> O L B) Q :
  (forall l, live (g l).2 = live l) -> (forall x, triple X (f x) Q) -> triple X (ccall g ≫= f) Q.
Proof.
  intros Hg Hf l y l' HX. unfold mbind, O_bind, ccall. specialize (Hg l). destruct (g l) as [x l1].
  cbn in Hg. apply Hf. by rewrite Hg.
Qed.
Lemma t_free {B} X p (f : O L B) Q : triple (X ∖ {[p]}) f Q -> triple X (cfree p;; f) Q.
Proof.
  intros Hf l y l' HX. unfold cfree, mbind, O_bind, ccall. apply Hf. by rewrite x_free, HX.
Qed.
Lemma t_alloc {B} X g (f : option nat -> O L B) Q :
  allocates g -> triple X (f None) Q -> (forall p, p ∉ X -> triple ({[p]} ∪ X) (f (Some p)) Q) ->
  triple X (ccall g ≫= f) Q.
Proof.
  intros Hg Hn Hs l y l' HX. unfold mbind, O_bind, ccall. specialize (Hg l). destruct (g l) as [[p|] l1]; cbn in Hg.
  - destruct Hg as [Hp Hl]. apply Hs; [by rewrite <- HX|by rewrite Hl, HX].
  - apply Hn. by rewrite Hg.
Qed.
Lemma t_alloc1 {B} X (g : L -> nat * L) (f : nat -> O L B) Q :
  allocates (fun l => let '(p, l) := g l in (Some p, l)) ->
  (forall p, p ∉ X -> triple ({[p]} ∪ X) (f p) Q) -> triple X (ccall g ≫= f) Q.
Proof.
  intros Hg Hs l y l' HX. unfold mbind, O_bind, ccall. specialize (Hg l). cbn beta in Hg.
  destruct (g l) as [p l1]. cbn in Hg. destruct Hg as [Hp Hl]. apply Hs; [by rewrite <- HX|by rewrite Hl, HX].
Qed.

(** At most one object more than [X]: the exponent that [genRSA] leaves. *)
Definition leaks (X Y : gset nat) : Prop := Y = X \/ exists b, Y = {[b]} ∪ X.

Lemma t_genRSA n X : triple X (genRSA n) (fun r Y =>
  match r with
  | Some p => exists b, (p ∉ X) /\ (b ∉ {[p]} ∪ X) /\ Y = {[b; p]} ∪ X
  | None => Y = X
  end).
Proof.
  unfold genRSA. apply t_alloc1; [apply x_rsa|]. intros rsa Hr. apply t_alloc1; [apply x_bn|]. intros bn Hb.
  eapply t_bind with (R := fun _ Y => Y = {[bn]} ∪ ({[rsa]} ∪ X)).
  - apply t_call; [apply x_word|]. intros r. case_bool_decide; [by apply t_ret|].
    apply t_call; [apply x_generate|]. intros r'. by apply t_ret.
  - intros failed Y ->. destruct failed.
    + do 2 apply t_free. apply t_ret. set_solver.
    + apply t_ret. exists bn. set_solver.
Qed.

Lemma t_set_failed ss c p o ca s X : triple X (set_failed ss c p o ca s) (fun _ Y => Y = X).
Proof.
  induction ss as [|x ss IH]; cbn [set_failed]; [by apply t_ret|].
  apply t_call; [apply x_set|]. intros r. case_bool_decide; [by apply t_ret|done].
Qed.

(** The result of signing on top of [X]. *)
Definition signed (X : gset nat) (r : bool * (option nat * option nat)) (Y : gset nat) : Prop :=
  if r.1 then exists c k, r.2 = (Some c, Some k) /\ (c ∉ X) /\ (k ∉ X) /\ c <> k /\ leaks ({[c; k]} ∪ X) Y
  else r.2.1 = None /\ leaks X Y.

Lemma t_fill_cert ca ck o serial pkey X Z :
  serial ∉ X -> pkey ∉ X -> serial <> pkey -> Z = {[serial; pkey]} ∪ X ->
  triple Z (fill_cert ca ck o serial pkey) (fun r Y =>
    if r.1 then exists c, r.2 = (Some c, Some pkey) /\ (c ∉ {[serial; pkey]} ∪ X) /\ Y = {[c; pkey]} ∪ X
    else r.2.1 = None /\ Y = X).
Proof.
  intros Hs Hp Hne ->. unfold fill_cert. apply t_get. intros names.
  apply t_alloc; [apply x_cert|do 2 apply t_free; apply t_ret; set_solver|]. intros cert Hc.
  eapply t_bind with (R := fun _ Y => Y = {[cert]} ∪ ({[serial; pkey]} ∪ X)).
  { destruct (list_find _ _) as [[i ?]|]; [|by apply t_ret]. apply t_call; [apply x_ext|]. intros r. by apply t_ret. }
  intros ? Y ->. eapply t_bind; [apply t_set_failed|]. intros failed Y ->. destruct failed.
  { do 3 apply t_free. apply t_ret. set_solver. }
  apply t_free. apply t_call; [apply x_sign|]. intros r. case_bool_decide.
  - do 2 apply t_free. apply t_ret. set_solver.
  - apply t_ret. exists cert. set_solver.
Qed.

Lemma t_signCert ca ck n o out X :
  triple X (signCert ca ck n o out) (fun r Y => signed X r Y \/ (r = (false, out) /\ Y = X)).
Proof.
  unfold signCert. destruct ca as [ca|]; [|apply t_ret; by right]. destruct ck as [ck|]; [|apply t_ret; by right].
  do 2 (apply t_get; intros ?). apply t_need. intros cn. apply t_get. intros data.
  do 2 (apply t_need; intros ?).
  apply t_alloc; [apply x_s2i|apply t_ret; left; by split; [|left]|]. intros serial Hs.
  eapply t_bind; [apply t_genRSA|]. intros [rsa|] Y.
  2:{ intros ->. apply t_free, t_ret. left. split; [done|left; set_solver]. }
  intros (b & Hr & Hb & ->).
  apply t_alloc; [apply x_pkey|do 2 apply t_free; apply t_ret; left; split; [done|right; exists b; set_solver]|].
  intros pkey Hp. apply t_call; [apply x_set1|]. intros r. case_bool_decide.
  - do 3 apply t_free. apply t_ret. left. split; [done|]. right. exists b. set_solver.
  - apply t_free. intros l res l' HX E.
    rewrite !not_elem_of_union, !not_elem_of_singleton in *.
    destruct Hb as (Hb1 & Hb2 & Hb3), Hr as [Hr1 Hr2], Hp as ((Hp1 & Hp2) & Hp3 & Hp4).
    assert (live l = {[serial; pkey]} ∪ ({[b]} ∪ X)) as HZ.
    { rewrite HX. clear -Hr1 Hr2 Hb1 Hp2 Hs. set_solver. }
    pose proof (t_fill_cert ca ck o serial pkey ({[b]} ∪ X) (live l) ltac:(clear HX HZ; set_solver)
      ltac:(clear HX HZ; set_solver) ltac:(congruence) HZ l res l' eq_refl E) as Hf. cbn beta in Hf. left.
    unfold signed. destruct res.1.
    + destruct Hf as (c & -> & Hc & ->). exists c, pkey. rewrite !not_elem_of_union, !not_elem_of_singleton in Hc.
      split_and!; [done|tauto|done|naive_solver|]. right. exists b. clear. set_solver.
    + destruct Hf as [-> ->]. split; [done|]. right. by exists b.
Qed.
End live.

(** ** The serial number *)
Lemma length_hex bs : length (hex bs) = (2 * length bs)%nat.
Proof. induction bs as [|b bs IH]; [done|]. unfold hex in *. cbn. rewrite IH. lia. Qed.

Lemma serial_string_from data : forall i,
  serial_string i data = if bool_decide (data = [] \/ 2 * (i + length data) < 64)%nat then Some (hex data) else None.
Proof.
  induction data as [|b data IH]; intros i; cbn [serial_string].
  { by rewrite bool_decide_eq_true_2 by auto. }
  cbn [length]. rewrite IH. repeat case_bool_decide; try done; cbn; exfalso; naive_solver lia.
Qed.

(** ** Properties *)
(** The text of the serial number of the old certificate fits its array exactly when it has
    at most 31 bytes, and is then its hexadecimal form. *)
Theorem serial_string_bounds data :
  serial_string 0 data = if bool_decide (length data <= 31)%nat then Some (hex data) else None.
Proof.
  rewrite serial_string_from. cbn. repeat case_bool_decide; try done; exfalso.
  - destruct H as [->|]; cbn in *; lia.
  - destruct data; [naive_solver|naive_solver lia].
Qed.

(** A certificate whose serial number is longer overruns it. *)
Example serial_overrun : serial_string 0 (replicate 32 255) = None.
Proof. by vm_compute. Qed.

(** With the sizes of the buffers of [signCert] nothing is cut off: the new serial number is
    the digest of issuer, serial number and name in full, after [0x]. *)
Theorem serial_number_exact md5 issuer cn serial :
  (forall s, length (md5 s) = 16%nat) ->
  (length issuer <= 255)%nat -> (length cn <= 511)%nat -> (length serial <= 62)%nat ->
  genSerialNumber md5 (Some issuer) (Some cn) (Some serial) 128 =
    Some (true, [48; 120] ++ hex (md5 (issuer ++ [46] ++ serial ++ [46] ++ cn ++ tigerso))).
Proof.
  intros Hm Hi Hc Hs. unfold genSerialNumber, MD5, snprintf, dot.
  set (text := issuer ++ _). assert (length text <= 845)%nat as Hl by (unfold text; rewrite !length_app; cbn; lia).
  pose proof (length_hex (md5 text)) as Hh. rewrite Hm in Hh.
  rewrite (take_ge text) by lia. rewrite (take_ge text) by lia. rewrite (take_ge (hex _)) by lia.
  change (bool_decide (128 < 0)) with false. change (bool_decide (128 = 0)) with false.
  cbn [mbind option_bind default]. unfold id. rewrite take_ge; [done|]. rewrite length_app, Hh. cbn. lia.
Qed.

Section sign.
Context {L : Type} `{!X509Lib L} (live : L -> gset nat) `{!X509Laws live}.

(** Signing gives a certificate and a key, each new, or no certificate; whichever way it
    ends, nothing that it allocated is left over, but for one exponent. *)
Theorem sign_cert_memory ca_cert ca_pkey key_length org_cert l ok cert pkey l' :
  signCert ca_cert ca_pkey key_length org_cert (None, None) l = Some ((ok, (cert, pkey)), l') ->
  if ok then exists c k, cert = Some c /\ pkey = Some k /\ (c ∉ live l) /\ (k ∉ live l) /\ c <> k /\
    leaks ({[c; k]} ∪ live l) (live l')
  else cert = None /\ leaks (live l) (live l').
Proof.
  intros E.
  destruct (t_signCert live ca_cert ca_pkey key_length org_cert (None, None) _ _ _ _ eq_refl E) as [Hs|[[= -> -> ->] ->]];
    [|split; [done|by left]].
  unfold signed in Hs. cbn in Hs. destruct ok; [|done].
  destruct Hs as (c & k & [= -> ->] & Hc & Hk & Hne & Hl). by exists c, k.
Qed.
End sign.

(** ** A library to run the code on *)
(** [t_set1] is the answer of [EVP_PKEY_set1_RSA], [t_sign] that of [X509_sign]. *)
Record toy_x := mk_x { tx_live : gset nat; t_set1 : Z; t_sign : Z }.

Definition toy_alloc (l : toy_x) : nat * toy_x :=
  let p := fresh (tx_live l) in (p, mk_x ({[p]} ∪ tx_live l) (t_set1 l) (t_sign l)).
Definition toy_alloc_opt (l : toy_x) : option nat * toy_x := let '(p, l) := toy_alloc l in (Some p, l).

#[export] Instance toy_x509 : X509Lib toy_x := {|
  xmd5 := fun s => replicate 16 (Z.of_nat (length s) mod 256);
  issuer_oneline := fun _ _ => [47; 67; 65];
  common_name := fun _ _ => Some [97; 46; 98];
  serial_data := fun _ _ => [1; 171];
  ext_names := fun _ _ => [subjectAltName];
  s2i_ASN1_INTEGER := fun _ => toy_alloc_opt;
  RSA_new := toy_alloc;
  BN_new := toy_alloc;
  BN_set_word := fun _ _ l => (1, l);
  RSA_generate_key_ex := fun _ _ _ l => (1, l);
  EVP_PKEY_new := toy_alloc_opt;
  EVP_PKEY_set1_RSA := fun _ _ l => (t_set1 l, l);
  X509_new := toy_alloc_opt;
  X509_add_ext := fun _ _ l => (1, l);
  X509_set := fun _ _ _ _ _ _ l => (1, l);
  X509_sign := fun _ _ l => (t_sign l, l);
  obj_free := fun p l => mk_x (tx_live l ∖ {[p]}) (t_set1 l) (t_sign l)
|}.

#[export] Instance toy_x509_laws : X509Laws tx_live.
Proof. constructor; intros; try done; intros l; cbn; (split; [apply is_fresh|done]). Qed.

Definition demo_x : toy_x := mk_x {[7%nat; 8%nat; 9%nat]} 1 1.
Definition demo_signed := default ((false, (None, None)), demo_x) (signCert (Some 7%nat) (Some 8%nat) 2048 9 (None, None) demo_x).

Lemma sign_cert_memory_witness :
  demo_signed.1.1 = true /\
  exists c k, demo_signed.1.2.1 = Some c /\ demo_signed.1.2.2 = Some k /\ (c ∉ tx_live demo_x) /\
    (k ∉ tx_live demo_x) /\ c <> k /\ leaks ({[c; k]} ∪ tx_live demo_x) (tx_live demo_signed.2).
Proof.
  split; [by vm_compute|].
  assert (signCert (Some 7%nat) (Some 8%nat) 2048 9 (None, None) demo_x =
    Some ((true, (demo_signed.1.2.1, demo_signed.1.2.2)), demo_signed.2)) as E by (vm_compute; reflexivity).
  exact (sign_cert_memory tx_live (Some 7%nat) (Some 8%nat) 2048 9 demo_x true demo_signed.1.2.1 demo_signed.1.2.2
    demo_signed.2 E).
Defined.

Lemma serial_number_exact_witness :
  genSerialNumber xmd5 (Some [47; 67; 65]) (Some [97; 46; 98]) (Some (hex [1; 171])) 128 =
    Some (true, [48; 120] ++ hex (xmd5 ([47; 67; 65] ++ [46] ++ hex [1; 171] ++ [46] ++ [97; 46; 98] ++ tigerso))).
Proof. apply (serial_number_exact xmd5); [intros s; apply length_replicate|vm_compute; lia..]. Defined.

(** When the key cannot be set, the caller is left with a pointer to a freed one. *)
Example sign_dangles :
  (fun x => (x.1, tx_live x.2)) <$> signCert (Some 7%nat) (Some 8%nat) 2048 9 (None, None) (mk_x {[7%nat; 8%nat; 9%nat]} (-1) 1) =
  Some ((false, (None, Some 13%nat)), {[7%nat; 8%nat; 9%nat; 12%nat]}).
Proof. by vm_compute. Qed.
