(* ===== verification/ClientHello.v ===== *)
(** * net/ssl/ClientHelloParser.h: the server name in a TLS greeting

    The parser walks a cursor over the caller's buffer, which it also modifies: it stores
    the record header back in host order. A [short] is signed. [Fault] is an access
    outside the buffer, [Spin] that the fuel of the loop over the extensions ran out. *)
From S2P Require Import Prelude.
Local Open Scope Z_scope.

Inductive res (A : Type) := Ok (x : A) | Fault | Spin.
Arguments Ok {A}. Arguments Fault {A}. Arguments Spin {A}.

#[export] Instance res_bind : MBind res := fun A B f m =>
  match m with Ok x => f x | Fault => Fault | Spin => Spin end.

Abbreviation i16 := (swrap 16).

(** The buffer, bytes as 0..255, read through pointers. *)
Definition byte_at (data : list Z) (cur : Z) : res Z :=
  if bool_decide (0 <= cur) then
    match data !! Z.to_nat cur with Some b => Ok b | None => Fault end
  else Fault.

(** [ntohs( *(short* )cur )] *)
Definition net16 (data : list Z) (cur : Z) : res Z :=
  a ← byte_at data cur;
  b ← byte_at data (cur + 1);
  Ok (a * 256 + b).

(** [x = ntohs(x)] on a field of the buffer. *)
Definition swap16 (i : nat) (data : list Z) : res (list Z) :=
  match data !! i, data !! S i with
  | Some a, Some b => Ok (<[i := b]> (<[S i := a]> data))
  | _, _ => Fault
  end.

Record ClientHelloParser := mk_parser {
  fVersion : Z; fCiphers : list Z; fServer : list Z; bCompleted : bool }.

Definition new_parser : ClientHelloParser := mk_parser (-1) [] [] false.

Definition CONTENT_TYPE_HANDSHAKE : Z := 22.
Definition sizeof_Recoder : Z := 5.
Definition sizeof_HandshakeClientHello : Z := 39.

(** The cipher suites: [n] of them from [cur] on. *)
Fixpoint read_ciphers (n : nat) (data : list Z) (cur : Z) (acc : list Z) : res (list Z) :=
  match n with
  | O => Ok acc
  | S n => c ← net16 data cur; read_ciphers n data (cur + 2) (acc ++ [c])
  end.

(** [std::string(cur, cur + n)], which throws for a negative length. *)
Fixpoint string_at (n : nat) (data : list Z) (cur : Z) : res (list Z) :=
  match n with
  | O => Ok []
  | S n => b ← byte_at data cur; s ← string_at n data (cur + 1); Ok (b :: s)
  end.

(** The body of the extension with type 0, at [cur] behind its header. *)
Definition server_name (data : list Z) (cur : Z) : res (list Z) :=
  _ ← net16 data cur;
  _ ← byte_at data (cur + 2);
  name_length ← net16 data (cur + 3);
  if bool_decide (i16 name_length < 0) then Fault
  else string_at (Z.to_nat (i16 name_length)) data (cur + 5).

(** The new value of [fServer]. *)
Fixpoint extensions (fuel : nat) (data : list Z) (cur end_ : Z) (server : list Z) : res (list Z) :=
  match fuel with
  | O => Spin
  | S fuel =>
      if bool_decide (cur < end_) then
        type ← net16 data cur;
        length ← net16 data (cur + 2);
        if bool_decide (i16 type = 0) then server_name data (cur + 4)
        else extensions fuel data (cur + 4 + i16 length) end_ server
      else Ok server
  end.

(** From the handshake on; the statement [fVersion - version] has no effect. *)
Definition parse_hello (fuel : nat) (data : list Z) (length : Z) (p : ClientHelloParser) :
    res (Z * list Z * ClientHelloParser) :=
  data ← swap16 9 data;
  session_length ← byte_at data 43;
  let cur := sizeof_Recoder + sizeof_HandshakeClientHello + i8 session_length in
  ciphers_length ← net16 data cur;
  let ciphers_length := i16 ciphers_length in
  let cur := cur + 2 in
  ciphers ← read_ciphers (Z.to_nat (Z.quot ciphers_length 2)) data cur (fCiphers p);
  let cur := cur + ciphers_length in
  compression_length ← byte_at data cur;
  let cur := cur + 1 + i8 compression_length in
  _ ← net16 data cur;
  let cur := cur + 2 in
  server ← extensions fuel data cur length (fServer p);
  Ok (0, data, mk_parser (fVersion p) ciphers server true).

(** The result is 0, -1 (not a handshake) or 1 (more bytes needed). *)
Definition parse (fuel : nat) (data : list Z) (length : Z) (p : ClientHelloParser) :
    res (Z * list Z * ClientHelloParser) :=
  if bool_decide (length < sizeof_Recoder) then Ok (1, data, p)
  else
    data ← swap16 1 data;
    data ← swap16 3 data;
    type ← byte_at data 0;
    if bool_decide (i8 type <> CONTENT_TYPE_HANDSHAKE) then Ok (-1, data, p)
    else
      a ← byte_at data 3;
      b ← byte_at data 4;
      let need := u64 (i16 (a + b * 256) + sizeof_Recoder) in
      if bool_decide (length < need) then Ok (1, data, p)
      else parse_hello fuel data length p.

Definition version (p : ClientHelloParser) : Z := fVersion p.
(** The C string: up to the first NUL. *)
Fixpoint c_string (s : list Z) : list Z :=
  match s with [] => [] | b :: s => if bool_decide (b = 0) then [] else b :: c_string s end.
Definition SNI (p : ClientHelloParser) : list Z := c_string (fServer p).
Definition eof (p : ClientHelloParser) : bool := bCompleted p.
Definition reset (p : ClientHelloParser) : ClientHelloParser := mk_parser (-1) [] (fServer p) false.

(** ** The format, RFC 5246 and 6066 *)
Definition be16 (n : Z) : list Z := [n / 256; n mod 256].

Record hello := mk_hello {
  h_version : Z; h_random : list Z; h_session : list Z; h_ciphers : list Z;
  h_compression : list Z; h_before : list (Z * list Z); h_name : list Z; h_after : list Z }.

Definition encode_ext (e : Z * list Z) : list Z := be16 e.1 ++ be16 (Z.of_nat (length e.2)) ++ e.2.
Definition name_ext (name : list Z) : list Z :=
  let n := Z.of_nat (length name) in
  be16 0 ++ be16 (n + 5) ++ be16 (n + 3) ++ [0] ++ be16 n ++ name.
(** [h_before]: the extensions in front of the name, [h_after] the bytes behind it. *)
Definition encode_exts (h : hello) : list Z :=
  concat (encode_ext <$> h_before h) ++ name_ext (h_name h) ++ h_after h.
Definition encode_tail (h : hello) : list Z :=
  [Z.of_nat (length (h_session h))] ++ h_session h ++
  be16 (2 * Z.of_nat (length (h_ciphers h))) ++ concat (be16 <$> h_ciphers h) ++
  [Z.of_nat (length (h_compression h))] ++ h_compression h ++
  be16 (Z.of_nat (length (encode_exts h))) ++ encode_exts h.
Definition encode_body (h : hello) : list Z := be16 (h_version h) ++ h_random h ++ encode_tail h.
Definition encode (h : hello) : list Z :=
  let n := Z.of_nat (length (encode_body h)) in
  [CONTENT_TYPE_HANDSHAKE] ++ be16 769 ++ be16 (n + 4) ++ [1; n / 65536] ++ be16 (n mod 65536) ++ encode_body h.

Record hello_ok (h : hello) : Prop := {
  ok_random : length (h_random h) = 32%nat;
  ok_session : (length (h_session h) <= 32)%nat;
  ok_ciphers : forall c, c ∈ h_ciphers h -> 0 <= c < 65536;
  ok_compression : (length (h_compression h) < 128)%nat;
  ok_before : forall e, e ∈ h_before h -> 0 < e.1 < 65536;
  ok_size : Z.of_nat (length (encode_body h)) + 4 < 32768
}.

(** ** Reading at a cursor *)
(** [bs] is in the buffer at [cur]. *)
Definition here (data : list Z) (cur : Z) (bs : list Z) : Prop :=
  exists pre post, data = pre ++ bs ++ post /\ cur = Z.of_nat (length pre).

Lemma here_app data cur xs ys :
  here data cur (xs ++ ys) -> here data cur xs /\ here data (cur + Z.of_nat (length xs)) ys.
Proof.
  intros (pre & post & -> & ->). split.
  - exists pre, (ys ++ post). by rewrite <- app_assoc.
  - exists (pre ++ xs), post. rewrite <- !app_assoc, length_app. split; [done|lia].
Qed.

Lemma here_byte data cur b bs : here data cur (b :: bs) -> byte_at data cur = Ok b.
Proof.
  intros (pre & post & -> & ->). unfold byte_at. rewrite bool_decide_eq_true_2 by lia.
  by rewrite Nat2Z.id, lookup_app_r, Nat.sub_diag by lia.
Qed.

Lemma here_next data cur b bs : here data cur (b :: bs) -> here data (cur + 1) bs.
Proof. intros H. by apply (here_app data cur [b]) in H as [_ H]. Qed.

Lemma here_net16 data cur n bs : here data cur (be16 n ++ bs) -> net16 data cur = Ok n.
Proof.
  intros H. unfold net16. rewrite (here_byte _ _ _ _ H). cbn [mbind res_bind].
  rewrite (here_byte _ _ _ _ (here_next _ _ _ _ H)). cbn [mbind res_bind]. f_equal.
  pose proof (Z.div_mod n 256). lia.
Qed.

Lemma here_string data s : forall cur, here data cur s -> string_at (length s) data cur = Ok s.
Proof.
  induction s as [|b s IH]; intros cur H; [done|]. cbn [length string_at].
  rewrite (here_byte _ _ _ _ H). cbn [mbind res_bind]. by rewrite (IH _ (here_next _ _ _ _ H)).
Qed.

Lemma here_ciphers data cs : forall cur acc,
  here data cur (concat (be16 <$> cs)) -> read_ciphers (length cs) data cur acc = Ok (acc ++ cs).
Proof.
  induction cs as [|c cs IH]; intros cur acc H; [by rewrite app_nil_r|]. cbn [length read_ciphers].
  cbn [fmap list_fmap concat] in H. rewrite (here_net16 _ _ _ _ H). cbn [mbind res_bind].
  apply here_app in H as [_ H]. rewrite IH by done. by rewrite <- app_assoc.
Qed.

Lemma i16_small z : -32768 <= z < 32768 -> i16 z = z.
Proof. intros. apply swrap_small; lia. Qed.

Lemma i16_nonzero z : 0 < z < 65536 -> i16 z <> 0.
Proof.
  intros Hz E. unfold swrap in E. change (2 ^ (16 - 1)) with 32768 in E. change (2 ^ 16) with 65536 in E.
  pose proof (Z.div_mod (z + 32768) 65536). pose proof (Z.div_le_lower_bound (z + 32768) 65536 0).
  pose proof (Z.div_lt_upper_bound (z + 32768) 65536 2). nia.
Qed.

Lemma here_name data cur name post :
  here data cur (name_ext name ++ post) -> Z.of_nat (length name) + 5 < 32768 ->
  net16 data cur = Ok 0 /\ server_name data (cur + 4) = Ok name.
Proof.
  intros H Hn. unfold name_ext in H. rewrite <- !app_assoc in H.
  apply here_app in H as [H0 H]. apply here_app in H as [_ H]. apply here_app in H as [H2 H].
  apply here_app in H as [H3 H]. apply here_app in H as [H4 H]. apply here_app in H as [H5 _].
  change (length (be16 _)) with 2%nat in *. cbn [length] in *. split; [by apply (here_net16 _ _ _ []); rewrite app_nil_r|].
  rewrite <- (app_nil_r (be16 (Z.of_nat (length name)))) in H4.
  rewrite <- (app_nil_r (be16 (_ + 3))) in H2.
  apply here_net16 in H2, H4. apply here_byte in H3.
  unfold server_name. replace (cur + 4) with (cur + Z.of_nat 2 + Z.of_nat 2) by lia.
  rewrite H2. cbn [mbind res_bind].
  replace (cur + Z.of_nat 2 + Z.of_nat 2 + 2) with (cur + Z.of_nat 2 + Z.of_nat 2 + Z.of_nat 2) by lia. rewrite H3. cbn [mbind res_bind].
  replace (cur + Z.of_nat 2 + Z.of_nat 2 + 3) with (cur + Z.of_nat 2 + Z.of_nat 2 + Z.of_nat 2 + Z.of_nat 1) by lia. rewrite H4. cbn [mbind res_bind].
  rewrite i16_small, bool_decide_eq_false_2 by lia. rewrite Nat2Z.id. apply here_string.
  replace (cur + Z.of_nat 2 + Z.of_nat 2 + 5) with (cur + Z.of_nat 2 + Z.of_nat 2 + Z.of_nat 2 + Z.of_nat 1 + Z.of_nat 2) by lia.
  exact H5.
Qed.

Lemma here_extensions data name post end_ server before : forall fuel cur,
  here data cur (concat (encode_ext <$> before) ++ name_ext name ++ post) ->
  (forall e, e ∈ before -> 0 < e.1 < 65536) ->
  cur + Z.of_nat (length (concat (encode_ext <$> before))) < end_ ->
  Z.of_nat (length (concat (encode_ext <$> before))) + Z.of_nat (length name) + 5 < 32768 ->
  (length before < fuel)%nat ->
  extensions fuel data cur end_ server = Ok name.
Proof.
  induction before as [|e before IH]; intros fuel cur H He Hend Hlen Hf; (destruct fuel as [|fuel]; [cbn in Hf; lia|]);
    cbn [extensions].
  - cbn [fmap list_fmap concat app length] in *. rewrite bool_decide_eq_true_2 by lia.
    destruct (here_name _ _ _ _ H ltac:(lia)) as [-> Hs]. cbn [mbind res_bind].
    unfold name_ext in H. rewrite <- !app_assoc in H. apply here_app in H as [_ H].
    change (Z.of_nat (length (be16 0))) with 2 in H.
    rewrite (here_net16 _ _ _ _ H). cbn [mbind res_bind]. by rewrite bool_decide_eq_true_2 by done.
  - cbn [fmap list_fmap concat] in *. rewrite length_app in *.
    assert (length (encode_ext e) = 4 + length e.2)%nat as El by (unfold encode_ext; by rewrite !length_app).
    rewrite bool_decide_eq_true_2 by lia. rewrite <- app_assoc in H. pose proof H as H'. unfold encode_ext at 1 in H.
    rewrite <- !app_assoc in H. rewrite (here_net16 _ _ _ _ H). cbn [mbind res_bind].
    apply here_app in H as [_ H]. change (Z.of_nat (length (be16 e.1))) with 2 in H.
    rewrite (here_net16 _ _ _ _ H). cbn [mbind res_bind].
    rewrite bool_decide_eq_false_2 by (apply i16_nonzero, He; by left). rewrite i16_small by lia.
    apply here_app in H' as [_ H']. apply IH; [|intros; apply He; by right|lia|lia|cbn in Hf; lia].
    by replace (cur + 4 + Z.of_nat (length e.2)) with (cur + Z.of_nat (length (encode_ext e))) by lia.
Qed.

Lemma length_ciphers cs : length (concat (be16 <$> cs)) = (2 * length cs)%nat.
Proof. induction cs; cbn [fmap list_fmap concat length]; rewrite ?length_app; cbn [length be16]; lia. Qed.

Lemma length_exts h :
  length (encode_exts h) =
  (length (concat (encode_ext <$> h_before h)) + 9 + length (h_name h) + length (h_after h))%nat.
Proof. unfold encode_exts, name_ext. rewrite !length_app. cbn [length be16]. lia. Qed.

Lemma length_tail h :
  length (encode_tail h) =
  (6 + length (h_session h) + 2 * length (h_ciphers h) + length (h_compression h) + length (encode_exts h))%nat.
Proof. unfold encode_tail. rewrite !length_app, length_ciphers. cbn [length be16]. lia. Qed.

Lemma i8_small_len n : (n < 128)%nat -> i8 (Z.of_nat n) = Z.of_nat n.
Proof. intros. apply i8_small. lia. Qed.

Lemma parse_hello_ok fuel data0 data h rest len p :
  swap16 9 data0 = Ok data -> here data 43 (encode_tail h ++ rest) -> hello_ok h ->
  43 + Z.of_nat (length (encode_tail h)) <= len -> (length (h_before h) < fuel)%nat ->
  parse_hello fuel data0 len p = Ok (0, data, mk_parser (fVersion p) (fCiphers p ++ h_ciphers h) (h_name h) true).
Proof.
  intros Hs H Hok Hlen Hf. destruct Hok as [Hr Hse Hci Hco Hbe Hsz].
  unfold encode_body in Hsz. rewrite !length_app in Hsz. change (length (be16 (h_version h))) with 2%nat in Hsz.
  rewrite length_tail, length_exts in *. unfold encode_tail in H. rewrite <- !app_assoc in H.
  unfold parse_hello. rewrite Hs. cbn [mbind res_bind].
  pose proof H as Hsl. apply here_byte in Hsl. apply here_app in H as [_ H]. apply here_app in H as [_ H].
  pose proof H as Hcl. apply here_net16 in Hcl. apply here_app in H as [_ H].
  apply here_app in H as [Hcs H].
  pose proof H as Hcm. apply here_byte in Hcm. apply here_app in H as [_ H]. apply here_app in H as [_ H].
  pose proof H as Hel. apply here_net16 in Hel. apply here_app in H as [_ H].
  change (length (be16 _)) with 2%nat in *. change (length [_]) with 1%nat in *.
  rewrite length_ciphers in *.
  set (c1 := 43 + Z.of_nat 1 + Z.of_nat (length (h_session h))) in *.
  set (c2 := c1 + Z.of_nat 2) in *. set (c3 := c2 + Z.of_nat (2 * length (h_ciphers h))) in *.
  set (c4 := c3 + Z.of_nat 1 + Z.of_nat (length (h_compression h))) in *.
  rewrite Hsl. cbn [mbind res_bind]. rewrite i8_small_len by lia.
  replace (sizeof_Recoder + sizeof_HandshakeClientHello + Z.of_nat (length (h_session h))) with c1
    by (unfold c1, sizeof_Recoder, sizeof_HandshakeClientHello; lia).
  rewrite Hcl. cbn [mbind res_bind]. rewrite i16_small by lia.
  replace (Z.to_nat (Z.quot (2 * Z.of_nat (length (h_ciphers h))) 2)) with (length (h_ciphers h))
    by (rewrite Z.quot_div_nonneg, Z.mul_comm, Z.div_mul by lia; lia).
  change (c1 + 2) with c2. rewrite (here_ciphers _ _ _ _ Hcs). cbn [mbind res_bind].
  replace (c2 + 2 * Z.of_nat (length (h_ciphers h))) with c3 by (unfold c3; lia).
  rewrite Hcm. cbn [mbind res_bind]. rewrite i8_small_len by lia.
  replace (c3 + 1 + Z.of_nat (length (h_compression h))) with c4 by (unfold c4; lia).
  rewrite Hel. cbn [mbind res_bind]. unfold encode_exts in H. rewrite <- !app_assoc in H.
  change (c4 + Z.of_nat 2) with (c4 + 2) in H.
  rewrite (here_extensions data (h_name h) (h_after h ++ rest)) with (before := h_before h); [done|exact H|done| |lia|done].
  unfold c4, c3, c2, c1. lia.
Qed.

Lemma be16_back n : 0 <= n < 32768 -> i16 (n mod 256 + n / 256 * 256) = n.
Proof. intros Hn. rewrite i16_small; pose proof (Z.div_mod n 256); lia. Qed.

(** The buffer after parsing: three fields are in host order now. *)
Definition swapped (bs : list Z) : list Z :=
  match bs with
  | t :: a :: b :: c :: d :: e :: f :: g :: h :: i :: j :: bs => t :: b :: a :: d :: c :: e :: f :: g :: h :: j :: i :: bs
  | _ => bs
  end.

(** C10. A greeting of the TLS format, with any bytes behind it, is parsed to its cipher
    suites and its server name; nothing outside the buffer is read. *)
Theorem client_hello_round_trip (h : hello) (rest : list Z) (p : ClientHelloParser) (fuel : nat) :
  hello_ok h -> (length (h_before h) < fuel)%nat ->
  let data := encode h ++ rest in
  parse fuel data (Z.of_nat (length data)) p =
    Ok (0, swapped data, mk_parser (fVersion p) (fCiphers p ++ h_ciphers h) (h_name h) true).
Proof.
  intros Hok Hf. pose proof (ok_size h Hok) as Hsz.
  set (n := Z.of_nat (length (encode_body h))) in *.
  assert (exists body, encode_body h ++ rest = h_version h / 256 :: h_version h mod 256 :: body /\
    body = h_random h ++ encode_tail h ++ rest) as (body & Eb & Hb).
  { eexists. split; [|reflexivity]. unfold encode_body. rewrite <- !app_assoc. done. }
  assert (encode h ++ rest = CONTENT_TYPE_HANDSHAKE :: 3 :: 1 :: (n + 4) / 256 :: (n + 4) mod 256 :: 1 :: n / 65536 ::
    n mod 65536 / 256 :: n mod 65536 mod 256 :: h_version h / 256 :: h_version h mod 256 :: body) as ->.
  { unfold encode. fold n. rewrite <- !app_assoc, Eb. done. }
  cbv zeta. set (len := Z.of_nat (length _)).
  assert (len = 43 + Z.of_nat (length (encode_tail h)) + Z.of_nat (length rest)) as Elen.
  { unfold len. cbn [length]. rewrite Hb, !length_app, (ok_random h Hok). lia. }
  assert (n = 34 + Z.of_nat (length (encode_tail h))) as En.
  { unfold n, encode_body. rewrite !length_app, (ok_random h Hok). cbn [length be16]. lia. }
  unfold parse, sizeof_Recoder. rewrite bool_decide_eq_false_2 by lia. cbn [swap16 lookup list_lookup insert list_insert mbind res_bind].
  change (byte_at _ 0) with (Ok CONTENT_TYPE_HANDSHAKE). cbn [mbind res_bind].
  rewrite bool_decide_eq_false_2 by (intros Hx; by apply Hx).
  match goal with |- context [byte_at ?d 3] => change (byte_at d 3) with (Ok ((n + 4) mod 256));
    change (byte_at d 4) with (Ok ((n + 4) / 256)) end. cbn [mbind res_bind].
  rewrite be16_back, u64_small, bool_decide_eq_false_2 by lia.
  apply (parse_hello_ok _ _ _ h rest); [done| |done|lia|done].
  exists (CONTENT_TYPE_HANDSHAKE :: 1 :: 3 :: (n + 4) mod 256 :: (n + 4) / 256 :: 1 :: n / 65536 ::
    n mod 65536 / 256 :: n mod 65536 mod 256 :: h_version h mod 256 :: h_version h / 256 :: h_random h), [].
  rewrite app_nil_r, Hb. split; [done|]. cbn [length]. by rewrite (ok_random h Hok).
Qed.

Definition sample_hello : hello :=
  mk_hello 771 (repeat 7 32) [1; 2; 3] [4865; 4866; 49195] [0] [(10, [0; 2; 0; 29]); (65281, [0])]
    [97; 46; 98] [0; 23; 0; 0].

Lemma sample_hello_ok : hello_ok sample_hello.
Proof.
  constructor; try (vm_compute; reflexivity).
  - cbn. lia.
  - intros c Hc. repeat (apply elem_of_cons in Hc as [->|Hc]; [lia|]). by apply elem_of_nil in Hc.
  - cbn. lia.
  - intros c Hc. repeat (apply elem_of_cons in Hc as [->|Hc]; [cbn; lia|]). by apply elem_of_nil in Hc.
Qed.

Lemma client_hello_round_trip_witness :
  let data := encode sample_hello ++ [23; 3; 3] in
  parse 5 data (Z.of_nat (length data)) new_parser =
    Ok (0, swapped data, mk_parser (-1) [4865; 4866; 49195] [97; 46; 98] true).
Proof. apply (client_hello_round_trip sample_hello [23; 3; 3] new_parser 5 sample_hello_ok). cbn. lia. Defined.

(** ** What a hostile greeting does *)
(** An extension that claims a length of -4 (bytes 255 and 252) sends the cursor back to
    where it was: the loop over the extensions never ends. *)
Theorem client_hello_hangs (data server : list Z) (a b : Z) (rest : list Z) (cur end_ : Z) (fuel : nat) :
  here data cur (a :: b :: 255 :: 252 :: rest) -> 0 < a * 256 + b < 65536 -> cur < end_ ->
  extensions fuel data cur end_ server = Spin.
Proof.
  intros H Hab Hend. assert (net16 data cur = Ok (a * 256 + b) /\ net16 data (cur + 2) = Ok (255 * 256 + 252)) as [E1 E2].
  { unfold net16. rewrite (here_byte _ _ _ _ H). apply here_next in H. cbn [mbind res_bind].
    rewrite (here_byte _ _ _ _ H). apply here_next in H. replace (cur + 2) with (cur + 1 + 1) by lia.
    rewrite (here_byte _ _ _ _ H). apply here_next in H. cbn [mbind res_bind]. by rewrite (here_byte _ _ _ _ H). }
  induction fuel as [|fuel IH]; [done|]. cbn [extensions]. rewrite bool_decide_eq_true_2 by done.
  rewrite E1. cbn [mbind res_bind]. rewrite E2. cbn [mbind res_bind].
  rewrite bool_decide_eq_false_2 by by apply i16_nonzero.
  change (i16 (255 * 256 + 252)) with (-4). by replace (cur + 4 + -4) with cur by lia.
Qed.

Lemma client_hello_hangs_witness : extensions 1000 [0; 10; 255; 252] 0 4 [] = Spin.
Proof. apply (client_hello_hangs _ _ 0 10 []); [by exists [], []|lia|lia]. Defined.

(** Lengths inside the record are not checked against it: this one is complete by its
    header and claims more cipher suites than it has. *)
Example client_hello_reads_outside :
  let data := [22; 3; 1; 0; 41; 1; 0; 0; 37; 3; 3] ++ repeat 0 32 ++ [0; 0; 2] in
  parse 10 data (Z.of_nat (length data)) new_parser = Fault.
Proof. by vm_compute. Qed.

(** A second attempt after "more bytes needed" reads a length in the wrong byte order: a
    greeting that comes in two pieces, parsed again once it is complete, is not accepted. *)
Example client_hello_retry_confused :
  let data := encode sample_hello in
  (fun x => x.1.1) <$> (match parse 5 (take 20 data) 20 new_parser with Ok x => Some x | _ => None end) = Some 1 /\
  (match parse 5 (take 20 data) 20 new_parser with
   | Ok (_, seen, p) =>
       match parse 5 (seen ++ drop 20 data) (Z.of_nat (length data)) p with Ok (r, _, _) => Some r | _ => None end
   | _ => None
   end) = Some 1.
Proof. by vm_compute. Qed.

(** The version is never stored, and [reset] keeps the server name. *)
Lemma client_hello_no_version fuel data len r data' p :
  parse fuel data len new_parser = Ok (r, data', p) -> version p = -1.
Proof.
  unfold parse, parse_hello. intros H.
  repeat match type of H with
  | (if ?b then _ else _) = _ => destruct b
  | mbind _ ?m = _ => destruct m; [cbn [mbind res_bind] in H|discriminate H|discriminate H]
  end; by injection H as <- <- <-.
Qed.

Lemma client_hello_reset_keeps_name p : SNI (reset p) = SNI p.
Proof. done. Qed.
