(* ===== verification/File.v ===== *)
(** * core/File.h and core/TempFile.h: files, and bodies that spill to a file

    The file system is a parameter: the class [FileSystem] of the calls that the code
    makes, over a state [F]. [FileLaws] states what is used of regular files: the bytes
    that a reading descriptor has in front of it and an appending descriptor of the same
    file. A [TempFile] starts in a memory buffer and moves to its file at the limit; it is
    a byte store in the sense of MemoryData.v in both modes. *)
From S2P Require Import Prelude Bytes MemoryData Buffer.
Local Open Scope Z_scope.

(** Access modes, open flags, origins of [lseek], operations of [flock]. *)
Definition F_OK : Z := 0.
Definition X_OK : Z := 1.
Definition W_OK : Z := 2.
Definition R_OK : Z := 4.
Definition O_RDONLY : Z := 0.
Definition O_WRONLY : Z := 1.
Definition O_RDWR : Z := 2.
Definition O_CREAT : Z := 64.
Definition O_APPEND : Z := 1024.
Definition SEEK_SET : Z := 0.
Definition SEEK_END : Z := 2.
Definition LOCK_EX : Z := 2.
Definition LOCK_NB : Z := 4.
Definition LOCK_UN : Z := 8.

Class FileSystem (F : Type) := {
  fs_access : list Z -> Z -> F -> bool;
  fs_open : list Z -> Z -> F -> Z * F;
  fs_lseek : Z -> Z -> Z -> F -> Z * F;
  fs_read : Z -> Z -> F -> Z * list Z * F;
  fs_write : Z -> list Z -> F -> Z * F;
  fs_flock : Z -> Z -> F -> Z * F;
  fs_unlink : list Z -> F -> Z * F;
  fs_close : Z -> F -> Z * F
}.

Definition kFileBufferSize : Z := 4096.

Record File := mk_File {
  fFullName : list Z; fReadFd : Z; fWriteFd : Z; fLockFd : Z; fLocked : bool; fLabelLength : Z }.

Definition File_new (fileName : list Z) : File := mk_File fileName (-1) (-1) (-1) false (-1).

Section file.
Context {F : Type} `{!FileSystem F}.
Implicit Types (f : File) (s : F).

Definition readable f s : bool := fs_access (fFullName f) R_OK s.
Definition writeable f s : bool := fs_access (fFullName f) W_OK s.
Definition executeable f s : bool := fs_access (fFullName f) X_OK s.
Definition existed f s : bool := fs_access (fFullName f) F_OK s.

Definition file_length f s : Z * F :=
  if negb (existed f s) then (0, s)
  else
    let '(fd, s) := fs_open (fFullName f) O_RDONLY s in
    let '(offset, s) := fs_lseek fd 0 SEEK_END s in
    let offset := if bool_decide (offset < 0) then 0 else offset in
    let '(_, s) := fs_close fd s in
    (offset, s).

Definition set_read (fd : Z) f := mk_File (fFullName f) fd (fWriteFd f) (fLockFd f) (fLocked f) (fLabelLength f).
Definition set_write (fd : Z) f := mk_File (fFullName f) (fReadFd f) fd (fLockFd f) (fLocked f) (fLabelLength f).
Definition set_lock (fd : Z) f := mk_File (fFullName f) (fReadFd f) (fWriteFd f) fd (fLocked f) (fLabelLength f).
Definition set_locked (b : bool) f := mk_File (fFullName f) (fReadFd f) (fWriteFd f) (fLockFd f) b (fLabelLength f).

(** The closed descriptors keep their numbers. *)
Definition closeRead f s : Z * F := fs_close (fReadFd f) s.
Definition closeWrite f s : Z * F := fs_close (fWriteFd f) s.
Definition closeLock f s : Z * F := fs_close (fLockFd f) s.
Definition file_close f s : F := (closeLock f (closeWrite f (closeRead f s).2).2).2.

Definition openRead (offset : Z) f s : bool * File * F :=
  if bool_decide (0 < fReadFd f) && bool_decide (offset = -1) then (true, f, s)
  else
    let '(f, s) := if bool_decide (fReadFd f <= 0)
                   then let '(fd, s) := fs_open (fFullName f) (Z.lor O_RDONLY O_CREAT) s in (set_read fd f, s)
                   else (f, s) in
    if bool_decide (fReadFd f <= 0) then (false, f, s)
    else if bool_decide (0 <= offset) then
      let '(r, s) := fs_lseek (fReadFd f) offset SEEK_SET s in
      if bool_decide (r < 0) then (false, f, (closeRead f s).2) else (true, f, s)
    else (true, f, s).

Definition openWrite f s : bool * File * F :=
  if bool_decide (0 < fWriteFd f) then (true, f, s)
  else
    let '(fd, s) := fs_open (fFullName f) (Z.lor O_WRONLY (Z.lor O_CREAT O_APPEND)) s in
    (bool_decide (0 < fd), set_write fd f, s).

Definition openLock f s : bool * File * F :=
  if bool_decide (0 < fLockFd f) then (true, f, s)
  else
    let '(fd, s) := fs_open (fFullName f) (Z.lor O_RDWR O_CREAT) s in
    (bool_decide (0 < fd), set_lock fd f, s).

Definition lock f s : bool * File * F :=
  let '(r, s) := fs_flock (fLockFd f) LOCK_EX s in
  if bool_decide (r = 0) then (true, set_locked true f, s) else (false, f, s).

Definition locked f : bool := fLocked f.

(** The result does not depend on the outcome. *)
Definition tryLock f s : bool * File * F :=
  let '(r, s) := fs_flock (fLockFd f) (Z.lor LOCK_EX LOCK_NB) s in
  if bool_decide (r = 0) then (false, set_locked true f, s) else (false, f, s).

Definition unlock f s : bool * File * F :=
  let '(r, s) := fs_flock (fLockFd f) LOCK_UN s in
  if bool_decide (r = 0) then (true, set_locked false f, s) else (false, f, s).

Definition setLabelLength (len : Z) f : Z * File :=
  (len, mk_File (fFullName f) (fReadFd f) (fWriteFd f) (fLockFd f) (fLocked f) len).

Definition file_read f s (buf_len : Z) : Z * list Z * File * F :=
  let '(_, f, s) := openRead (-1) f s in
  let '(r, bs, s) := fs_read (fReadFd f) buf_len s in
  (r, bs, f, s).

Definition readRange f s (buf_len offset len : Z) : Z * list Z * File * F :=
  let '(_, f, s) := openRead (-1) f s in
  let '(rs, s) := fs_lseek (fReadFd f) offset SEEK_SET s in
  let rs := i32 rs in
  if bool_decide (rs < 0) then (rs, [], f, s)
  else
    let '(r, bs, s) := fs_read (fReadFd f) (Z.min buf_len len) s in
    (i32 r, bs, f, s).

Definition append f s (bs : list Z) : Z * File * F :=
  let '(_, f, s) := openWrite f s in
  if bool_decide (fWriteFd f < 0) then (-1, f, s)
  else let '(r, s) := fs_write (fWriteFd f) bs s in (i32 r, f, s).

Definition file_write := append.

Definition unlink f s : Z * F := fs_unlink (fFullName f) s.

(** The two loops that send to a writer. [None]: the fuel is used up, or the writer
    claims more than it was given. *)
Context {W : Type} (w_write : W -> list Z -> Z * W).

Fixpoint push (fuel : nat) (bs : list Z) (w : W) : option (bool * W) :=
  match bs with
  | [] => Some (true, w)
  | _ =>
      match fuel with
      | O => None
      | S fuel =>
          let '(res, w) := w_write w bs in
          let res := i32 res in
          if bool_decide (res < 0) then Some (false, w)
          else if bool_decide (vsize bs < res) then None
          else push fuel (drop (Z.to_nat res) bs) w
      end
  end.

Fixpoint send_rest (fuel : nat) (len : Z) f s w : option (Z * File * F * W) :=
  match fuel with
  | O => None
  | S fuel =>
      let '(cnt, bs, f, s) := file_read f s kFileBufferSize in
      let cnt := i32 cnt in
      if bool_decide (0 < cnt) then
        len ← cint (len + cnt);
        '(ok, w) ← push fuel bs w;
        if (ok : bool) then send_rest fuel len f s w else Some (-1, f, s, w)
      else Some (if bool_decide (cnt < 0) then -1 else len, f, s, w)
  end.

(** [sendTo(w, len)]; [std::min] is on [size_t]. *)
Fixpoint send_label (fuel : nat) (len want all cnt : Z) f s w : option (Z * File * F * W) :=
  match fuel with
  | O => None
  | S fuel =>
      if bool_decide (0 < want) then
        let '(cnt, bs, f, s) := file_read f s want in
        let cnt := i32 cnt in
        if bool_decide (0 < cnt) then
          all ← cint (all + cnt);
          let want := i32 (Z.min (u64 (len - u64 all)) kFileBufferSize) in
          '(ok, w) ← push fuel bs w;
          if (ok : bool) then send_label fuel len want all 0 f s w else Some (-1, f, s, w)
        else Some (if bool_decide (cnt < 0) then -1 else i64 len, f, s, w)
      else Some (if bool_decide (cnt < 0) then -1 else i64 len, f, s, w)
  end.

Definition file_sendTo (fuel : nat) f s w : option (Z * File * F * W) :=
  if bool_decide (0 < fLabelLength f)
  then send_label fuel (fLabelLength f) (i32 (Z.min (fLabelLength f) kFileBufferSize)) 0 0 f s w
  else send_rest fuel 0 f s w.
End file.

(** ** core/TempFile.h *)
Inductive TEMPFILE_MODE := TEMPFILE_BUFFER | TEMPFILE_FILE.
#[export] Instance tempfile_mode_eq_dec : EqDecision TEMPFILE_MODE.
Proof. solve_decision. Defined.

Definition kTempFileDir : list Z := [47; 116; 109; 112; 47].

Record TempFile := mk_TempFile {
  fMode : TEMPFILE_MODE; fBuf : Buffer.Buffer; fFile : File; kMemoryLimit : Z }.

Section tempfile.
Context {F : Type} `{!FileSystem F}.
Implicit Types (t : TempFile) (s : F).

(** [TempFile(tmp_file, limit)]; the other constructor passes a new id as the name. *)
Definition TempFile_new (tmp_file : list Z) (limit : Z) s : TempFile * F :=
  let f := File_new (kTempFileDir ++ tmp_file) in
  let '(_, f, s) := openRead (-1) f s in
  let '(_, f, s) := openWrite f s in
  (mk_TempFile TEMPFILE_BUFFER (Buffer_new 4096) f limit, s).

Definition tf_length t s : Z * F :=
  match fMode t with
  | TEMPFILE_BUFFER => (Buffer.length (fBuf t), s)
  | TEMPFILE_FILE => file_length (fFile t) s
  end.

Definition tf_read t s (buf_len : Z) : option (Z * list Z * TempFile * F) :=
  match fMode t with
  | TEMPFILE_BUFFER =>
      '(r, bs, b) ← Buffer.read (fBuf t) buf_len;
      Some (r, bs, mk_TempFile (fMode t) b (fFile t) (kMemoryLimit t), s)
  | TEMPFILE_FILE =>
      let '(r, bs, f, s) := file_read (fFile t) s buf_len in
      Some (r, bs, mk_TempFile (fMode t) (fBuf t) f (kMemoryLimit t), s)
  end.

(** The loop of [dumpToFile]; the result of the write to the file is not looked at. *)
Fixpoint dump_loop (fuel : nat) (b : Buffer.Buffer) (f : File) s : option (Buffer.Buffer * File * F) :=
  match fuel with
  | O => None
  | S fuel =>
      if bool_decide (0 < Buffer.length b) then
        '(_, bs, b) ← Buffer.read b 4096;
        let '(_, f, s) := file_write f s bs in
        dump_loop fuel b f s
      else Some (b, f, s)
  end.

Definition dumpToFile t s : option (Z * TempFile * F) :=
  let len := i32 (Buffer.length (fBuf t)) in
  '(b, f, s) ← dump_loop (S (Z.to_nat (Buffer.length (fBuf t)))) (fBuf t) (fFile t) s;
  Some (len, mk_TempFile TEMPFILE_FILE b f (kMemoryLimit t), s).

Definition setDiskMode t s : option (TempFile * F) :=
  '(_, t, s) ← dumpToFile t s; Some (t, s).
Definition setMemoryMode t : TempFile :=
  mk_TempFile TEMPFILE_BUFFER (fBuf t) (fFile t) (kMemoryLimit t).

Definition tf_write_file t s (bs : list Z) : Z * TempFile * F :=
  let '(r, f, s) := file_write (fFile t) s bs in
  (r, mk_TempFile (fMode t) (fBuf t) f (kMemoryLimit t), s).

(** The loop runs at most twice: after [dumpToFile] the mode is the file. *)
Definition tf_write t s (bs : list Z) : option (Z * TempFile * F) :=
  match fMode t with
  | TEMPFILE_BUFFER =>
      if bool_decide (kMemoryLimit t < u64 (Buffer.length (fBuf t) + vsize bs)) then
        '(_, t, s) ← dumpToFile t s; Some (tf_write_file t s bs)
      else
        '(r, b) ← Buffer.write (fBuf t) bs;
        Some (r, mk_TempFile (fMode t) b (fFile t) (kMemoryLimit t), s)
  | TEMPFILE_FILE => Some (tf_write_file t s bs)
  end.

Definition tf_sendTo {W} (w_write : W -> list Z -> Z * W) (fuel : nat) t s (w : W) :
    option (Z * TempFile * F * W) :=
  match fMode t with
  | TEMPFILE_BUFFER =>
      '(r, w) ← Buffer.sendTo w_write (fBuf t) w; Some (r, t, s, w)
  | TEMPFILE_FILE =>
      '(r, f, s, w) ← file_sendTo w_write fuel (fFile t) s w;
      Some (r, mk_TempFile (fMode t) (fBuf t) f (kMemoryLimit t), s, w)
  end.

Definition tf_clear t s : TempFile * F :=
  let '(_, s) := unlink (fFile t) s in
  (mk_TempFile TEMPFILE_BUFFER (Buffer.clear (fBuf t)) (fFile t) (kMemoryLimit t), s).
End tempfile.

(** ** What the code relies on *)
(** [unread r s] are the bytes of the file behind the offset of the descriptor [r];
    [linked r w s]: [w] appends to the same file. The disk is not full. *)
Class FileLaws (F : Type) `{FileSystem F} (unread : Z -> F -> list Z) (linked : Z -> Z -> F -> Prop) := {
  linked_pos r w s : linked r w s -> 0 < r /\ 0 < w;
  read_law r w s n : linked r w s -> 0 <= n ->
    exists s', fs_read r n s =
      (vsize (take (Z.to_nat n) (unread r s)), take (Z.to_nat n) (unread r s), s') /\
      linked r w s' /\ unread r s' = drop (Z.to_nat n) (unread r s);
  write_law r w s bs : linked r w s -> vsize bs <= INT_MAX ->
    exists s', fs_write w bs s = (vsize bs, s') /\ linked r w s' /\ unread r s' = unread r s ++ bs;
  open_law name s : fs_access name F_OK s = false ->
    exists r w s1 s2, fs_open name (Z.lor O_RDONLY O_CREAT) s = (r, s1) /\
      fs_open name (Z.lor O_WRONLY (Z.lor O_CREAT O_APPEND)) s1 = (w, s2) /\
      (0 < r -> 0 < w -> linked r w s2 /\ unread r s2 = []);
  unlink_law r w name s : linked r w s ->
    linked r w (fs_unlink name s).2 /\ unread r (fs_unlink name s).2 = unread r s
}.

Section fifo.
Context {F : Type} `{HF : FileLaws F unread linked}.
Implicit Types (t : TempFile) (s : F).

(** The stored bytes: those of the buffer, or those of the file not read yet. *)
Definition stored (t : TempFile) (s : F) (c : list Z) : Prop :=
  linked (fReadFd (fFile t)) (fWriteFd (fFile t)) s /\ 0 <= kMemoryLimit t <= 2 ^ 30 /\
  inv (fBuf t) /\
  match fMode t with
  | TEMPFILE_BUFFER => content (fBuf t) = c /\ unread (fReadFd (fFile t)) s = []
  | TEMPFILE_FILE => content (fBuf t) = [] /\ unread (fReadFd (fFile t)) s = c
  end.

Lemma file_read_runs f s n :
  linked (fReadFd f) (fWriteFd f) s -> 0 <= n ->
  exists s', file_read f s n =
    (vsize (take (Z.to_nat n) (unread (fReadFd f) s)), take (Z.to_nat n) (unread (fReadFd f) s), f, s') /\
    linked (fReadFd f) (fWriteFd f) s' /\ unread (fReadFd f) s' = drop (Z.to_nat n) (unread (fReadFd f) s).
Proof.
  intros Hl Hn. destruct (linked_pos _ _ _ Hl) as [Hr Hw]. unfold file_read, openRead.
  rewrite (bool_decide_eq_true_2 (0 < _)), (bool_decide_eq_true_2 (-1 = -1)) by done. cbn [andb].
  destruct (read_law _ _ s n Hl Hn) as (s' & E & Hl' & Hu). rewrite E. eauto.
Qed.

Lemma file_write_runs f s bs :
  linked (fReadFd f) (fWriteFd f) s -> vsize bs <= INT_MAX ->
  exists s', file_write f s bs = (vsize bs, f, s') /\
    linked (fReadFd f) (fWriteFd f) s' /\ unread (fReadFd f) s' = unread (fReadFd f) s ++ bs.
Proof.
  intros Hl Hb. destruct (linked_pos _ _ _ Hl) as [Hr Hw]. unfold file_write, append, openWrite.
  rewrite bool_decide_eq_true_2 by done. rewrite bool_decide_eq_false_2 by lia.
  destruct (write_law _ _ s bs Hl Hb) as (s' & E & Hl' & Hu). rewrite E.
  pose proof (vsize_nonneg bs). unfold INT_MAX in Hb. rewrite i32_small by lia. eauto.
Qed.

Lemma dump_loop_runs fuel : forall b f s,
  inv b -> linked (fReadFd f) (fWriteFd f) s -> vsize (content b) < Z.of_nat fuel ->
  exists b' s', dump_loop fuel b f s = Some (b', f, s') /\ inv b' /\ content b' = [] /\
    linked (fReadFd f) (fWriteFd f) s' /\ unread (fReadFd f) s' = unread (fReadFd f) s ++ content b.
Proof.
  induction fuel as [|fuel IH]; intros b f s Hi Hl Hf; [pose proof (vsize_nonneg (content b)); lia|].
  destruct (sizes b Hi) as (_ & El & _). pose proof (vsize_content b Hi) as Hc. cbn [dump_loop].
  case_bool_decide as H0.
  - destruct (read_spec b 4096 Hi ltac:(lia)) as (b1 & -> & Hi1 & Hc1 & _). cbn [mbind option_bind].
    destruct (file_write_runs f s (take (Z.to_nat 4096) (content b)) Hl) as (s1 & -> & Hl1 & Hu1).
    { unfold vsize, INT_MAX. rewrite length_take. lia. }
    destruct (IH b1 f s1 Hi1 Hl1) as (b2 & s2 & E & Hi2 & Hc2 & Hl2 & Hu2).
    { rewrite Hc1. unfold vsize in *. rewrite length_drop. lia. }
    exists b2, s2. split_and!; try done. by rewrite Hu2, Hu1, Hc1, <- app_assoc, take_drop.
  - assert (content b = []) as E by (apply content_nil; destruct Hi; lia). exists b, s. split_and!; try done.
    by rewrite E, app_nil_r.
Qed.

Lemma dumpToFile_runs t s c :
  stored t s c ->
  exists n t' s', dumpToFile t s = Some (n, t', s') /\ stored t' s' c /\ fMode t' = TEMPFILE_FILE.
Proof.
  intros (Hl & Hk & Hi & Hm). destruct (sizes _ Hi) as (_ & El & _). pose proof (vsize_content _ Hi) as Hc.
  unfold dumpToFile.
  destruct (dump_loop_runs (S (Z.to_nat (Buffer.length (fBuf t)))) (fBuf t) (fFile t) s)
    as (b & s' & -> & Hi' & Hc' & Hl' & Hu); [done|done|lia|]. cbn [mbind option_bind].
  eexists _, _, _. split; [done|]. split; [|done]. split; [done|]. split; [done|]. split; [done|]. cbn.
  split; [done|]. rewrite Hu. destruct (fMode t), Hm as [H1 H2]; rewrite H1, H2; [done|apply app_nil_r].
Qed.

Lemma tf_read_runs t s c n :
  stored t s c -> 0 <= n ->
  exists t' s', tf_read t s n = Some (Z.min n (vsize c), take (Z.to_nat n) c, t', s') /\
    stored t' s' (drop (Z.to_nat n) c).
Proof.
  intros (Hl & Hk & Hi & Hm) Hn. unfold tf_read. destruct (fMode t) eqn:Em, Hm as [H1 H2].
  - destruct (read_spec (fBuf t) n Hi Hn) as (b & -> & Hi' & Hc' & _). cbn [mbind option_bind].
    rewrite H1 in *. eexists _, _. split; [done|]. split; [done|]. split; [done|]. split; [done|]. done.
  - destruct (file_read_runs (fFile t) s n Hl Hn) as (s' & -> & Hl' & Hu). rewrite H2 in *.
    eexists _, _. split.
    + assert (vsize (take (Z.to_nat n) c) = Z.min n (vsize c)) as -> by (unfold vsize; rewrite length_take; lia). done.
    + split; [done|]. split; [done|]. split; [done|]. done.
Qed.

Lemma tf_write_runs t s c bs :
  stored t s c -> vsize bs <= 2 ^ 30 -> (fMode t = TEMPFILE_BUFFER -> fits (fBuf t) (vsize bs)) ->
  exists t' s', tf_write t s bs = Some (vsize bs, t', s') /\ stored t' s' (c ++ bs).
Proof.
  intros Hst Hb Hfit. pose proof Hst as (Hl & Hk & Hi & Hm). pose proof (vsize_nonneg bs).
  assert (forall t1 s1, stored t1 s1 c -> fMode t1 = TEMPFILE_FILE ->
    exists t' s', tf_write_file t1 s1 bs = (vsize bs, t', s') /\ stored t' s' (c ++ bs)) as Hfile.
  { intros t1 s1 (Hl1 & Hk1 & Hi1 & Hm1) Em1. rewrite Em1 in Hm1. destruct Hm1 as [H1 H2]. unfold tf_write_file.
    destruct (file_write_runs (fFile t1) s1 bs Hl1) as (s2 & -> & Hl2 & Hu2); [unfold INT_MAX; lia|].
    eexists _, _. split; [done|]. rewrite H2 in Hu2. split; [done|]. split; [done|]. split; [done|]. cbn. by rewrite Em1. }
  unfold tf_write. destruct (fMode t) eqn:Em.
  - case_bool_decide as Hlim.
    + destruct (dumpToFile_runs t s c Hst) as (n & t1 & s1 & -> & Hst1 & Em1). cbn [mbind option_bind].
      destruct (Hfile t1 s1 Hst1 Em1) as (t2 & s2 & -> & ?). eauto.
    + destruct (Hfit eq_refl) as (Hh & H64 & Hroom).
      destruct (write_spec (fBuf t) bs Hi Hh H64 Hroom) as (b & -> & Hi' & Hc' & _). cbn [mbind option_bind].
      destruct Hm as [H1 H2]. eexists _, _. split; [done|]. split; [done|]. split; [done|]. split; [done|].
      cbn. by rewrite Hc', H1.
  - destruct (Hfile t s Hst Em) as (t2 & s2 & -> & ?). eauto.
Qed.

(** A store whose limit leaves the reserve of its first buffer never gets into the states
    that Buffer.v calls hazardous. *)
Definition safe (t : TempFile) : Prop :=
  fMode t = TEMPFILE_FILE \/ (vsize (fData (fBuf t)) = 4096 /\ kMemoryLimit t <= 4079).

Lemma tf_write_safe t s c bs :
  stored t s c -> safe t -> vsize bs <= 2 ^ 30 ->
  exists t' s', tf_write t s bs = Some (vsize bs, t', s') /\ stored t' s' (c ++ bs) /\ safe t'.
Proof.
  intros Hst Hsafe Hb. pose proof Hst as (Hl & Hk & Hi & Hm). pose proof (vsize_nonneg bs).
  destruct (fMode t) eqn:Em.
  - destruct Hsafe as [?|[Hv Hlim]]; [congruence|]. destruct Hm as [H1 H2].
    destruct (sizes _ Hi) as (_ & El & _). pose proof (vsize_content _ Hi) as Hc.
    pose proof (vsize_nonneg (content (fBuf t))). pose proof Hi as [Hi1 Hi2 Hi3].
    destruct (decide (kMemoryLimit t < Buffer.length (fBuf t) + vsize bs)) as [Hs|Hs].
    + unfold tf_write. rewrite Em, u64_small, bool_decide_eq_true_2 by lia.
      destruct (dumpToFile_runs t s c Hst) as (n & t1 & s1 & -> & Hst1 & Em1). cbn [mbind option_bind].
      destruct (tf_write_runs t1 s1 c bs Hst1 Hb ltac:(by rewrite Em1)) as (t2 & s2 & E & Hst2).
      unfold tf_write in E. rewrite Em1 in E. injection E as E. rewrite E. eexists _, _. split; [done|]. split; [done|].
      left. unfold tf_write_file in E. destruct (file_write _ _ _) as [[??]?]. by injection E as _ <- _.
    + unfold tf_write. rewrite Em, u64_small, bool_decide_eq_false_2 by lia.
      destruct (write_roomy (fBuf t) bs Hi) as (b & -> & Hi' & Hc' & Hv'); [unfold slack; lia|]. cbn [mbind option_bind].
      eexists _, _. split; [done|]. split; [split; [done|]; split; [done|]; split; [done|]; cbn; by rewrite Hc', H1|].
      right. cbn. by rewrite Hv'.
  - destruct (tf_write_runs t s c bs Hst Hb ltac:(by rewrite Em)) as (t2 & s2 & E & Hst2). exists t2, s2.
    split; [done|]. split; [done|]. left. unfold tf_write in E. rewrite Em in E. injection E as E.
    unfold tf_write_file in E. destruct (file_write _ _ _) as [[??]?]. by injection E as _ <- _.
Qed.
End fifo.

(** The store as a [Data]: a [TempFile] with its file system. *)
Record tempfile (F : Type) := mk_tempfile { tf : TempFile; tf_fs : F }.
Arguments mk_tempfile {F}. Arguments tf {F}. Arguments tf_fs {F}.

Definition tempfile_read {F} `{!FileSystem F} (d : tempfile F) (n : Z) : option (Z * list Z * tempfile F) :=
  '(r, bs, t, s) ← tf_read (tf d) (tf_fs d) n; Some (r, bs, mk_tempfile t s).
Definition tempfile_write {F} `{!FileSystem F} (d : tempfile F) (bs : list Z) : option (Z * tempfile F) :=
  '(r, t, s) ← tf_write (tf d) (tf_fs d) bs; Some (r, mk_tempfile t s).

#[export] Program Instance tempfile_data (F : Type) `{HF : FileLaws F unread linked} : Data (tempfile F) := {
  data_rep := fun d c => stored (unread := unread) (linked := linked) (tf d) (tf_fs d) c;
  data_fits := fun d n => n <= 2 ^ 30 /\ (fMode (tf d) = TEMPFILE_BUFFER -> fits (fBuf (tf d)) n);
  data_read := tempfile_read;
  data_write := tempfile_write
}.
Next Obligation.
  intros F H unread linked HF d c n Hst Hn.
  destruct (tf_read_runs _ _ _ n Hst Hn) as (t' & s' & E & Hst').
  unfold tempfile_read, tempfile_write. rewrite E. cbn. by eexists.
Qed.
Next Obligation.
  intros F H unread linked HF d c bs Hst [Hb Hfit].
  destruct (tf_write_runs _ _ _ bs Hst Hb Hfit) as (t' & s' & E & Hst').
  unfold tempfile_read, tempfile_write. rewrite E. cbn. by eexists.
Qed.

(** ** A file system to run the code on *)
(** Names, contents of the files, descriptors with file and offset, and two counters. *)
Record toyfs := mk_toyfs {
  names : gmap (list Z) nat; datas : gmap nat (list Z); descs : gmap Z (nat * nat);
  next_file : nat; next_fd : Z }.

Definition toyfs0 : toyfs := mk_toyfs ∅ ∅ ∅ 0 3.

Definition toy_fs_open (name : list Z) (_ : Z) (s : toyfs) : Z * toyfs :=
  match names s !! name with
  | Some i => (next_fd s, mk_toyfs (names s) (datas s) (<[next_fd s := (i, 0%nat)]> (descs s)) (next_file s) (next_fd s + 1))
  | None =>
      let i := next_file s in
      (next_fd s, mk_toyfs (<[name := i]> (names s)) (<[i := []]> (datas s))
        (<[next_fd s := (i, 0%nat)]> (descs s)) (S i) (next_fd s + 1))
  end.

Definition toy_fs_read (fd n : Z) (s : toyfs) : Z * list Z * toyfs :=
  match descs s !! fd with
  | Some (i, o) =>
      let bs := take (Z.to_nat n) (drop o (default [] (datas s !! i))) in
      (vsize bs, bs, mk_toyfs (names s) (datas s) (<[fd := (i, (o + List.length bs)%nat)]> (descs s)) (next_file s) (next_fd s))
  | None => (-1, [], s)
  end.

Definition toy_fs_write (fd : Z) (bs : list Z) (s : toyfs) : Z * toyfs :=
  match descs s !! fd with
  | Some (i, o) =>
      (vsize bs, mk_toyfs (names s) (<[i := default [] (datas s !! i) ++ bs]> (datas s)) (descs s) (next_file s) (next_fd s))
  | None => (-1, s)
  end.

Definition toy_fs_lseek (fd offset whence : Z) (s : toyfs) : Z * toyfs :=
  match descs s !! fd with
  | Some (i, o) =>
      let o := if bool_decide (whence = SEEK_END) then List.length (default [] (datas s !! i)) else Z.to_nat offset in
      (Z.of_nat o, mk_toyfs (names s) (datas s) (<[fd := (i, o)]> (descs s)) (next_file s) (next_fd s))
  | None => (-1, s)
  end.

#[export] Instance toy_filesystem : FileSystem toyfs := {|
  fs_access := fun name _ s => bool_decide (is_Some (names s !! name));
  fs_open := toy_fs_open;
  fs_lseek := toy_fs_lseek;
  fs_read := toy_fs_read;
  fs_write := toy_fs_write;
  fs_flock := fun _ _ s => (0, s);
  fs_unlink := fun name s => (0, mk_toyfs (delete name (names s)) (datas s) (descs s) (next_file s) (next_fd s));
  fs_close := fun fd s => (0, mk_toyfs (names s) (datas s) (delete fd (descs s)) (next_file s) (next_fd s))
|}.

Definition toy_unread (r : Z) (s : toyfs) : list Z :=
  match descs s !! r with Some (i, o) => drop o (default [] (datas s !! i)) | None => [] end.
Definition toy_linked (r w : Z) (s : toyfs) : Prop :=
  0 < r /\ 0 < w /\ r <> w /\ exists i o o' d, descs s !! r = Some (i, o) /\ descs s !! w = Some (i, o') /\
    datas s !! i = Some d /\ (o <= List.length d)%nat.

#[export] Instance toyfs_laws : FileLaws toyfs toy_unread toy_linked.
Proof.
  constructor.
  - intros r w s (? & ? & _). done.
  - intros r w s n (Hr & Hw & Hne & i & o & o' & d & Er & Ew & Ed & Ho) Hn.
    cbn [fs_read toy_filesystem]. unfold toy_fs_read, toy_unread. rewrite Er, Ed. cbn [default from_option id].
    eexists. split; [done|]. cbn. rewrite lookup_insert_eq, Ed. cbn [default from_option id]. split.
    + split_and!; [done..|]. exists i, (o + List.length (take (Z.to_nat n) (drop o d)))%nat, o', d. cbn.
      rewrite lookup_insert_eq, lookup_insert_ne by done. split_and!; [done..|].
      rewrite length_take, length_drop. lia.
    + rewrite <- drop_drop, length_take, length_drop.
      destruct (decide (Z.to_nat n <= List.length d - o)%nat).
      * by rewrite Nat.min_l by lia.
      * rewrite !drop_ge; [done|rewrite length_drop; lia..].
  - intros r w s bs (Hr & Hw & Hne & i & o & o' & d & Er & Ew & Ed & Ho) Hb.
    cbn [fs_write toy_filesystem]. unfold toy_fs_write, toy_unread. rewrite Ew, Er, Ed. cbn [default from_option id].
    eexists. split; [done|]. cbn. rewrite Er, lookup_insert_eq. cbn [default from_option id]. split.
    + split_and!; [done..|]. exists i, o, o', (d ++ bs). cbn. rewrite lookup_insert_eq, length_app.
      split_and!; [done..|lia].
    + by rewrite drop_app_le by lia.
  - intros name s. cbn [fs_access fs_open toy_filesystem]. intros Hn%bool_decide_eq_false_1.
    destruct (names s !! name) as [j|] eqn:Ej; [by destruct Hn|]. unfold toy_fs_open. rewrite Ej.
    eexists _, _, _, _. split; [done|]. cbn. rewrite lookup_insert_eq. split; [done|]. intros H1 H2. split.
    + split_and!; [done|done|lia|]. exists (next_file s), 0%nat, 0%nat, []. cbn.
      rewrite lookup_insert_eq, lookup_insert_ne, lookup_insert_eq, lookup_insert_eq by lia. done.
    + unfold toy_unread. cbn. rewrite lookup_insert_ne, lookup_insert_eq, lookup_insert_eq by lia. done.
  - intros r w name s Hl. done.
Qed.

(** ** Sending a file *)
Section send.
Context {F : Type} `{HF : FileLaws F unread linked}.
Context {W : Type} (w_write : W -> list Z -> Z * W) (taken : W -> list Z) (good : W -> Prop) (lim : Z).
Context (w_law : writer w_write taken good lim) (Hlim : kFileBufferSize <= lim <= INT_MAX).

Lemma push_runs fuel : forall bs w,
  (List.length bs <= fuel)%nat -> good w -> vsize bs <= lim ->
  exists ok w' k, push w_write fuel bs w = Some (ok, w') /\ good w' /\ taken w' = taken w ++ take k bs /\
    (ok = true -> take k bs = bs).
Proof.
  induction fuel as [|fuel IH]; intros [|b bs] w Hf Hg Hb; try (by exists true, w, 0%nat; cbn; rewrite app_nil_r);
    [cbn in Hf; lia|].
  pose proof (w_law w (b :: bs) Hg ltac:(done) Hb) as Hw. cbn [push]. destruct (w_write w (b :: bs)) as [res w1].
  unfold INT_MAX in *. destruct Hw as [Hg1 [[Hr Ht]|[Hr [k Ht]]]]; rewrite i32_small by lia.
  - rewrite (bool_decide_eq_false_2 (res < 0)), (bool_decide_eq_false_2 (vsize _ < res)) by lia.
    destruct (IH (drop (Z.to_nat res) (b :: bs)) w1) as (ok & w2 & k & E & Hg2 & Ht2 & Hk); [|done| |].
    { rewrite length_drop. cbn in *. lia. }
    { unfold vsize in *. rewrite length_drop. lia. }
    exists ok, w2, (Z.to_nat res + k)%nat. rewrite <- take_take_drop. split; [done|]. split; [done|].
    split; [by rewrite Ht2, Ht, <- app_assoc|]. intros ->. by rewrite Hk, take_drop.
  - rewrite bool_decide_eq_true_2 by lia. by exists false, w1, k.
Qed.

Lemma send_rest_runs fuel : forall len f s w,
  linked (fReadFd f) (fWriteFd f) s -> (List.length (unread (fReadFd f) s) < fuel)%nat -> good w ->
  0 <= len -> len + vsize (unread (fReadFd f) s) <= INT_MAX ->
  exists r s' w' k, send_rest w_write fuel len f s w = Some (r, f, s', w') /\ good w' /\
    linked (fReadFd f) (fWriteFd f) s' /\ taken w' = taken w ++ take k (unread (fReadFd f) s) /\
    ((r = len + vsize (unread (fReadFd f) s) /\ take k (unread (fReadFd f) s) = unread (fReadFd f) s) \/ r = -1).
Proof.
  induction fuel as [|fuel IH]; intros len f s w Hl Hf Hg Hlen Hmax; [lia|]. cbn [send_rest].
  pose proof Hlim as Hlim'. unfold kFileBufferSize in Hlim'. set (c := unread (fReadFd f) s) in *. pose proof (vsize_nonneg c) as Hc0. unfold INT_MAX in *.
  destruct (file_read_runs f s kFileBufferSize Hl ltac:(done)) as (s1 & -> & Hl1 & Hu1). fold c in Hu1 |- *.
  set (bs := take (Z.to_nat kFileBufferSize) c) in *.
  assert (vsize bs <= vsize c /\ vsize bs = Z.min 4096 (vsize c)) as [Hle Hmin].
  { unfold bs, vsize, kFileBufferSize. rewrite length_take. lia. }
  rewrite i32_small by lia. case_bool_decide as H0.
  - rewrite cint_ok by (unfold INT_MAX; lia). cbn [mbind option_bind].
    destruct (push_runs fuel bs w) as (ok & w1 & k & -> & Hg1 & Ht & Hk); [unfold vsize in *; lia|done|lia|].
    cbn [mbind option_bind]. destruct ok.
    + specialize (Hk eq_refl). rewrite Hk in Ht.
      destruct (IH (len + vsize bs) f s1 w1 Hl1) as (r & s2 & w2 & k2 & E & Hg2 & Hl2 & Ht2 & Hr); [|done|..].
      { rewrite Hu1, length_drop. unfold vsize in *. change (Z.to_nat kFileBufferSize) with (Z.to_nat 4096). lia. }
      { pose proof (vsize_nonneg bs). lia. }
      { rewrite Hu1. unfold vsize in *. rewrite length_drop. change (Z.to_nat kFileBufferSize) with (Z.to_nat 4096). lia. }
      exists r, s2, w2, (Z.to_nat kFileBufferSize + k2)%nat. rewrite <- take_take_drop. fold bs.
      split; [done|]. split; [done|]. split; [done|]. rewrite Ht2, Ht, Hu1, <- app_assoc. split; [done|].
      destruct Hr as [[-> Hk2]|?]; [left|by right]. rewrite Hu1 in Hk2 |- *. rewrite Hk2.
      split; [|apply take_drop]. unfold vsize in *. rewrite length_drop in *.
      change (Z.to_nat kFileBufferSize) with (Z.to_nat 4096). lia.
    + exists (-1), s1, w1, (k `min` Z.to_nat kFileBufferSize)%nat. split; [done|]. split; [done|]. split; [done|]. rewrite Ht.
      split; [|by right]. unfold bs. by rewrite take_take.
  - rewrite bool_decide_eq_false_2 by lia. exists len, s1, w, 0%nat. cbn. rewrite app_nil_r.
    split; [done|]. split; [done|]. split; [done|]. split; [done|]. left. assert (c = []) as -> by (destruct c; [done|unfold vsize in *; cbn in *; lia]).
    split; [cbn; lia|done].
Qed.
End send.


Definition toy_tempfile : TempFile := (TempFile_new [97] 6 toyfs0).1.
Definition toy_tempfile_fs : toyfs := (TempFile_new [97] 6 toyfs0).2.

Lemma toy_tempfile_stored : stored (unread := toy_unread) (linked := toy_linked) toy_tempfile toy_tempfile_fs [].
Proof.
  destruct (Buffer_new_inv 4096 ltac:(lia)) as (Hi & Hc & _).
  split; [|split; [vm_compute; intuition discriminate|split; [exact Hi|split; [exact Hc|done]]]].
  split_and!; [done..|]. exists 0%nat, 0%nat, 0%nat, []. split_and!; done.
Qed.




Lemma clear_inv b : inv b -> inv (Buffer.clear b) /\ content (Buffer.clear b) = [].
Proof.
  intros [[] ? ?]. unfold Buffer.clear, kBufferPrefixed. split; [|by apply content_nil].
  constructor; cbn; lia.
Qed.

(** [clear] of a store that moved to disk unlinks the name but keeps the open file with
    its unread bytes: when the next content moves to disk it is read after the old one. *)
Theorem tempfile_clear_keeps (F : Type) `{HF : FileLaws F unread linked} (t : TempFile) (s : F) (c bs : list Z) :
  stored (unread := unread) (linked := linked) t s c -> fMode t = TEMPFILE_FILE ->
  kMemoryLimit t < vsize bs <= 2 ^ 30 ->
  let '(t1, s1) := tf_clear t s in
  exists t2 s2, tf_write t1 s1 bs = Some (vsize bs, t2, s2) /\
    stored (unread := unread) (linked := linked) t2 s2 (c ++ bs).
Proof.
  intros (Hl & Hk & Hi & Hm) Em Hb. rewrite Em in Hm. destruct Hm as [Hc Hu]. unfold tf_clear, unlink.
  destruct (unlink_law _ _ (fFullName (fFile t)) s Hl) as [Hl1 Hu1].
  destruct (fs_unlink (fFullName (fFile t)) s) as [x s1]. cbn [snd] in *.
  destruct (clear_inv _ Hi) as [Hi1 Hc1]. unfold tf_write. cbn [fMode fBuf kMemoryLimit].
  destruct (sizes _ Hi1) as (_ & El & _). pose proof (vsize_content _ Hi1) as Hv. rewrite Hc1 in Hv. cbn in Hv.
  assert (Buffer.length (Buffer.clear (fBuf t)) = 0) as E0 by reflexivity. rewrite E0, u64_small by lia.
  rewrite bool_decide_eq_true_2 by lia. unfold dumpToFile. cbn [fBuf fFile kMemoryLimit].
  destruct (dump_loop_runs (S (Z.to_nat (Buffer.length (Buffer.clear (fBuf t))))) (Buffer.clear (fBuf t)) (fFile t) s1)
    as (b & s2 & Ed & Hi2 & Hc2 & Hl2 & Hu2); [done|done|rewrite Hc1; cbn; lia|].
  rewrite E0 in Ed |- *. rewrite Ed. cbn [mbind option_bind].
  rewrite Hc1, app_nil_r in Hu2. unfold tf_write_file. cbn [fFile fMode fBuf kMemoryLimit].
  destruct (file_write_runs (fFile t) s2 bs Hl2) as (s3 & -> & Hl3 & Hu3); [unfold INT_MAX; lia|].
  eexists _, _. split; [done|]. split; [done|]. split; [done|]. split; [done|]. cbn.
  by rewrite Hu3, Hu2, Hu1, Hu.
Qed.

Lemma tempfile_clear_keeps_witness :
  let t := mk_TempFile TEMPFILE_FILE (Buffer_new 4096) (mk_File [97] 3 4 (-1) false (-1)) 2 in
  let s := mk_toyfs {[[97] := 0%nat]} {[0%nat := [1; 2; 3]]} {[3 := (0%nat, 1%nat); 4 := (0%nat, 0%nat)]} 1 5 in
  let '(t1, s1) := tf_clear t s in
  exists t2 s2, tf_write t1 s1 [7; 8; 9] = Some (3, t2, s2) /\
    stored (unread := toy_unread) (linked := toy_linked) t2 s2 ([2; 3] ++ [7; 8; 9]).
Proof.
  cbv zeta. apply (tempfile_clear_keeps toyfs _ _ [2; 3] [7; 8; 9]); [|done|by vm_compute].
  destruct (Buffer_new_inv 4096 ltac:(lia)) as (Hi & Hc & _).
  split; [|split; [vm_compute; intuition discriminate|split; [exact Hi|split; [exact Hc|done]]]].
  split_and!; [done..|]. exists 0%nat, 1%nat, 0%nat, [1; 2; 3]. split_and!; [done..|cbn; lia].
Defined.

(** After [clear] the name is gone, and with it the length that decides whether there is
    anything to send. *)
Lemma tf_length_unlinked (F : Type) `{!FileSystem F} (t : TempFile) (s : F) :
  fMode t = TEMPFILE_FILE -> fs_access (fFullName (fFile t)) F_OK s = false -> tf_length t s = (0, s).
Proof. intros Em Ha. unfold tf_length. rewrite Em. unfold file_length, existed. by rewrite Ha. Qed.

(** [tryLock] says no even when it took the lock. *)
Lemma tryLock_false (F : Type) `{!FileSystem F} f (s : F) : (tryLock f s).1.1 = false.
Proof. unfold tryLock. destruct (fs_flock _ _ s) as [r s']. by destruct (bool_decide (r = 0)). Qed.

(** In file mode the length counts what was read already. *)
Example tf_length_counts_read :
  let t := mk_TempFile TEMPFILE_FILE (Buffer_new 4096) (mk_File [97] 3 4 (-1) false (-1)) 2 in
  let s := mk_toyfs {[[97] := 0%nat]} {[0%nat := [1; 2; 3]]} {[3 := (0%nat, 1%nat); 4 := (0%nat, 0%nat)]} 1 5 in
  (tf_length t s).1 = 3 /\ (fun x => x.1.1.1) <$> tf_read t s 10 = Some 2.
Proof. by vm_compute. Qed.
