(* ===== verification/Http.v ===== *)
(** * proto/http: messages over http-parser

    Headers, bodies and the callbacks that build a message from what http-parser reports.
    That library is outside: the names of methods and statuses are parameters, and a parse
    is the sequence of callbacks it makes, whatever it is. Bodies live in the [TempFile] of
    File.v, headers are written to the [Buffer] of Buffer.v. *)
From stdpp Require Import strings sorting.
From S2P Require Import Prelude Bytes MemoryData Buffer File.
Local Open Scope Z_scope.

Definition CRLF : list Z := [13; 10].

Inductive http_parser_type := HTTP_REQUEST | HTTP_RESPONSE.
#[export] Instance http_type_eq_dec : EqDecision http_parser_type.
Proof. solve_decision. Defined.

Definition HTTP_VERSION_STR : list (list Z) := [text "HTTP/0.9"; text "HTTP/1.0"; text "HTTP/1.1"].
Definition HTTP_10 : Z := 1.
Definition HTTP_11 : Z := 2.

(** The order of the keys of a [std::map<std::string, ...>]. *)
Fixpoint lex_le (a b : list Z) : bool :=
  match a, b with
  | [], _ => true
  | _ :: _, [] => false
  | x :: a, y :: b => bool_decide (x < y) || (bool_decide (x = y) && lex_le a b)
  end.
Definition key_le (e f : list Z * list Z) : Prop := lex_le e.1 f.1 = true.
#[export] Instance key_le_dec e f : Decision (key_le e f).
Proof. unfold key_le. apply _. Defined.

(** [method] and [status_code] have no value until a message sets them. *)
Record HttpHeader := mk_header {
  hversion : Z; hmethod : option Z; status_code : option Z; uri : list Z; status_desc : list Z;
  hbuffer : Buffer; htype : http_parser_type; kHeaderLimitSize : Z; fHeaders : gmap (list Z) (list Z) }.

Definition HttpHeader_new (t : http_parser_type) (limit_size : Z) : HttpHeader :=
  mk_header HTTP_11 None None [] [] (Buffer_new limit_size) t limit_size ∅.

Definition set_buffer (b : Buffer) (h : HttpHeader) : HttpHeader :=
  mk_header (hversion h) (hmethod h) (status_code h) (uri h) (status_desc h) b (htype h) (kHeaderLimitSize h) (fHeaders h).
Definition set_headers (m : gmap (list Z) (list Z)) (h : HttpHeader) : HttpHeader :=
  mk_header (hversion h) (hmethod h) (status_code h) (uri h) (status_desc h) (hbuffer h) (htype h) (kHeaderLimitSize h) m.
Definition set_desc (d : list Z) (h : HttpHeader) : HttpHeader :=
  mk_header (hversion h) (hmethod h) (status_code h) (uri h) d (hbuffer h) (htype h) (kHeaderLimitSize h) (fHeaders h).

Definition getHeader (key : list Z) (h : HttpHeader) : option (list Z) := fHeaders h !! key.
Definition setHeader (key value : list Z) (h : HttpHeader) : HttpHeader :=
  if bool_decide (key = []) || bool_decide (value = []) then h
  else set_headers (<[key := value]> (fHeaders h)) h.

(** The lines in the order of iteration. *)
Definition entries (h : HttpHeader) : list (list Z * list Z) := merge_sort key_le (map_to_list (fHeaders h)).

Section header.
Context (method_str status_str : Z -> list Z) (to_string : Z -> list Z).

(** The writes of the first line, and the header with the description filled in. *)
Definition start_line (h : HttpHeader) : option (list (list Z) * HttpHeader) :=
  v ← (if bool_decide (0 <= hversion h) then HTTP_VERSION_STR !! Z.to_nat (hversion h) else None);
  match htype h with
  | HTTP_REQUEST =>
      m ← hmethod h;
      Some ([method_str m; [32]; uri h; [32]; v; [13]; [10]], h)
  | HTTP_RESPONSE =>
      c ← status_code h;
      let h := if bool_decide (status_desc h = []) then set_desc (status_str c) h else h in
      Some ([v; [32]; to_string c; [32]; status_desc h; [13]; [10]], h)
  end.

Definition header_line (e : list Z * list Z) : list (list Z) := [e.1; [58]; [32]; e.2; [13]; [10]].

Fixpoint write_all (pieces : list (list Z)) (b : Buffer) : option Buffer :=
  match pieces with
  | [] => Some b
  | p :: pieces => '(_, b) ← Buffer.write b p; write_all pieces b
  end.

Definition dumpToBuffer (h : HttpHeader) : option (bool * HttpHeader) :=
  '(line, h) ← start_line h;
  b ← write_all (line ++ concat (header_line <$> entries h) ++ [[13]; [10]]) (Buffer.clear (hbuffer h));
  Some (negb (bool_decide (kHeaderLimitSize h < Buffer.length b)), set_buffer b h).

Definition exceedLimit (h : HttpHeader) : bool := bool_decide (kHeaderLimitSize h < Buffer.length (hbuffer h)).

(** Only the buffer and the lines: version, uri and description stay. *)
Definition header_reset (h : HttpHeader) : HttpHeader := set_headers ∅ (set_buffer (Buffer.clear (hbuffer h)) h).

Definition header_sendTo {W} (w_write : W -> list Z -> Z * W) (h : HttpHeader) (w : W) : option (Z * HttpHeader * W) :=
  '(_, h) ← dumpToBuffer h;
  '(r, w) ← Buffer.sendTo w_write (hbuffer h) w;
  Some (r, h, w).

(** [r_read] fills the free space behind the write index. *)
Definition header_recvFrom {R} (r_read : R -> Z -> Z * list Z * R) (h : HttpHeader) (r : R) : option (Z * HttpHeader * R) :=
  let b := hbuffer h in
  let '(res, bs, r) := r_read r (Buffer.right b) in
  if bool_decide (0 < res) then
    v ← mwrite (fData b) (fWriteIdx b) bs;
    '(_, b) ← Buffer.fill (mk_Buffer v (fReadIdx b) (fWriteIdx b)) None res;
    Some (res, set_buffer b h, r)
  else Some (res, h, r).
End header.

(** ** HttpBody.h *)
Inductive HTTPBODY_MODE := HTTPBODY_TEMP | HTTPBODY_DISK.

Record HttpBody := mk_body { bData : TempFile; pFile : option File; bMode : HTTPBODY_MODE }.

Section body.
Context {F : Type} `{!FileSystem F}.
Implicit Types (b : HttpBody) (s : F).

Definition body_length b s : option (Z * F) :=
  match bMode b with
  | HTTPBODY_DISK => f ← pFile b; Some (file_length f s)
  | HTTPBODY_TEMP => Some (tf_length (bData b) s)
  end.

Definition body_read b s (n : Z) : option (Z * list Z * HttpBody * F) :=
  match bMode b with
  | HTTPBODY_DISK =>
      f ← pFile b;
      let '(r, bs, f, s) := file_read f s n in Some (r, bs, mk_body (bData b) (Some f) (bMode b), s)
  | HTTPBODY_TEMP =>
      '(r, bs, t, s) ← tf_read (bData b) s n; Some (r, bs, mk_body t (pFile b) (bMode b), s)
  end.

Definition body_write b s (bs : list Z) : option (Z * HttpBody * F) :=
  match bMode b with
  | HTTPBODY_DISK =>
      f ← pFile b;
      let '(r, f, s) := file_write f s bs in Some (r, mk_body (bData b) (Some f) (bMode b), s)
  | HTTPBODY_TEMP =>
      '(r, t, s) ← tf_write (bData b) s bs; Some (r, mk_body t (pFile b) (bMode b), s)
  end.

(** The line break goes out behind every body. *)
Definition body_sendTo {W} (w_write : W -> list Z -> Z * W) (fuel : nat) b s (w : W) : option (Z * HttpBody * F * W) :=
  '(len, s) ← body_length b s;
  if bool_decide (len = 0) then Some (0, b, s, w)
  else
    '(r, b, s, w) ← match bMode b with
      | HTTPBODY_DISK =>
          f ← pFile b; '(r, f, s, w) ← file_sendTo w_write fuel f s w;
          Some (r, mk_body (bData b) (Some f) (bMode b), s, w)
      | HTTPBODY_TEMP =>
          '(r, t, s, w) ← tf_sendTo w_write fuel (bData b) s w;
          Some (r, mk_body t (pFile b) (bMode b), s, w)
      end;
    if bool_decide (r < 0) then Some (r, b, s, w)
    else
      let '(n, w) := w_write w CRLF in
      Some (if bool_decide (n < 0) then -1 else r, b, s, w).

(** [dumpAsFile]: the inner loop hands a block to the file. *)
Fixpoint dump_block (fuel : nat) (bs : list Z) (f : File) s : option (Z * File * F) :=
  match fuel with
  | O => None
  | S fuel =>
      if bool_decide (0 < vsize bs) then
        let '(cnt, f, s) := file_write f s bs in
        if bool_decide (0 < cnt) then
          if bool_decide (vsize bs < cnt) then None else dump_block fuel (drop (Z.to_nat cnt) bs) f s
        else Some (cnt, f, s)
      else Some (0, f, s)
  end.

Fixpoint dump_body (fuel : nat) (len : Z) b (f : File) s : option (Z * HttpBody * File * F) :=
  match fuel with
  | O => None
  | S fuel =>
      '(r, bs, b, s) ← body_read b s 65536;
      if bool_decide (0 < i32 r) then
        '(cnt, f, s) ← dump_block (S (List.length bs)) bs f s;
        if bool_decide (cnt < 0) then Some (-1, b, f, s) else dump_body fuel len b f s
      else Some (if bool_decide (i32 r < 0) then -1 else len, b, f, s)
  end.

Definition dumpAsFile (fuel : nat) b (f : File) s : option (Z * HttpBody * File * F) :=
  '(len, s) ← body_length b s;
  dump_body fuel len b f s.

Definition useFile (f : File) b : HttpBody := mk_body (bData b) (Some f) HTTPBODY_DISK.
Definition getFile b : option File :=
  match bMode b with HTTPBODY_DISK => pFile b | HTTPBODY_TEMP => None end.
Definition body_reset b s : HttpBody * F :=
  let '(t, s) := tf_clear (bData b) s in (mk_body t None HTTPBODY_TEMP, s).
End body.

(** ** HttpParser.h *)
(** The callbacks with the data that http-parser hands them. *)
Inductive event :=
  | on_message_begin | on_message_complete | on_url (at_ : list Z) | on_status (at_ : list Z)
  | on_header_field (at_ : list Z) | on_header_value (at_ : list Z) | on_body (at_ : list Z)
  | on_headers_complete (method status major minor : Z) (keep_alive : bool).

Record HttpParser := mk_http {
  header : HttpHeader; body : HttpBody; bEndOfMessage : bool; bHeadRequest : bool;
  bKeepalive : bool; bHeadersCompleted : bool; bInited : bool; fHeaderKey : list Z }.

Definition set_header (h : HttpHeader) (p : HttpParser) : HttpParser :=
  mk_http h (body p) (bEndOfMessage p) (bHeadRequest p) (bKeepalive p) (bHeadersCompleted p) (bInited p) (fHeaderKey p).
Definition set_body (b : HttpBody) (p : HttpParser) : HttpParser :=
  mk_http (header p) b (bEndOfMessage p) (bHeadRequest p) (bKeepalive p) (bHeadersCompleted p) (bInited p) (fHeaderKey p).
Definition set_key (k : list Z) (p : HttpParser) : HttpParser :=
  mk_http (header p) (body p) (bEndOfMessage p) (bHeadRequest p) (bKeepalive p) (bHeadersCompleted p) (bInited p) k.
Definition set_uri (u : list Z) (h : HttpHeader) : HttpHeader :=
  mk_header (hversion h) (hmethod h) (status_code h) u (status_desc h) (hbuffer h) (htype h) (kHeaderLimitSize h) (fHeaders h).

Definition setHeadRequest (p : HttpParser) : HttpParser :=
  mk_http (header p) (body p) (bEndOfMessage p) true (bKeepalive p) (bHeadersCompleted p) (bInited p) (fHeaderKey p).

Definition __http_on_message_complete (p : HttpParser) : HttpParser :=
  mk_http (header p) (body p) true (bHeadRequest p) (bKeepalive p) (bHeadersCompleted p) (bInited p) (fHeaderKey p).

(** The result 1 tells http-parser that no body follows. *)
Definition __http_on_headers_complete (method status major minor : Z) (keep_alive : bool) (p : HttpParser) : Z * HttpParser :=
  let h := header p in
  let h := match htype h with
    | HTTP_REQUEST => mk_header (hversion h) (Some method) (status_code h) (uri h) (status_desc h) (hbuffer h)
                        (htype h) (kHeaderLimitSize h) (fHeaders h)
    | HTTP_RESPONSE => mk_header (hversion h) (hmethod h) (Some status) (uri h) (status_desc h) (hbuffer h)
                        (htype h) (kHeaderLimitSize h) (fHeaders h)
    end in
  let h := if negb (bool_decide (0 < major) && bool_decide (0 < minor))
           then mk_header HTTP_10 (hmethod h) (status_code h) (uri h) (status_desc h) (hbuffer h)
                  (htype h) (kHeaderLimitSize h) (fHeaders h)
           else h in
  let p := mk_http h (body p) (bEndOfMessage p) (bHeadRequest p) keep_alive true (bInited p) (fHeaderKey p) in
  (if bool_decide (htype h = HTTP_RESPONSE) && bHeadRequest p then 1 else 0, p).

Section parser.
Context {F : Type} `{!FileSystem F}.

Definition on_event (e : event) (p : HttpParser) (s : F) : option (Z * HttpParser * F) :=
  match e with
  | on_message_begin => Some (0, p, s)
  | on_message_complete => Some (0, __http_on_message_complete p, s)
  | on_headers_complete m st ma mi k =>
      let '(r, p) := __http_on_headers_complete m st ma mi k p in Some (r, p, s)
  | on_url at_ => Some (0, set_header (set_uri at_ (header p)) p, s)
  | on_status at_ => Some (0, set_header (set_desc at_ (header p)) p, s)
  | on_header_field at_ => Some (0, set_key at_ p, s)
  | on_header_value at_ => Some (0, set_header (setHeader (fHeaderKey p) at_ (header p)) p, s)
  | on_body at_ => '(_, b, s) ← body_write (body p) s at_; Some (0, set_body b p, s)
  end.

Fixpoint on_events (es : list event) (p : HttpParser) (s : F) : option (HttpParser * F) :=
  match es with
  | [] => Some (p, s)
  | e :: es => '(_, p, s) ← on_event e p s; on_events es p s
  end.

(** The flags that [init] and [reset] put back. *)
Definition http_init (p : HttpParser) : HttpParser :=
  mk_http (header p) (body p) false (bHeadRequest p) false false true (fHeaderKey p).

Definition http_reset (p : HttpParser) (s : F) : HttpParser * F :=
  let '(b, s) := body_reset (body p) s in
  (mk_http (header_reset (header p)) b false false false false false [], s).

(** [execute] is http-parser over its state [P]: the bytes it consumed, the callbacks it
    made for them, and its next state; [fresh] is its state after [http_parser_init]. *)
Context {P : Type} (execute : P -> list Z -> Z * list event * P) (fresh : http_parser_type -> P).

Definition http_parse (buf : list Z) (p : HttpParser) (x : P) (s : F) : option (Z * HttpParser * P * F) :=
  let '(p, x) := if bInited p then (p, x) else (http_init p, fresh (htype (header p))) in
  let '(n, es, x) := execute x buf in
  '(p, s) ← on_events es p s;
  Some (i32 n, p, x, s).

Definition http_sendTo {W} (method_str status_str to_string : Z -> list Z) (w_write : W -> list Z -> Z * W)
    (fuel : nat) (p : HttpParser) (s : F) (w : W) : option (Z * HttpParser * F * W) :=
  '(res, h, w) ← header_sendTo method_str status_str to_string w_write (header p) w;
  let p := set_header h p in
  if bool_decide (res < 0) then Some (res, p, s, w)
  else
    '(r, b, s, w) ← body_sendTo w_write fuel (body p) s w;
    Some (if bool_decide (r < 0) then r else i64 (res + r), set_body b p, s, w).

Definition getHost (p : HttpParser) : option (list Z) := getHeader (text "Host") (header p).
Definition setHost (hostname : list Z) (p : HttpParser) : HttpParser :=
  set_header (setHeader (text "Host") hostname (header p)) p.

(** ** HttpConnection.h *)
(** [sock] reads from the socket; a read result of at most 0 ends the loop. *)
Context {R : Type} (sock : R -> Z -> Z * list Z * R).

Fixpoint recv_loop (fuel : nat) (b : Buffer) (p : HttpParser) (x : P) (s : F) (r : R) :
    option (bool * Buffer * HttpParser * P * F * R) :=
  match fuel with
  | O => None
  | S fuel =>
      if bEndOfMessage p then Some (true, b, p, x, s, r)
      else
        let '(n, bs, r) := sock r (Buffer.right b) in
        if bool_decide (n <= 0) then Some (false, b, p, x, s, r)
        else
          v ← mwrite (fData b) (fWriteIdx b) bs;
          '(_, b) ← Buffer.fill (mk_Buffer v (fReadIdx b) (fWriteIdx b)) None n;
          data ← mread (fData b) (fReadIdx b) (Buffer.length b);
          '(k, p, x, s) ← http_parse data p x s;
          if bool_decide (k <= 0) then Some (false, b, p, x, s, r)
          else '(_, b) ← Buffer.shrink b k; recv_loop fuel b p x s r
  end.

(** What an earlier call left in the buffer is dropped first. *)
Definition http_recv (fuel : nat) (b : Buffer) (p : HttpParser) (x : P) (s : F) (r : R) :
    option (bool * Buffer * HttpParser * P * F * R) :=
  recv_loop fuel (Buffer.clear b) p x s r.
End parser.

(** ** Messages *)
(** The callbacks for a message whose parts arrive unsplit: [hs] the header lines, [chunks]
    the pieces of the body. *)
Definition line_events (hs : list (list Z * list Z)) : list event :=
  concat ((fun e => [on_header_field e.1; on_header_value e.2]) <$> hs).
Definition request_events (method major minor : Z) (keep_alive : bool) (url : list Z)
    (hs : list (list Z * list Z)) (chunks : list (list Z)) : list event :=
  [on_message_begin; on_url url] ++ line_events hs ++
  [on_headers_complete method 0 major minor keep_alive] ++ (on_body <$> chunks) ++ [on_message_complete].

(** The later of two lines with one name wins; empty values are not kept. *)
Definition header_map (hs : list (list Z * list Z)) (m : gmap (list Z) (list Z)) : gmap (list Z) (list Z) :=
  foldl (fun m e => if bool_decide (e.1 = []) || bool_decide (e.2 = []) then m else <[e.1 := e.2]> m) m hs.

Section messages.
Context {F : Type} `{HF : FileLaws F unread linked}.
Implicit Types (p : HttpParser) (s : F).

Lemma on_events_app es fs p s p1 s1 :
  on_events es p s = Some (p1, s1) -> on_events (es ++ fs) p s = on_events fs p1 s1.
Proof.
  revert p s. induction es as [|e es IH]; intros p s E0; [by injection E0 as -> ->|]. cbn [on_events app] in *.
  destruct (on_event e p s) as [[[r p2] s2]|]; [|done]. cbn [mbind option_bind] in *. by apply IH.
Qed.

Lemma lines_run hs : forall p s,
  exists k, on_events (line_events hs) p s =
    Some (set_key k (set_header (set_headers (header_map hs (fHeaders (header p))) (header p)) p), s).
Proof.
  induction hs as [|[k v] hs IH]; intros p s.
  - exists (fHeaderKey p). by destruct p as [[]].
  - destruct (IH (set_header (setHeader k v (header p)) (set_key k p)) s) as (k' & E). exists k'.
    change (line_events ((k, v) :: hs)) with (on_header_field k :: on_header_value v :: line_events hs).
    cbn [on_events on_event mbind option_bind fHeaderKey set_key header]. rewrite E. unfold setHeader.
    cbn [header_map foldl fst snd]. by destruct (bool_decide (k = []) || bool_decide (v = [])).
Qed.

(** Bodies in the store of a parser that was not told to use a file. *)
Definition holds p s c : Prop :=
  bMode (body p) = HTTPBODY_TEMP /\ safe (bData (body p)) /\
  stored (unread := unread) (linked := linked) (bData (body p)) s c.

Lemma chunks_run chunks : forall p s c,
  holds p s c -> (forall b, b ∈ chunks -> vsize b <= 2 ^ 30) ->
  exists b s', on_events (on_body <$> chunks) p s = Some (set_body b p, s') /\
    holds (set_body b p) s' (c ++ concat chunks).
Proof.
  induction chunks as [|b chunks IH]; intros p s c (Hm & Hs & Hst) Hb.
  - exists (body p), s. rewrite app_nil_r. split; [by destruct p|]. by destruct p.
  - destruct (tf_write_safe _ _ _ b Hst Hs (Hb b ltac:(by left))) as (t & s1 & E & Hst1 & Hs1).
    assert (on_event (on_body b) p s = Some (0, set_body (mk_body t (pFile (body p)) (bMode (body p))) p, s1)) as E1.
    { cbn [on_event]. unfold body_write. rewrite Hm, E. done. }
    destruct (IH (set_body (mk_body t (pFile (body p)) (bMode (body p))) p) s1 (c ++ b)) as (b' & s' & E' & Hh').
    { by split_and!. }
    { intros x Hx. apply Hb. by right. }
    exists b', s'. cbn [fmap list_fmap on_events concat]. rewrite E1. cbn [mbind option_bind].
    rewrite app_assoc. done.
Qed.
End messages.


(** ** The way out *)
Definition serialized (line : list (list Z)) (h : HttpHeader) : list Z :=
  concat line ++ concat ((fun e => concat (header_line e)) <$> entries h) ++ CRLF.

Lemma concat_lines es : concat (concat (header_line <$> es)) = concat ((fun e => concat (header_line e)) <$> es).
Proof. induction es as [|e es IH]; [done|]. cbn [fmap list_fmap concat]. rewrite concat_app. by f_equal. Qed.

Lemma write_all_runs pieces : forall b,
  inv b -> vsize (content b) + vsize (concat pieces) + 16 < vsize (fData b) ->
  exists b', write_all pieces b = Some b' /\ inv b' /\ content b' = content b ++ concat pieces /\
    vsize (fData b') = vsize (fData b).
Proof.
  induction pieces as [|x pieces IH]; intros b Hi Hsz; [exists b; by rewrite app_nil_r|]. cbn [write_all concat] in *.
  unfold vsize in Hsz. rewrite length_app in Hsz. pose proof (vsize_content b Hi) as Hc. unfold vsize in Hc.
  destruct (write_roomy b x Hi) as (b1 & -> & Hi1 & Hc1 & Hv1); [unfold slack, vsize; lia|]. cbn [mbind option_bind].
  destruct (IH b1 Hi1) as (b2 & E & Hi2 & Hc2 & Hv2).
  { rewrite Hc1, Hv1. unfold vsize. rewrite length_app. lia. }
  exists b2. split_and!; [done..| |congruence]. by rewrite Hc2, Hc1, app_assoc.
Qed.

(** What is dumped is the first line, a line for each entry, and an empty line. *)
Lemma dump_runs (method_str status_str to_string : Z -> list Z) (h h1 : HttpHeader) (line : list (list Z)) :
  start_line method_str status_str to_string h = Some (line, h1) ->
  inv (hbuffer h) -> vsize (serialized line h) + 16 < vsize (fData (hbuffer h)) ->
  vsize (serialized line h) <= kHeaderLimitSize h ->
  exists b, dumpToBuffer method_str status_str to_string h = Some (true, set_buffer b h1) /\ inv b /\
    content b = serialized line h.
Proof.
  intros Hl Hi Hsz Hlim.
  assert (entries h1 = entries h /\ hbuffer h1 = hbuffer h /\ kHeaderLimitSize h1 = kHeaderLimitSize h) as (E1 & E2 & E3).
  { unfold start_line in Hl. destruct (if bool_decide _ then _ else _) as [v|]; [|done]. cbn [mbind option_bind] in Hl.
    destruct (htype h); [destruct (hmethod h) as [m|]; [|done]|destruct (status_code h) as [c|]; [|done]]; cbn in Hl;
      injection Hl as _ <-; [done|by destruct (bool_decide _)]. }
  destruct (clear_inv _ Hi) as [Hic Hcc].
  assert (concat (line ++ concat (header_line <$> entries h) ++ [[13]; [10]]) = serialized line h) as Ec.
  { unfold serialized. rewrite !concat_app, concat_lines. done. }
  destruct (write_all_runs (line ++ concat (header_line <$> entries h) ++ [[13]; [10]]) (Buffer.clear (hbuffer h)) Hic)
    as (b & Eb & Hib & Hcb & Hvb).
  { rewrite Hcc, Ec. change (vsize []) with 0.
    change (fData (Buffer.clear (hbuffer h))) with (fData (hbuffer h)). lia. }
  rewrite Hcc, Ec in Hcb. cbn [app] in Hcb. destruct (sizes b Hib) as (_ & El & _). pose proof (vsize_content b Hib) as Hvc.
  exists b. split; [|done]. unfold dumpToBuffer. rewrite Hl. cbn [mbind option_bind]. rewrite E1, E2, Eb. cbn [mbind option_bind].
  rewrite E3, bool_decide_eq_false_2 by (rewrite El, <- Hvc, Hcb; lia). done.
Qed.

Section sending.
Context (method_str status_str to_string : Z -> list Z).
Context {W : Type} (w_write : W -> list Z -> Z * W) (taken : W -> list Z) (good : W -> Prop) (lim : Z).
Context (w_law : writer w_write taken good lim).

(** All of [bs] went out, with its size as the result, or a part with a failure. *)
Definition sent_out (w w' : W) (bs : list Z) (r : Z) : Prop :=
  good w' /\ exists k, taken w' = taken w ++ take k bs /\
    ((r = vsize bs /\ take k bs = bs) \/ -2147483648 <= r < 0).

Lemma header_sendTo_runs (h h1 : HttpHeader) (line : list (list Z)) (w : W) :
  start_line method_str status_str to_string h = Some (line, h1) ->
  inv (hbuffer h) -> vsize (serialized line h) + 16 < vsize (fData (hbuffer h)) ->
  vsize (serialized line h) <= kHeaderLimitSize h -> good w -> vsize (serialized line h) <= lim ->
  exists b r w', dumpToBuffer method_str status_str to_string h = Some (true, set_buffer b h1) /\
    content b = serialized line h /\
    header_sendTo method_str status_str to_string w_write h w = Some (r, set_buffer b h1, w') /\
    sent_out w w' (serialized line h) r.
Proof.
  intros Hl Hi Hsz Hlim Hg Hmax. destruct (dump_runs _ _ _ _ _ _ Hl Hi Hsz Hlim) as (b & Ed & Hib & Hcb).
  destruct (sendTo_spec w_write taken good lim w_law b w Hib Hg) as (r & w' & k & Es & Hg' & Ht & Hr); [by rewrite Hcb|].
  rewrite Hcb in *. exists b, r, w'. split; [done|]. split; [done|]. split; [|by split; [|exists k]].
  unfold header_sendTo. rewrite Ed. cbn [mbind option_bind]. change (hbuffer (set_buffer b h1)) with b. by rewrite Es.
Qed.

(** The bytes of a body that [sendTo] has to send: the store, or the unread part of a file. *)
Context {F : Type} `{HF : FileLaws F unread linked}.
Definition body_held (b : HttpBody) (s : F) (c : list Z) : Prop :=
  match bMode b with
  | HTTPBODY_TEMP => stored (unread := unread) (linked := linked) (bData b) s c /\ fLabelLength (fFile (bData b)) <= 0
  | HTTPBODY_DISK => exists f, pFile b = Some f /\ linked (fReadFd f) (fWriteFd f) s /\ fLabelLength f <= 0 /\
      unread (fReadFd f) s = c
  end.

(** What follows the header: nothing for a body of length 0, else the body and a line break. *)
Definition trailer (len : Z) (c : list Z) : list Z := if bool_decide (len = 0) then [] else c ++ CRLF.

Lemma file_part_runs fuel (f : File) (s : F) (w : W) :
  linked (fReadFd f) (fWriteFd f) s -> fLabelLength f <= 0 -> kFileBufferSize <= lim <= INT_MAX -> good w ->
  (List.length (unread (fReadFd f) s) < fuel)%nat -> vsize (unread (fReadFd f) s) <= INT_MAX ->
  exists r s' w', file_sendTo w_write fuel f s w = Some (r, f, s', w') /\ sent_out w w' (unread (fReadFd f) s) r.
Proof.
  intros Hl Hlab Hlim Hg Hf Hmax. unfold file_sendTo. rewrite bool_decide_eq_false_2 by lia.
  destruct (send_rest_runs w_write taken good lim w_law Hlim fuel 0 f s w Hl Hf Hg ltac:(lia) Hmax)
    as (r & s' & w' & k & E & Hg' & _ & Ht & Hr).
  exists r, s', w'. split; [done|]. split; [done|]. exists k. split; [done|]. destruct Hr as [|Hr]; [by left|right; lia].
Qed.

(** A writer that takes everything or fails, as the hooked [write] does. *)
Context (w_all : forall w bs, good w -> bs <> [] -> vsize bs <= lim -> 0 <= (w_write w bs).1 -> (w_write w bs).1 = vsize bs).

Lemma line_break_runs w bs w1 r :
  2 <= lim -> sent_out w w1 bs r -> 0 <= r ->
  let '(n, w2) := w_write w1 CRLF in
  good w2 /\ exists k, taken w2 = taken w ++ take k (bs ++ CRLF) /\
    ((0 <= n /\ take k (bs ++ CRLF) = bs ++ CRLF) \/ n < 0).
Proof.
  intros Hlim (Hg & k & Ht & [[Hr Hk]|Hr]) H0; [|lia]. rewrite Hk in Ht.
  pose proof (w_law w1 CRLF Hg ltac:(done) ltac:(done)) as Hw. pose proof (w_all w1 CRLF Hg ltac:(done) ltac:(done)) as Hall.
  destruct (w_write w1 CRLF) as [n w2]. destruct Hw as [Hg2 [[Hn Ht2]|[Hn [j Ht2]]]]; (split; [done|]).
  - cbn in Hall. rewrite (Hall ltac:(lia)) in Ht2. exists (List.length (bs ++ CRLF)). rewrite firstn_all.
    split; [by rewrite Ht2, Ht, <- app_assoc|left; split; [lia|done]].
  - exists (List.length bs + j)%nat. rewrite take_app_add. split; [by rewrite Ht2, Ht, app_assoc|right; lia].
Qed.

Lemma body_sendTo_runs fuel (b : HttpBody) (s s1 : F) (c : list Z) len (w : W) :
  body_length b s = Some (len, s1) -> body_held b s1 c -> (len = 0 -> c = []) -> good w ->
  kFileBufferSize <= lim <= INT_MAX -> vsize c <= lim -> (List.length c < fuel)%nat ->
  exists r b' s' w', body_sendTo w_write fuel b s w = Some (r, b', s', w') /\ good w' /\
    exists k, taken w' = taken w ++ take k (trailer len c) /\
      ((r = vsize c /\ take k (trailer len c) = trailer len c) \/ r < 0).
Proof.
  intros El Hb Hz Hg Hlim Hc Hf. unfold body_sendTo, trailer. rewrite El. cbn [mbind option_bind].
  destruct (bool_decide (len = 0)) eqn:E0.
  { apply bool_decide_eq_true_1 in E0. rewrite (Hz E0). exists 0, b, s1, w. split; [done|]. split; [done|].
    exists 0%nat. rewrite app_nil_r. split; [done|by left]. }
  clear E0. assert (exists r b' s' w', match bMode b with
      | HTTPBODY_TEMP => '(r, t, s, w) ← tf_sendTo w_write fuel (bData b) s1 w;
          Some (r, mk_body t (pFile b) (bMode b), s, w)
      | HTTPBODY_DISK => f ← pFile b; '(r, f, s, w) ← file_sendTo w_write fuel f s1 w;
          Some (r, mk_body (bData b) (Some f) (bMode b), s, w) end = Some (r, b', s', w') /\ sent_out w w' c r)
    as (r & b' & s' & w1 & E & Hsent).
  { unfold body_held in Hb. destruct (bMode b).
    - destruct Hb as [(Hl & _ & Hi & Hm) Hlab]. unfold tf_sendTo. destruct (fMode (bData b)), Hm as [H1 H2].
      + destruct (sendTo_spec w_write taken good lim w_law _ w Hi Hg) as (r & w1 & k & -> & Hg1 & Ht & Hr); [by rewrite H1|].
        rewrite H1 in *. cbn. eexists _, _, _, _. split; [done|]. split; [done|]. by exists k.
      + rewrite <- H2 in *. destruct (file_part_runs fuel _ s1 w Hl Hlab Hlim Hg Hf) as (r & s' & w1 & -> & ?); [lia|].
        cbn. by eexists _, _, _, _.
    - destruct Hb as (f & -> & Hl & Hlab & <-). cbn [mbind option_bind].
      destruct (file_part_runs fuel _ s1 w Hl Hlab Hlim Hg Hf) as (r & s' & w1 & -> & ?); [lia|]. cbn. by eexists _, _, _, _. }
  rewrite E. cbn [mbind option_bind]. case_bool_decide as Hr.
  - destruct Hsent as (Hg1 & k & Ht & _). exists r, b', s', w1. split; [done|]. split; [done|].
    exists (k `min` List.length c)%nat. rewrite take_app_le by lia. split; [|by right].
    rewrite Ht. f_equal. by rewrite <- take_take, firstn_all.
  - assert (r = vsize c) as Erc by (destruct Hsent as (_ & ? & _ & [[? _]|?]); [done|lia]).
    pose proof (line_break_runs w c w1 r) as Hlb. unfold kFileBufferSize in Hlim. destruct (w_write w1 CRLF) as [n w2].
    destruct Hlb as (Hg2 & k & Ht & Hk); [lia|done|lia|]. eexists _, b', s', w2. split; [done|]. split; [done|].
    exists k. split; [done|]. destruct Hk as [[Hn Hk]|Hn].
    + rewrite bool_decide_eq_false_2 by lia. by left.
    + rewrite bool_decide_eq_true_2 by lia. by right.
Qed.

(** The whole message, as [HttpParser::sendTo] puts it on the wire. *)
Definition wire (line : list (list Z)) (h : HttpHeader) (len : Z) (c : list Z) : list Z :=
  serialized line h ++ trailer len c.

Lemma http_sendTo_runs fuel (p : HttpParser) (h1 : HttpHeader) (line : list (list Z)) (s s1 : F) (c : list Z) len (w : W) :
  start_line method_str status_str to_string (header p) = Some (line, h1) ->
  inv (hbuffer (header p)) -> vsize (serialized line (header p)) + 16 < vsize (fData (hbuffer (header p))) ->
  vsize (serialized line (header p)) <= kHeaderLimitSize (header p) ->
  body_length (body p) s = Some (len, s1) -> body_held (body p) s1 c -> (len = 0 -> c = []) ->
  kFileBufferSize <= lim <= INT_MAX -> vsize (serialized line (header p)) <= lim -> vsize c <= lim ->
  (List.length c < fuel)%nat -> good w ->
  exists r p' s' w', http_sendTo method_str status_str to_string w_write fuel p s w = Some (r, p', s', w') /\ good w' /\
    exists k, taken w' = taken w ++ take k (wire line (header p) len c) /\
      ((r = vsize (serialized line (header p)) + vsize c /\ take k (wire line (header p) len c) = wire line (header p) len c) \/
       r < 0).
Proof.
  intros Hl Hi Hsz Hlim El Hb Hz Hlm Hh Hc Hf Hg. unfold http_sendTo, wire.
  destruct (header_sendTo_runs (header p) h1 line w Hl Hi Hsz Hlim Hg Hh) as (b & r1 & w1 & _ & _ & -> & Hg1 & k1 & Ht1 & Hr1).
  cbn [mbind option_bind]. set (hd := serialized line (header p)) in *. pose proof (vsize_nonneg hd). pose proof (vsize_nonneg c).
  destruct Hr1 as [[Er Hk1]|Hr1].
  2: { rewrite bool_decide_eq_true_2 by lia. eexists _, _, _, _. split; [done|]. split; [done|].
       exists (k1 `min` List.length hd)%nat. rewrite take_app_le by lia. split; [|right; lia].
       rewrite Ht1. f_equal. by rewrite <- take_take, firstn_all. }
  rewrite bool_decide_eq_false_2 by lia. rewrite Hk1 in Ht1. change (body (set_header _ p)) with (body p).
  destruct (body_sendTo_runs fuel (body p) s s1 c len w1 El Hb Hz Hg1 Hlm Hc Hf) as (r & b' & s' & w2 & -> & Hg2 & k2 & Ht2 & Hr2).
  cbn [mbind option_bind]. eexists _, _, _, _. split; [done|]. split; [done|].
  exists (List.length hd + k2)%nat. rewrite take_app_add. split; [by rewrite Ht2, Ht1, app_assoc|].
  destruct Hr2 as [[-> Hk2]|Hr2].
  - rewrite bool_decide_eq_false_2 by lia. left. unfold INT_MAX in Hlm. split; [|by rewrite Hk2].
    rewrite i64_small by lia. lia.
  - rewrite bool_decide_eq_true_2 by lia. by right.
Qed.
End sending.

(** When a header fits its buffer, what is dumped and sent is the first line, a line for
    each entry in the order of the names, and an empty line, and the dump says that it
    fits; to a writer that fails a prefix of that goes out. *)
Theorem http_header_sent (method_str status_str to_string : Z -> list Z) (W : Type) (w_write : W -> list Z -> Z * W)
    (taken : W -> list Z) (good : W -> Prop) (lim : Z) (h h1 : HttpHeader) (line : list (list Z)) (w : W) :
  writer w_write taken good lim -> good w -> vsize (serialized line h) <= lim ->
  start_line method_str status_str to_string h = Some (line, h1) ->
  inv (hbuffer h) -> vsize (serialized line h) + 16 < vsize (fData (hbuffer h)) ->
  vsize (serialized line h) <= kHeaderLimitSize h ->
  exists h2 r w', dumpToBuffer method_str status_str to_string h = Some (true, h2) /\
    content (hbuffer h2) = serialized line h /\
    header_sendTo method_str status_str to_string w_write h w = Some (r, h2, w') /\
    sent_out taken good w w' (serialized line h) r.
Proof.
  intros Hw Hg Hmax Hl Hi Hsz Hlim.
  destruct (header_sendTo_runs method_str status_str to_string w_write taken good lim Hw h h1 line w)
    as (b & r & w' & ? & ? & ? & ?); [done..|]. by exists (set_buffer b h1), r, w'.
Qed.

(** A request parser over the toy file system, with a memory limit of 6 bytes. *)
Definition toy_parser : HttpParser :=
  mk_http (HttpHeader_new HTTP_REQUEST 4096) (mk_body toy_tempfile None HTTPBODY_TEMP) false false false false false [].

Definition toy_request : list event :=
  request_events 1 1 1 true [47; 97] [(text "Host", [120]); (text "A", []); (text "Host", [121])] [[1; 2; 3]; [4; 5; 6; 7]].

Lemma toy_holds : holds (unread := toy_unread) (linked := toy_linked) toy_parser toy_tempfile_fs [].
Proof.
  split; [done|]. split; [right; split; [by vm_compute|by vm_compute]|]. apply toy_tempfile_stored.
Qed.


Definition toy_header : HttpHeader :=
  setHeader (text "Host") [120] (setHeader (text "Accept") [42] (set_uri [47] 
    (mk_header HTTP_11 (Some 1) None [] [] (Buffer_new 256) HTTP_REQUEST 256 ∅))).

Lemma http_header_sent_witness :
  exists h2 r w', dumpToBuffer (fun _ => text "GET") (fun _ => []) (fun _ => []) toy_header = Some (true, h2) /\
    content (hbuffer h2) = text "GET / HTTP/1.1" ++ CRLF ++ text "Accept: *" ++ CRLF ++ text "Host: x" ++ CRLF ++ CRLF /\
    header_sendTo (fun _ => text "GET") (fun _ => []) (fun _ => []) small_writer toy_header [] = Some (r, h2, w') /\
    sent_out id (fun _ => True) [] w' (content (hbuffer h2)) r.
Proof.
  destruct (http_header_sent (fun _ => text "GET") (fun _ => []) (fun _ => []) (list Z) small_writer id (fun _ => True) 256
    toy_header toy_header [text "GET"; [32]; [47]; [32]; text "HTTP/1.1"; [13]; [10]] [])
    as (h2 & r & w' & Ed & Ec & Es & Ht).
  - apply small_writer_law.
  - done.
  - by vm_compute.
  - by vm_compute.
  - apply (Buffer_new_inv 256). lia.
  - by vm_compute.
  - by vm_compute.
  - exists h2, r, w'. split; [exact Ed|]. split; [rewrite Ec; by vm_compute|]. split; [exact Es|].
    rewrite Ec. exact Ht.
Defined.

(** ** Where it goes wrong *)
(** http-parser reports a part that straddles two reads in two calls; the second
    replaces the first: only the tail of a URL, of a status text, of a name and of a value
    is kept. *)
Theorem http_split_parts_lost (F : Type) `{!FileSystem F} (p : HttpParser) (s : F) (a b k : list Z) :
  b <> [] -> k <> [] ->
  (exists p', on_events [on_url a; on_url b] p s = Some (p', s) /\ uri (header p') = b) /\
  (exists p', on_events [on_status a; on_status b] p s = Some (p', s) /\ status_desc (header p') = b) /\
  (exists p', on_events [on_header_field k; on_header_value a; on_header_value b] p s = Some (p', s) /\
     getHeader k (header p') = Some b).
Proof.
  intros Hb Hk. split_and!; (eexists; split; [reflexivity|]); [done..|].
  unfold getHeader, setHeader. cbn. rewrite !(bool_decide_eq_false_2 (k = [])), !(bool_decide_eq_false_2 (b = [])) by done.
  cbn [orb fHeaders set_headers]. apply lookup_insert_eq.
Qed.

Lemma http_split_parts_lost_witness :
  exists p', on_events [on_url (text "/ind"); on_url (text "ex")] toy_parser toy_tempfile_fs = Some (p', toy_tempfile_fs) /\
    uri (header p') = text "ex".
Proof.
  destruct (http_split_parts_lost toyfs toy_parser toy_tempfile_fs (text "/ind") (text "ex") [65]) as (H1 & _); [done..|].
  exact H1.
Defined.

(** Two bytes that belong to no message follow every body that has a length. *)
Example body_sends_break :
  let t := mk_TempFile TEMPFILE_BUFFER (default (Buffer_new 64) (write_all [[1; 2]] (Buffer_new 64))) (mk_File [97] 3 4 (-1) false (-1)) 9 in
  (fun x => (x.1.1.1, x.2)) <$> body_sendTo small_writer 10 (mk_body t None HTTPBODY_TEMP) toyfs0 [] =
    Some (2, [1; 2; 13; 10]).
Proof. by vm_compute. Qed.

(** What a read brought beyond the end of a message is dropped by the next [recv]. *)
Lemma http_recv_drops b : content (Buffer.clear b) = [].
Proof. by apply content_nil. Qed.

(** A parser that saw an HTTP/1.0 message answers with that version for good. *)
Lemma http_reset_keeps_version (F : Type) `{!FileSystem F} p (s : F) :
  hversion (header (http_reset p s).1) = hversion (header p).
Proof. unfold http_reset. by destruct (body_reset (body p) s). Qed.

(** A body that went to disk after a [reset] has length 0 and is not sent. *)
Lemma body_after_reset (F : Type) `{!FileSystem F} {W} (w_write : W -> list Z -> Z * W) fuel b (s : F) w :
  bMode b = HTTPBODY_TEMP -> fMode (bData b) = TEMPFILE_FILE ->
  fs_access (fFullName (fFile (bData b))) F_OK s = false ->
  body_sendTo w_write fuel b s w = Some (0, b, s, w).
Proof.
  intros Hm Hf Ha. unfold body_sendTo, body_length. rewrite Hm. cbn [mbind option_bind].
  by rewrite tf_length_unlinked.
Qed.
