(* ===== verification/Connection.v ===== *)
(** * proto/http/HttpConnection.h: messages over a socket

    The connection owns a socket and a buffer. [recv] is the loop of Http.v reading through
    Socket.v, whose [read] is the hooked call of SysHook.v; [send] writes the same way. A
    crash inside a call on the socket is a crash of the connection. What http-parser is
    relied on for is stated in [ParserLaws]. *)
From stdpp Require Import strings.
From S2P Require Import Prelude Bytes MemoryData Buffer File TimeWheel Event SysHook SysHelper Socket Http.
Local Open Scope Z_scope.

Record HttpConnection := mk_conn { fSock : Socket; fBuf : Buffer }.

(** The buffer is the default one. *)
Definition HttpConnection_new (b : Buffer) (sockfd : Z) : HttpConnection := mk_conn (Socket_new sockfd) b.
Definition HttpConnection_from (b : Buffer) (sock : Socket) : HttpConnection * Socket :=
  let '(fd, sock) := detach sock in (HttpConnection_new b fd, sock).
Definition conn_attach (sockfd : Z) (c : HttpConnection) : HttpConnection := mk_conn (attach sockfd (fSock c)) (fBuf c).

Section connection.
Context {K : Type} `{!Kernel K, !SocketKernel K, !SSL K, !Inet}.

Definition conn_alive (c : HttpConnection) : W K bool := valid (fSockFd (fSock c)).
Definition conn_close (c : HttpConnection) : W K (bool * HttpConnection) :=
  r ← sock_close (fSock c); wret (bool_decide (r.1 = 0), mk_conn r.2 (fBuf c)).

(** The socket as a source and as a sink; [None] is the state after a crash. *)
Definition source (s : Socket) (w : option (world K)) (n : Z) : Z * list Z * option (world K) :=
  match w ≫= sock_read s n with Some (r, bs, w) => (r, bs, Some w) | None => (-1, [], None) end.
Definition sink (fuel : nat) (s : Socket) (w : option (world K)) (bs : list Z) : Z * option (world K) :=
  match w ≫= sock_write fuel s bs with Some (r, w) => (r, Some w) | None => (-1, None) end.

Section parser.
Context {F : Type} `{!FileSystem F} {P : Type} (execute : P -> list Z -> Z * list event * P)
  (fresh : http_parser_type -> P).

(** The result of [sendTo] is not looked at. *)
Definition conn_send (method_str status_str to_string : Z -> list Z) (fuel : nat) (p : HttpParser) (s : F)
    (c : HttpConnection) : world K -> option (bool * HttpParser * F * world K) := fun w =>
  '(_, p, s, w) ← http_sendTo method_str status_str to_string (sink fuel (fSock c)) fuel p s (Some w);
  w ← w; Some (true, p, s, w).

Definition conn_recv (fuel : nat) (p : HttpParser) (x : P) (s : F) (c : HttpConnection) :
    world K -> option (bool * HttpConnection * HttpParser * P * F * world K) := fun w =>
  '(ok, b, p, x, s, w) ← http_recv execute fresh (source (fSock c)) fuel (fBuf c) p x s (Some w);
  w ← w; Some (ok, mk_conn (fSock c) b, p, x, s, w).
End parser.
End connection.

(** ** http-parser *)
Definition body_of (e : event) : list Z := match e with on_body d => d | _ => [] end.
Definition bodies (es : list event) : list Z := concat (body_of <$> es).
Definition is_complete (e : event) : bool := match e with on_message_complete => true | _ => false end.

(** [message x m c]: from state [x] the bytes [m] are the rest of a message, [c] the rest of
    its body. Any piece of them is taken whole; the pieces of the body that it has are handed
    over in order, and the end of the message is told with its last byte. *)
Class ParserLaws {P : Type} (execute : P -> list Z -> Z * list event * P)
    (message : P -> list Z -> list Z -> Prop) := {
  pl_piece x buf rest c : buf <> [] -> message x (buf ++ rest) c ->
    exists es x' c', execute x buf = (vsize buf, es, x') /\ c = bodies es ++ c' /\
      (forall d, on_body d ∈ es -> vsize d <= vsize buf) /\
      existsb is_complete es = bool_decide (rest = []) /\
      (if bool_decide (rest = []) then c' = [] else message x' rest c')
}.

(** ** Receiving *)
Section receive.
Context {F : Type} `{HF : FileLaws F unread linked}.
Implicit Types (p : HttpParser) (s : F).
Local Abbreviation holds := (holds (unread := unread) (linked := linked)).

Lemma bodies_cons e es : bodies (e :: es) = body_of e ++ bodies es.
Proof. done. Qed.

(** The callbacks of any piece of a message keep the body. *)
Lemma event_keeps e p s c :
  holds p s c -> (forall d, e = on_body d -> vsize d <= 2 ^ 30) ->
  exists r p' s', on_event e p s = Some (r, p', s') /\ holds p' s' (c ++ body_of e) /\
    bEndOfMessage p' = bEndOfMessage p || is_complete e /\ bInited p' = bInited p.
Proof.
  intros Hh Hb. destruct e; cbn [on_event body_of is_complete]; rewrite ?app_nil_r, ?orb_false_r, ?orb_true_r;
    try (eexists _, _, _; split_and!; done).
  destruct Hh as (Hm & Hs & Hst). destruct (tf_write_safe _ _ _ at_ Hst Hs (Hb _ eq_refl)) as (t & s1 & E & Hst1 & Hs1).
  unfold body_write. rewrite Hm, E. by eexists _, _, _.
Qed.

Lemma events_keep es : forall p s c,
  holds p s c -> (forall d, on_body d ∈ es -> vsize d <= 2 ^ 30) ->
  exists p' s', on_events es p s = Some (p', s') /\ holds p' s' (c ++ bodies es) /\
    bEndOfMessage p' = bEndOfMessage p || existsb is_complete es /\ bInited p' = bInited p.
Proof.
  induction es as [|e es IH]; intros p s c Hh Hb.
  { exists p, s. cbn. rewrite app_nil_r, orb_false_r. done. }
  destruct (event_keeps e p s c Hh) as (r & p1 & s1 & E & Hh1 & He1 & Hi1); [intros d ->; apply Hb; left|].
  destruct (IH p1 s1 _ Hh1) as (p' & s' & E' & Hh' & He' & Hi'); [intros d Hd; apply Hb; by right|].
  exists p', s'. cbn [on_events existsb]. rewrite E. cbn [mbind option_bind].
  rewrite bodies_cons, app_assoc, orb_assoc, <- He1, <- Hi1. done.
Qed.

(** Bytes read into an empty buffer, seen by the parser, and dropped again. *)
Definition empty (b : Buffer) : Prop :=
  inv b /\ fReadIdx b = 8 /\ fWriteIdx b = 8 /\ 16 < vsize (fData b) <= 2 ^ 30.

Lemma empty_clear b : inv b -> 16 < vsize (fData b) <= 2 ^ 30 -> empty (Buffer.clear b).
Proof. intros Hi Hv. destruct (clear_inv b Hi). destruct Hv. by split_and!. Qed.

Lemma empty_right b : empty b -> right b = vsize (fData b) - 16.
Proof. intros (Hi & _ & Hw & _). destruct (sizes b Hi) as (_ & _ & -> & _). lia. Qed.

Lemma fill_empty b bs :
  empty b -> vsize bs <= right b ->
  exists v b1, mwrite (fData b) (fWriteIdx b) bs = Some v /\
    Buffer.fill (mk_Buffer v (fReadIdx b) (fWriteIdx b)) None (vsize bs) = Some (vsize bs, b1) /\
    mread (fData b1) (fReadIdx b1) (Buffer.length b1) = Some bs /\
    exists n b2, Buffer.shrink b1 (vsize bs) = Some (n, b2) /\ empty b2.
Proof.
  intros He Hn. pose proof (empty_right b He) as Er. destruct He as (Hi & Hr & Hw & Hv). pose proof (vsize_nonneg bs) as Hb.
  rewrite Hr, Hw. destruct (mwrite (fData b) 8 bs) as [v|] eqn:Ev; [|by rewrite mwrite_ok in Ev by lia].
  pose proof (vsize_mwrite _ _ _ _ Ev) as Hvv.
  assert (inv (mk_Buffer v 8 8)) as Hi0 by (constructor; cbn; unfold size_max; lia).
  destruct (sizes _ Hi0) as (_ & _ & Er0 & _). cbn [fData fWriteIdx] in Er0.
  assert (inv (mk_Buffer v 8 (8 + vsize bs))) as Hi1 by (constructor; cbn; unfold size_max; lia).
  destruct (sizes _ Hi1) as (_ & El1 & _). cbn [fReadIdx fWriteIdx] in El1.
  exists v, (mk_Buffer v 8 (8 + vsize bs)). split_and!; [done| | |].
  - unfold Buffer.fill. rewrite bool_decide_eq_false_2 by lia. cbn. by rewrite u64_small by lia.
  - rewrite El1. cbn [fData fReadIdx]. rewrite mread_seg by lia. f_equal.
    replace (8 + (8 + vsize bs - 8)) with (8 + vsize bs) by lia.
    rewrite (seg_mwrite_end (fData b) 8 8 bs v) by (done || lia). by rewrite seg_nil.
  - unfold Buffer.shrink. rewrite El1. replace (Z.min (8 + vsize bs - 8) (vsize bs)) with (vsize bs) by lia.
    rewrite i32_small by lia. cbn [fData fReadIdx fWriteIdx]. rewrite (u64_small (8 + vsize bs)) by lia.
    unfold tryArrange. cbn [fReadIdx fWriteIdx fData]. rewrite bool_decide_eq_true_2 by done. cbn [mbind option_bind].
    eexists _, _. split; [done|]. change kBufferPrefixed with 8. split_and!; cbn [fData]; [exact Hi0|done|done|lia|lia].
Qed.

(** ** The loop *)
(** [sock] is a source of which [taken] has been read; what it hands over fits the request. *)
Context {P : Type} (execute : P -> list Z -> Z * list event * P) (fresh : http_parser_type -> P).
Context (message : P -> list Z -> list Z -> Prop) `{HP : !ParserLaws execute message}.
Context {R : Type} (sock : R -> Z -> Z * list Z * R) (good : R -> Prop) (taken : R -> list Z).
Context (sock_law : forall r n, good r -> 0 <= n <= INT_MAX ->
  exists k bs r', sock r n = (k, bs, r') /\ good r' /\
    ((k <= 0 /\ taken r' = taken r) \/ (0 < k <= n /\ vsize bs = k /\ taken r' = taken r ++ bs))).

(** The parser and http-parser as [parse] has them after [init]. *)
Definition started p (x : P) : HttpParser * P := if bInited p then (p, x) else (http_init p, fresh (htype (header p))).

Lemma started_holds p x s c : holds p s c -> holds (started p x).1 s c.
Proof. unfold started. by destruct (bInited p). Qed.

Lemma started_parse bs p x s :
  http_parse execute fresh bs p x s = http_parse execute fresh bs (started p x).1 (started p x).2 s.
Proof. unfold http_parse, started. destruct (bInited p) eqn:E; cbn; by rewrite ?E. Qed.

Lemma started_flags p x : bEndOfMessage p = false -> bEndOfMessage (started p x).1 = false /\ bInited (started p x).1 = true.
Proof. unfold started. by destruct (bInited p) eqn:E. Qed.

(** What is left when [recv] comes back: all of the message [m], or the connection ended. *)
Definition outcome p' s' r' (ok : bool) (base m acc c : list Z) : Prop :=
  exists got rest c1, taken r' = base ++ got /\ m = got ++ rest /\ ok = bool_decide (rest = []) /\
    bEndOfMessage p' = ok /\ c1 `prefix_of` c /\ holds p' s' (acc ++ c1) /\ (ok = true -> c1 = c).

(** One round: a piece of the message goes through the buffer and the parser. *)
Lemma recv_piece b p x s bs rest c acc :
  empty b -> vsize bs <= right b -> bs <> [] -> bEndOfMessage p = false ->
  message (started p x).2 (bs ++ rest) c -> holds p s acc ->
  exists v b1 k n b2 p' x' s' c1 c2, mwrite (fData b) (fWriteIdx b) bs = Some v /\
    Buffer.fill (mk_Buffer v (fReadIdx b) (fWriteIdx b)) None (vsize bs) = Some (vsize bs, b1) /\
    mread (fData b1) (fReadIdx b1) (Buffer.length b1) = Some bs /\
    http_parse execute fresh bs p x s = Some (k, p', x', s') /\ 0 < k /\
    Buffer.shrink b1 k = Some (n, b2) /\ empty b2 /\ bInited p' = true /\
    bEndOfMessage p' = bool_decide (rest = []) /\ c = c1 ++ c2 /\ holds p' s' (acc ++ c1) /\
    (if bool_decide (rest = []) then c2 = [] else message x' rest c2).
Proof.
  intros He Hn Hne Hend Hm Hh. rewrite started_parse. apply (started_holds p x) in Hh.
  apply (started_flags p x) in Hend as [Hend Hin]. destruct (started p x) as [q y]. cbn [fst snd] in *. clear p x.
  destruct (fill_empty b bs He Hn) as (v & b1 & E1 & E2 & E3 & n & b2 & E4 & He2).
  pose proof (empty_right b He) as Er. destruct He as (_ & _ & _ & Hv).
  destruct (pl_piece y bs rest c Hne Hm) as (es & x' & c2 & Ex & -> & Hd & Hc & Hrest).
  destruct (events_keep es q s acc Hh) as (p' & s' & Ee & Hh' & He' & Hi'); [intros d Hin'; specialize (Hd d Hin'); lia|].
  assert (0 < vsize bs) by (destruct bs; [done|unfold vsize; cbn; lia]).
  exists v, b1, (vsize bs), n, b2, p', x', s', (bodies es), c2. split_and!; try done.
  - unfold http_parse. rewrite Hin, Ex, Ee. cbn. by rewrite i32_small by lia.
  - congruence.
  - by rewrite He', Hend, Hc.
Qed.

Lemma recv_loop_runs fuel : forall b p x s r m c acc base,
  (List.length m < fuel)%nat -> m <> [] -> empty b -> bEndOfMessage p = false ->
  message (started p x).2 m c -> holds p s acc -> good r -> taken r = base ->
  (forall r' got, good r' -> taken r' = base ++ got -> exists rest, m = got ++ rest) ->
  exists ok b' p' x' s' r', recv_loop execute fresh sock fuel b p x s r = Some (ok, b', p', x', s', r') /\
    good r' /\ outcome p' s' r' ok base m acc c.
Proof.
  induction fuel as [|fuel IH]; intros b p x s r m c acc base Hf Hm He Hend Hmsg Hh Hg Htk Hpeer; [lia|].
  cbn [recv_loop]. rewrite Hend. pose proof (empty_right b He) as Er. pose proof He as (_ & _ & _ & Hv).
  destruct (sock_law r (right b) Hg) as (k & bs & r' & -> & Hg' & Hk); [unfold INT_MAX; lia|].
  destruct Hk as [(Hk & Ht)|(Hk & Hbs & Ht)].
  { rewrite bool_decide_eq_true_2 by done. do 6 eexists. split; [done|]. split; [done|].
    exists [], m, []. rewrite !app_nil_r, Ht. split_and!; try done; [by rewrite bool_decide_eq_false_2|apply prefix_nil]. }
  rewrite bool_decide_eq_false_2 by lia. subst k.
  destruct (Hpeer r' bs Hg') as (rest & ->); [by rewrite Ht, Htk|].
  assert (bs <> []) as Hne by (intros ->; unfold vsize in Hk; cbn in Hk; lia).
  destruct (recv_piece b p x s bs rest c acc He (proj2 Hk) Hne Hend Hmsg Hh)
    as (v & b1 & k & n & b2 & p1 & x1 & s1 & c1 & c2 & -> & E2 & E3 & E4 & Hk0 & E5 & He2 & Hin1 & Hend1 & -> & Hh1 & Hrest).
  cbn [mbind option_bind]. rewrite E2. cbn [mbind option_bind]. rewrite E3. cbn [mbind option_bind]. rewrite E4.
  cbn [mbind option_bind]. rewrite (bool_decide_eq_false_2 (k <= 0)) by lia. rewrite E5. cbn [mbind option_bind].
  rewrite length_app in Hf. assert (0 < List.length bs)%nat by (destruct bs; [done|cbn; lia]).
  destruct (decide (rest = [])) as [->|Hr].
  - cbn [bool_decide] in *. rewrite bool_decide_eq_true_2 in Hend1, Hrest by done. subst c2.
    destruct fuel as [|fuel]; [lia|]. cbn [recv_loop]. rewrite Hend1. do 6 eexists. split; [done|]. split; [done|].
    exists bs, [], c1. rewrite !app_nil_r. split_and!; try done; [by rewrite Ht, Htk].
  - rewrite bool_decide_eq_false_2 in Hend1, Hrest by done.
    destruct (IH b2 p1 x1 s1 r' rest c2 (acc ++ c1) (base ++ bs)) as (ok & b' & p' & x' & s' & r2 & E & Hg2 & Ho);
      try done; [lia|by unfold started; rewrite Hin1|by rewrite Ht, Htk| |].
    { intros r2 got Hg2 E. destruct (Hpeer r2 (bs ++ got) Hg2) as (rest' & Er'); [by rewrite E, app_assoc|].
      exists rest'. rewrite <- app_assoc in Er'. by apply app_inv_head in Er'. }
    exists ok, b', p', x', s', r2. split; [exact E|]. split; [done|].
    destruct Ho as (got & rest' & c3 & E1 & -> & Hok & Hend' & Hpre & Hh' & Hfin).
    exists (bs ++ got), rest', (c1 ++ c3). rewrite <- !app_assoc in *. split_and!; try done.
    + by apply prefix_app.
    + intros Hok'. by rewrite Hfin.
Qed.

(** [recv] drops what the buffer held and runs the loop. *)
Lemma http_recv_runs fuel b p x s r m c acc :
  (List.length m < fuel)%nat -> m <> [] -> inv b -> 16 < vsize (fData b) <= 2 ^ 30 -> bEndOfMessage p = false ->
  message (started p x).2 m c -> holds p s acc -> good r ->
  (forall r' got, good r' -> taken r' = taken r ++ got -> exists rest, m = got ++ rest) ->
  exists ok b' p' x' s' r', http_recv execute fresh sock fuel b p x s r = Some (ok, b', p', x', s', r') /\
    good r' /\ outcome p' s' r' ok (taken r) m acc c.
Proof. intros. apply recv_loop_runs; try done. by apply empty_clear. Qed.
End receive.

(** *** Over the hooked read *)
Section socket.
Context {K : Type} `{!Kernel K, !SocketKernel K, !SSL K, !Inet}.
Context (interest : K -> gset Z) (R : K -> K -> Prop) `{HL : !EpollLaws K interest R}.
Context (fd : Z) (ifd : inner_fd) (consumed : K -> list Z).
Context `{HI : forall n, 0 <= n <= INT_MAX -> InputLaws interest R (k_read fd n) n consumed}.
Context (Hsleep : sleeps_well R fd) (Hnb : has (flags ifd) O_NONBLOCK = true).
(** [peer]: all that can be read of the socket is [total]. *)
Context (total : list Z) (peer : K -> Prop) (peer_read : forall n k, peer k -> peer (k_read fd n k).2).
Context (peer_R : forall k k', R k k' -> peer k -> peer k').
Context (peer_total : forall k, peer k -> consumed k `prefix_of` total).

(** A socket without TLS at which nobody waits; what was read of it is a part of [total]. *)
Record reads_ok (w : world K) : Prop := {
  ro_idle : idle interest fd ifd (thr w);
  ro_hook : hook (thr w) = true;
  ro_plain : g_sock_ssl_handler w !! fd = None;
  ro_peer : peer (kern (thr w))
}.

Definition world_good (w : option (world K)) : Prop := exists w', w = Some w' /\ reads_ok w'.
Definition world_taken (w : option (world K)) : list Z := match w with Some w => consumed (kern (thr w)) | None => [] end.

Lemma source_law (sock : Socket) : fSockFd sock = fd -> fd < SOCKET_MAX_NUMBER ->
  forall w n, world_good w -> 0 <= n <= INT_MAX ->
  exists k bs w', source sock w n = (k, bs, w') /\ world_good w' /\
    ((k <= 0 /\ world_taken w' = world_taken w) \/ (0 < k <= n /\ vsize bs = k /\ world_taken w' = world_taken w ++ bs)).
Proof.
  intros Hfd Hmax _ n (w & -> & [Hi Hh Hp Hpre]) Hn. pose proof (HI n Hn) as HIn.
  assert (0 <= fd) as Hpos by (destruct Hi as [[Hv _ _ _ _] _ _]; apply andb_true_iff in Hv as [Hv%bool_decide_eq_true_1 _]; unfold INVALID_FD in Hv; lia).
  destruct (hooked_in_runs interest R (k_read fd n) n consumed fd ifd Hsleep peer (peer_read n) peer_R (thr w) Hi Hh Hnb)
    as ([k bs] & s' & E & (Hi' & Hh' & Hpr') & Hc & Hx).
  assert (source sock (Some w) n = (k, bs, Some (mk_world s' (g_sock_address w) (addrs w) (g_sock_ssl_handler w) (handlers w)))) as ->.
  { unfold source, sock_read, GetSSLHandler, slot. rewrite Hfd, !bool_decide_eq_false_2, bool_decide_eq_true_2 by lia.
    unfold mbind, option_bind, W_bind, W_ret, wret, wget, mret. cbn -[read]. rewrite Hp. unfold lift, read. by rewrite E. }
  eexists _, _, _. split; [done|]. split.
  { eexists. split; [done|]. constructor; cbn; [done|by rewrite Hh'|done|by apply Hpr']. }
  cbn [world_taken thr kern fst snd] in *. destruct Hx as [[-> Hle]|[= -> ->]].
  - destruct bs as [|b bs]; [left; by rewrite Hc, app_nil_r|]. right. cbn in *. split_and!; [lia|done|done|done].
  - left. by rewrite Hc, app_nil_r.
Qed.

(** [recv] on the connection. *)
Lemma conn_recv_runs {F : Type} `{HF : FileLaws F unread linked} {P : Type} (execute : P -> list Z -> Z * list event * P)
    (fresh : http_parser_type -> P) (message : P -> list Z -> list Z -> Prop) `{HP : !ParserLaws execute message}
    fuel (p : HttpParser) x (s : F) (c : HttpConnection) m body acc w :
  fSockFd (fSock c) = fd -> fd < SOCKET_MAX_NUMBER -> reads_ok w -> total = consumed (kern (thr w)) ++ m ->
  (List.length m < fuel)%nat -> m <> [] -> inv (fBuf c) -> 16 < vsize (fData (fBuf c)) <= 2 ^ 30 ->
  bEndOfMessage p = false -> message (started fresh p x).2 m body ->
  holds (unread := unread) (linked := linked) p s acc ->
  exists ok c' p' x' s' w', conn_recv execute fresh fuel p x s c w = Some (ok, c', p', x', s', w') /\ reads_ok w' /\
    outcome (unread := unread) (linked := linked) world_taken p' s' (Some w') ok (consumed (kern (thr w))) m acc body.
Proof.
  intros Hfd Hmax Hw Htot Hf Hm Hi Hv Hend Hmsg Hh.
  destruct (http_recv_runs execute fresh message (source (fSock c)) world_good world_taken (source_law (fSock c) Hfd Hmax)
    fuel (fBuf c) p x s (Some w) m body acc) as (ok & b' & p' & x' & s' & r' & E & (w' & -> & Hw') & Ho); try done.
  - by exists w.
  - intros r' got (w1 & -> & [_ _ _ Hp]) E. cbn in E. apply peer_total in Hp as [rest Er].
    exists rest. rewrite Htot, E, <- app_assoc in Er. by apply app_inv_head in Er.
  - exists ok, (mk_conn (fSock c) b'), p', x', s', w'. split; [|done]. unfold conn_recv. by rewrite E.
Qed.
End socket.

(** *** Over the hooked write *)
Section socket_out.
Context {K : Type} `{!Kernel K, !SocketKernel K, !SSL K, !Inet}.
Context (interest : K -> gset Z) (R : K -> K -> Prop) `{HL : !EpollLaws K interest R}.
Context (fd : Z) (ifd : inner_fd) (sent : K -> list Z) (patience : K -> nat).
Context `{HO : !OutputLaws interest R (k_write fd) sent patience}.
Context (Hsleep : sleeps_well R fd) (Hnb : has (flags ifd) O_NONBLOCK = true).
Context (most : nat) (lim : Z) (fuel : nat) (Hlim : lim <= INT_MAX) (Hfuel : (most + Z.to_nat lim < fuel)%nat).

(** A socket without TLS at which nobody waits; the kernel refuses at most [most] times more. *)
Record writes_ok (w : world K) : Prop := {
  wo_idle : idle interest fd ifd (thr w);
  wo_hook : hook (thr w) = true;
  wo_plain : g_sock_ssl_handler w !! fd = None;
  wo_most : (patience (kern (thr w)) <= most)%nat
}.

Definition world_open (w : option (world K)) : Prop := exists w', w = Some w' /\ writes_ok w'.
Definition world_sent (w : option (world K)) : list Z := match w with Some w => sent (kern (thr w)) | None => [] end.

Lemma sink_runs (sock : Socket) : fSockFd sock = fd -> fd < SOCKET_MAX_NUMBER ->
  forall w bs, world_open w -> vsize bs <= lim ->
  let '(r, w') := sink fuel sock w bs in
  world_open w' /\ ((r = vsize bs /\ world_sent w' = world_sent w ++ bs) \/
    (r = -1 /\ exists k, world_sent w' = world_sent w ++ take k bs)).
Proof.
  intros Hfd Hmax _ bs (w & -> & [Hi Hh Hp Hm]) Hbs. unfold vsize in *.
  assert (0 <= fd) as Hpos by (destruct Hi as [[Hv _ _ _ _] _ _]; apply andb_true_iff in Hv as [Hv%bool_decide_eq_true_1 _]; unfold INVALID_FD in Hv; lia).
  destruct (hooked_out_runs interest R (k_write fd) sent patience fd ifd bs (sent (kern (thr w))) most Hsleep
    ltac:(lia) fuel (thr w)) as (r & s' & E & Hc); [done|done|done|done|done|lia|].
  assert (sink fuel sock (Some w) bs = (r, Some (mk_world s' (g_sock_address w) (addrs w) (g_sock_ssl_handler w) (handlers w)))) as ->.
  { unfold sink, sock_write, GetSSLHandler, slot. rewrite Hfd, !bool_decide_eq_false_2, bool_decide_eq_true_2 by lia.
    unfold mbind, option_bind, W_bind, W_ret, wret, wget, mret. cbn -[write]. rewrite Hp. unfold lift, write. by rewrite E. }
  assert (exists j, handed interest sent patience fd ifd bs (sent (kern (thr w))) most j s') as (j & [_ _ Hi' Hh' Hm']).
  { destruct Hc as [[_ ?]|(_ & j & _ & ?)]; eauto. }
  split; [by eexists; split; [|constructor]|]. cbn [world_sent thr].
  destruct Hc as [[-> [_ Hs _ _ _]]|(-> & k & _ & [_ Hs _ _ _])].
  - left. rewrite Nat2Z.id, firstn_all in Hs. done.
  - right. eauto.
Qed.

Lemma sink_law (sock : Socket) : fSockFd sock = fd -> fd < SOCKET_MAX_NUMBER ->
  writer (sink fuel sock) world_sent world_open lim.
Proof.
  intros Hfd Hmax w bs Hg Hne Hbs. pose proof (sink_runs sock Hfd Hmax w bs Hg Hbs) as Hr.
  destruct (sink fuel sock w bs) as [r w']. destruct Hr as [Hg' Hr]. split; [done|].
  assert (0 < vsize bs) by (destruct bs; [done|unfold vsize; cbn; lia]).
  destruct Hr as [[-> Hs]|[-> Hs]]; [left|right; split; [lia|done]]. split; [lia|].
  unfold vsize. by rewrite Nat2Z.id, firstn_all.
Qed.

Lemma sink_all (sock : Socket) : fSockFd sock = fd -> fd < SOCKET_MAX_NUMBER ->
  forall w bs, world_open w -> bs <> [] -> vsize bs <= lim -> 0 <= (sink fuel sock w bs).1 -> (sink fuel sock w bs).1 = vsize bs.
Proof.
  intros Hfd Hmax w bs Hg _ Hbs H0. pose proof (sink_runs sock Hfd Hmax w bs Hg Hbs) as Hr.
  destruct (sink fuel sock w bs) as [r w']. cbn [fst] in *. destruct Hr as [_ [[? _]|[? _]]]; [done|lia].
Qed.
End socket_out.



(** *** A parser of messages that begin with their length *)
Definition len_execute (x : option Z) (buf : list Z) : Z * list event * option Z :=
  let '(k, d) := match x with
                 | None => match buf with n :: buf => (n, buf) | [] => (0, []) end
                 | Some k => (k, buf)
                 end in
  (vsize buf, on_body d :: (if bool_decide (vsize d = k) then [on_message_complete] else []), Some (k - vsize d)).
Definition len_message (x : option Z) (m c : list Z) : Prop :=
  match x with None => m = vsize c :: c | Some k => m = c /\ 0 < k /\ k = vsize c end.

#[export] Instance len_laws : ParserLaws len_execute len_message.
Proof.
  constructor. intros x buf rest c Hne Hm.
  assert (exists d, c = d ++ rest /\ vsize d <= vsize buf /\ len_execute x buf =
    (vsize buf, on_body d :: (if bool_decide (vsize d = vsize c) then [on_message_complete] else []), Some (vsize c - vsize d)))
    as (d & -> & Hd & ->).
  { destruct x as [k|]; cbn in Hm.
    - destruct Hm as (<- & _ & ->). exists buf. by split_and!.
    - destruct buf as [|n buf]; [done|]. injection Hm as -> Hc. exists buf. subst c.
      split_and!; [done|unfold vsize; cbn; lia|done]. }
  unfold vsize in *. rewrite length_app. exists (on_body d :: (if bool_decide (Z.of_nat (List.length d) =
    Z.of_nat (List.length d + List.length rest)) then [on_message_complete] else [])), (Some (Z.of_nat (List.length d + List.length rest) - Z.of_nat (List.length d))), rest.
  split; [done|].
  destruct rest as [|r rest].
  - rewrite !bool_decide_eq_true_2 by (cbn; lia || done). split_and!; try done; [by cbn; rewrite !app_nil_r|].
    intros d' [[= ->]|Hin]%elem_of_cons; [done|]. apply elem_of_cons in Hin as [?|?%elem_of_nil]; done.
  - rewrite !bool_decide_eq_false_2 by (cbn; lia || done). split_and!; try done; [by cbn; rewrite app_nil_r| |unfold len_message, vsize; cbn; split_and!; lia || done].
    intros d' [[= ->]|?%elem_of_nil]%elem_of_cons; done.
Qed.

Definition demo_message : list Z := [3; 1; 2; 9].
Definition demo_peer (k : toy) : Prop := t_got k ++ concat (omap id (t_in k)) = demo_message.
Definition demo_kernel : toy := mk_toy ∅ ∅ 3 [Some [3; 1]; None; Some [2; 9]] [] [] IEREAD [].
Definition demo_world : world toy := mk_world (toy_ready demo_kernel) ∅ ∅ ∅ ∅.
Definition demo_conn : HttpConnection := HttpConnection_new (Buffer_new 64) 5.

Lemma demo_peer_read n k : demo_peer k -> demo_peer (k_read 5 n k).2.
Proof.
  unfold demo_peer. cbn. unfold toy_read. destruct (t_in k) as [|[bs|] rest] eqn:E; cbn; rewrite ?E; [done| |by rewrite app_nil_r].
  intros <-. rewrite <- app_assoc. f_equal. transitivity ((take (Z.to_nat n) bs ++ drop (Z.to_nat n) bs) ++ concat (omap id rest));
    [|by rewrite take_drop].
  rewrite <- app_assoc. f_equal. case_bool_decide as Ed; [by rewrite Ed|done].
Qed.


(** A request with the body [1; 2], over a socket that takes one byte, refuses, takes nothing
    and then goes on. *)
Definition demo_request : HttpParser :=
  set_header toy_header (set_body (mk_body (mk_TempFile TEMPFILE_BUFFER (default (Buffer_new 64) (write_all [[1; 2]] (Buffer_new 64)))
    (fFile toy_tempfile) 9) None HTTPBODY_TEMP) toy_parser).
Definition demo_out : world toy := mk_world (toy_ready (mk_toy ∅ ∅ 3 [] [1; 0; 0; 1] [] IEWRITE [])) ∅ ∅ ∅ ∅.
Definition demo_line : list (list Z) := [text "GET"; [32]; [47]; [32]; text "HTTP/1.1"; [13]; [10]].

