(* ===== verification/TaskLocal.v ===== *)
(** * co_define.h: what a task keeps under a name

    The macros over the store of HashMap.v and the two buffers that libcask keeps in it: that
    of a log line (log.c) and that of a host (sys_helper.c). The store of the current task is
    made when it is first used; without a task the macros follow a null pointer. *)
From stdpp Require Import gmap strings.
From S2P Require Import Prelude Bytes HashMap SysHelper.
Local Open Scope Z_scope.

(** [co_self()->specs]: [None] when there is no task, [Some None] before the first use. *)
Definition specs : Type := option (option hash_map_t).

Definition co_spec_set (name : cstring) (v : list Z) (t : specs) : option specs :=
  m ← t; m ← co_specs_set name v (default alloc_co_specs m); Some (Some (Some m)).
Definition co_spec_get (name : cstring) (t : specs) : option (option (list Z) * specs) :=
  m ← t; let m := default alloc_co_specs m in v ← co_specs_get name m; Some (v, Some (Some m)).
(** Nothing makes the store here. *)
Definition co_key_del (name : cstring) (t : specs) : option (Z * specs) :=
  m ← t; m ← m; '(r, m) ← co_specs_del name m; Some (r, Some (Some m)).

(** The buffer of a name, made of [init] when there is none. *)
Definition task_buffer (name : cstring) (init : list Z) (t : specs) : option (list Z * specs) :=
  '(v, t) ← co_spec_get name t;
  match v with
  | Some b => Some (b, t)
  | None => t ← co_spec_set name init t; '(v, t) ← co_spec_get name t; b ← v; Some (b, t)
  end.

(** sys_helper.c: a [struct co_hostent_st] of which only [herrno] is set. *)
Definition CO_HOST_NAME_KEY : cstring := text "co_gethostbyname".
Definition CO_HOST_BUFFER_SIZE : Z := 4096.
Definition HERRNO_OFFSET : nat := 4128.
Definition host_buffer (stack : list Z) (t : specs) : option (list Z * specs) :=
  task_buffer CO_HOST_NAME_KEY (take HERRNO_OFFSET stack ++ [0; 0; 0; 0] ++ drop (HERRNO_OFFSET + 4) stack) t.

(** The whole of [co_gethostbyname]: the buffer, then the loop of SysHelper.v. *)
Definition co_gethostbyname_in {S : Type} (resolve : S -> Z * Z * S) (stack : list Z) (t : specs) (s : S) :
    option (bool * specs * S) :=
  '(_, t) ← host_buffer stack t; '(ok, s) ← co_gethostbyname resolve s; Some (ok, t, s).

(** The hooked [gethostbyname], with libc's as [raw]. *)
Definition gethostbyname {S : Type} (hook : bool) (raw : S -> bool * S) (resolve : S -> Z * Z * S) (stack : list Z)
    (t : specs) (s : S) : option (bool * specs * S) :=
  if negb hook then let '(ok, s) := raw s in Some (ok, t, s) else co_gethostbyname_in resolve stack t s.

(** log.c: the buffer of a log line, the thread's when there is no task. *)
Definition CO_LOG_KEY : cstring := text "co_log_key".
Definition log_buffer (_log_buf : list Z) (t : specs) : option (list Z * specs) :=
  match t with None => Some (_log_buf, t) | Some _ => task_buffer CO_LOG_KEY _log_buf t end.

(** ** The store as a finite map *)
Section buffers.
Context (K : cstring -> Prop) (HK : separate K) (HL : forall k, K k -> (length k < KEYNAME_SIZE)%nat).

(** The task has stored [g] with at most [N] stores. *)
Definition holds (N : Z) (t : specs) (g : gmap cstring (list Z)) : Prop :=
  exists m f, t = Some m /\ rep K N (default alloc_co_specs m) f g.

Lemma holds_new : holds 0 (Some None) ∅.
Proof. exists None, (fun _ => []). split; [done|]. apply init_rep. Qed.

Lemma spec_get_runs N t g name :
  holds N t g -> K name -> exists t', co_spec_get name t = Some (g !! name, t') /\ holds N t' g.
Proof.
  intros (m & f & -> & Hr) Hk. unfold co_spec_get, co_specs_get. cbn [mbind option_bind].
  rewrite (get_rep K HK N _ f g name Hr Hk). eexists. split; [done|]. by exists (Some (default alloc_co_specs m)), f.
Qed.

Lemma spec_set_runs N t g name v :
  holds N t g -> K name -> N < 2 ^ 20 -> exists t', co_spec_set name v t = Some t' /\ holds (N + 1) t' (<[name := v]> g).
Proof.
  intros (m & f & -> & Hr) Hk HN. unfold co_spec_set, co_specs_set. cbn [mbind option_bind].
  destruct (put_rep K HK HL N _ f g name v Hr Hk HN) as (m' & f' & -> & Hr'). eexists. split; [done|]. by exists (Some m'), f'.
Qed.

Lemma holds_more N t g : holds N t g -> N < 2 ^ 20 -> holds (N + 1) t g.
Proof. intros (m & f & -> & []) HN. exists m, f. split; [done|]. constructor; try done; lia. Qed.

Lemma task_buffer_runs N t g name init :
  holds N t g -> K name -> N < 2 ^ 20 ->
  exists t', task_buffer name init t = Some (default init (g !! name), t') /\
    holds (N + 1) t' (<[name := default init (g !! name)]> g).
Proof.
  intros Ht Hk HN. unfold task_buffer. destruct (spec_get_runs N t g name Ht Hk) as (t1 & -> & Ht1). cbn [mbind option_bind].
  destruct (g !! name) as [b|] eqn:E; cbn [default from_option id].
  - exists t1. split; [done|]. rewrite insert_id by done. by apply holds_more.
  - destruct (spec_set_runs N t1 g name init Ht1 Hk HN) as (t2 & -> & Ht2). cbn [mbind option_bind].
    destruct (spec_get_runs _ t2 _ name Ht2 Hk) as (t3 & -> & Ht3). cbn [mbind option_bind]. rewrite lookup_insert_eq. by exists t3.
Qed.
End buffers.

(** The names that libcask uses are told apart. *)
Definition own_key (k : cstring) : Prop := k = CO_HOST_NAME_KEY \/ k = CO_LOG_KEY.
Lemma own_separate : separate own_key.
Proof. intros k1 k2 [->| ->] [->| ->] _ Hp; try done; apply prefix_length in Hp as Hl; vm_compute in Hl; try lia; by destruct Hp. Qed.
Lemma own_short k : own_key k -> (length k < KEYNAME_SIZE)%nat.
Proof. intros [->| ->]; by apply Nat.ltb_lt. Qed.

(** ** Properties *)
(** In a task the buffer of a name is made once: the first use stores the given bytes, every
    later one gets what is stored, and the buffers of other names stay as they are, whatever
    was put under names that are told apart. *)
Theorem task_buffer_once (K : cstring -> Prop) (N : Z) (t : specs) (g : gmap cstring (list Z)) (name : cstring) (b1 b2 : list Z) :
  separate K -> (forall k, K k -> (length k < KEYNAME_SIZE)%nat) -> holds K N t g -> K name -> N + 1 < 2 ^ 20 ->
  exists t1 t2, task_buffer name b1 t = Some (default b1 (g !! name), t1) /\
    task_buffer name b2 t1 = Some (default b1 (g !! name), t2) /\
    holds K (N + 2) t2 (<[name := default b1 (g !! name)]> g).
Proof.
  intros HK HL Ht Hk HN. destruct (task_buffer_runs K HK HL N t g name b1 Ht Hk ltac:(lia)) as (t1 & E1 & Ht1).
  destruct (task_buffer_runs K HK HL (N + 1) t1 _ name b2 Ht1 Hk HN) as (t2 & E2 & Ht2).
  rewrite lookup_insert_eq in E2, Ht2. cbn [default from_option id] in E2, Ht2. rewrite insert_insert_eq in Ht2.
  exists t1, t2. split; [done|]. split; [done|]. by replace (N + 2) with (N + 1 + 1) by lia.
Qed.

Lemma task_buffer_once_witness :
  exists t1 t2, log_buffer [1; 2] (Some None) = Some ([1; 2], t1) /\ log_buffer [7] t1 = Some ([1; 2], t2) /\
    holds own_key 2 t2 {[CO_LOG_KEY := [1; 2]]}.
Proof.
  destruct (task_buffer_once own_key 0 (Some None) ∅ CO_LOG_KEY [1; 2] [7]) as (t1 & t2 & E1 & E2 & Ht).
  - apply own_separate.
  - apply own_short.
  - apply holds_new.
  - by right.
  - lia.
  - exists t1, t2. split; [exact E1|]. split; [|exact Ht].
    assert (exists m, t1 = Some m) as (m & ->) by (revert E1; vm_compute; intros [= <-]; eauto). exact E2.
Defined.

(** [co_gethostbyname] comes back in every task, with its buffer stored, after one question;
    on a plain thread it follows a null pointer before it asks anything. *)
Theorem host_lookup_runs (S : Type) (resolve : S -> Z * Z * S) (stack : list Z) (N : Z) (t : specs)
    (g : gmap cstring (list Z)) (s : S) :
  holds own_key N t g -> N < 2 ^ 20 ->
  co_gethostbyname_in resolve stack None s = None /\
  exists t' b, holds own_key (N + 1) t' (<[CO_HOST_NAME_KEY := b]> g) /\
    co_gethostbyname_in resolve stack t s =
      let '(r, herrno, s') := resolve s in
      Some (bool_decide (r = 0) && bool_decide (herrno ∉ [HOST_NOT_FOUND; NO_DATA; NO_RECOVERY]), t', s').
Proof.
  intros Ht HN. split; [done|]. unfold co_gethostbyname_in, host_buffer.
  destruct (task_buffer_runs own_key own_separate own_short N t g CO_HOST_NAME_KEY
    (take HERRNO_OFFSET stack ++ [0; 0; 0; 0] ++ drop (HERRNO_OFFSET + 4) stack) Ht) as (t' & -> & Ht'); [by left|done|].
  exists t'. eexists. split; [exact Ht'|]. cbn [mbind option_bind]. rewrite asks_once. by destruct (resolve s) as [[r h] s'].
Qed.

Lemma host_lookup_runs_witness :
  exists t' b, holds own_key 1 t' (<[CO_HOST_NAME_KEY := b]> ∅) /\
    co_gethostbyname_in (fun s => (0, TRY_AGAIN, S s)) [] (Some None) 0%nat = Some (true, t', 1%nat).
Proof.
  destruct (host_lookup_runs nat (fun s => (0, TRY_AGAIN, S s)) [] 0 (Some None) ∅ 0%nat) as (_ & t' & b & Ht & E).
  - apply holds_new.
  - lia.
  - exists t', b. split; [exact Ht|exact E].
Defined.
