(* ===== verification/LogOut.v ===== *)
(** * Log.h, types.h and the output side of log.c and Logger.cpp

    Where messages go: the descriptor that a logger opens, the standard output and error that
    [DevelopLog] redirects, and the write behind every line of Log.v. The file system is the
    class of File.v; [FdLaws] states what POSIX says of the numbers of descriptors. *)
From stdpp Require Import gmap strings.
From S2P Require Import Prelude Bytes HashMap File TaskLocal Log.
Local Open Scope Z_scope.

Definition LOG_FD_STDOUT : Z := 1.
Definition LOG_FD_STDERR : Z := 2.

Section output.
Context {F : Type} `{!FileSystem F}.
(** [strerror(errno)] behind a failed [write]. *)
Context (cause : F -> list Z).

(** [log_printf] to the end: the buffer, the message of Log.v, the write, and the complaint on
    the standard error when that fails. *)
Definition log_printf_to (fd : Z) (w : who) (level : log_level) (time fmt : list Z) (args : list arg)
    (_log_buf : list Z) (t : specs) (s : F) : option (Z * specs * F) :=
  '(_, t) ← log_buffer _log_buf t;
  text ← log_printf w level time fmt args;
  let '(n, s) := fs_write fd text s in
  let n := i32 n in
  if bool_decide (n <= 0) then
    e ← format (Bytes.text "[log_printf] error: write fd[%d] return: %d, cause: %s" ++ [10]) [AInt fd; AInt n; AStr (cause s)];
    let '(_, s) := fs_write LOG_FD_STDERR e s in Some (-1, t, s)
  else Some (0, t, s).

(** The macros add the place: function, file and line. *)
Definition LOG_OUTPUT (fd : Z) (level : log_level) (w : who) (time fmt : list Z) (args : list arg)
    (func file : list Z) (line : Z) : list Z -> specs -> F -> option (Z * specs * F) :=
  log_printf_to fd w level time (fmt ++ text " <%s>@<%s:%d>" ++ [10]) (args ++ [AStr func; AStr file; AInt line]).
Definition INF_LOG : who -> list Z -> list Z -> list arg -> list Z -> list Z -> Z -> list Z -> specs -> F ->
    option (Z * specs * F) := LOG_OUTPUT LOG_FD_STDOUT LOG_INFO.
Definition ERR_LOG : who -> list Z -> list Z -> list arg -> list Z -> list Z -> Z -> list Z -> specs -> F ->
    option (Z * specs * F) := LOG_OUTPUT LOG_FD_STDERR LOG_ERROR.

(** [DevelopLog]: [on] is [kSwitchOn], at first false. The result of [open] is not looked at. *)
Definition log_flags : Z := Z.lor O_WRONLY (Z.lor O_CREAT O_APPEND).
Definition log_target (on : bool) (file : list Z) : list Z := if on then file else text "/dev/null".
Definition setFile (fd : Z) (on : bool) (file : list Z) (s : F) : F :=
  let '(_, s) := fs_close fd s in let '(_, s) := fs_open (log_target on file) log_flags s in s.
Definition setDebugFile : bool -> list Z -> F -> F := setFile LOG_FD_STDOUT.
Definition setErrorFile : bool -> list Z -> F -> F := setFile LOG_FD_STDERR.
Definition switchOn (_ : bool) : bool := true.

(** [Logger(logfile)] and its destructor, without the flush. *)
Definition Logger_open (logfile : list Z) (s : F) : Logger * F :=
  let '(fd, s) := fs_open logfile log_flags s in (Logger_new fd, s).
Definition Logger_destroy (g : Logger) (s : F) : F := (fs_close (fd g) s).2.
End output.

(** ** What POSIX says *)
(** [opened]: the file of each open descriptor; [data]: what was written to a file. A new
    descriptor is the lowest one that is free. *)
Class FdLaws (F : Type) `{FileSystem F} (opened : F -> gmap Z (list Z)) (data : F -> list Z -> list Z) := {
  close_law fd s : opened (fs_close fd s).2 = delete fd (opened s) /\ data (fs_close fd s).2 = data s;
  lowest_law name flags s : let '(fd, s') := fs_open name flags s in
    data s' = data s /\
    ((fd = -1 /\ opened s' = opened s) \/
     (0 <= fd /\ opened s !! fd = None /\ (forall j, 0 <= j < fd -> is_Some (opened s !! j)) /\
      opened s' = <[fd := name]> (opened s)));
  append_law fd name bs s : opened s !! fd = Some name -> vsize bs <= INT_MAX ->
    let '(n, s') := fs_write fd bs s in
    n = vsize bs /\ opened s' = opened s /\ data s' name = data s name ++ bs /\
    forall other, other <> name -> data s' other = data s other
}.

Section redirect.
Context {F : Type} `{HF : FdLaws F opened data} (cause : F -> list Z).

Lemma setFile_runs fd on file (s : F) :
  0 <= fd -> (forall j, 0 <= j < fd -> is_Some (opened s !! j)) ->
  data (setFile fd on file s) = data s /\
  (opened (setFile fd on file s) = <[fd := log_target on file]> (opened s) \/
   opened (setFile fd on file s) = delete fd (opened s)).
Proof.
  intros H0 Hlow. unfold setFile. destruct (close_law fd s) as [Ho Hd]. destruct (fs_close fd s) as [r s1].
  cbn [snd] in Ho, Hd. pose proof (lowest_law (log_target on file) log_flags s1) as Hl.
  destruct (fs_open _ _ s1) as [k s2]. destruct Hl as [Hd2 Hl]. split; [congruence|].
  destruct Hl as [[_ Hl]|(Hk & Hfree & Hfull & Hl)]; [right; congruence|left]. rewrite Ho in *.
  assert (k = fd) as ->.
  { destruct (Z.lt_trichotomy k fd) as [Hlt|[|Hgt]]; [|done|].
    - destruct (Hlow k) as [x Hx]; [lia|]. by rewrite lookup_delete_ne, Hx in Hfree by lia.
    - destruct (Hfull fd) as [x Hx]; [lia|]. by rewrite lookup_delete_eq in Hx. }
  by rewrite Hl, insert_delete_eq.
Qed.

Lemma log_printf_to_runs fd name w level time fmt args m lb t b t' (s : F) :
  opened s !! fd = Some name -> log_buffer lb t = Some (b, t') -> log_printf w level time fmt args = Some m ->
  m <> [] -> vsize m <= INT_MAX ->
  exists s', log_printf_to cause fd w level time fmt args lb t s = Some (0, t', s') /\ opened s' = opened s /\
    data s' name = data s name ++ m /\ forall other, other <> name -> data s' other = data s other.
Proof.
  intros Ho Hb Hm Hne Hmax. unfold log_printf_to. rewrite Hb, Hm. cbn [mbind option_bind].
  pose proof (append_law fd name m s Ho Hmax) as Hw. destruct (fs_write fd m s) as [n s'].
  destruct Hw as (-> & Ho' & Hd). assert (0 < vsize m) by (destruct m; [done|unfold vsize; cbn; lia]).
  unfold INT_MAX in Hmax. rewrite i32_small, bool_decide_eq_false_2 by lia. by exists s'.
Qed.
End redirect.

(** ** Properties *)
(** With the standard input open, [setDebugFile] makes descriptor 1 the file (or /dev/null
    before [switchOn]) or, when the file cannot be opened, leaves it closed; nothing else
    changes. With it in place each line of [INF_LOG] goes to that file, behind what is there,
    and to no other. *)
Theorem debug_file_redirects (F : Type) `{HF : FdLaws F opened data} (cause : F -> list Z) (on : bool) (file : list Z) (s : F)
    (w : who) (time fmt : list Z) (args : list arg) (func src m : list Z) (line : Z) (lb b : list Z) (t t' : specs) :
  is_Some (opened s !! 0) -> log_buffer lb t = Some (b, t') ->
  log_printf w LOG_INFO time (fmt ++ text " <%s>@<%s:%d>" ++ [10]) (args ++ [AStr func; AStr src; AInt line]) = Some m ->
  m <> [] -> vsize m <= INT_MAX ->
  let s1 := setDebugFile on file s in
  data s1 = data s /\
  (opened s1 = delete LOG_FD_STDOUT (opened s) \/
   (opened s1 = <[LOG_FD_STDOUT := log_target on file]> (opened s) /\
    exists s2, INF_LOG cause w time fmt args func src line lb t s1 = Some (0, t', s2) /\ opened s2 = opened s1 /\
      data s2 (log_target on file) = data s (log_target on file) ++ m /\
      forall other, other <> log_target on file -> data s2 other = data s other)).
Proof.
  intros H0 Hb Hm Hne Hmax s1. destruct (setFile_runs LOG_FD_STDOUT on file s ltac:(done)) as [Hd Ho].
  { intros j Hj. assert (j = 0) as -> by (unfold LOG_FD_STDOUT in Hj; lia). done. }
  fold (setDebugFile on file s) in Hd, Ho. fold s1 in Hd, Ho. split; [done|]. destruct Ho as [Ho|Ho]; [right|by left].
  split; [done|]. rewrite <- Hd. unfold INF_LOG, LOG_OUTPUT.
  apply (log_printf_to_runs cause LOG_FD_STDOUT (log_target on file) w LOG_INFO time _ _ m lb t b t' s1); try done.
  by rewrite Ho, lookup_insert_eq.
Qed.

(** *** Descriptors in numbers *)
Record fdfs := mk_fdfs { fd_opened : gmap Z (list Z); fd_data : gmap (list Z) (list Z) }.

Fixpoint first_free (fuel : nat) (i : Z) (m : gmap Z (list Z)) : option Z :=
  match fuel with
  | O => None
  | S fuel => match m !! i with None => Some i | Some _ => first_free fuel (i + 1) m end
  end.

Lemma first_free_spec fuel : forall i m fd, first_free fuel i m = Some fd ->
  i <= fd /\ m !! fd = None /\ forall j, i <= j < fd -> is_Some (m !! j).
Proof.
  induction fuel as [|fuel IH]; intros i m fd; cbn; [done|]. destruct (m !! i) as [x|] eqn:E.
  - intros (? & ? & Hall)%IH. split_and!; [lia|done|]. intros j Hj. destruct (decide (j = i)) as [->|]; [eauto|apply Hall; lia].
  - intros [= <-]. split_and!; [lia|done|lia].
Qed.

#[export] Instance fdfs_system : FileSystem fdfs := {|
  fs_access := fun _ _ _ => true;
  fs_open := fun name _ s => match first_free 64 0 (fd_opened s) with
    | Some fd => (fd, mk_fdfs (<[fd := name]> (fd_opened s)) (fd_data s)) | None => (-1, s) end;
  fs_lseek := fun _ _ _ s => (0, s);
  fs_read := fun _ _ s => (0, [], s);
  fs_write := fun fd bs s => match fd_opened s !! fd with
    | Some name => (vsize bs, mk_fdfs (fd_opened s) (<[name := default [] (fd_data s !! name) ++ bs]> (fd_data s)))
    | None => (-1, s) end;
  fs_flock := fun _ _ s => (0, s);
  fs_unlink := fun _ s => (0, s);
  fs_close := fun fd s => (0, mk_fdfs (delete fd (fd_opened s)) (fd_data s))
|}.

Definition fd_contents (s : fdfs) (name : list Z) : list Z := default [] (fd_data s !! name).

#[export] Instance fdfs_laws : FdLaws fdfs fd_opened fd_contents.
Proof.
  constructor.
  - done.
  - intros name flags s. cbn [fs_open fdfs_system]. destruct (first_free _ _ _) as [fd|] eqn:E; [|by split; [|left]].
    apply first_free_spec in E as (? & ? & ?). split; [done|right]. by split_and!.
  - intros fd name bs s Ho _. cbn [fs_write fdfs_system]. rewrite Ho. split_and!; [done|done| |].
    + unfold fd_contents. cbn. by rewrite lookup_insert_eq.
    + intros other Hne. unfold fd_contents. cbn. by rewrite lookup_insert_ne by done.
Qed.

Definition demo_fds : fdfs := mk_fdfs (list_to_map [(0, text "tty"); (1, text "tty"); (2, text "tty")]) ∅.

Lemma debug_file_redirects_witness :
  exists s2, INF_LOG (fun _ => []) demo_who (text "12:00:00.5") (text "up") [] (text "main") (text "a.cpp") 7 [] None
      (setDebugFile (switchOn false) (text "d.log") demo_fds) = Some (0, None, s2) /\
    fd_contents s2 (text "d.log") = text "[I]>12:00:00.5<[100-101-7] up <main>@<a.cpp:7>" ++ [10] /\
    fd_contents s2 (text "tty") = [].
Proof.
  destruct (debug_file_redirects fdfs (fun _ => []) true (text "d.log") demo_fds demo_who (text "12:00:00.5") (text "up") []
    (text "main") (text "a.cpp") (text "[I]>12:00:00.5<[100-101-7] up <main>@<a.cpp:7>" ++ [10]) 7 [] [] None None)
    as (_ & [E|(_ & s2 & E & _ & Ed & Eo)]).
  - by eexists.
  - done.
  - by vm_compute.
  - done.
  - by vm_compute.
  - exfalso. apply (f_equal (lookup 1)) in E. vm_compute in E. discriminate.
  - exists s2. split; [exact E|]. split; [exact Ed|]. apply Eo. intros [=].
Defined.

(** Without a standard input the file becomes descriptor 0, and the next line fails. *)
Example redirect_misses :
  let s := setDebugFile true (text "d.log") (mk_fdfs {[1 := text "tty"]} ∅) in
  fd_opened s = {[0 := text "d.log"]} /\
  (fun x => x.1.1) <$> log_printf_to (fun _ => []) LOG_FD_STDOUT demo_who LOG_INFO (text "12:00:00.5") (text "up") [] [] None s = Some (-1).
Proof. split; by vm_compute. Qed.
