(* ===== verification/Pem.v ===== *)
(** * net/ssl/SSLHelper.h and LibSSL.h: PEM files and the locks of OpenSSL

    Reading certificates and keys from files and writing a certificate into a buffer, over the
    calls on BIOs ([PemLib]) and the objects of Certs.v; and the array of mutexes that OpenSSL's
    callback locks, each the [ThreadMutex] of ThreadMutex.v. *)
From S2P Require Import Prelude ThreadMutex Tls Certs.
Local Open Scope Z_scope.

(** A BIO may be null; [BIO_read] hands over the bytes that it stored. *)
Class PemLib (L : Type) := {
  BIO_new_file : L -> option nat * L;
  BIO_new_mem : L -> option nat * L;
  BIO_read_filename : option nat -> list Z -> L -> Z * L;
  PEM_read_bio_X509 : option nat -> L -> option nat * L;
  PEM_read_bio_PrivateKey : option nat -> list Z -> L -> option nat * L;
  PEM_write_bio_X509 : nat -> nat -> L -> Z * L;
  BIO_read : nat -> Z -> L -> Z * list Z * L
}.

Section pem.
Context {L : Type} `{!X509Lib L, !PemLib L}.
Abbreviation T := (O L).

(** Freeing a null BIO does nothing. *)
Definition BIO_free (b : option nat) : T unit := match b with Some b => cfree b | None => mret tt end.

Definition loadX509FromFile (filename : list Z) : T (option nat) :=
  bio ← ccall BIO_new_file;
  r ← ccall (BIO_read_filename bio filename);
  if bool_decide (r <= 0) then BIO_free bio;; mret None
  else x ← ccall (PEM_read_bio_X509 bio); BIO_free bio;; mret x.

Definition loadPrivateKeyFromFile (keyfile passwd : list Z) : T (option nat) :=
  bio ← ccall BIO_new_file;
  r ← ccall (BIO_read_filename bio keyfile);
  if bool_decide (r <= 0) then BIO_free bio;; mret None
  else
    pkey ← ccall (PEM_read_bio_PrivateKey bio passwd);
    match pkey with
    | None => BIO_free bio;; mret None
    | Some _ => BIO_free bio;; mret pkey
    end.

(** The result and the bytes stored in [buf]; no zero is put behind them. *)
Definition storeX509ToPEMStr (cert : nat) (len : Z) : T (Z * list Z) :=
  bio ← ccall BIO_new_mem;
  match bio with
  | None => mret (-1, [])
  | Some b =>
      w ← ccall (PEM_write_bio_X509 b cert);
      if bool_decide (w = 0) then cfree b;; mret (-1, [])
      else r ← ccall (BIO_read b len); cfree b;; mret r
  end.
End pem.

(** ** What is allocated, and what a memory BIO gives back *)
Section laws.
Context {L : Type} `{!X509Lib L, !PemLib L} (live : L -> gset nat).

Class PemLaws := {
  p_file : allocates live BIO_new_file;
  p_mem : allocates live BIO_new_mem;
  p_name b f l : live (BIO_read_filename b f l).2 = live l;
  p_x509 b : allocates live (PEM_read_bio_X509 b);
  p_key b w : allocates live (PEM_read_bio_PrivateKey b w);
  p_write b c l : live (PEM_write_bio_X509 b c l).2 = live l;
  p_read b n l : live (BIO_read b n l).2 = live l
}.
Context `{HX : !X509Laws live, HP : !PemLaws}.

(** A new object and nothing else, or nothing. *)
Definition one_more (X : gset nat) (r : option nat) (Y : gset nat) : Prop :=
  match r with Some p => (p ∉ X) /\ Y = {[p]} ∪ X | None => Y = X end.

(** What a BIO is used for in between leaves one object more, then the BIO goes. *)
Lemma t_with_bio X (b : option nat) (g : L -> option nat * L) Z :
  allocates live g -> (match b with Some p => (p ∉ X) /\ Z = {[p]} ∪ X | None => Z = X end) ->
  triple live Z (x ← ccall g; BIO_free b;; mret x) (one_more X).
Proof.
  intros Hg Hb. apply t_alloc; [done| |].
  - destruct b as [b|]; cbn [BIO_free].
    + destruct Hb as [Hb ->]. apply (t_free live), t_ret. unfold one_more. set_solver.
    + subst. by apply t_ret.
  - intros p Hp. destruct b as [b|]; cbn [BIO_free].
    + destruct Hb as [Hb ->]. apply (t_free live), t_ret. unfold one_more. rewrite not_elem_of_union, not_elem_of_singleton in Hp. set_solver.
    + subst. by apply t_ret.
Qed.

Lemma t_load X (g : option nat -> L -> option nat * L) (filename : list Z) :
  (forall b, allocates live (g b)) ->
  triple live X (bio ← ccall BIO_new_file; r ← ccall (BIO_read_filename bio filename);
    if bool_decide (r <= 0) then BIO_free bio;; mret None else x ← ccall (g bio); BIO_free bio;; mret x) (one_more X).
Proof.
  intros Hg. apply t_alloc; [apply p_file| |].
  - apply t_call; [apply p_name|]. intros r. case_bool_decide; [by apply t_ret|]. by apply (t_with_bio X None).
  - intros p Hp. apply t_call; [apply p_name|]. intros r. case_bool_decide.
    + apply (t_free live), t_ret. unfold one_more. set_solver.
    + by apply (t_with_bio X (Some p)).
Qed.

Lemma t_store X cert len : triple live X (storeX509ToPEMStr cert len) (fun _ Y => Y = X).
Proof.
  unfold storeX509ToPEMStr. apply t_alloc; [apply p_mem|by apply t_ret|]. intros b Hb.
  apply t_call; [apply p_write|]. intros w. case_bool_decide; [apply (t_free live), t_ret; set_solver|].
  apply t_call; [apply p_read|]. intros r. apply (t_free live), t_ret. set_solver.
Qed.

(** Loading a key is loading with another reader. *)
Lemma load_key_same keyfile passwd l :
  loadPrivateKeyFromFile keyfile passwd l =
  (bio ← ccall BIO_new_file; r ← ccall (BIO_read_filename bio keyfile);
    if bool_decide (r <= 0) then BIO_free bio;; mret None
    else x ← ccall (fun l => PEM_read_bio_PrivateKey bio passwd l); BIO_free bio;; mret x) l.
Proof.
  unfold loadPrivateKeyFromFile, mbind, O_bind, ccall. destruct (BIO_new_file l) as [b l1].
  destruct (BIO_read_filename b keyfile l1) as [r l2]. case_bool_decide; [done|].
  by destruct (PEM_read_bio_PrivateKey b passwd l2) as [[p|] l3].
Qed.

(** Whichever way it ends, loading a certificate or a key gives a new object and leaves nothing
    else behind, or gives null and leaves nothing; storing leaves nothing. *)
Theorem pem_memory (filename keyfile passwd : list Z) (cert : nat) (len : Z) (l : L) :
  (forall x l', loadX509FromFile filename l = Some (x, l') -> one_more (live l) x (live l')) /\
  (forall x l', loadPrivateKeyFromFile keyfile passwd l = Some (x, l') -> one_more (live l) x (live l')) /\
  (forall r l', storeX509ToPEMStr cert len l = Some (r, l') -> live l' = live l).
Proof.
  split_and!.
  - intros x l' E. by eapply (t_load (live l) PEM_read_bio_X509), E; [apply p_x509|].
  - intros x l' E. rewrite load_key_same in E.
    by eapply (t_load (live l) (fun b => PEM_read_bio_PrivateKey b passwd)), E; [intros b; apply p_key|].
  - intros r l' E. by eapply (t_store (live l)), E.
Qed.
End laws.

(** ** The locks *)
Definition CRYPTO_LOCK : Z := 1.

(** [g_MutexArray]; [inited] is [__g_openssl_inited], which nothing sets. *)
Definition OpenSSLThreadSafeInit (num_locks : nat) (inited : bool) (arr : list thread_mutex) : bool * list thread_mutex :=
  if inited then (true, arr) else (true, arr ++ replicate num_locks ThreadMutex_new).

(** The callback on thread [t]: the call begins; [None] when there is no such mutex. *)
Definition __lock_callback (mode : Z) (type : nat) (t : Z) (arr : list thread_mutex) : option (list thread_mutex) :=
  m ← arr !! type;
  m ← mstep (if bool_decide (Z.land mode CRYPTO_LOCK <> 0) then CallLock t else CallUnlock t) m;
  Some (<[type := m]> arr).

(** A callback, or a thread goes on in one. *)
Inductive lact := Callback (mode : Z) (type : nat) (t : Z) | Proceed (type : nat) (t : Z).
Definition lstep (a : lact) (arr : list thread_mutex) : option (list thread_mutex) :=
  match a with
  | Callback mode type t => __lock_callback mode type t arr
  | Proceed type t => m ← arr !! type; m ← mstep (Go t) m; Some (<[type := m]> arr)
  end.
Fixpoint lsteps (acts : list lact) (arr : list thread_mutex) : option (list thread_mutex) :=
  match acts with [] => Some arr | a :: acts => arr ← lstep a arr; lsteps acts arr end.

Lemma lstep_inv a arr arr' : Forall minv arr -> lstep a arr = Some arr' -> Forall minv arr' /\ length arr' = length arr.
Proof.
  intros Hf E. assert (exists type m m' b, arr !! type = Some m /\ mstep b m = Some m' /\ arr' = <[type := m']> arr)
    as (type & m & m' & b & Hm & Hs & ->).
  { destruct a as [mode type t|type t]; cbn [lstep] in E; [unfold __lock_callback in E|];
      (destruct (arr !! type) as [m|] eqn:Em; [|done]; cbn [mbind option_bind] in E);
      (destruct (mstep _ m) as [m'|] eqn:Es; [|done]); injection E as <-; by eexists _, _, _, _. }
  rewrite length_insert. split; [|done]. apply Forall_insert; [done|]. eapply mstep_inv; [|exact Hs].
  by eapply Forall_lookup_1 in Hm.
Qed.

Lemma lsteps_inv acts : forall arr arr', Forall minv arr -> lsteps acts arr = Some arr' ->
  Forall minv arr' /\ length arr' = length arr.
Proof.
  induction acts as [|a acts IH]; intros arr arr' Hf E; cbn in E; [by injection E as <-|].
  destruct (lstep a arr) as [arr1|] eqn:E1; [|done]. destruct (lstep_inv a arr arr1 Hf E1) as [Hf1 Hl1].
  destruct (IH arr1 arr' Hf1 E) as [? ?]. split; [done|congruence].
Qed.

(** After the start of the library no two threads are between lock and unlock of the same type,
    in any interleaving of callbacks, and a callback for one of the types finds its mutex. *)
Theorem openssl_locks_exclude (num_locks : nat) (acts : list lact) (arr : list thread_mutex) :
  lsteps acts (OpenSSLThreadSafeInit num_locks false []).2 = Some arr ->
  forall type, (type < num_locks)%nat -> exists m, arr !! type = Some m /\
    forall t u, mpc_of t m = Holding -> mpc_of u m = Holding -> t = u.
Proof.
  cbn [OpenSSLThreadSafeInit snd app]. intros E type Ht.
  destruct (lsteps_inv acts _ _ (Forall_replicate _ _ _ ThreadMutex_new_inv) E) as [Hf Hl].
  rewrite length_replicate in Hl. destruct (lookup_lt_is_Some_2 arr type ltac:(lia)) as [m Hm].
  exists m. split; [done|]. intros t u Hh1 Hh2. eapply Forall_lookup_1 in Hm; [|exact Hf].
  pose proof (proj2 (minv_owner m Hm t) ltac:(by rewrite Hh1)). pose proof (proj2 (minv_owner m Hm u) ltac:(by rewrite Hh2)). congruence.
Qed.

Lemma openssl_locks_exclude_witness :
  exists arr m, lsteps [Callback 1 1 5; Proceed 1 5; Callback 1 1 6; Proceed 1 5; Callback 1 0 6; Proceed 0 6]
      (OpenSSLThreadSafeInit 2 false []).2 = Some arr /\ arr !! 1%nat = Some m /\ mpc_of 5 m = Holding /\ mpc_of 6 m = Locking.
Proof.
  destruct (lsteps [Callback 1 1 5; Proceed 1 5; Callback 1 1 6; Proceed 1 5; Callback 1 0 6; Proceed 0 6]
      (OpenSSLThreadSafeInit 2 false []).2) as [arr|] eqn:E; [|vm_compute in E; discriminate].
  destruct (openssl_locks_exclude 2 _ arr E 1%nat ltac:(lia)) as (m & Hm & _). exists arr, m.
  split; [done|]. split; [done|]. vm_compute in E. injection E as <-. injection Hm as <-. done.
Defined.

(** Every further start puts more mutexes at the end. *)
Example init_again : length (OpenSSLThreadSafeInit 2 false (OpenSSLThreadSafeInit 2 false []).2).2 = 4%nat.
Proof. done. Qed.

(** ** A library to run the code on *)
(** Files hold what can be read of them; the memory BIO gives back [pem] of the certificate. *)
#[export] Instance toy_pem : PemLib toy_x := {|
  BIO_new_file := toy_alloc_opt;
  BIO_new_mem := toy_alloc_opt;
  BIO_read_filename := fun b f l => (if b is Some _ then Z.of_nat (length f) else 0, l);
  PEM_read_bio_X509 := fun _ => toy_alloc_opt;
  PEM_read_bio_PrivateKey := fun _ p l => if bool_decide (p = []) then (None, l) else toy_alloc_opt l;
  PEM_write_bio_X509 := fun _ _ l => (1, l);
  BIO_read := fun _ n l => let bs := take (Z.to_nat n) [45; 66; 45] in (Z.of_nat (length bs), bs, l)
|}.

#[export] Instance toy_pem_laws : PemLaws tx_live.
Proof.
  constructor; intros; try done; intros l; cbn; try (split; [apply is_fresh|done]).
  case_bool_decide; cbn; [done|]. split; [apply is_fresh|done].
Qed.

Example pem_runs :
  (fun x => tx_live x.2) <$> loadX509FromFile [97] demo_x = Some ({[11%nat]} ∪ tx_live demo_x) /\
  (fun x => x.1) <$> loadPrivateKeyFromFile [97] [] demo_x = Some None /\
  (fun x => x.1) <$> storeX509ToPEMStr 7 2 demo_x = Some (2, [45; 66]).
Proof. split_and!; by vm_compute. Qed.
